(* ===== verification/_CoqProject ===== *)
-Q . S2P
Prelude.v
Frame.v
Text.v
Lines.v
Reliable.v
Stream.v
RateLimit.v
Connection.v
Daemon.v
DaemonProofs.v
Identity.v
Address.v
Router.v
Relay.v
RelayServer.v
LanRouter.v
VpnRouter.v
Session.v
Heartbeat.v
HeartbeatThreads.v
Dht.v
Json.v
Disk.v
JsonFile.v
Election.v
ElectionProofs.v
ElectionThreads.v
Chunk.v
Diff.v
Incremental.v
Calendar.v
Version.v
Metadata.v
Gc.v
Float.v
Multipath.v
Multihop.v
Selfheal.v
Download.v
Center.v
CenterThreads.v
Encrypt.v
Command.v
CommandProofs.v
Handshake.v
HolePunch.v
Bootstrap.v
Stats.v
Ctl.v
CtlProofs.v
NativeFs.v
NativeSystem.v
NativeAdmin.v
NativeDocker.v
Native.v
NativeProofs.v
Shell.v
ShellProofs.v
Tui.v
TuiProofs.v
Cli.v
CliProofs.v
StartUp.v
ShellExec.v
Video.v
DaemonParts.v
TcpTasks.v
TcpTasksProofs.v
TcpServed.v
TcpStall.v
TcpRefine.v
