(* ===== verification/Prelude.v ===== *)
(** * The lan-link development

    lan-link controls machines of a local network and carries data between
    nodes.  Its Rust workspace (src/crates/) has six crates.  [protocol] defines the packets.
    [daemon] (lan-linkd) runs commands and takes files; [ctl] (lan-linkctl) is its
    client.  [shell] runs processes for the daemon, [video] has stubs.  [vpn] is the
    larger half: naming, routing, sessions and relaying between nodes, an
    elected registration center, and a block store with versions.  This library
    is a shallow embedding of them: each operation is a function from the state it
    reads to its result and the state after it, and the theorems are about these
    functions and about the transition systems they make up.

    ** The files and the code they model

    Foundations.
    - Prelude: results, machine integers, bytes and arrays, addresses, sorting.
    - Text, Lines, Json, JsonFile, Disk, Float, Calendar: the string operations,
      serde_json, the JSON stores, std::fs, IEEE 754 and the civil calendar.

    Protocol and daemon (src/crates/protocol/src, src/crates/daemon/src, src/crates/ctl/src).
    - Frame: frame.rs and the nonce of crypto.rs.  Stream: stream.rs and the cipher of
      crypto.rs.  Reliable: reliable.rs, the ARQ sender and receiver.
    - RateLimit, Connection, Daemon: main.rs and connection.rs of the daemon.  [Daemon.dstep]
      interleaves datagrams, TCP frames, ticks and the events of running tasks;
      DaemonProofs has its invariant and its properties.  StartUp: how it comes to its
      first state, with the key file.
    - DaemonParts: the handlers of the same main.rs that wait for a native command, or answer after they
      have started a task, cut there; [DaemonParts.pstep] is the daemon in these pieces, which make
      the handlers of Daemon when nothing comes in between.
    - TcpTasks: the readers of the TCP clients, the tasks of processes and the UDP loop, with the
      locks they wait for, a step for each stretch between two waits.  TcpTasksProofs has the
      invariant under every interleaving, TcpRefine simulates the tasks by the steps of DaemonParts,
      TcpServed ties the steps of a client that is not disturbed to its handler, TcpStall shows what
      the locks, and the waiting for native commands, cost.
    - NativeFs, NativeSystem, NativeAdmin, NativeDocker, Native (native_cmd/): the commands that the daemon runs
      itself, over the files and the kernel's answers of one [NativeFs.Os];
      [Native.run_native_cmd] is the dispatch.  NativeProofs has their theorems.
    - Shell (src/crates/shell/src/lib.rs): the threads of a [StreamingExec] and the daemon's task
      that drives it; ShellProofs refines them to the task events of Daemon.  ShellExec: [exec] and
      [exec_with_input] of the same file.  Video (src/crates/video/src): the traits and their stubs.
    - Ctl: main.rs of the client, over a class of sockets and clock ([Ctl.Network]).
      CtlProofs instantiates the class with a network whose other end is
      [Daemon.handle_packet_inner], so the two programs run against each other.
    - Cli: the subcommands of the client and what they print, its addresses and its standard
      input; CliProofs composes them with CtlProofs and Native, from the command line to the
      daemon's files and back.  Tui: tui.rs, the terminal interface; TuiProofs.

    Network of nodes (src/crates/vpn/src, and vpn/ and registry/ below it).
    - Identity, Address, Router: identity.rs, address.rs, router.rs; the traits
      [AddressResolver] and [Router] are the classes [Address.Resolver] and [Router.Router].
    - Relay, LanRouter, VpnRouter: relay.rs, lan_router.rs, vpn_router.rs.  LanRouter is
      an instance of [Router]; VpnRouter is written against any [Router] and [Resolver].
      RelayServer: the TCP server of relay.rs read by read, with its thread for each connection.
    - Session, Handshake, Encrypt: session.rs, handshake.rs, storage/encrypt.rs.
    - Heartbeat, Dht, Multihop, Multipath, Selfheal: the files of these names.  Multihop
      discovers its routes in the DHT; Selfheal calls Multihop.  HeartbeatThreads: the threads of
      heartbeat.rs, of which there can be several.
    - HolePunch, Bootstrap, Stats: hole_punch.rs, bootstrap.rs, stats.rs.
    - Election, Center: registry/election.rs and registry/center.rs; ElectionProofs makes
      a cluster of managers over a network that loses, repeats and reorders.  CenterThreads:
      calls of the center that overlap, lock by lock.  ElectionThreads: vote requests that
      overlap, access by access.

    Block store (src/crates/vpn/src/storage) and command line.
    - Chunk, Diff, Incremental, Version, Metadata, Gc, Download: the files of these names.
      Incremental and Download use Chunk and Diff; Gc reads Version and Metadata.
    - Command: vpn/command.rs, which calls all of them over a VPN node (the class
      [Command.VpnNode], which VpnRouter implements in CommandProofs).

    ** Conventions

    A record has the fields of the struct, an inductive type the variants of the
    enum.  A method is a function of the same name in a module of the type's name;
    it takes and returns the state it changes.  Unsigned integers are [Z], in the range
    of their width ([fits]); arithmetic is that of the release profile: it wraps, as
    written out by [wrap].  A [HashMap] is a [gmap], a [BTreeMap] one that is listed in
    key order; where the order of a [HashMap] shows, it is that of [map_to_list].
    Lengths are not bounded by the memory; where a sum of one with a size that a caller chose could
    wrap ([Chunk.num_chunks], [Multipath]'s fragments) the wrap is written out.
    Clocks, random values and the answers of the operating system are arguments.
    What a component sends, and the callbacks it calls, are appended to a log in
    its state.  An error is [Err] or [None] as in the code; where a function can panic,
    the panic is [None] and its comment says so; in Version, Gc and Command [None] is a call that never
    returns, because it waits for a lock that its own thread holds.  Threads are the turns they take, and
    a call is one step, except in the files with Tasks or Threads in their name, in RelayServer and in
    Shell, which split a turn or a call where another can come in.

    Third-party crates are classes with the calls the code makes of them, and
    a second class with what they document, which a theorem names when it needs it:
    [BufCrate] (bytes), [AeadCrate] (chacha20poly1305), [AesGcmCrate] (aes-gcm), [ControlCodec]
    (bincode), [SerdeJson], [JsonText] and the like (serde_json), [HexCrate] (hex), [Sha256Crate] (sha2),
    [Ed25519Crate] (ed25519_dalek), [SnowCrate] (snow).  Each has a concrete instance, with
    which the witnesses evaluate.

    ** What the theorems show

    - Round trips: packet headers, sealed control packets, TCP frames, chunks and
      manifests, fragments over several paths, encrypted blocks, JSON stores.
    - Invariants of the reachable states: the daemon (connections, counters,
      tasks), the ARQ window, the DHT buckets, the route table, the registry's two maps,
      the load of a download, the pipes of a process, a session of the terminal interface.
    - Safety: in-order delivery without gaps, one announced leader in a term as long as nobody
      takes in an announcement of its own term, and one node that leads in it as long as no leader
      takes in the answer to a synchronisation from a later term, what datagrams without the key
      can reach, the counters of a session, the integrity of downloads.
    - Refinement and reference definitions: the version store against the list of its
      snapshots, with which calls return, the token bucket against a budget, the catalogue merge, the civil calendar
      against the step from day to day, the threads of a task against the daemon's task events,
      the tasks of lan-linkd against its handlers in pieces, the threads of the relay's
      server against streams read in one piece, overlapping calls of the registration center
      against calls one after the other, the line editor against the text before and after
      its cursor.
    - Whole commands: what a subcommand prints for what the command did on the daemon's
      files; head, tail, grep, sed, the lists of packages and of sockets against relational
      specifications of their text.
    - Progress: a download with answering peers terminates with the file; a silent
      peer is reported off-line after its threshold of late checks, by whatever number of threads
      and in whatever order, each with the threshold of its start; the tasks of the daemon
      wait, in the end, only for clients and native commands, and a client that is not disturbed is served as by the
      handler in one piece.
    - Behaviour that defeats an intention of the code, each with the execution that
      shows it: two leaders after an announcement of an equal term, or after the answer to a
      synchronisation, a pruning of versions that waits for itself, a lost acknowledgement
      that stops the window, a push that stops at the daemon's quota, a pull that writes an
      empty file, a backup that cannot be restored or overwrites the catalogue, a signal that
      waits for the exit it is to cause, lines typed ahead that are lost, a key file that is
      replaced because of a line feed, a registered name that two overlapping saves lose, two
      votes of a node in one term when its handlers overlap, two monitoring threads after a
      restart, output over TCP that waits for input, relay messages written to a connection
      that rested too long, a native command that stops all clients of its side, and two clients without the key that stop the daemon's TCP side.

    ** Fuel

    Most loops are structural.  The others have fuel, and what it must be:
    - [Connection.tcp_frames]: the number of bytes; each frame takes five of them.
    - [Ctl.push_chunks]: the number of bytes; a chunk is not empty.
    - [Ctl.await_ack], [drain_exec], [drain_pull]: one unit for each receive; a receive that
      gets nothing lasts half a second or two, so the deadline bounds them on a silent
      network (15 for a push, as the theorem says).
    - the [drain] of the reorder buffers of Multipath and Download: the number of blocks kept,
      of which each step takes one; [Multipath.pieces]: the length of the data.
    - [Relay.handle_connection_loop]: the number of bytes; a message takes five of them.
    - [Bootstrap.strip_prefixes], [Lines.strip_all]: the length of the text; the prefix is not empty.
    - [NativeFs.grep_walk]: the depth of the directories ([Native.Outside]), which links can make
      endless; [octal_digits]: 22, the digits of 64 bits.
    - [Cli.watch], [Cli.top]: the rounds; watching has no end.  [Cli.drain_exec_interactive]
      is structural in the events that [select!] takes.

    ** Not modelled

    - What is not the program's: what the programs print that the native commands run and what
      Docker's socket answers (arguments), the branches for Windows, the parsing of arguments by
      clap and the drawing by ratatui, the serialised forms that serde derives (classes).
      discovery.rs, which logs one line and sleeps.
    - Locks that several threads contend for, other than the mutex of a process in Shell, the
      locks of the daemon's TCP side in TcpTasks, the flag of Version, the list of RelayServer and the nodes of
      HeartbeatThreads; a call of another manager of the VPN library is one step, also where it takes
      its locks one after the other (Download, Metadata, Multihop, Selfheal).  A poisoned mutex.
    - Memory: a reservation or an allocation that fails, such as the one of [Chunk.Chunker.reassemble] for
      a size that a peer states.  A write to a TCP client of the daemon that fails.
    - The tasks of a parallel batch interleaved: each has a connection of its own, and they run one
      after the other in any order.  The progress bar of a push.  Kernel files that change between
      the reads of one command.  A server that keeps Docker's connection open.
    - Log messages, except where they are a command's output. *)
From stdpp Require Export base gmap list strings pretty countable sorting.
From Stdlib Require Export ZArith Lia.
From Stdlib Require Import Strings.Byte.

#[global] Open Scope Z_scope.

(** ** Results: Rust's [Result<T, E>] *)

Inductive result (A E : Type) : Type :=
| Ok (a : A)
| Err (e : E).
Arguments Ok {A E} _.
Arguments Err {A E} _.

Definition result_bind {A B E} (m : result A E) (k : A → result B E) : result B E :=
  match m with Ok a => k a | Err e => Err e end.

Definition map_err {A E F} (f : E → F) (m : result A E) : result A F :=
  match m with Ok a => Ok a | Err e => Err (f e) end.

Definition ok_or {A E} (o : option A) (e : E) : result A E :=
  match o with Some a => Ok a | None => Err e end.

Definition is_ok {A E} (m : result A E) : bool :=
  match m with Ok _ => true | Err _ => false end.

Declare Scope lan_scope.
Delimit Scope lan_scope with lan.
Notation "'let?' x ':=' m 'in' k" := (result_bind m (λ x, k))
  (at level 10, x pattern, m at level 100, k at level 200) : lan_scope.
#[global] Open Scope lan_scope.

(** ** Machine integers: unsigned integers of width [w] as [Z] *)

Definition fits (w z : Z) : Prop := 0 <= z < 2 ^ w.
#[global] Instance fits_dec w z : Decision (fits w z) := _.
Abbreviation u8_ok := (fits 8).
Abbreviation u16_ok := (fits 16).
Abbreviation u32_ok := (fits 32).
Abbreviation u64_ok := (fits 64).

(** Arithmetic of the release profile: overflow wraps. *)
Definition wrap (w z : Z) : Z := z mod 2 ^ w.
Definition saturating_sub (a b : Z) : Z := Z.max 0 (a - b).

Lemma wrap_fits w z : 0 <= w → fits w (wrap w z).
Proof. intros. apply Z.mod_pos_bound. lia. Qed.

Lemma wrap_id w z : fits w z → wrap w z = z.
Proof. apply Z.mod_small. Qed.

Lemma wrap_add_l w a b : wrap w (wrap w a + b) = wrap w (a + b).
Proof. apply Zplus_mod_idemp_l. Qed.

Lemma wrap_sub_l w a b : wrap w (wrap w a - b) = wrap w (a - b).
Proof. apply Zminus_mod_idemp_l. Qed.

Lemma wrap_sub_r w a b : wrap w (a - wrap w b) = wrap w (a - b).
Proof. apply Zminus_mod_idemp_r. Qed.

Lemma wrap_idemp w z : wrap w (wrap w z) = wrap w z.
Proof. apply Zmod_mod. Qed.

Lemma wrap_sub_eq0 w a b : fits w a → fits w b → wrap w (a - b) = 0 → a = b.
Proof.
  unfold fits, wrap. intros Ha Hb H. apply Z.mod_divide in H as [k Hk]; [|lia].
  destruct (Z.lt_trichotomy k 0) as [|[->|]]; [nia|lia|nia].
Qed.

Lemma fits_high w a i : 0 <= w → fits w a → w <= i → Z.testbit a i = false.
Proof.
  intros Hw Ha Hi. rewrite <-(wrap_id w a) by done. by apply Z.mod_pow2_bits_high.
Qed.

Lemma fits_lxor w a b : 0 <= w → fits w a → fits w b → fits w (Z.lxor a b).
Proof.
  intros Hw Ha Hb. replace (Z.lxor a b) with (wrap w (Z.lxor a b)); [by apply wrap_fits|].
  unfold wrap. apply Z.bits_inj'. intros i Hi. destruct (Z.lt_ge_cases i w).
  - by rewrite Z.mod_pow2_bits_low.
  - rewrite Z.mod_pow2_bits_high, Z.lxor_spec by done.
    by rewrite !(fits_high w) by done.
Qed.

(** Putting [n] low bits under a shifted number. *)
Lemma lor_low n k x : 0 <= n → fits n x → Z.lor (k * 2 ^ n) x = k * 2 ^ n + x.
Proof.
  intros Hn Hx. assert (Hl : Z.land (k * 2 ^ n) x = 0).
  { apply Z.bits_inj'. intros i Hi. rewrite Z.land_spec, Z.bits_0, <-Z.shiftl_mul_pow2 by done.
    destruct (Z.lt_ge_cases i n); [by rewrite Z.shiftl_spec_low|].
    rewrite (fits_high n x) by done. apply andb_false_r. }
  by rewrite <-Z.lxor_lor, Z.add_nocarry_lxor.
Qed.

(** Opens [fits] and [wrap] at concrete widths and calls [lia]. *)
Ltac solve_fits :=
  unfold fits, wrap in *;
  try change (2 ^ 8) with 256 in *;
  try change (2 ^ 16) with 65536 in *;
  try change (2 ^ 32) with 4294967296 in *;
  try change (2 ^ 64) with 18446744073709551616 in *;
  Z.to_euclidean_division_equations; lia.

(** [l.len() as u64] and the like: the length as an integer. *)
Abbreviation len l := (Z.of_nat (length l)).

(** ** Time: instants and durations in nanoseconds *)

Definition Instant := Z.
Definition Duration := Z.
Definition from_secs (s : Z) : Duration := s * 1000000000.
Definition from_millis (ms : Z) : Duration := ms * 1000000.
(** [Instant::elapsed] and [duration_since] saturate at zero. *)
Definition duration_since (now t : Instant) : Duration := Z.max 0 (now - t).

(** ** Bytes *)

Abbreviation byte := Byte.byte.

#[global] Instance byte_eq_dec : EqDecision byte.
Proof. intros x y. destruct (Byte.byte_eq_dec x y); [left|right]; done. Defined.

#[global] Program Instance byte_countable : Countable byte :=
  inj_countable Byte.to_N Byte.of_N _.
Next Obligation. intros x. apply Byte.of_to_N. Qed.

Definition Z_of_byte (b : byte) : Z := Z.of_N (Byte.to_N b).
(** [z as u8]: keeps the low eight bits. *)
Definition byte_of_Z (z : Z) : byte :=
  default Byte.x00 (Byte.of_N (Z.to_N (z mod 256))).

Lemma Z_of_byte_range b : 0 <= Z_of_byte b < 256.
Proof. unfold Z_of_byte. pose proof (Byte.to_N_bounded b). lia. Qed.

Lemma Z_of_byte_of_Z z : Z_of_byte (byte_of_Z z) = z mod 256.
Proof.
  unfold Z_of_byte, byte_of_Z.
  assert (0 <= z mod 256 < 256) by (apply Z.mod_pos_bound; lia).
  destruct (Byte.of_N (Z.to_N (z mod 256))) as [b|] eqn:E; simpl.
  - apply Byte.to_of_N in E. lia.
  - apply Byte.of_N_None_iff in E. lia.
Qed.

Lemma byte_of_Z_of_byte b : byte_of_Z (Z_of_byte b) = b.
Proof.
  unfold byte_of_Z, Z_of_byte. pose proof (Byte.to_N_bounded b).
  rewrite Z.mod_small by lia. rewrite N2Z.id, Byte.of_to_N. done.
Qed.

#[global] Instance Z_of_byte_inj : Inj (=) (=) Z_of_byte.
Proof. intros x y H. rewrite <-(byte_of_Z_of_byte x), H. apply byte_of_Z_of_byte. Qed.

Lemma byte_of_Z_mod z : byte_of_Z (z mod 256) = byte_of_Z z.
Proof. unfold byte_of_Z. by rewrite Zmod_mod. Qed.

(** ** Little-endian and big-endian integers *)

Fixpoint le_bytes (n : nat) (z : Z) : list byte :=
  match n with
  | O => []
  | S n => byte_of_Z z :: le_bytes n (z / 256)
  end.
Fixpoint of_le (bs : list byte) : Z :=
  match bs with
  | [] => 0
  | b :: bs => Z_of_byte b + 256 * of_le bs
  end.
(** [to_be_bytes] and [from_be_bytes]. *)
Definition be_bytes (n : nat) (z : Z) : list byte := reverse (le_bytes n z).
Definition of_be (bs : list byte) : Z := of_le (reverse bs).

Lemma length_le_bytes n z : length (le_bytes n z) = n.
Proof. revert z. induction n as [|n IH]; intros z; simpl; [done|]. by rewrite IH. Qed.
Lemma length_be_bytes n z : length (be_bytes n z) = n.
Proof. unfold be_bytes. by rewrite length_reverse, length_le_bytes. Qed.

Lemma of_le_le_bytes n z : of_le (le_bytes n z) = z mod 256 ^ Z.of_nat n.
Proof.
  revert z. induction n as [|n IH]; intros z.
  { simpl. by rewrite Z.mod_1_r. }
  cbn [le_bytes of_le]. rewrite IH, Z_of_byte_of_Z.
  rewrite Nat2Z.inj_succ, Z.pow_succ_r by lia.
  rewrite Z.rem_mul_r by lia. lia.
Qed.

Lemma le_bytes_of_le bs : le_bytes (length bs) (of_le bs) = bs.
Proof.
  induction bs as [|b bs IH]; [done|]. cbn [length le_bytes of_le].
  pose proof (Z_of_byte_range b). f_equal.
  - rewrite <-byte_of_Z_mod.
    replace ((Z_of_byte b + 256 * of_le bs) mod 256) with (Z_of_byte b).
    + apply byte_of_Z_of_byte.
    + rewrite Z.mul_comm, Z_mod_plus_full. symmetry. by apply Z.mod_small.
  - rewrite Z.mul_comm, Z.div_add by lia. rewrite Z.div_small by lia. done.
Qed.

Lemma le_bytes_of_le' n bs : length bs = n → le_bytes n (of_le bs) = bs.
Proof. intros <-. apply le_bytes_of_le. Qed.

Lemma of_le_range bs : 0 <= of_le bs < 256 ^ Z.of_nat (length bs).
Proof.
  induction bs as [|b bs IH]; [done|]. cbn [length of_le].
  rewrite Nat2Z.inj_succ, Z.pow_succ_r by lia.
  pose proof (Z_of_byte_range b). lia.
Qed.

Lemma of_be_range bs : 0 <= of_be bs < 256 ^ Z.of_nat (length bs).
Proof. unfold of_be. rewrite <-(length_reverse bs). apply of_le_range. Qed.

Lemma of_be_be_bytes n z : of_be (be_bytes n z) = z mod 256 ^ Z.of_nat n.
Proof. unfold of_be, be_bytes. by rewrite reverse_involutive, of_le_le_bytes. Qed.

Lemma be_bytes_of_be bs : be_bytes (length bs) (of_be bs) = bs.
Proof.
  unfold of_be, be_bytes. rewrite <-(length_reverse bs), le_bytes_of_le.
  apply reverse_involutive.
Qed.

Lemma be_bytes_of_be' n bs : length bs = n → be_bytes n (of_be bs) = bs.
Proof. intros <-. apply be_bytes_of_be. Qed.

(** The integers that fit come back unchanged, width by width. *)
Lemma of_le_le_bytes_id n z : fits (8 * Z.of_nat n) z → of_le (le_bytes n z) = z.
Proof.
  intros H. rewrite of_le_le_bytes. apply Z.mod_small.
  unfold fits in H. by rewrite Z.pow_mul_r in H by lia.
Qed.
Lemma of_be_be_bytes_id n z : fits (8 * Z.of_nat n) z → of_be (be_bytes n z) = z.
Proof.
  intros H. rewrite of_be_be_bytes. apply Z.mod_small.
  unfold fits in H. by rewrite Z.pow_mul_r in H by lia.
Qed.

#[global] Arguments le_bytes : simpl never.
#[global] Arguments of_le : simpl never.

(** ** Slices: [&l[s..e]] *)

Definition slice {A} (s e : nat) (l : list A) : list A := take (e - s) (drop s l).

Lemma length_slice {A} s e (l : list A) :
  (s ≤ e)%nat → (e ≤ length l)%nat → length (slice s e l) = (e - s)%nat.
Proof. intros. unfold slice. rewrite length_take, length_drop. lia. Qed.

(** The slice that a known prefix and a known length isolate. *)
Lemma slice_mid {A} s e (a b c : list A) :
  s = length a → e = (s + length b)%nat → slice s e (a ++ b ++ c) = b.
Proof.
  intros -> ->. unfold slice. rewrite drop_app_length.
  replace (length a + length b - length a)%nat with (length b) by lia.
  apply take_app_length.
Qed.
Lemma slice_tail {A} s e (a b : list A) :
  s = length a → e = (s + length b)%nat → slice s e (a ++ b) = b.
Proof. intros. rewrite <-(app_nil_r b) at 1. by apply slice_mid. Qed.
Lemma slice_head {A} e (b c : list A) : e = length b → slice 0 e (b ++ c) = b.
Proof. intros. by apply (slice_mid 0 e []). Qed.

(** Cutting off the first [n] elements. *)
Lemma cut {A} (n : nat) (l : list A) :
  (n ≤ length l)%nat → ∃ a b, l = a ++ b ∧ length a = n.
Proof. intros Hn. exists (take n l), (drop n l). by rewrite take_drop, length_take_le. Qed.

(** ** Fixed arrays: [[u8; 32]] *)

Definition bytes32 := dsig (λ l : list byte, length l = 32%nat).
#[global] Instance bytes32_eq_dec : EqDecision bytes32 := _.
#[global] Instance bytes32_countable : Countable bytes32 := _.
Definition arr_bytes (a : bytes32) : list byte := proj1_sig a.
(** [copy_from_slice] into a fresh array: panics ([None]) on another length. *)
Definition to_arr32 (l : list byte) : option bytes32 :=
  match decide (length l = 32%nat) with
  | left H => Some (dexist l H)
  | right _ => None
  end.
Definition zero32 : bytes32 := dexist (replicate 32 Byte.x00) eq_refl.

Lemma length_arr_bytes a : length (arr_bytes a) = 32%nat.
Proof. exact (proj2_dsig a). Qed.
Lemma arr_bytes_inj a b : arr_bytes a = arr_bytes b → a = b.
Proof. apply dsig_eq. Qed.
Lemma to_arr32_arr_bytes a : to_arr32 (arr_bytes a) = Some a.
Proof.
  unfold to_arr32. case_decide as H.
  - f_equal. by apply arr_bytes_inj.
  - destruct H. apply length_arr_bytes.
Qed.
Lemma to_arr32_Some l a : to_arr32 l = Some a ↔ arr_bytes a = l.
Proof.
  split; [|intros <-; apply to_arr32_arr_bytes].
  unfold to_arr32. case_decide; [|done]. by intros [= <-].
Qed.
Lemma to_arr32_is_Some l : length l = 32%nat → is_Some (to_arr32 l).
Proof. intros H. unfold to_arr32. case_decide; [by eexists|done]. Qed.

(** ** Strings: Rust's [String] is its UTF-8 bytes *)

Definition as_bytes (s : string) : list byte := String.list_byte_of_string s.

Lemma as_bytes_of s : String.string_of_list_byte (as_bytes s) = s.
Proof. apply String.string_of_list_byte_of_string. Qed.
#[global] Instance as_bytes_inj : Inj (=) (=) as_bytes.
Proof. intros x y H. by rewrite <-(as_bytes_of x), H, as_bytes_of. Qed.

(** [core::str::from_utf8]: the well-formed sequences of the standard. *)
Definition in_range (lo hi : Z) (b : byte) : bool :=
  (lo <=? Z_of_byte b) && (Z_of_byte b <=? hi).
Definition utf8_cont : byte → bool := in_range 0x80 0xBF.
Definition utf8_pair (b0 b1 : byte) : bool := in_range 0xC2 0xDF b0 && utf8_cont b1.
Definition utf8_triple (b0 b1 b2 : byte) : bool :=
  ((in_range 0xE0 0xE0 b0 && in_range 0xA0 0xBF b1)
   || (in_range 0xE1 0xEC b0 && utf8_cont b1)
   || (in_range 0xED 0xED b0 && in_range 0x80 0x9F b1)
   || (in_range 0xEE 0xEF b0 && utf8_cont b1)) && utf8_cont b2.
Definition utf8_quad (b0 b1 b2 b3 : byte) : bool :=
  ((in_range 0xF0 0xF0 b0 && in_range 0x90 0xBF b1)
   || (in_range 0xF1 0xF3 b0 && utf8_cont b1)
   || (in_range 0xF4 0xF4 b0 && in_range 0x80 0x8F b1)) && utf8_cont b2 && utf8_cont b3.

Fixpoint utf8_valid (bs : list byte) : bool :=
  match bs with
  | [] => true
  | b0 :: r0 =>
      if in_range 0 0x7F b0 then utf8_valid r0 else
      match r0 with
      | [] => false
      | b1 :: r1 =>
          if utf8_pair b0 b1 then utf8_valid r1 else
          match r1 with
          | [] => false
          | b2 :: r2 =>
              if utf8_triple b0 b1 b2 then utf8_valid r2 else
              match r2 with
              | [] => false
              | b3 :: r3 => if utf8_quad b0 b1 b2 b3 then utf8_valid r3 else false
              end
          end
      end
  end.

(** [String::from_utf8(bytes).ok()]. *)
Definition from_utf8 (bs : list byte) : option string :=
  if utf8_valid bs then Some (String.string_of_list_byte bs) else None.
(** Every Rust [String] satisfies this; a Rocq [string] may not. *)
Definition is_str (s : string) : Prop := utf8_valid (as_bytes s) = true.

Lemma from_utf8_as_bytes s : is_str s → from_utf8 (as_bytes s) = Some s.
Proof. intros H. unfold from_utf8. by rewrite H, as_bytes_of. Qed.

(** ** Network addresses: [std::net], with the address bits as an integer *)

Inductive IpAddr := V4 (bits : Z) | V6 (bits : Z).
#[global] Instance IpAddr_eq_dec : EqDecision IpAddr.
Proof. solve_decision. Defined.
#[global] Program Instance IpAddr_countable : Countable IpAddr :=
  inj_countable' (λ a, match a with V4 b => inl b | V6 b => inr b end)
                 (λ s, match s with inl b => V4 b | inr b => V6 b end) _.
Next Obligation. by intros []. Qed.

Record SocketAddr := mkAddr { ip : IpAddr; port : Z }.
#[global] Instance SocketAddr_eq_dec : EqDecision SocketAddr.
Proof. solve_decision. Defined.

(** ** Sorting: [slice::sort_by], a stable sort *)

Section Sort.
Context {A : Type} (cmp : A → A → comparison).

Definition cmp_le (x y : A) : Prop := cmp x y ≠ Gt.
Fixpoint sort_insert (x : A) (l : list A) : list A :=
  match l with
  | [] => [x]
  | y :: l => match cmp x y with Gt => y :: sort_insert x l | _ => x :: y :: l end
  end.
Definition sort_by (l : list A) : list A := foldr sort_insert [] l.

Lemma sort_insert_perm x l : sort_insert x l ≡ₚ x :: l.
Proof.
  induction l as [|y l IH]; [done|]. simpl. destruct (cmp x y); try done.
  rewrite IH. apply Permutation_swap.
Qed.
Lemma sort_by_perm l : sort_by l ≡ₚ l.
Proof.
  induction l as [|x l IH]; [done|]. simpl. by rewrite sort_insert_perm, IH.
Qed.

Context (Htrans : ∀ x y z, cmp_le x y → cmp_le y z → cmp_le x z).
Context (Htotal : ∀ x y, cmp x y = Gt → cmp_le y x).

Lemma sort_insert_sorted x l :
  StronglySorted cmp_le l → StronglySorted cmp_le (sort_insert x l).
Proof.
  induction l as [|y l IH]; intros Hs; [repeat constructor|].
  apply StronglySorted_inv in Hs as [Hs Hy]. simpl.
  destruct (cmp x y) eqn:E.
  1,2: constructor; [by constructor|]; constructor; [unfold cmp_le; congruence|];
    eapply Forall_impl; [exact Hy|]; intros z Hz; apply (Htrans _ y); unfold cmp_le; congruence.
  constructor; [by apply IH|]. rewrite sort_insert_perm. constructor; [by apply Htotal|done].
Qed.
Lemma sort_by_sorted l : StronglySorted cmp_le (sort_by l).
Proof. induction l as [|x l IH]; [constructor|]. by apply sort_insert_sorted. Qed.
End Sort.

(** ** Filters that keep everything, or nothing *)

Lemma list_filter_all {A} (P : A → Prop) `{∀ x, Decision (P x)} (l : list A) :
  Forall P l → filter P l = l.
Proof. induction 1 as [|x l Hx _ IH]; [done|]. by rewrite filter_cons_True, IH. Qed.
Lemma list_filter_none {A} (P : A → Prop) `{∀ x, Decision (P x)} (l : list A) :
  Forall (λ x, ¬ P x) l → filter P l = [].
Proof. induction 1 as [|x l Hx _ IH]; [done|]. by rewrite filter_cons_False, IH. Qed.
Lemma Forall_filter_2 {A} (P Q : A → Prop) `{∀ x, Decision (P x)} (l : list A) :
  Forall Q l → Forall Q (filter P l).
Proof. rewrite !Forall_forall. intros Hl x [_ Hx]%list_elem_of_filter. by apply Hl. Qed.

(** ** Maps *)

Lemma map_size_alter `{FinMap K M} {A} (f : A → A) i (m : M A) : size (alter f i m) = size m.
Proof.
  destruct (m !! i) as [x|] eqn:E; [|by rewrite alter_id'].
  rewrite <-(map_size_insert_Some i (f x) m) by done. f_equal. apply map_eq. intros j.
  rewrite lookup_alter, lookup_insert. case_decide; [subst; by rewrite E|done].
Qed.

Lemma alter_Some `{FinMap K M} {A} (f : A → A) i x (m : M A) :
  m !! i = Some x → alter f i m = <[i := f x]> m.
Proof.
  intros E. apply map_eq. intros j. rewrite lookup_alter, lookup_insert.
  case_decide; [subst; by rewrite E|done].
Qed.

Section Sums.
Context {K A : Type} `{Countable K} (f : K → A → Z).
Definition map_sum (m : gmap K A) : Z := map_fold (λ k x acc, f k x + acc) 0 m.
Lemma map_sum_empty : map_sum ∅ = 0.
Proof. apply map_fold_empty. Qed.
Lemma map_sum_take k m : map_sum m = default 0 (f k <$> m !! k) + map_sum (delete k m).
Proof.
  destruct (m !! k) as [x|] eqn:E; cbn [fmap option_fmap option_map default].
  - unfold map_sum. rewrite (map_fold_delete_L _ _ k x m); [done| |done]. intros. lia.
  - rewrite delete_id by done. done.
Qed.
Lemma map_sum_insert k x m :
  map_sum (<[k := x]> m) = f k x + map_sum m - default 0 (f k <$> m !! k).
Proof.
  rewrite (map_sum_take k (<[k := x]> m)), lookup_insert_eq, delete_insert_eq, (map_sum_take k m).
  cbn. lia.
Qed.
Lemma map_sum_delete k m : map_sum (delete k m) = map_sum m - default 0 (f k <$> m !! k).
Proof. rewrite (map_sum_take k m). lia. Qed.
Lemma map_sum_nonneg m : (∀ k x, m !! k = Some x → 0 <= f k x) → 0 <= map_sum m.
Proof.
  intros Hf. unfold map_sum. revert Hf. apply (map_fold_weak_ind (λ acc m, (∀ k x, m !! k = Some x → 0 <= f k x) → 0 <= acc)).
  - done.
  - intros k x m' acc Hk IH Hf. pose proof (Hf k x (lookup_insert_eq _ _ _)).
    enough (0 <= acc) by lia. apply IH. intros k' x' Hk'. apply (Hf k').
    rewrite lookup_insert_ne; [done|congruence].
Qed.
End Sums.

(** ** Hints *)

Create HintDb lan discriminated.
#[export] Hint Resolve length_arr_bytes wrap_fits of_be_range of_le_range
  length_le_bytes length_be_bytes : lan.

(** Lengths of the pieces of an encoded frame. *)
Ltac simpl_lengths :=
  repeat (rewrite ?length_app, ?length_le_bytes, ?length_be_bytes, ?length_arr_bytes in *);
  simpl length in *.
