(* ===== verification/Frame.v ===== *)
(** * Frame: the wire header, the control messages and the nonce

    Models crates/protocol/src/frame.rs, the nonce derivation of
    crates/protocol/src/crypto.rs.  The [bytes] crate's cursor and buffer
    operations are the class [BufCrate]; its documented behaviour is
    [BufCrateOk]; [le_buf] is a concrete instance of both. *)
From S2P Require Import Prelude.

Definition PROTOCOL_VERSION : Z := 1.
Definition HEADER_SIZE : nat := 38.
Definition MAX_PAYLOAD : nat := 1400.
Definition MAX_PACKET : nat := (HEADER_SIZE + MAX_PAYLOAD + 16)%nat.

(** ** Enumerations *)

Inductive PacketType := Syn | SynAck | Ack | Data | Rst | Heartbeat.
#[global] Instance PacketType_eq_dec : EqDecision PacketType.
Proof. solve_decision. Defined.

Module PacketType.
Definition as_u8 (t : PacketType) : Z :=
  match t with Syn => 0 | SynAck => 1 | Ack => 2 | Data => 3 | Rst => 4 | Heartbeat => 5 end.
Definition from_u8 (v : Z) : option PacketType :=
  match v with
  | 0 => Some Syn | 1 => Some SynAck | 2 => Some Ack
  | 3 => Some Data | 4 => Some Rst | 5 => Some Heartbeat
  | _ => None
  end.

Lemma from_as_u8 t : from_u8 (as_u8 t) = Some t.
Proof. by destruct t. Qed.
Lemma from_u8_Some v t : from_u8 v = Some t → as_u8 t = v.
Proof. unfold from_u8. intros H. by repeat case_match; simplify_eq. Qed.
Lemma as_u8_fits t : u8_ok (as_u8 t).
Proof. destruct t; split; simpl; lia. Qed.
End PacketType.

Inductive StreamId := Control | Video | AudioTx | AudioRx | Input | File.

Module StreamId.
Definition as_u16 (s : StreamId) : Z :=
  match s with
  | Control => 0 | Video => 1 | AudioTx => 2 | AudioRx => 3 | Input => 4 | File => 5
  end.
Definition from_u16 (v : Z) : option StreamId :=
  match v with
  | 0 => Some Control | 1 => Some Video | 2 => Some AudioTx
  | 3 => Some AudioRx | 4 => Some Input | 5 => Some File
  | _ => None
  end.
Definition is_reliable (s : StreamId) : bool :=
  match s with Control | Input | File => true | _ => false end.
End StreamId.

(** The [bitflags] struct is its byte; [from_bits_retain] keeps every bit. *)
Record Flags := mkFlags { bits : Z }.
Definition RELIABLE : Flags := mkFlags 1.
Definition FRAGMENTED : Flags := mkFlags 2.
Definition ORDERED : Flags := mkFlags 4.
Definition empty_flags : Flags := mkFlags 0.
Definition from_bits_retain (b : Z) : Flags := mkFlags b.

(** ** The [bytes] crate *)

Class BufCrate := {
  put_u8 : list byte → Z → list byte;
  put_u16_le : list byte → Z → list byte;
  put_u32_le : list byte → Z → list byte;
  put_u64_le : list byte → Z → list byte;
  put_slice : list byte → list byte → list byte;
  remaining : list byte → nat;
  (** The readers panic ([None]) when too few bytes remain. *)
  get_u8 : list byte → option (Z * list byte);
  get_u16_le : list byte → option (Z * list byte);
  get_u32_le : list byte → option (Z * list byte);
  get_u64_le : list byte → option (Z * list byte);
  copy_to_slice : nat → list byte → option (list byte * list byte)
}.

Definition reads_le (n : nat) (get : list byte → option (Z * list byte)) : Prop :=
  ∀ bs rest, length bs = n → get (bs ++ rest) = Some (of_le bs, rest).

Class BufCrateOk `{BufCrate} : Prop := {
  put_u8_ok b v : put_u8 b v = b ++ le_bytes 1 v;
  put_u16_le_ok b v : put_u16_le b v = b ++ le_bytes 2 v;
  put_u32_le_ok b v : put_u32_le b v = b ++ le_bytes 4 v;
  put_u64_le_ok b v : put_u64_le b v = b ++ le_bytes 8 v;
  put_slice_ok b s : put_slice b s = b ++ s;
  remaining_ok b : remaining b = length b;
  get_u8_ok : reads_le 1 get_u8;
  get_u16_le_ok : reads_le 2 get_u16_le;
  get_u32_le_ok : reads_le 4 get_u32_le;
  get_u64_le_ok : reads_le 8 get_u64_le;
  copy_to_slice_ok n bs rest :
    length bs = n → copy_to_slice n (bs ++ rest) = Some (bs, rest)
}.

(** A concrete buffer, for witnesses and evaluation. *)
Definition take_le (n : nat) (b : list byte) : option (Z * list byte) :=
  if (length b <? n)%nat then None else Some (of_le (take n b), drop n b).
#[export] Instance le_buf : BufCrate := {
  put_u8 b v := b ++ le_bytes 1 v;
  put_u16_le b v := b ++ le_bytes 2 v;
  put_u32_le b v := b ++ le_bytes 4 v;
  put_u64_le b v := b ++ le_bytes 8 v;
  put_slice b s := b ++ s;
  remaining b := length b;
  get_u8 := take_le 1;
  get_u16_le := take_le 2;
  get_u32_le := take_le 4;
  get_u64_le := take_le 8;
  copy_to_slice n b := if (length b <? n)%nat then None else Some (take n b, drop n b)
}.

Lemma take_le_reads n : reads_le n (take_le n).
Proof.
  intros bs rest <-. unfold take_le. rewrite length_app.
  destruct (Nat.ltb_spec (length bs + length rest) (length bs)); [lia|].
  by rewrite take_app_length, drop_app_length.
Qed.
#[export] Instance le_buf_ok : BufCrateOk.
Proof.
  split; try done; try apply take_le_reads.
  intros n bs rest <-. simpl. rewrite length_app.
  destruct (Nat.ltb_spec (length bs + length rest) (length bs)); [lia|].
  by rewrite take_app_length, drop_app_length.
Qed.

(** ** The packet header *)

Record PacketHeader := mkHeader {
  conn_id : Z;
  pkt_type : PacketType;
  flags : Flags;
  stream_id : Z;
  seq : Z;
  ack_seq : Z;
  ack_bitmap : Z;
  payload_len : Z;
  nonce : list byte
}.

(** The ranges that the field types give. *)
Definition header_ok (h : PacketHeader) : Prop :=
  u64_ok (conn_id h) ∧ u8_ok (bits (flags h)) ∧ u16_ok (stream_id h) ∧
  u32_ok (seq h) ∧ u32_ok (ack_seq h) ∧ u32_ok (ack_bitmap h) ∧
  u16_ok (payload_len h) ∧ length (nonce h) = 12%nat.

Section Codec.
Context `{BufCrate}.

Definition encode (h : PacketHeader) (buf : list byte) : list byte :=
  let buf := put_u64_le buf (conn_id h) in
  let buf := put_u8 buf (PacketType.as_u8 (pkt_type h)) in
  let buf := put_u8 buf (bits (flags h)) in
  let buf := put_u16_le buf (stream_id h) in
  let buf := put_u32_le buf (seq h) in
  let buf := put_u32_le buf (ack_seq h) in
  let buf := put_u32_le buf (ack_bitmap h) in
  let buf := put_u16_le buf (payload_len h) in
  put_slice buf (nonce h).

(** The outer option is a panic of a reader; the inner one is the value
    returned; the list is what the cursor has left. *)
Definition decode (buf : list byte) : option (option PacketHeader * list byte) :=
  if (remaining buf <? HEADER_SIZE)%nat then Some (None, buf) else
  '(conn_id, buf) ← get_u64_le buf;
  '(ty, buf) ← get_u8 buf;
  match PacketType.from_u8 ty with
  | None => Some (None, buf)
  | Some pkt_type =>
      '(fl, buf) ← get_u8 buf;
      '(stream_id, buf) ← get_u16_le buf;
      '(seq, buf) ← get_u32_le buf;
      '(ack_seq, buf) ← get_u32_le buf;
      '(ack_bitmap, buf) ← get_u32_le buf;
      '(payload_len, buf) ← get_u16_le buf;
      '(nonce, buf) ← copy_to_slice 12 buf;
      Some (Some (mkHeader conn_id pkt_type (from_bits_retain fl) stream_id seq
                    ack_seq ack_bitmap payload_len nonce), buf)
  end.

(** The header a receiver extracts, with the panic and the cursor dropped. *)
Definition decode_header (buf : list byte) : option PacketHeader :=
  '(h, _) ← decode buf; h.
End Codec.

(** ** Nonces (crypto.rs) *)

(** [make_nonce]: bytes 0..8 are the connection, 8..12 the sequence number. *)
Definition make_nonce (conn_id seq : Z) : list byte :=
  le_bytes 8 conn_id ++ le_bytes 4 seq.

(** ** Control messages *)

Inductive ServiceActionType :=
| SvcList (active failed : bool) | SvcStatus (name : string) | SvcStart (name : string)
| SvcStop (name : string) | SvcRestart (name : string) | SvcReload (name : string)
| SvcEnable (name : string) | SvcDisable (name : string).

Inductive PkgActionType :=
| PkgList (installed : bool) | PkgSearch (query : string) | PkgInstall (name : string)
| PkgRemove (name : string) | PkgUpdate | PkgUpgrade.

Inductive DockerActionType :=
| DockerPs (all running : bool) | DockerLogs (name : string) (tail : Z) (follow : bool)
| DockerStats (interval_secs : Z)
| DockerExec (container : string) (cmd : list string) (interactive : bool)
| DockerInfo | DockerImages | DockerRm (container : string) (force : bool)
| DockerControl (container action : string).

Inductive CrontabActionType := CronList | CronEdit | CronRemove.

Inductive NativeCmdType :=
| Ls (path : string) (long all : bool)
| Cat (path : string)
| Tail (path : string) (lines : Z) (follow : bool) (follow_secs : Z)
| Head (path : string) (lines : Z)
| Find (path : string) (name type_ : option string) (maxdepth : Z)
| Grep (pattern path : string) (recursive line_number count : bool)
| Du (path : string) (summarize : bool) (maxdepth : Z)
| Df (human all : bool)
| Tree (path : string) (depth : Z) (dirs_only : bool)
| Stat (path : string)
| Mkdir (recursive : bool) (paths : list string)
| Rm (recursive force : bool) (paths : list string)
| Mv (src dest : string)
| Cp (recursive : bool) (src dest : string)
| Chmod (mode : string) (paths : list string)
| Chown (owner : string) (paths : list string)
| DiffCmd (file1 file2 : string)
| Wc (lines words : bool) (paths : list string)
| Lsblk | Mount
| Ps (full : bool) (user : option string) (tree : bool)
| Kill (pid signal : Z)
| Pgrep (name : string) (full count : bool)
| Pkill (name : string) (signal : Z)
| Top (interval_secs iterations : Z)
| Uptime | Hostname | Uname (all release machine : bool) | Whoami | Who
| Last (lines : Z) | Free (human : bool) | Cpu
| Dmesg (lines : Z) (level : option string) | Info
| Netstat (tcp udp numeric listening : bool)
| Ip (addr route link : bool)
| PortScan (host : string) (start_port end_port timeout_ms : Z)
| Arp | Dns (hostname : string) (type_ : option string)
| Service (action : ServiceActionType)
| Journal (unit_ : option string) (follow : bool) (lines : Z) (priority since : option string)
| Pkg (action : PkgActionType)
| Docker (action : DockerActionType)
| Crontab (action : CrontabActionType)
| Firewall (backend : string)
| Ssh | Checksum (path algorithm : string)
| ShellExec (cmd : string) (timeout_secs : Z)
| ReadFile (path : string)
| BatchContent (lines : list string) (timeout : Z)
| Watch (interval_secs : Z) (cmd : list string)
| WriteFile (path : string) (data : list byte) (append : bool)
| Sed (path pattern replacement : string) (global regex : bool)
| Touch (path : string).

Inductive ControlMsg :=
| Exec (id : Z) (cmd : string)
| FilePush (id : Z) (path : string) (size : Z)
| FileChunk (id offset : Z) (data : list byte)
| FileAck (id offset : Z)
| KeyEvent (down : bool) (scancode vk : Z)
| MouseMove (dx dy : Z)
| MouseButton (button : Z) (down : bool)
| MouseWheel (delta : Z)
| VideoStart (width height fps bitrate_kbps : Z)
| VideoStop
| AudioStart (sample_rate channels : Z)
| AudioStop
| Hello (version : Z) (capabilities : list string)
| HelloAck (version : Z) (capabilities : list string)
| ExecStarted (id : Z)
| ExecChunk (id stream : Z) (data : list byte)
| ExecDone (id : Z) (exit_code : option Z)
| ExecStdin (id : Z) (data : list byte) (close : bool)
| ExecSignal (id signo : Z)
| NativeCmd (id : Z) (cmd : NativeCmdType)
| NativeSpawn (id : Z) (cmd : NativeCmdType).

(** ** Lemmas *)

Section CodecLemmas.
Context `{BufCrateOk}.

(** The wire image of a header: nine fields, 38 bytes. *)
Lemma encode_layout h buf :
  encode h buf = buf ++ le_bytes 8 (conn_id h) ++ le_bytes 1 (PacketType.as_u8 (pkt_type h))
    ++ le_bytes 1 (bits (flags h)) ++ le_bytes 2 (stream_id h) ++ le_bytes 4 (seq h)
    ++ le_bytes 4 (ack_seq h) ++ le_bytes 4 (ack_bitmap h) ++ le_bytes 2 (payload_len h)
    ++ nonce h.
Proof.
  unfold encode.
  rewrite put_slice_ok, !put_u16_le_ok, !put_u32_le_ok, !put_u8_ok, put_u64_le_ok.
  by rewrite <-!app_assoc.
Qed.

Lemma length_encode h : length (nonce h) = 12%nat → length (encode h []) = HEADER_SIZE.
Proof. intros Hn. rewrite encode_layout. simpl_lengths. rewrite Hn. done. Qed.

(** Decoding a buffer given as its nine fields. *)
Lemma decode_fields c t f s q a m l n rest :
  length c = 8%nat → length t = 1%nat → length f = 1%nat → length s = 2%nat →
  length q = 4%nat → length a = 4%nat → length m = 4%nat → length l = 2%nat →
  length n = 12%nat →
  decode (c ++ t ++ f ++ s ++ q ++ a ++ m ++ l ++ n ++ rest) =
  match PacketType.from_u8 (of_le t) with
  | None => Some (None, f ++ s ++ q ++ a ++ m ++ l ++ n ++ rest)
  | Some ty =>
      Some (Some (mkHeader (of_le c) ty (mkFlags (of_le f)) (of_le s) (of_le q)
                    (of_le a) (of_le m) (of_le l) n), rest)
  end.
Proof.
  intros Hc Ht Hf Hs Hq Ha Hm Hl Hn. unfold decode. rewrite remaining_ok.
  case_match eqn:E; [exfalso; apply Nat.ltb_lt in E; unfold HEADER_SIZE in E; simpl_lengths; lia|].
  rewrite get_u64_le_ok by done. cbn [mbind option_bind].
  rewrite get_u8_ok by done. cbn [mbind option_bind].
  destruct (PacketType.from_u8 (of_le t)); [|done].
  rewrite get_u8_ok by done. cbn [mbind option_bind].
  rewrite get_u16_le_ok by done. cbn [mbind option_bind].
  do 3 (rewrite get_u32_le_ok by done; cbn [mbind option_bind]).
  rewrite get_u16_le_ok by done. cbn [mbind option_bind].
  by rewrite copy_to_slice_ok.
Qed.

(** Every buffer of at least 38 bytes has the nine fields. *)
Lemma split_fields (buf : list byte) :
  (HEADER_SIZE ≤ length buf)%nat →
  ∃ c t f s q a m l n rest,
    buf = c ++ t ++ f ++ s ++ q ++ a ++ m ++ l ++ n ++ rest ∧
    length c = 8%nat ∧ length t = 1%nat ∧ length f = 1%nat ∧ length s = 2%nat ∧
    length q = 4%nat ∧ length a = 4%nat ∧ length m = 4%nat ∧ length l = 2%nat ∧
    length n = 12%nat.
Proof.
  intros Hlen. unfold HEADER_SIZE in Hlen.
  exists (take 8 buf), (take 1 (drop 8 buf)), (take 1 (drop 9 buf)), (take 2 (drop 10 buf)),
    (take 4 (drop 12 buf)), (take 4 (drop 16 buf)), (take 4 (drop 20 buf)),
    (take 2 (drop 24 buf)), (take 12 (drop 26 buf)), (drop 38 buf).
  split; [|split_and!; rewrite ?length_take, ?length_drop; lia].
  assert (Hstep : ∀ k j j', j' = (j + k)%nat → take k (drop j buf) ++ drop j' buf = drop j buf).
  { intros k j j' ->. by rewrite <-drop_drop, take_drop. }
  rewrite (Hstep 12 26 38)%nat, (Hstep 2 24 26)%nat, (Hstep 4 20 24)%nat, (Hstep 4 16 20)%nat,
    (Hstep 4 12 16)%nat, (Hstep 2 10 12)%nat, (Hstep 1 9 10)%nat, (Hstep 1 8 9)%nat by done.
  by rewrite take_drop.
Qed.

(** Encoding a header and decoding the bytes gives the header back and
    leaves the cursor on the payload that follows, whatever it is. *)
Theorem decode_encode h payload :
  header_ok h → decode (encode h [] ++ payload) = Some (Some h, payload).
Proof.
  intros (Hc & Hf & Hs & Hq & Ha & Hm & Hl & Hn).
  rewrite encode_layout, app_nil_l, <-!app_assoc.
  rewrite decode_fields by (done || apply length_le_bytes).
  rewrite !of_le_le_bytes_id by (done || apply PacketType.as_u8_fits).
  rewrite PacketType.from_as_u8. by destruct h as [? ? [] ? ? ? ? ? ?].
Qed.

(** C21: decoding never panics, and it is exact: it returns [None] only for a
    short buffer or an unknown packet type, and otherwise a header of the
    field ranges whose encoding is the 38 bytes consumed. *)
Theorem decode_exact buf :
  ∃ r rest, decode buf = Some (r, rest) ∧
    match r with
    | None => (length buf < HEADER_SIZE)%nat ∨
              PacketType.from_u8 (of_le (slice 8 9 buf)) = None
    | Some h => header_ok h ∧ buf = encode h [] ++ rest
    end.
Proof.
  destruct (decide (HEADER_SIZE ≤ length buf)%nat) as [Hle|Hlt].
  - destruct (split_fields buf Hle) as (c & t & f & s & q & a & m & l & n & rest & -> & Hc &
      Ht & Hf & Hs & Hq & Ha & Hm & Hl & Hn).
    rewrite decode_fields by done.
    destruct (PacketType.from_u8 (of_le t)) as [ty|] eqn:Hty.
    + eexists _, _; split; [done|]. split.
      * unfold header_ok; cbn [conn_id flags bits stream_id seq ack_seq ack_bitmap
          payload_len nonce].
        pose proof (of_le_range c); pose proof (of_le_range f); pose proof (of_le_range s);
        pose proof (of_le_range q); pose proof (of_le_range a); pose proof (of_le_range m);
        pose proof (of_le_range l).
        rewrite Hc, Hf, Hs, Hq, Ha, Hm, Hl in *. done.
      * rewrite encode_layout, app_nil_l, <-!app_assoc. cbn.
        apply PacketType.from_u8_Some in Hty. rewrite Hty.
        by rewrite !le_bytes_of_le' by done.
    + eexists _, _; split; [done|]. right.
      by rewrite (slice_mid 8 9 c t) by (by rewrite ?Hc, ?Ht).
  - exists None, buf. unfold decode. rewrite remaining_ok.
    case_match eqn:E; [split; [done|left; lia]|].
    apply Nat.ltb_ge in E. lia.
Qed.
End CodecLemmas.

(** On 64-bit connections and 32-bit sequence numbers the nonce is a
    12-byte string that determines both, so two packets of the same key share
    a nonce only when they share connection and sequence number. *)
Theorem make_nonce_inj c1 s1 c2 s2 :
  u64_ok c1 → u32_ok s1 → u64_ok c2 → u32_ok s2 →
  length (make_nonce c1 s1) = 12%nat ∧
  (make_nonce c1 s1 = make_nonce c2 s2 ↔ c1 = c2 ∧ s1 = s2).
Proof.
  intros H1 H2 H3 H4. split; [done|]. split; [|by intros [-> ->]].
  unfold make_nonce. intros Heq. apply app_inj_1 in Heq as [Hc Hs]; [|done].
  split.
  - rewrite <-(of_le_le_bytes_id 8 c1), Hc by done. by apply of_le_le_bytes_id.
  - rewrite <-(of_le_le_bytes_id 4 s1), Hs by done. by apply of_le_le_bytes_id.
Qed.

(** ** Witnesses *)

Definition sample_header : PacketHeader :=
  mkHeader 0x1122334455667788 Data RELIABLE 5 7 3 0xFF 2 (make_nonce 0x1122334455667788 7).

Lemma sample_header_ok : header_ok sample_header.
Proof. unfold header_ok, sample_header, fits. simpl. split_and!; lia || done. Qed.

Lemma decode_encode_witness :
  header_ok sample_header ∧
  decode (encode sample_header [] ++ [Byte.x2a; Byte.x2b]) =
    Some (Some sample_header, [Byte.x2a; Byte.x2b]).
Proof. split; [exact sample_header_ok|]. apply decode_encode, sample_header_ok. Defined.

Lemma decode_exact_witness :
  ∃ r rest, decode (replicate 40 Byte.x09) = Some (r, rest) ∧
    match r with
    | None => (length (replicate 40 Byte.x09) < HEADER_SIZE)%nat ∨
              PacketType.from_u8 (of_le (slice 8 9 (replicate 40 Byte.x09))) = None
    | Some h => header_ok h ∧ replicate 40 Byte.x09 = encode h [] ++ rest
    end.
Proof. apply (decode_exact (replicate 40 Byte.x09)). Defined.

Lemma make_nonce_inj_witness :
  length (make_nonce 42 1) = 12%nat ∧
  (make_nonce 42 1 = make_nonce 42 2 ↔ 42 = 42 ∧ 1 = 2).
Proof. apply (make_nonce_inj 42 1 42 2); unfold fits; lia. Defined.
