(* ===== verification/Text.v ===== *)
(** * Text: the string operations of the standard library the program uses

    [str::splitn], [str::parse] at unsigned integers, [str::starts_with],
    with the lemmas that relate them to concatenation and printing.  A Rust
    string is its UTF-8 bytes; every separator used is ASCII, so splitting
    the bytes is splitting the characters. *)
From Stdlib Require Import Ascii.
From S2P Require Import Prelude.
#[local] Open Scope Z_scope.

(** [s.split_once(c)]: around the first [c]. *)
Fixpoint split_once (c : ascii) (s : string) : option (string * string) :=
  match s with
  | EmptyString => None
  | String a s =>
      if Ascii.eqb a c then Some (EmptyString, s) else
      '(x, y) ← split_once c s; Some (String a x, y)
  end.

(** [s.splitn(n, c)]: at most [n] pieces, the last one unsplit. *)
Fixpoint splitn (n : nat) (c : ascii) (s : string) : list string :=
  match n with
  | O => []
  | S n =>
      match n with
      | O => [s]
      | S _ =>
          match split_once c s with
          | None => [s]
          | Some (x, y) => x :: splitn n c y
          end
      end
  end.

Fixpoint starts_with (p s : string) : bool :=
  match p, s with
  | EmptyString, _ => true
  | String a p, String b s => Ascii.eqb a b && starts_with p s
  | _, _ => false
  end.

Definition digit_value (a : ascii) : option Z :=
  let n := Z.of_nat (nat_of_ascii a) in
  if (48 <=? n) && (n <=? 57) then Some (n - 48) else None.
Fixpoint parse_digits (w acc : Z) (s : string) : option Z :=
  match s with
  | EmptyString => Some acc
  | String a s =>
      d ← digit_value a;
      if acc * 10 + d <? 2 ^ w then parse_digits w (acc * 10 + d) s else None
  end.
(** [s.parse::<uN>().ok()] at width [w]: decimal digits, after an optional
    plus sign. *)
Definition parse_uint (w : Z) (s : string) : option Z :=
  match s with
  | EmptyString => None
  | String a s' =>
      if Ascii.eqb a "+"%char
      then match s' with EmptyString => None | _ => parse_digits w 0 s' end
      else parse_digits w 0 s
  end.

(** [s.trim().is_empty()] of the bytes of [s]: only characters of Unicode's [White_Space]. *)
Fixpoint white_space (bs : list byte) : bool :=
  match bs with
  | [] => true
  | b0 :: r0 =>
      if in_range 9 13 b0 || in_range 32 32 b0 then white_space r0 else
      match r0 with
      | [] => false
      | b1 :: r1 =>
          if in_range 0xC2 0xC2 b0 && (in_range 0x85 0x85 b1 || in_range 0xA0 0xA0 b1)
          then white_space r1 else
          match r1 with
          | [] => false
          | b2 :: r2 =>
              let tri x y z := in_range x x b0 && in_range y y b1 && in_range z z b2 in
              if tri 0xE1 0x9A 0x80 || tri 0xE2 0x80 0xA8 || tri 0xE2 0x80 0xA9 || tri 0xE2 0x80 0xAF
                 || tri 0xE2 0x81 0x9F || tri 0xE3 0x80 0x80
                 || (in_range 0xE2 0xE2 b0 && in_range 0x80 0x80 b1 && in_range 0x80 0x8A b2)
              then white_space r2 else false
          end
      end
  end.

(** [format!("{:0w$}", z)], for [z] not negative *)
Fixpoint zeros (n : nat) (s : string) : string :=
  match n with O => s | S n => String "0"%char (zeros n s) end.
Definition pad (w : nat) (z : Z) : string :=
  zeros (w - String.length (pretty z)) (pretty z).
(** [format!("{:<w$}", s)]: the width counts characters, which is every byte
    that does not continue one. *)
Definition char_count (s : string) : nat :=
  length (filter (λ b, in_range 0x80 0xBF b = false) (as_bytes s)).
Fixpoint repeat_string (n : nat) (s : string) : string :=
  match n with O => EmptyString | S n => s +:+ repeat_string n s end.
Definition pad_right (w : nat) (s : string) : string := s +:+ repeat_string (w - char_count s) " ".
(** [l.join(sep)] *)
Fixpoint join (sep : string) (l : list string) : string :=
  match l with [] => EmptyString | [s] => s | s :: l => s +:+ sep +:+ join sep l end.
(** [s.trim_start_matches(c)] *)
Fixpoint trim_start (c : ascii) (s : string) : string :=
  match s with
  | String a s' => if Ascii.eqb a c then trim_start c s' else s
  | EmptyString => EmptyString
  end.

(** [c] does not occur in [s]. *)
Fixpoint free_of (c : ascii) (s : string) : bool :=
  match s with
  | EmptyString => true
  | String a s => negb (Ascii.eqb a c) && free_of c s
  end.

(** ** Lemmas *)

Lemma split_once_app c x y :
  free_of c x = true → split_once c (x +:+ String c y) = Some (x, y).
Proof.
  induction x as [|a x IH]; simpl.
  - by rewrite Ascii.eqb_refl.
  - intros [Ha Hx]%andb_true_iff. apply negb_true_iff in Ha. rewrite Ha.
    by rewrite (IH Hx).
Qed.
Lemma split_once_free c s : free_of c s = true → split_once c s = None.
Proof.
  induction s as [|a s IH]; simpl; [done|].
  intros [Ha Hs]%andb_true_iff. apply negb_true_iff in Ha. rewrite Ha. by rewrite (IH Hs).
Qed.
Lemma split_once_Some c s x y :
  split_once c s = Some (x, y) → s = x +:+ String c y ∧ free_of c x = true.
Proof.
  revert x. induction s as [|a s IH]; intros x; simpl; [done|].
  destruct (Ascii.eqb_spec a c) as [->|Hne]; [by intros [= <- <-]|].
  destruct (split_once c s) as [[x' y']|] eqn:E; [|done]. simpl. intros [= <- <-].
  destruct (IH x' eq_refl) as [-> Hx]. simpl. apply Ascii.eqb_neq in Hne.
  by rewrite Hne, Hx.
Qed.
Lemma split_once_None c s : split_once c s = None → free_of c s = true.
Proof.
  induction s as [|a s IH]; simpl; [done|].
  destruct (Ascii.eqb a c); [done|]. destruct (split_once c s) as [[]|]; [done|auto].
Qed.

Lemma parse_digits_fits w acc s z : parse_digits w acc s = Some z → fits w acc → fits w z.
Proof.
  revert acc. induction s as [|a s IH]; intros acc; simpl; [by intros [= ->]|].
  unfold digit_value. destruct (_ && _) eqn:E; [|done]. simpl.
  apply andb_true_iff in E as [E%Z.leb_le _].
  destruct (Z.ltb_spec (acc * 10 + (Z.of_nat (nat_of_ascii a) - 48)) (2 ^ w)); [|done].
  intros Hp Ha. eapply IH; [done|]. unfold fits in *. lia.
Qed.
Lemma parse_uint_fits w s z : 0 <= w → parse_uint w s = Some z → fits w z.
Proof.
  intros Hw. assert (fits w 0) by (unfold fits; lia).
  destruct s as [|a s]; [done|]. unfold parse_uint. case_match.
  - destruct s; [done|]. intros Hp. by eapply parse_digits_fits.
  - intros Hp. by eapply parse_digits_fits.
Qed.

Lemma pretty_char_value n : (n < 10)%N → digit_value (pretty_N_char n) = Some (Z.of_N n).
Proof.
  intros Hn. assert (Hf : Forall (λ n, digit_value (pretty_N_char n) = Some (Z.of_N n))
    (N.of_nat <$> List.seq 0 10)) by repeat constructor.
  rewrite Forall_forall in Hf. apply Hf. apply list_elem_of_fmap. exists (N.to_nat n).
  split; [lia|]. apply elem_of_seq. lia.
Qed.

Lemma parse_pretty_go w x s :
  Z.of_N x < 2 ^ w → parse_digits w 0 (pretty_N_go x s) = parse_digits w (Z.of_N x) s.
Proof.
  revert s. induction (N.lt_wf_0 x) as [x _ IH]. intros s Hx.
  destruct (decide (x = 0)%N) as [->|Hne]; [by rewrite pretty_N_go_0|].
  rewrite pretty_N_go_step by lia.
  assert (Hm : (x mod 10 < 10)%N) by (apply N.mod_lt; lia).
  rewrite IH; [|apply N.div_lt; lia|rewrite N2Z.inj_div; Z.to_euclidean_division_equations; lia].
  simpl. rewrite pretty_char_value by done. simpl.
  replace (Z.of_N (x / 10) * 10 + Z.of_N (x mod 10)) with (Z.of_N x).
  - by rewrite (proj2 (Z.ltb_lt _ _)).
  - rewrite N2Z.inj_div, N2Z.inj_mod. Z.to_euclidean_division_equations. lia.
Qed.

Lemma pretty_go_length x s : (String.length s ≤ String.length (pretty_N_go x s))%nat.
Proof.
  revert s. induction (N.lt_wf_0 x) as [x _ IH]. intros s.
  destruct (decide (x = 0)%N) as [->|Hne]; [by rewrite pretty_N_go_0|].
  rewrite pretty_N_go_step by lia.
  etransitivity; [|apply IH, N.div_lt; lia]. simpl. lia.
Qed.

Lemma parse_digits_pretty w z :
  fits w z → parse_digits w 0 (pretty z) = Some z ∧ (0 < String.length (pretty z))%nat.
Proof.
  unfold fits. intros Hz. destruct z as [|p|p]; [| |lia].
  - change (pretty 0) with "0"%string. cbn [parse_digits].
    change (digit_value "0"%char) with (Some 0). cbn [mbind option_bind].
    rewrite (proj2 (Z.ltb_lt _ _)) by lia. split; [done|simpl; lia].
  - change (pretty (Z.pos p)) with (pretty_N_go (N.pos p) ""). split.
    + by rewrite parse_pretty_go by (simpl; lia).
    + rewrite pretty_N_go_step by lia.
      eapply Nat.lt_le_trans; [|apply pretty_go_length]. simpl. lia.
Qed.
(** Printing an integer that fits and parsing it back. *)
Lemma parse_uint_pretty w z : fits w z → parse_uint w (pretty z) = Some z.
Proof.
  intros [Hd Hl]%parse_digits_pretty. destruct (pretty z) as [|a s]; [simpl in Hl; lia|].
  unfold parse_uint. destruct (Ascii.eqb_spec a "+"%char) as [->|]; [|done].
  discriminate Hd.
Qed.

(** Printed integers have digits only. *)
Lemma free_of_pretty_char c n :
  digit_value c = None → (n < 10)%N → Ascii.eqb (pretty_N_char n) c = false.
Proof.
  intros Hc Hn. apply Ascii.eqb_neq. intros <-. by rewrite pretty_char_value in Hc.
Qed.
Lemma free_of_pretty c z : digit_value c = None → 0 <= z → free_of c (pretty z) = true.
Proof.
  intros Hc Hz. assert (Hgo : ∀ x s, free_of c s = true → free_of c (pretty_N_go x s) = true).
  { intros x. induction (N.lt_wf_0 x) as [x _ IH]. intros s Hs.
    destruct (decide (x = 0)%N) as [->|Hne]; [by rewrite pretty_N_go_0|].
    rewrite pretty_N_go_step by lia. apply IH; [apply N.div_lt; lia|].
    cbn [free_of]. rewrite free_of_pretty_char; [done|done|apply N.mod_lt; lia]. }
  destruct z as [|p|p]; [|by apply (Hgo (N.pos p))|lia].
  change (pretty 0) with (String (pretty_N_char 0) ""). cbn [free_of].
  by rewrite free_of_pretty_char.
Qed.

(** The part after the last [c]. *)
Lemma last_part_inj c x y x' y' :
  free_of c y = true → free_of c y' = true →
  x +:+ String c y = x' +:+ String c y' → y = y'.
Proof.
  assert (Hmid : ∀ u v, free_of c (u +:+ String c v) = false).
  { intros u v. induction u as [|a u IH]; simpl.
    - by rewrite Ascii.eqb_refl.
    - by rewrite IH, andb_false_r. }
  intros Hy Hy'. revert x'. induction x as [|a x IH]; intros [|a' x']; simpl.
  - by intros [= ->].
  - intros [= _ ->]. by rewrite Hmid in Hy.
  - intros [= _ <-]. by rewrite Hmid in Hy'.
  - intros [= _ E]. by apply (IH x').
Qed.
