(* ===== verification/Lines.v ===== *)
(** * Lines: lines, words and substrings

    The rest of [str] that the native commands and the terminal use:
    [lines], [split_whitespace], [trim], [contains], [replace] and padding.  A
    string is its UTF-8 bytes.  A line ends with a line feed, which may follow a
    carriage return; the last one may lack it. *)
From Stdlib Require Import Ascii.
From S2P Require Import Prelude Text.
#[local] Open Scope Z_scope.

Definition LF : ascii := ascii_of_nat 10.
Definition CR : ascii := ascii_of_nat 13.
(** The string of one line feed. *)
Definition nl : string := String LF "".

(** ** Definitions *)

(** A carriage return at the end is dropped. *)
Fixpoint strip_cr (s : string) : string :=
  match s with
  | EmptyString => EmptyString
  | String a EmptyString => if Ascii.eqb a CR then EmptyString else s
  | String a s => String a (strip_cr s)
  end.
(** [s.split(c)] *)
Fixpoint split (c : ascii) (s : string) : list string :=
  match s with
  | EmptyString => [EmptyString]
  | String a s =>
      if Ascii.eqb a c then EmptyString :: split c s else
      match split c s with [] => [String a EmptyString] | x :: xs => String a x :: xs end
  end.
(** The lines with their carriage returns: what follows the last line feed is a line if it is
    not empty. *)
Fixpoint raw_lines (s : string) : list string :=
  match s with
  | EmptyString => []
  | String a s =>
      if Ascii.eqb a LF then EmptyString :: raw_lines s else
      match s with
      | EmptyString => [String a EmptyString]
      | _ => match raw_lines s with [] => [String a EmptyString] | x :: xs => String a x :: xs end
      end
  end.
(** [s.lines()]: the carriage return of a line is dropped only before a line feed. *)
Fixpoint ends_with_lf (s : string) : bool :=
  match s with EmptyString => false | String a EmptyString => Ascii.eqb a LF | String _ s => ends_with_lf s end.
Definition lines (s : string) : list string :=
  let ls := raw_lines s in
  if ends_with_lf s then strip_cr <$> ls
  else (strip_cr <$> removelast ls) ++ match last ls with Some l => [l] | None => [] end.
(** Every line followed by a line feed. *)
Fixpoint unlines (ls : list string) : string :=
  match ls with [] => EmptyString | l :: ls => l +:+ nl +:+ unlines ls end.

(** The characters, each as its bytes: a continuation byte belongs to the one before it. *)
Fixpoint chars (bs : list byte) : list (list byte) :=
  match bs with
  | [] => []
  | b :: bs =>
      match chars bs with
      | (b' :: c) :: cs => if utf8_cont b' then (b :: b' :: c) :: cs else [b] :: (b' :: c) :: cs
      | cs => [b] :: cs
      end
  end.
(** [s.len()] in bytes, and [s.is_char_boundary(i)]. *)
Definition byte_len (s : string) : nat := length (as_bytes s).
Definition char_boundary (i : nat) (s : string) : bool :=
  match as_bytes s !! i with
  | Some b => (i =? 0)%nat || negb (utf8_cont b)
  | None => (i =? byte_len s)%nat
  end.
(** [s.split_whitespace()]; [cur] is the word being read. *)
Fixpoint words_from (cur : list byte) (cs : list (list byte)) : list (list byte) :=
  match cs with
  | [] => match cur with [] => [] | _ => [cur] end
  | c :: cs =>
      if white_space c
      then match cur with [] => words_from [] cs | _ => cur :: words_from [] cs end
      else words_from (cur ++ c) cs
  end.
Definition split_whitespace (s : string) : list string :=
  String.string_of_list_byte <$> words_from [] (chars (as_bytes s)).

(** [s.trim()]: after the longest prefix and before the longest suffix of white space. *)
Definition trim_left (bs : list byte) : list byte :=
  drop (default 0%nat (last (filter (λ n, white_space (take n bs) = true) (seq 0 (S (length bs)))))) bs.
Fixpoint trim_right (bs : list byte) : list byte :=
  if white_space bs then [] else match bs with b :: bs => b :: trim_right bs | [] => [] end.
Definition trim (s : string) : string := String.string_of_list_byte (trim_right (trim_left (as_bytes s))).

(** [String::from_utf8_lossy(bytes)]: each longest start of a character that does not go on
    becomes U+FFFD. *)
Definition unknown_char : list byte := [Byte.xef; Byte.xbf; Byte.xbd].
Definition triple_start (b0 b1 : byte) : bool := utf8_triple b0 b1 Byte.x80.
Definition quad_start (b0 b1 : byte) : bool := utf8_quad b0 b1 Byte.x80 Byte.x80.
Fixpoint lossy (bs : list byte) : list byte :=
  match bs with
  | [] => []
  | b0 :: r0 =>
      if in_range 0 0x7F b0 then b0 :: lossy r0 else
      match r0 with
      | [] => unknown_char
      | b1 :: r1 =>
          if utf8_pair b0 b1 then b0 :: b1 :: lossy r1
          else if triple_start b0 b1 then
            match r1 with
            | [] => unknown_char
            | b2 :: r2 => if utf8_cont b2 then b0 :: b1 :: b2 :: lossy r2 else unknown_char ++ lossy r1
            end
          else if quad_start b0 b1 then
            match r1 with
            | [] => unknown_char
            | b2 :: r2 =>
                if utf8_cont b2 then
                  match r2 with
                  | [] => unknown_char
                  | b3 :: r3 =>
                      if utf8_cont b3 then b0 :: b1 :: b2 :: b3 :: lossy r3 else unknown_char ++ lossy r2
                  end
                else unknown_char ++ lossy r1
            end
          else unknown_char ++ lossy r0
      end
  end.
Definition from_utf8_lossy (bs : list byte) : string := String.string_of_list_byte (lossy bs).

(** [s.contains(p)] *)
Fixpoint contains (p s : string) : bool :=
  starts_with p s || match s with EmptyString => false | String _ s => contains p s end.
(** [s.strip_prefix(p)] *)
Fixpoint strip_prefix (p s : string) : option string :=
  match p, s with
  | EmptyString, _ => Some s
  | String a p, String b s => if Ascii.eqb a b then strip_prefix p s else None
  | _, _ => None
  end.
Definition rev_str (s : string) : string :=
  String.string_of_list_ascii (rev (String.list_ascii_of_string s)).
Definition ends_with (p s : string) : bool := starts_with (rev_str p) (rev_str s).
(** [s.trim_end_matches(p)] of a text [p] that is not empty; [fuel] bounds how often. *)
Fixpoint strip_all (fuel : nat) (p s : string) : string :=
  match fuel with
  | O => s
  | S fuel => match strip_prefix p s with Some s' => strip_all fuel p s' | None => s end
  end.
Definition trim_end_matches (p s : string) : string :=
  rev_str (strip_all (String.length s) (rev_str p) (rev_str s)).

(** [s.replace(p, to)]: the leftmost occurrences that do not overlap; [skip] bytes of an
    occurrence are still to be passed over.  An empty [p] is found before every character and at
    the end. *)
Fixpoint replace_go (skip : nat) (p to s : string) : string :=
  match s with
  | EmptyString => EmptyString
  | String a s' =>
      match skip with
      | S skip => replace_go skip p to s'
      | O => if starts_with p s then to +:+ replace_go (String.length p - 1) p to s'
             else String a (replace_go 0 p to s')
      end
  end.
Definition between_chars (to s : string) : string :=
  String.string_of_list_byte (mjoin ((λ c, as_bytes to ++ c) <$> chars (as_bytes s)) ++ as_bytes to).
Definition replace (p to s : string) : string :=
  match p with EmptyString => between_chars to s | _ => replace_go 0 p to s end.

(** [format!("{:>w$}", s)] *)
Definition pad_left (w : nat) (s : string) : string := repeat_string (w - char_count s) " " +:+ s.

(** ** Lemmas *)

Lemma str_cons_app a s t : String a s +:+ t = String a (s +:+ t).
Proof. done. Qed.
Lemma str_nil_app s : "" +:+ s = s.
Proof. done. Qed.
Lemma str_app_nil_r s : s +:+ "" = s.
Proof. induction s as [|a s IH]; [done|]. by rewrite str_cons_app, IH. Qed.
Lemma str_app_assoc a b c : (a +:+ b) +:+ c = a +:+ b +:+ c.
Proof. induction a as [|x a IH]; [done|]. by rewrite !str_cons_app, IH. Qed.
Lemma str_length_app a b : String.length (a +:+ b) = (String.length a + String.length b)%nat.
Proof. induction a as [|x a IH]; [done|]. rewrite str_cons_app. cbn [String.length]. by rewrite IH. Qed.
Lemma as_bytes_cons a s : as_bytes (String a s) = byte_of_ascii a :: as_bytes s.
Proof. done. Qed.
Lemma as_bytes_length s : length (as_bytes s) = String.length s.
Proof. induction s as [|a s IH]; [done|]. by rewrite as_bytes_cons; cbn [length String.length]; rewrite IH. Qed.
Lemma as_bytes_app a b : as_bytes (a +:+ b) = as_bytes a ++ as_bytes b.
Proof. induction a as [|x a IH]; [done|]. by rewrite str_cons_app, !as_bytes_cons, IH. Qed.
Lemma str_app_ne l a s : l +:+ String a s ≠ "".
Proof. by destruct l. Qed.

Lemma raw_lines_cons l s : free_of LF l = true → raw_lines (l +:+ nl +:+ s) = l :: raw_lines s.
Proof.
  induction l as [|a l IH]; [done|]. intros [Ha Hl]%andb_true_iff. apply negb_true_iff in Ha.
  specialize (IH Hl). rewrite str_cons_app. cbn [raw_lines]. rewrite Ha.
  destruct (l +:+ nl +:+ s) eqn:E; [by apply str_app_ne in E|]. by rewrite IH.
Qed.
Lemma raw_lines_nonempty a s : raw_lines (String a s) ≠ [].
Proof. cbn. repeat case_match; done. Qed.
Lemma ends_with_lf_app l s : s ≠ "" → ends_with_lf (l +:+ s) = ends_with_lf s.
Proof.
  intros Hs. induction l as [|b l IH]; [done|]. rewrite str_cons_app. cbn [ends_with_lf].
  destruct (l +:+ s) eqn:E; [|exact IH]. destruct l; [|done]. by rewrite str_nil_app in E.
Qed.
(** The first line of a text. *)
Lemma lines_cons l s : free_of LF l = true → lines (l +:+ nl +:+ s) = strip_cr l :: lines s.
Proof.
  intros Hl. unfold lines. rewrite raw_lines_cons by done. rewrite ends_with_lf_app by done.
  destruct s as [|a s]; [by rewrite str_app_nil_r|].
  rewrite ends_with_lf_app by done.
  destruct (ends_with_lf _); [done|].
  destruct (raw_lines (String a s)) as [|x xs] eqn:E; [by apply raw_lines_nonempty in E|].
  destruct xs; done.
Qed.
(** A line as [lines] gives it: without a line feed and without a carriage return at its end. *)
Definition clean (l : string) : Prop := free_of LF l = true ∧ strip_cr l = l.
#[global] Instance clean_dec l : Decision (clean l) := _.
Lemma lines_unlines ls : Forall clean ls → lines (unlines ls) = ls.
Proof.
  induction 1 as [|l ls [Hf Hc] _ IH]; [done|]. cbn [unlines]. by rewrite lines_cons, Hc, IH.
Qed.
Lemma unlines_app a b : unlines (a ++ b) = unlines a +:+ unlines b.
Proof. induction a as [|l a IH]; [done|]. cbn [app unlines]. by rewrite IH, !str_app_assoc. Qed.


(** Valid UTF-8 is not changed. *)
Lemma lossy_valid bs : utf8_valid bs = true → lossy bs = bs.
Proof.
  remember (length bs) as n eqn:Hn. revert bs Hn.
  induction (lt_wf n) as [n _ IH]. intros [|b0 r0] ->; [done|]. cbn [utf8_valid lossy].
  destruct (in_range 0 127 b0); [intros H; by rewrite (IH (length r0)) by (done || cbn; lia)|].
  destruct r0 as [|b1 r1]; [done|].
  destruct (utf8_pair b0 b1); [intros H; by rewrite (IH (length r1)) by (done || cbn; lia)|].
  destruct r1 as [|b2 r2]; [done|]. unfold triple_start, quad_start.
  destruct (utf8_triple b0 b1 b2) eqn:Et.
  { intros H. unfold utf8_triple in Et |- *. apply andb_true_iff in Et as [-> ->].
    by rewrite (IH (length r2)) by (done || cbn; lia). }
  destruct r2 as [|b3 r3]; [done|]. destruct (utf8_quad b0 b1 b2 b3) eqn:Eq; [|done].
  intros H. unfold utf8_quad in Eq. apply andb_true_iff in Eq as [[Eq Ec2]%andb_true_iff Ec3].
  assert (Et' : utf8_triple b0 b1 Byte.x80 = false).
  { unfold utf8_triple. rewrite andb_true_r. unfold in_range in *. lia. }
  rewrite Et'. unfold utf8_quad. rewrite Eq, Ec2, Ec3. change (utf8_cont Byte.x80) with true. cbn [andb].
  by rewrite (IH (length r3)) by (done || cbn; lia).
Qed.
Lemma from_utf8_lossy_str s : is_str s → from_utf8_lossy (as_bytes s) = s.
Proof. intros Hs. unfold from_utf8_lossy. by rewrite lossy_valid, as_bytes_of. Qed.

(** ** Replacing *)

Lemma starts_with_app p t : starts_with p (p +:+ t) = true.
Proof. induction p as [|a p IH]; [done|]. rewrite str_cons_app. cbn [starts_with]. by rewrite Ascii.eqb_refl. Qed.
Lemma starts_with_split p s : starts_with p s = true → ∃ t, s = p +:+ t.
Proof.
  revert s. induction p as [|a p IH]; intros s; [by exists s|]. destruct s as [|b s]; [done|].
  cbn [starts_with]. intros [->%Ascii.eqb_eq Hs]%andb_true_iff. destruct (IH _ Hs) as [t ->]. by exists t.
Qed.
(** The result of replacing [p] by [to]: the first occurrence, and then those of the rest. *)
Inductive replaced (p to : string) : string → string → Prop :=
| replaced_none s : contains p s = false → replaced p to s s
| replaced_first a b b' :
    (∀ x y, a = x +:+ y → y ≠ "" → starts_with p (y +:+ p +:+ b) = false) →
    replaced p to b b' → replaced p to (a +:+ p +:+ b) (a +:+ to +:+ b').
Lemma replace_go_skip p to x s : replace_go (String.length x) p to (x +:+ s) = replace_go 0 p to s.
Proof. induction x as [|a x IH]; [done|]. by rewrite str_cons_app. Qed.
Lemma replace_go_none p to s : p ≠ "" → contains p s = false → replace_go 0 p to s = s.
Proof.
  intros Hp. induction s as [|a s IH]; [done|]. cbn [contains replace_go].
  intros [-> Hc]%orb_false_iff. by rewrite IH.
Qed.
Lemma replace_go_first p to a b :
  p ≠ "" → (∀ x y, a = x +:+ y → y ≠ "" → starts_with p (y +:+ p +:+ b) = false) →
  replace_go 0 p to (a +:+ p +:+ b) = a +:+ to +:+ replace_go 0 p to b.
Proof.
  intros Hp. induction a as [|c a IH]; intros Ha.
  - rewrite !str_nil_app. destruct p as [|c p]; [done|].
    pose proof (starts_with_app (String c p) b) as Hs. rewrite str_cons_app in Hs |- *. cbn [replace_go].
    rewrite Hs. f_equal. cbn [String.length]. replace (S (String.length p) - 1)%nat with (String.length p) by lia. apply replace_go_skip.
  - pose proof (Ha "" (String c a) eq_refl ltac:(done)) as H0. rewrite str_cons_app in H0 |- *. cbn [replace_go].
    rewrite H0, IH; [done|]. intros x y -> Hy. by apply (Ha (String c x)).
Qed.
Lemma contains_first p s :
  contains p s = true → ∃ a b, s = a +:+ p +:+ b
    ∧ ∀ x y, a = x +:+ y → y ≠ "" → starts_with p (y +:+ p +:+ b) = false.
Proof.
  induction s as [|c s IH]; cbn [contains].
  - rewrite orb_false_r. intros [t E]%starts_with_split. exists "", t. split; [done|].
    intros x y E'. by destruct x, y.
  - destruct (starts_with p (String c s)) eqn:Hs; cbn [orb].
    + intros _. apply starts_with_split in Hs as [t E]. exists "", t. split; [done|].
      intros x y E'. by destruct x, y.
    + intros (a & b & -> & Ha)%IH. exists (String c a), b. split; [done|].
      intros [|d x] y E Hy; [by rewrite str_nil_app in E; subst y|].
      rewrite str_cons_app in E. injection E as _ ->. by apply (Ha x).
Qed.
Lemma replace_replaced p to s : p ≠ "" → replaced p to s (replace p to s).
Proof.
  intros Hp. replace (replace p to s) with (replace_go 0 p to s) by by destruct p.
  remember (String.length s) as n eqn:Hn. revert s Hn.
  induction (lt_wf n) as [n _ IH]. intros s ->. destruct (contains p s) eqn:Hc.
  - apply contains_first in Hc as (a & b & -> & Ha). rewrite replace_go_first by done.
    apply replaced_first; [done|]. apply (IH (String.length b)); [|done].
    rewrite !str_length_app. destruct p; [done|]. cbn [String.length]. lia.
  - rewrite replace_go_none by done. by apply replaced_none.
Qed.
(** The result is determined. *)
Lemma replaced_unique p to s r1 r2 : p ≠ "" → replaced p to s r1 → r2 = replace p to s → r1 = r2.
Proof.
  intros Hp Hr ->. replace (replace p to s) with (replace_go 0 p to s) by by destruct p.
  induction Hr as [s Hc|a b b' Ha Hr IH]; [by rewrite replace_go_none|].
  by rewrite replace_go_first, IH.
Qed.

(** ** Characters and words *)

Lemma chars_cons b bs : chars (b :: bs) =
  match chars bs with
  | (b' :: c) :: cs => if utf8_cont b' then (b :: b' :: c) :: cs else [b] :: (b' :: c) :: cs
  | cs => [b] :: cs
  end.
Proof. done. Qed.
(** A character is a first byte and continuation bytes. *)
Definition one_char (c : list byte) : bool :=
  match c with [] => false | b :: t => negb (utf8_cont b) && forallb utf8_cont t end.
Definition starts_char (bs : list byte) : bool :=
  match bs with [] => true | b :: _ => negb (utf8_cont b) end.
Lemma chars_start bs : match chars bs with [] => bs = [] | c :: _ => ∃ b t r, c = b :: t ∧ bs = b :: r end.
Proof.
  destruct bs as [|b bs]; [done|]. rewrite chars_cons.
  destruct (chars bs) as [|[|b' c] cs]; [by eexists _, _, _..|]. destruct (utf8_cont b'); by eexists _, _, _.
Qed.
Lemma chars_first c bs : one_char c = true → starts_char bs = true → chars (c ++ bs) = c :: chars bs.
Proof.
  destruct c as [|b t]; [done|]. cbn [one_char]. intros [_ Ht]%andb_prop Hs. revert b.
  induction t as [|b' t IH]; intros b; cbn [app].
  - rewrite chars_cons. pose proof (chars_start bs) as Hc.
    destruct (chars bs) as [|[|b' c] cs]; [done|done|]. destruct Hc as (? & ? & ? & [= <- <-] & ->). cbn in Hs.
    by destruct (utf8_cont b').
  - cbn in Ht. apply andb_prop in Ht as [Hb Ht]. specialize (IH Ht b').
    cbn [app] in IH. rewrite chars_cons, IH. by rewrite Hb.
Qed.
Lemma chars_join bs : mjoin (chars bs) = bs.
Proof.
  induction bs as [|b bs IH]; [done|]. rewrite chars_cons. pose proof (chars_start bs) as Hc.
  destruct (chars bs) as [|[|b' c] cs]; cbn in *; [by subst|by destruct Hc as (? & ? & ? & ? & _)|].
  destruct (utf8_cont b'); cbn; by rewrite <-IH.
Qed.
Lemma white_space_app a b : white_space a = true → white_space b = true → white_space (a ++ b) = true.
Proof.
  remember (length a) as n eqn:Hn. revert a Hn. induction (lt_wf n) as [n _ IH]. intros a -> Ha Hb.
  destruct a as [|b0 r0]; [done|]. cbn [white_space app] in Ha |- *.
  destruct (in_range 9 13 b0 || in_range 32 32 b0); [apply (IH (length r0)); (done || cbn; lia)|].
  destruct r0 as [|b1 r1]; [done|]. cbn [app]. destruct (in_range 194 194 b0 && _); [apply (IH (length r1)); (done || cbn; lia)|].
  destruct r1 as [|b2 r2]; [done|]. cbn [app]. destruct (_ || _ || _); [apply (IH (length r2)); (done || cbn; lia)|done].
Qed.
Lemma words_from_white cur cs : words_from cur cs = [] → cur = [] ∧ Forall (λ c, white_space c = true) cs.
Proof.
  revert cur. induction cs as [|c cs IH]; intros cur; cbn; [by destruct cur|].
  destruct (white_space c) eqn:Hw; [destruct cur; [intros [_ H]%IH; by split; [|constructor]|done]|].
  intros [E _]%IH. apply app_nil in E as [-> ->]. done.
Qed.
Lemma white_no_words s : split_whitespace s = [] → white_space (as_bytes s) = true.
Proof.
  unfold split_whitespace. intros [_ H]%fmap_nil_inv%words_from_white. rewrite <-(chars_join (as_bytes s)).
  induction H as [|c cs Hc _ IH]; [done|]. by apply white_space_app.
Qed.
Lemma trim_right_prefix bs : ∃ w, bs = trim_right bs ++ w ∧ white_space w = true.
Proof.
  induction bs as [|b bs (w & IH & Hw)]; [by exists []|]. cbn [trim_right].
  destruct (white_space (b :: bs)) eqn:E; [by exists (b :: bs)|]. exists w. split; [|done]. cbn. by rewrite <-IH.
Qed.
Lemma trim_right_white bs : white_space (trim_right bs) = true → trim_right bs = [].
Proof.
  destruct (trim_right_prefix bs) as (w & E & Hw). intros H.
  assert (white_space bs = true) as Hb by (rewrite E; by apply white_space_app).
  destruct bs; cbn [trim_right]; by rewrite Hb.
Qed.
(** What is left of a trimmed string has a word. *)
Lemma trim_words s : split_whitespace (trim s) = [] → trim s = ""%string.
Proof.
  intros H%white_no_words. unfold trim in *. unfold as_bytes in H. rewrite String.list_byte_of_string_of_list_byte in H.
  by rewrite (trim_right_white (trim_left (as_bytes s)) H).
Qed.

(** Splitting at a character. *)
Lemma split_app c x y : free_of c x = true → split c (x +:+ String c y) = x :: split c y.
Proof.
  induction x as [|a x IH]; [by intros _; rewrite str_nil_app; cbn [split]; rewrite Ascii.eqb_refl|].
  intros [Ha%negb_true_iff Hx]%andb_true_iff. rewrite str_cons_app. cbn [split]. by rewrite Ha, IH.
Qed.
Lemma split_free c x : free_of c x = true → split c x = [x].
Proof.
  induction x as [|a x IH]; [done|]. intros [Ha%negb_true_iff Hx]%andb_true_iff. cbn [split]. by rewrite Ha, IH.
Qed.
Lemma free_of_app c x y : free_of c (x +:+ y) = free_of c x && free_of c y.
Proof. induction x as [|a x IH]; [done|]. rewrite str_cons_app. cbn [free_of]. by rewrite IH, andb_assoc. Qed.

(** Trimming visible ASCII text with white space after it. *)
Definition visible (b : byte) : Prop := in_range 0x21 0x7E b = true.
Lemma visible_not_white b bs : visible b → white_space (b :: bs) = false.
Proof. unfold visible. intros Hb. destruct b; try discriminate Hb; cbn; by repeat case_match. Qed.
Lemma visible_utf8 bs w : Forall visible bs → utf8_valid (bs ++ w) = utf8_valid w.
Proof.
  induction 1 as [|b bs Hb _ IH]; [done|]. cbn [app utf8_valid]. unfold visible, in_range in *.
  by rewrite (proj2 (andb_true_iff _ _)) by lia.
Qed.
Lemma trim_left_visible b bs : visible b → trim_left (b :: bs) = b :: bs.
Proof.
  intros Hb. unfold trim_left.
  destruct (last (filter _ _)) as [n|] eqn:E; [|done].
  apply last_Some_elem_of, list_elem_of_filter in E as [E _]. destruct n as [|n]; [done|].
  cbn [take] in E. by rewrite visible_not_white in E.
Qed.
Lemma trim_right_visible bs w : Forall visible bs → white_space w = true → trim_right (bs ++ w) = bs.
Proof.
  intros Hbs Hw. induction Hbs as [|b bs Hb _ IH].
  - cbn [app]. destruct w; cbn [trim_right]; by rewrite Hw.
  - cbn [app trim_right]. by rewrite visible_not_white, IH.
Qed.
Lemma trim_visible bs w : Forall visible bs → bs ≠ [] → white_space w = true →
  trim (String.string_of_list_byte (bs ++ w)) = String.string_of_list_byte bs.
Proof.
  intros Hbs Hne Hw. unfold trim, as_bytes. rewrite String.list_byte_of_string_of_list_byte.
  destruct Hbs as [|b bs Hb Hbs]; [done|]. cbn [app]. rewrite trim_left_visible by done.
  change (b :: bs ++ w) with ((b :: bs) ++ w). by rewrite trim_right_visible by (try constructor; done).
Qed.
