(* ===== verification/Reliable.v ===== *)
(** * Reliable: selective-repeat ARQ

    Models crates/protocol/src/reliable.rs: [ReliableSender] (32-packet
    window, retransmission) and [ReliableReceiver] (reordering).  [u32]
    arithmetic wraps; [Instant::now()] is the argument [now]. *)
From S2P Require Import Prelude Frame.

Definition WINDOW_SIZE : Z := 32.
Definition RTO : Duration := from_millis 200.
Definition MAX_RETRIES : Z := 10.

(** ** Sender *)

Record SendSlot := mkSlot {
  slot_seq : Z;
  slot_data : list byte;
  sent_at : Instant;
  retries : Z;
  acked : bool
}.

Record ReliableSender := mkSender {
  snd_conn_id : Z;
  snd_stream_id : Z;
  next_seq : Z;
  window_base : Z;
  slots : list SendSlot
}.

Module Sender.

Definition new (conn_id stream_id : Z) : ReliableSender := mkSender conn_id stream_id 0 0 [].

Definition encode_packet `{BufCrate} (conn_id stream_id seq : Z) (payload : list byte) :
    list byte :=
  let header := mkHeader conn_id Data RELIABLE stream_id seq 0 0
                  (wrap 16 (len payload)) (replicate 12 Byte.x00) in
  put_slice (encode header []) payload.

Definition send `{BufCrate} (now : Instant) (payload : list byte) (s : ReliableSender) :
    option (list byte) * ReliableSender :=
  if WINDOW_SIZE <=? wrap 32 (next_seq s - window_base s) then (None, s) else
  let seq := next_seq s in
  let slot := mkSlot seq payload now 0 false in
  (Some (encode_packet (snd_conn_id s) (snd_stream_id s) seq payload),
   mkSender (snd_conn_id s) (snd_stream_id s) (wrap 32 (seq + 1)) (window_base s)
     (slots s ++ [slot])).

(** The two tests of [on_ack] on a pending slot. *)
Definition acks (ack_seq ack_bitmap seq : Z) : bool :=
  let dist := wrap 32 (seq - ack_seq) in
  if dist =? 0 then true
  else (dist <=? WINDOW_SIZE) && negb (Z.land ack_bitmap (Z.shiftl 1 (dist - 1)) =? 0).

Definition ack_slot (ack_seq ack_bitmap : Z) (s : SendSlot) : SendSlot :=
  if acked s then s
  else if acks ack_seq ack_bitmap (slot_seq s)
  then mkSlot (slot_seq s) (slot_data s) (sent_at s) (retries s) true
  else s.

Definition newly_acked (ack_seq ack_bitmap : Z) (s : SendSlot) : bool :=
  negb (acked s) && acks ack_seq ack_bitmap (slot_seq s).

(** [while self.slots.front().map_or(false, |s| s.acked)]. *)
Fixpoint slide (base : Z) (l : list SendSlot) : Z * list SendSlot :=
  match l with
  | s :: r => if acked s then slide (wrap 32 (base + 1)) r else (base, l)
  | [] => (base, [])
  end.

Definition on_ack (ack_seq ack_bitmap : Z) (s : ReliableSender) : list Z * ReliableSender :=
  let out := slot_seq <$> List.filter (newly_acked ack_seq ack_bitmap) (slots s) in
  let '(base, sl) := slide (window_base s) (ack_slot ack_seq ack_bitmap <$> slots s) in
  (out, mkSender (snd_conn_id s) (snd_stream_id s) (next_seq s) base sl).

Definition due (now : Instant) (s : SendSlot) : bool :=
  negb (acked s || (MAX_RETRIES <=? retries s)) && (RTO <=? duration_since now (sent_at s)).

Definition poll_retransmit (now : Instant) (s : ReliableSender) :
    list (Z * Z * Z * list byte) * ReliableSender :=
  let upd sl := if due now sl
                then mkSlot (slot_seq sl) (slot_data sl) now (retries sl + 1) (acked sl)
                else sl in
  ((λ sl, (snd_conn_id s, snd_stream_id s, slot_seq sl, slot_data sl)) <$>
      List.filter (due now) (slots s),
   mkSender (snd_conn_id s) (snd_stream_id s) (next_seq s) (window_base s)
     (upd <$> slots s)).

(** The states a sender goes through. *)
Inductive step `{BufCrate} : ReliableSender → ReliableSender → Prop :=
| step_send now payload s : step s (send now payload s).2
| step_ack a m s : step s (on_ack a m s).2
| step_poll now s : step s (poll_retransmit now s).2.

Definition reachable `{BufCrate} (s : ReliableSender) : Prop :=
  ∃ c i, rtc step (new c i) s.

(** The window: consecutive sequence numbers from [window_base], no acked
    slot in front, at most 32 of them, each retried at most ten times. *)
Record inv (s : ReliableSender) : Prop := {
  inv_base : u32_ok (window_base s);
  inv_next : next_seq s = wrap 32 (window_base s + len (slots s));
  inv_len : len (slots s) ≤ WINDOW_SIZE;
  inv_seq i sl : slots s !! i = Some sl → slot_seq sl = wrap 32 (window_base s + Z.of_nat i);
  inv_front sl : head (slots s) = Some sl → acked sl = false;
  inv_retries sl : sl ∈ slots s → 0 ≤ retries sl ≤ MAX_RETRIES
}.
End Sender.

(** ** Receiver *)

Record ReliableReceiver := mkReceiver {
  rcv_stream_id : Z;
  next_expected : Z;
  ooo_buffer : list (Z * list byte);
  last_ack_seq : Z;
  last_ack_bitmap : Z
}.

Module Receiver.

Definition new (stream_id : Z) : ReliableReceiver := mkReceiver stream_id 0 [] 0 0.

(** [while let Some(&(s, _)) = self.ooo_buffer.front()]. *)
Fixpoint drain (next : Z) (buf : list (Z * list byte)) :
    Z * list (Z * list byte) * list (list byte) :=
  match buf with
  | (s, d) :: r =>
      if s =? next then
        let '(n, b, out) := drain (wrap 32 (next + 1)) r in (n, b, d :: out)
      else (next, buf, [])
  | [] => (next, [], [])
  end.

Definition insert_pos (seq dist : Z) (buf : list (Z * list byte)) : nat :=
  match list_find (λ p, wrap 32 (seq - p.1) < dist) buf with
  | Some (i, _) => i
  | None => length buf
  end.

Definition buffer_insert (seq dist : Z) (payload : list byte) (buf : list (Z * list byte)) :
    list (Z * list byte) :=
  let pos := insert_pos seq dist buf in
  match buf !! pos with
  | Some (s, _) => if s =? seq then buf else take pos buf ++ (seq, payload) :: drop pos buf
  | None => take pos buf ++ (seq, payload) :: drop pos buf
  end.

Definition deliver (seq : Z) (payload : list byte) (r : ReliableReceiver) :
    list (list byte) * ReliableReceiver :=
  let dist := wrap 32 (seq - next_expected r) in
  if dist =? 0 then
    let '(n, b, out) := drain (wrap 32 (next_expected r + 1)) (ooo_buffer r) in
    (payload :: out, mkReceiver (rcv_stream_id r) n b (last_ack_seq r) (last_ack_bitmap r))
  else if (0 <? dist) && (dist <=? WINDOW_SIZE) then
    ([], mkReceiver (rcv_stream_id r) (next_expected r)
           (buffer_insert seq dist payload (ooo_buffer r))
           (last_ack_seq r) (last_ack_bitmap r))
  else ([], r).

Definition ack_info (r : ReliableReceiver) : Z * Z :=
  (wrap 32 (next_expected r - 1), last_ack_bitmap r).

(** A run: the packets that arrive, in order of arrival. *)
Fixpoint run (pkts : list (Z * list byte)) (r : ReliableReceiver) :
    list (list byte) * ReliableReceiver :=
  match pkts with
  | [] => ([], r)
  | (s, p) :: rest =>
      let '(out, r) := deliver s p r in
      let '(outs, r) := run rest r in
      (out ++ outs, r)
  end.

(** What the application must see after [n] packets of the stream [f]. *)
Definition prefix_of_stream (f : Z → list byte) (n : nat) : list (list byte) :=
  (λ i : nat, f (wrap 32 (Z.of_nat i))) <$> List.seq 0 n.
End Receiver.

(** ** Sender lemmas *)

Module SenderFacts.
Import Sender.

Lemma acks_wrap a m q : acks a m (wrap 32 q) = acks a m q.
Proof. unfold acks. by rewrite wrap_sub_l. Qed.

Lemma ack_slot_seq a m s : slot_seq (ack_slot a m s) = slot_seq s.
Proof. unfold ack_slot. by repeat case_match. Qed.
Lemma ack_slot_retries a m s : retries (ack_slot a m s) = retries s.
Proof. unfold ack_slot. by repeat case_match. Qed.
Lemma ack_slot_pending a m s :
  acked s = false → acks a m (slot_seq s) = false → ack_slot a m s = s.
Proof. unfold ack_slot. by intros -> ->. Qed.

Lemma slide_spec base l :
  u32_ok base →
  ∃ k : nat, (k ≤ length l)%nat ∧
    slide base l = (wrap 32 (base + Z.of_nat k), drop k l) ∧
    Forall (λ s, acked s = true) (take k l) ∧
    ∀ s, head (drop k l) = Some s → acked s = false.
Proof.
  revert base. induction l as [|s l IH]; intros base Hb.
  { exists 0%nat. simpl. rewrite Z.add_0_r, wrap_id by done.
    split_and!; [done|done|constructor|done]. }
  simpl. destruct (acked s) eqn:Ha.
  - destruct (IH (wrap 32 (base + 1))) as (k & Hk & -> & Hf & Hh); [by apply wrap_fits|].
    exists (S k). split_and!; [simpl; lia| |by constructor|done].
    rewrite wrap_add_l. do 2 f_equal. lia.
  - exists 0%nat. simpl. rewrite Z.add_0_r, wrap_id by done.
    split_and!; [lia|done|constructor|by intros ? [= <-]].
Qed.

(** The number of outstanding packets is what [send] tests. *)
Lemma outstanding s : inv s → wrap 32 (next_seq s - window_base s) = len (slots s).
Proof.
  intros I. rewrite (inv_next s I), wrap_sub_l.
  replace (window_base s + len (slots s) - window_base s) with (len (slots s)) by lia.
  apply wrap_id. pose proof (inv_len s I). unfold WINDOW_SIZE in *. solve_fits.
Qed.

Lemma inv_new c i : inv (new c i).
Proof. split; simpl; try done; intros; by set_solver. Qed.

Lemma inv_send `{BufCrate} now p s : inv s → inv (send now p s).2.
Proof.
  intros I. unfold send. case_match eqn:E; [done|]. simpl.
  rewrite outstanding in E by done. apply Z.leb_gt in E. unfold WINDOW_SIZE in E.
  pose proof (inv_base s I) as Hb.
  split; cbn [next_seq window_base slots]; unfold WINDOW_SIZE, MAX_RETRIES.
  - done.
  - rewrite (inv_next s I), wrap_add_l, length_app. simpl. f_equal. lia.
  - rewrite length_app. simpl. lia.
  - intros i sl Hi. apply lookup_app_Some in Hi as [Hi|[Hle Hi]].
    + by apply (inv_seq s I).
    + apply list_lookup_singleton_Some in Hi as [Hz <-]. simpl.
      rewrite (inv_next s I). do 2 f_equal. lia.
  - intros sl Hh. destruct (slots s) as [|x l] eqn:El; simpl in Hh; simplify_eq; [done|].
    apply (inv_front s I). by rewrite El.
  - intros sl Hin. apply elem_of_app in Hin as [Hin|Hin].
    + by apply (inv_retries s I).
    + apply list_elem_of_singleton in Hin as ->. simpl. lia.
Qed.

(** Acking the slots and sliding the window. *)
Lemma on_ack_drop a m s :
  inv s → ∃ k : nat, (k ≤ length (slots s))%nat ∧
    (on_ack a m s).2 = mkSender (snd_conn_id s) (snd_stream_id s) (next_seq s)
      (wrap 32 (window_base s + Z.of_nat k)) (drop k (ack_slot a m <$> slots s)) ∧
    Forall (λ sl, acked sl = true) (take k (ack_slot a m <$> slots s)) ∧
    ∀ sl, head (drop k (ack_slot a m <$> slots s)) = Some sl → acked sl = false.
Proof.
  intros I. unfold on_ack.
  destruct (slide_spec (window_base s) (ack_slot a m <$> slots s)) as (k & Hk & -> & Hf & Hh).
  { apply (inv_base s I). }
  rewrite length_fmap in Hk. by exists k.
Qed.

Lemma inv_on_ack a m s : inv s → inv (on_ack a m s).2.
Proof.
  intros I. destruct (on_ack_drop a m s I) as (k & Hk & -> & Hf & Hh).
  split; cbn [next_seq window_base slots].
  - by apply wrap_fits.
  - rewrite wrap_add_l, length_drop, length_fmap, (inv_next s I). f_equal. lia.
  - rewrite length_drop, length_fmap. pose proof (inv_len s I). lia.
  - intros i sl Hi. rewrite lookup_drop, list_lookup_fmap, fmap_Some in Hi.
    destruct Hi as (sl0 & Hi & ->). rewrite ack_slot_seq, wrap_add_l.
    rewrite (inv_seq s I _ _ Hi). f_equal. lia.
  - done.
  - intros sl Hin. assert (Hin' : sl ∈ ack_slot a m <$> slots s).
    { rewrite <-(take_drop k). apply elem_of_app. by right. }
    apply list_elem_of_fmap in Hin' as (sl0 & -> & Hin').
    rewrite ack_slot_retries. by apply (inv_retries s I).
Qed.

Lemma inv_poll now s : inv s → inv (poll_retransmit now s).2.
Proof.
  intros I. unfold poll_retransmit. simpl.
  split; cbn [next_seq window_base slots].
  - apply (inv_base s I).
  - rewrite length_fmap. apply (inv_next s I).
  - rewrite length_fmap. apply (inv_len s I).
  - intros i sl Hi. rewrite list_lookup_fmap, fmap_Some in Hi.
    destruct Hi as (sl0 & Hi & ->). apply (inv_seq s I) in Hi. by case_match.
  - intros sl Hh. destruct (slots s) as [|x l] eqn:El; [done|].
    pose proof (inv_front s I x) as Hx. rewrite El in Hx. specialize (Hx eq_refl).
    simpl in Hh. simplify_eq. by case_match.
  - intros sl Hin. apply list_elem_of_fmap in Hin as (sl0 & -> & Hin).
    pose proof (inv_retries s I _ Hin) as Hr. unfold due. case_match eqn:E; [|done].
    simpl. apply andb_true_iff in E as [E _]. apply negb_true_iff, orb_false_iff in E as [_ E].
    apply Z.leb_gt in E. lia.
Qed.
#[export] Hint Resolve inv_new inv_send inv_on_ack inv_poll : lan.

Lemma inv_step `{BufCrate} s s' : step s s' → inv s → inv s'.
Proof. destruct 1; auto with lan. Qed.
End SenderFacts.
Import SenderFacts.

(** C20: in every state a sender reaches, the window is well formed: the
    pending packets carry consecutive sequence numbers (modulo 2^32) from
    [window_base] to [next_seq], there are at most 32, the oldest one is not
    acknowledged, and none was retransmitted more than ten times. *)
Theorem sender_window_invariant `{BufCrate} s : Sender.reachable s → Sender.inv s.
Proof.
  intros (c & i & Hr).
  assert (Hg : ∀ a b, rtc Sender.step a b → Sender.inv a → Sender.inv b).
  { induction 1; eauto using inv_step. }
  eapply Hg; [done|]. apply inv_new.
Qed.

(** An acknowledgement returns exactly the pending sequence numbers it
    covers, never drops a packet that it does not cover, and moves the window
    past acknowledged packets only. *)
Theorem on_ack_exact s a m :
  Sender.inv s →
  let '(out, s') := Sender.on_ack a m s in
  (∀ q, q ∈ out ↔ ∃ sl, sl ∈ slots s ∧ acked sl = false ∧ slot_seq sl = q ∧
                         Sender.acks a m q = true) ∧
  (∀ sl, sl ∈ slots s → acked sl = false → slot_seq sl ∉ out → sl ∈ slots s') ∧
  (∃ k : nat, window_base s' = wrap 32 (window_base s + Z.of_nat k) ∧
     slots s' = drop k (Sender.ack_slot a m <$> slots s) ∧
     Forall (λ sl, acked sl = true) (take k (Sender.ack_slot a m <$> slots s))).
Proof.
  intros I. destruct (on_ack_drop a m s I) as (k & Hk & Heq & Hf & Hh).
  destruct (Sender.on_ack a m s) as [out s'] eqn:E. simpl in Heq. subst s'.
  assert (Hout : ∀ q, q ∈ out ↔ ∃ sl, sl ∈ slots s ∧ acked sl = false ∧ slot_seq sl = q ∧
                         Sender.acks a m q = true).
  { unfold Sender.on_ack in E. destruct (Sender.slide _ _). simplify_eq. intros q.
    rewrite list_elem_of_fmap. setoid_rewrite list_elem_of_In. setoid_rewrite filter_In.
    unfold Sender.newly_acked. setoid_rewrite andb_true_iff. setoid_rewrite negb_true_iff.
    naive_solver. }
  split_and!; [done| |by exists k].
  intros sl Hin Hp Hn. cbn [slots].
  assert (Hsl : Sender.ack_slot a m sl = sl).
  { apply ack_slot_pending; [done|]. apply not_true_iff_false. intros Ha.
    apply Hn, Hout. eauto. }
  assert (Hin' : sl ∈ Sender.ack_slot a m <$> slots s).
  { rewrite <-Hsl. by apply list_elem_of_fmap_2. }
  rewrite <-(take_drop k), elem_of_app in Hin'. destruct Hin' as [Hin'|]; [|done].
  rewrite Forall_forall in Hf. apply Hf in Hin'. congruence.
Qed.

(** ** Receiver lemmas *)

Module ReceiverFacts.
Import Receiver.

Definition stream_from (f : Z → list byte) (n k : nat) : list (list byte) :=
  (λ i : nat, f (wrap 32 (Z.of_nat i))) <$> List.seq n k.

Lemma prefix_app f n k : prefix_of_stream f (n + k) = prefix_of_stream f n ++ stream_from f n k.
Proof. unfold prefix_of_stream, stream_from. by rewrite seq_app, fmap_app. Qed.

(** The receiver has delivered the first [n] packets of the stream [f], and
    its buffer holds packets of that stream. *)
Definition holds (f : Z → list byte) (n : nat) (r : ReliableReceiver) : Prop :=
  next_expected r = wrap 32 (Z.of_nat n) ∧ ∀ s d, (s, d) ∈ ooo_buffer r → d = f s.

Lemma drain_spec f n buf :
  (∀ s d, (s, d) ∈ buf → d = f s) →
  ∃ k, drain (wrap 32 (Z.of_nat n)) buf =
    (wrap 32 (Z.of_nat (n + k)), drop k buf, stream_from f n k).
Proof.
  revert n. induction buf as [|[s d] buf IH]; intros n Hf.
  { exists 0%nat. by rewrite Nat.add_0_r. }
  simpl. destruct (Z.eqb_spec s (wrap 32 (Z.of_nat n))) as [->|Hne].
  - rewrite wrap_add_l. replace (Z.of_nat n + 1) with (Z.of_nat (S n)) by lia.
    destruct (IH (S n)) as [k ->]; [set_solver|].
    exists (S k). unfold stream_from. simpl.
    rewrite Nat.add_succ_r. do 2 f_equal. apply Hf. set_solver.
  - exists 0%nat. by rewrite Nat.add_0_r.
Qed.

Lemma buffer_insert_elem s dist p buf x :
  x ∈ buffer_insert s dist p buf → x = (s, p) ∨ x ∈ buf.
Proof.
  unfold buffer_insert. intros H.
  set (pos := insert_pos s dist buf) in *.
  assert (Hx : x ∈ take pos buf ++ (s, p) :: drop pos buf → x = (s, p) ∨ x ∈ buf).
  { rewrite elem_of_app, elem_of_cons. rewrite <-(take_drop pos buf) at 3.
    rewrite elem_of_app. tauto. }
  destruct (buf !! pos) as [[y d]|]; [case_match|]; auto.
Qed.

Lemma deliver_holds f n s r :
  u32_ok s → holds f n r →
  ∃ k r', deliver s (f s) r = (stream_from f n k, r') ∧ holds f (n + k) r'.
Proof.
  intros Hs [Hn Hb]. unfold deliver.
  destruct (Z.eqb_spec (wrap 32 (s - next_expected r)) 0) as [E|E].
  - assert (s = wrap 32 (Z.of_nat n)) as Heq.
    { rewrite Hn in E. apply (wrap_sub_eq0 32); auto using wrap_fits with lia. }
    rewrite Hn, wrap_add_l. replace (Z.of_nat n + 1) with (Z.of_nat (S n)) by lia.
    destruct (drain_spec f (S n) (ooo_buffer r) Hb) as [k ->].
    exists (S k). eexists. split.
    { unfold stream_from. simpl. do 2 f_equal. by rewrite <-Heq. }
    split; [simpl; do 2 f_equal; lia|].
    intros s' d Hin. simpl in Hin. apply Hb.
    rewrite <-(take_drop k), elem_of_app. by right.
  - exists 0%nat. case_match.
    + eexists. split; [done|]. rewrite Nat.add_0_r. split; [done|].
      intros s' d Hin. simpl in Hin. apply buffer_insert_elem in Hin as [[= -> ->]|]; auto.
    + eexists. split; [done|]. rewrite Nat.add_0_r. done.
Qed.

(** The insertion, one buffered packet at a time. *)
Lemma buffer_insert_cons s dist p x d buf :
  buffer_insert s dist p ((x, d) :: buf) =
  if wrap 32 (s - x) <? dist
  then if x =? s then (x, d) :: buf else (s, p) :: (x, d) :: buf
  else (x, d) :: buffer_insert s dist p buf.
Proof.
  unfold buffer_insert, insert_pos. simpl. destruct (Z.ltb_spec (wrap 32 (s - x)) dist) as [H|H].
  - rewrite decide_True by (simpl; lia). simpl. done.
  - rewrite decide_False by (simpl; lia).
    destruct (list_find _ buf) as [[i q]|]; simpl; repeat case_match; done.
Qed.

(** While the first packet of the stream is missing, the buffer holds the
    sequence numbers in strictly descending order. *)
Definition waiting (r : ReliableReceiver) : Prop :=
  next_expected r = 0 ∧ StronglySorted Z.gt (ooo_buffer r).*1 ∧
  Forall (λ x, 1 ≤ x ≤ WINDOW_SIZE) (ooo_buffer r).*1.

Lemma buffer_insert_desc s p buf :
  1 ≤ s ≤ WINDOW_SIZE → StronglySorted Z.gt buf.*1 →
  Forall (λ x, 1 ≤ x ≤ WINDOW_SIZE) buf.*1 →
  StronglySorted Z.gt (buffer_insert s s p buf).*1 ∧
  ∀ x, x ∈ (buffer_insert s s p buf).*1 ↔ x = s ∨ x ∈ buf.*1.
Proof.
  intros Hs. induction buf as [|[x d] buf IH]; intros Hsort Hr.
  { simpl. split; [repeat constructor|set_solver]. }
  rewrite buffer_insert_cons. csimpl in *.
  apply StronglySorted_inv in Hsort as [Hsort Hx]. apply Forall_cons in Hr as [Hx1 Hr].
  unfold WINDOW_SIZE in *.
  destruct (IH Hsort Hr) as [IH1 IH2].
  destruct (Z.ltb_spec (wrap 32 (s - x)) s) as [H|H].
  - assert (x ≤ s) by solve_fits.
    destruct (Z.eqb_spec x s) as [->|Hne]; csimpl; split.
    + by constructor.
    + intros y. rewrite elem_of_cons. tauto.
    + constructor; [by constructor|]. constructor; [lia|].
      eapply Forall_impl; [exact Hx|]. intros; simpl in *; lia.
    + intros y. by rewrite elem_of_cons.
  - assert (s < x) by solve_fits. csimpl.
    split; [|intros y; rewrite !elem_of_cons, IH2; tauto].
    constructor; [done|]. rewrite Forall_forall. intros y Hy. apply IH2 in Hy as [->|Hy]; [lia|].
    rewrite Forall_forall in Hx. by apply Hx.
Qed.

Lemma deliver_waiting s p r :
  1 ≤ s ≤ WINDOW_SIZE → waiting r →
  deliver s p r = ([], mkReceiver (rcv_stream_id r) 0 (buffer_insert s s p (ooo_buffer r))
                         (last_ack_seq r) (last_ack_bitmap r)).
Proof.
  intros Hs (Hn & _). unfold deliver, WINDOW_SIZE in *. rewrite Hn, Z.sub_0_r, wrap_id by solve_fits.
  rewrite (proj2 (Z.eqb_neq _ _)), (proj2 (Z.ltb_lt _ _)), (proj2 (Z.leb_le _ _)) by lia. done.
Qed.

Lemma run_waiting pkts r :
  Forall (λ p : Z * list byte, 1 ≤ p.1 ≤ WINDOW_SIZE) pkts → waiting r →
  waiting (run pkts r).2 ∧ (run pkts r).1 = [] ∧
  ∀ x, x ∈ (ooo_buffer (run pkts r).2).*1 ↔ x ∈ pkts.*1 ∨ x ∈ (ooo_buffer r).*1.
Proof.
  revert r. induction pkts as [|[s p] pkts IH]; intros r Hp Hw; [set_solver|].
  apply Forall_cons in Hp as [Hs Hp]. simpl in Hs. simpl.
  rewrite deliver_waiting by done. destruct Hw as (Hn & Hsort & Hr).
  destruct (buffer_insert_desc s p _ Hs Hsort Hr) as [Hsort' Hin].
  match goal with |- context [run pkts ?r'] => destruct (IH r') as (Hw' & Ho & Hx) end.
  { done. }
  { split_and!; [done|done|]. simpl. rewrite Forall_forall in *. intros x Hx.
    apply Hin in Hx as [->|Hx]; auto. }
  destruct (run pkts _) as [outs r'']. simpl in *. split_and!; [done|done|].
  intros x. rewrite Hx, Hin. set_solver.
Qed.

Lemma run_bitmap pkts r : last_ack_bitmap (run pkts r).2 = last_ack_bitmap r.
Proof.
  revert r. induction pkts as [|[s p] pkts IH]; intros r; [done|]. simpl.
  destruct (deliver s p r) as [out r'] eqn:E.
  specialize (IH r'). destruct (run pkts r') as [outs r'']. simpl in *. rewrite IH.
  unfold deliver in E. repeat case_match; by simplify_eq.
Qed.
End ReceiverFacts.
Import ReceiverFacts.

(** C12: safety of delivery.  Whatever packets arrive, in whatever order, with
    losses and duplicates, as long as a sequence number always carries the
    same payload [f seq], the application receives a prefix of the stream
    [f 0, f 1, ...]: in order, without gaps and without duplicates. *)
Theorem in_order_delivery sid f pkts :
  Forall (λ p : Z * list byte, u32_ok p.1 ∧ p.2 = f p.1) pkts →
  ∃ n, (Receiver.run pkts (Receiver.new sid)).1 = Receiver.prefix_of_stream f n ∧
       next_expected (Receiver.run pkts (Receiver.new sid)).2 = wrap 32 (Z.of_nat n).
Proof.
  intros Hp.
  assert (Hg : ∀ n r, holds f n r → ∃ k, (Receiver.run pkts r).1 = stream_from f n k ∧
    holds f (n + k) (Receiver.run pkts r).2).
  { induction Hp as [|[s p] pkts [Hs Hf] Hp IH]; intros n r Hr.
    { exists 0%nat. by rewrite Nat.add_0_r. }
    simpl in *. subst p. destruct (deliver_holds f n s r Hs Hr) as (k & r' & -> & Hr').
    destruct (IH (n + k)%nat r' Hr') as (k' & Hout & Hr'').
    destruct (Receiver.run pkts r') as [outs r'']. simpl in *. subst outs.
    exists (k + k')%nat. rewrite Nat.add_assoc. split; [|done].
    unfold stream_from. by rewrite seq_app, fmap_app. }
  destruct (Hg 0%nat (Receiver.new sid)) as (k & Hout & Hn & _).
  { split; [done|]. intros s d H. by apply elem_of_nil in H. }
  by exists k.
Qed.

(** The reordering buffer is drained from the wrong end.  When at least
    two distinct later packets of a fresh stream are buffered, the arrival of
    the missing first packet releases that packet alone: every buffered
    packet stays buffered, also the one that is now next in order. *)
Theorem reorder_buffer_stalls sid pkts p0 s1 s2 :
  Forall (λ p : Z * list byte, 1 ≤ p.1 ≤ WINDOW_SIZE) pkts →
  s1 ∈ pkts.*1 → s2 ∈ pkts.*1 → s1 ≠ s2 →
  let r := (Receiver.run pkts (Receiver.new sid)).2 in
  (Receiver.deliver 0 p0 r).1 = [p0] ∧
  next_expected (Receiver.deliver 0 p0 r).2 = 1 ∧
  ∀ s, s ∈ pkts.*1 ↔ s ∈ (ooo_buffer (Receiver.deliver 0 p0 r).2).*1.
Proof.
  intros Hp H1 H2 Hne r.
  destruct (run_waiting pkts (Receiver.new sid) Hp) as ((Hn & Hsort & Hr) & _ & Hin).
  { split_and!; [done|constructor|constructor]. }
  fold r in Hn, Hsort, Hr, Hin. simpl in Hin.
  assert (Hin' : ∀ x, x ∈ pkts.*1 ↔ x ∈ (ooo_buffer r).*1) by set_solver.
  unfold Receiver.deliver. rewrite Hn. change (wrap 32 (0 - 0) =? 0) with true. cbv iota.
  change (wrap 32 (0 + 1)) with 1.
  assert (Hd : Receiver.drain 1 (ooo_buffer r) = (1, ooo_buffer r, [])).
  { destruct (ooo_buffer r) as [|[x d] buf] eqn:Eb; [done|]. simpl.
    destruct (Z.eqb_spec x 1) as [->|]; [|done]. exfalso.
    apply Hin' in H1. apply Hin' in H2. csimpl in *.
    apply StronglySorted_inv in Hsort as [_ Hx]. apply Forall_cons in Hr as [_ Hr].
    rewrite Forall_forall in Hx, Hr. apply elem_of_cons in H1, H2.
    assert (∀ y, y ∈ buf.*1 → False) as Hf.
    { intros y Hy. specialize (Hx y Hy). specialize (Hr y Hy). simpl in *. lia. }
    naive_solver. }
  rewrite Hd. simpl. done.
Qed.

(** The acknowledgements of a receiver cover one packet only, the last in
    order, since its bitmap is always empty and the sender does not read
    [ack_seq] cumulatively.  So when the acknowledgement of the oldest pending
    packet is lost and the receiver moved on, no later one releases it: the
    sender's window keeps its base and its length, for good. *)
Theorem lost_ack_wedges_window sid pkts s sl :
  Sender.inv s → head (slots s) = Some sl →
  let r := (Receiver.run pkts (Receiver.new sid)).2 in
  slot_seq sl ≠ wrap 32 (next_expected r - 1) →
  let s' := (Sender.on_ack (Receiver.ack_info r).1 (Receiver.ack_info r).2 s).2 in
  window_base s' = window_base s ∧ len (slots s') = len (slots s) ∧
  head (slots s') = Some sl.
Proof.
  intros I Hh r Hne s'.
  assert (Hb : (Receiver.ack_info r).2 = 0).
  { unfold Receiver.ack_info, r. simpl. by rewrite run_bitmap. }
  assert (Hp : Sender.acks (Receiver.ack_info r).1 (Receiver.ack_info r).2 (slot_seq sl) = false).
  { unfold Sender.acks. rewrite Hb, Z.land_0_l. simpl. rewrite andb_false_r.
    case_match eqn:E; [|done]. exfalso. apply Hne. apply Z.eqb_eq in E.
    destruct (slots s) as [|x l] eqn:El; [done|]. simpl in Hh. simplify_eq.
    pose proof (Sender.inv_seq s I 0%nat sl) as Hq. rewrite El in Hq. specialize (Hq eq_refl).
    pose proof (wrap_fits 32 (next_expected r - 1) ltac:(lia)) as Hf.
    pose proof (wrap_fits 32 (window_base s + Z.of_nat 0) ltac:(lia)) as Hf'.
    rewrite Hq in E |- *. simpl in E. solve_fits. }
  unfold s', Sender.on_ack.
  destruct (slots s) as [|x l] eqn:El; [done|]. simpl in Hh. simplify_eq.
  assert (Ha : acked sl = false) by (apply (Sender.inv_front s I); by rewrite El).
  csimpl. rewrite ack_slot_pending by done. simpl. rewrite Ha. simpl.
  by rewrite length_fmap.
Qed.

(** ** Witnesses *)

Definition two_sent : ReliableSender :=
  (Sender.send 0 [Byte.x62] (Sender.send 0 [Byte.x61] (Sender.new 9 0)).2).2.

Lemma two_sent_reachable : Sender.reachable two_sent.
Proof.
  exists 9, 0. eapply rtc_l; [apply Sender.step_send|].
  eapply rtc_l; [apply Sender.step_send|]. apply rtc_refl.
Qed.

Lemma two_sent_inv : Sender.inv two_sent.
Proof. unfold two_sent. apply inv_send, inv_send, inv_new. Qed.

Lemma sender_window_invariant_witness : Sender.reachable two_sent ∧ Sender.inv two_sent.
Proof.
  split; [exact two_sent_reachable|].
  apply sender_window_invariant, two_sent_reachable.
Defined.

Lemma on_ack_exact_witness :
  let '(out, s') := Sender.on_ack 0 0 two_sent in
  (∀ q, q ∈ out ↔ ∃ sl, sl ∈ slots two_sent ∧ acked sl = false ∧ slot_seq sl = q ∧
                         Sender.acks 0 0 q = true) ∧
  (∀ sl, sl ∈ slots two_sent → acked sl = false → slot_seq sl ∉ out → sl ∈ slots s') ∧
  (∃ k : nat, window_base s' = wrap 32 (window_base two_sent + Z.of_nat k) ∧
     slots s' = drop k (Sender.ack_slot 0 0 <$> slots two_sent) ∧
     Forall (λ sl, acked sl = true) (take k (Sender.ack_slot 0 0 <$> slots two_sent))).
Proof. exact (on_ack_exact two_sent 0 0 two_sent_inv). Defined.

Definition abc (s : Z) : list byte := [byte_of_Z (97 + s)].

Lemma in_order_delivery_witness :
  ∃ n, (Receiver.run [(1, abc 1); (1, abc 1); (0, abc 0); (2, abc 2)] (Receiver.new 0)).1
         = Receiver.prefix_of_stream abc n ∧
       next_expected (Receiver.run [(1, abc 1); (1, abc 1); (0, abc 0); (2, abc 2)]
                        (Receiver.new 0)).2 = wrap 32 (Z.of_nat n).
Proof. apply in_order_delivery. repeat constructor; simpl; done. Defined.

Lemma reorder_buffer_stalls_witness :
  let r := (Receiver.run [(1, abc 1); (2, abc 2)] (Receiver.new 0)).2 in
  (Receiver.deliver 0 (abc 0) r).1 = [abc 0] ∧
  next_expected (Receiver.deliver 0 (abc 0) r).2 = 1 ∧
  ∀ s, s ∈ [(1, abc 1); (2, abc 2)].*1 ↔ s ∈ (ooo_buffer (Receiver.deliver 0 (abc 0) r).2).*1.
Proof.
  apply (reorder_buffer_stalls 0 [(1, abc 1); (2, abc 2)] (abc 0) 1 2); simpl.
  - repeat constructor; simpl; unfold WINDOW_SIZE; lia.
  - set_solver.
  - set_solver.
  - lia.
Defined.

Lemma lost_ack_wedges_window_witness :
  let r := (Receiver.run [(0, abc 0); (1, abc 1)] (Receiver.new 0)).2 in
  let s' := (Sender.on_ack (Receiver.ack_info r).1 (Receiver.ack_info r).2 two_sent).2 in
  window_base s' = 0 ∧ len (slots s') = 2 ∧
  head (slots s') = Some (mkSlot 0 [Byte.x61] 0 0 false).
Proof.
  apply (lost_ack_wedges_window 0 [(0, abc 0); (1, abc 1)] two_sent
           (mkSlot 0 [Byte.x61] 0 0 false) two_sent_inv).
  - reflexivity.
  - vm_compute. congruence.
Defined.
