(* ===== verification/Stream.v ===== *)
(** * Stream: the logical streams of a connection, and the packet cipher

    Models crates/protocol/src/stream.rs ([MuxStream], [StreamMux]) and the
    cipher of crates/protocol/src/crypto.rs.  ChaCha20-Poly1305 itself is
    third-party: the class [AeadCrate], with its documented behaviour in
    [AeadCrateOk] and a concrete instance [tag_aead] for the witnesses. *)
From S2P Require Import Prelude Frame.

(** ** Streams *)

Record MuxStream := mkMuxStream { mux_id : Z; is_reliable : bool; send_seq : Z }.

Module MuxStream.
Definition new (id : Z) : MuxStream :=
  mkMuxStream id (default false (StreamId.is_reliable <$> StreamId.from_u16 id)) 0.

(** Returns the sequence number and the stream after the call. *)
Definition next_seq (s : MuxStream) : Z * MuxStream :=
  (send_seq s, mkMuxStream (mux_id s) (is_reliable s) (Z.min (send_seq s + 1) (2 ^ 32 - 1))).

(** The numbers that [n] calls return. *)
Fixpoint take_seqs (n : nat) (s : MuxStream) : list Z :=
  match n with
  | O => []
  | S n => let '(q, s) := next_seq s in q :: take_seqs n s
  end.
End MuxStream.

Record StreamMux := mkMux { streams : gmap Z MuxStream }.

Module StreamMux.
Definition new : StreamMux :=
  mkMux (foldl (λ m id, <[id := MuxStream.new id]> m) ∅ [0; 1; 2; 3; 4; 5]).
Definition get (id : Z) (m : StreamMux) : option MuxStream := streams m !! id.
(** [get_mut] and one call of [next_seq] through it. *)
Definition next_seq (id : Z) (m : StreamMux) : option (Z * StreamMux) :=
  s ← streams m !! id;
  let '(q, s) := MuxStream.next_seq s in
  Some (q, mkMux (<[id := s]> (streams m))).
End StreamMux.

(** ** The cipher *)

Class AeadCrate := {
  aead_encrypt : bytes32 → list byte → list byte → option (list byte);
  aead_decrypt : bytes32 → list byte → list byte → option (list byte)
}.
(** What the crate documents: a ciphertext decrypts under the key and nonce it
    was made with, and is the plaintext's length and a 16-byte tag. *)
Class AeadCrateOk `{AeadCrate} : Prop := {
  aead_roundtrip k n p c : aead_encrypt k n p = Some c → aead_decrypt k n c = Some p;
  aead_length k n p c : aead_encrypt k n p = Some c → length c = (length p + 16)%nat
}.

Definition Psk := bytes32.

Section Cipher.
Context `{AeadCrate}.
Definition encrypt (key : Psk) (nonce plaintext : list byte) : option (list byte) :=
  aead_encrypt key nonce plaintext.
Definition decrypt (key : Psk) (nonce ciphertext : list byte) : option (list byte) :=
  aead_decrypt key nonce ciphertext.
End Cipher.

(** A concrete scheme with a keyed tag in place of the real one. *)
Definition toy_tag (k : bytes32) (n : list byte) : list byte :=
  take 16 (zip_with (λ a b, byte_of_Z (Z.lxor (Z_of_byte a) (Z_of_byte b)))
             (arr_bytes k) (n ++ replicate 20 Byte.x00)).
#[export] Instance tag_aead : AeadCrate := {
  aead_encrypt k n p := if decide (length n = 12%nat) then Some (p ++ toy_tag k n) else None;
  aead_decrypt k n c :=
    if decide (length n = 12%nat) then
      if decide (drop (length c - 16) c = toy_tag k n)
      then Some (take (length c - 16) c) else None
    else None
}.

Lemma length_toy_tag k n : length n = 12%nat → length (toy_tag k n) = 16%nat.
Proof.
  intros Hn. unfold toy_tag. rewrite length_take, length_zip_with, length_app, length_replicate.
  rewrite length_arr_bytes, Hn. done.
Qed.
#[export] Instance tag_aead_ok : AeadCrateOk.
Proof.
  split; intros k n p c; simpl; case_decide as Hn; try done; intros [= <-].
  - rewrite length_app, length_toy_tag by done.
    replace (length p + 16 - 16)%nat with (length p) by lia.
    rewrite drop_app_length, take_app_length. by rewrite decide_True.
  - by rewrite length_app, length_toy_tag.
Qed.

(** ** Properties *)

Lemma take_seqs_lookup n s i q :
  send_seq s <= 2 ^ 32 - 1 → MuxStream.take_seqs n s !! i = Some q →
  q = Z.min (send_seq s + Z.of_nat i) (2 ^ 32 - 1).
Proof.
  revert s i. induction n as [|n IH]; intros s i Hs Hi; [done|].
  destruct i as [|i]; simpl in Hi; [simplify_eq; lia|].
  apply IH in Hi; simpl in *; lia.
Qed.

(** The stream counter hands out 0, 1, 2, ... and then saturates: the
    i-th number is [min i (2^32-1)], so the first 2^32 numbers are distinct
    and every later one repeats the last. *)
Theorem mux_sequence_saturates id n i q :
  MuxStream.take_seqs n (MuxStream.new id) !! i = Some q →
  q = Z.min (Z.of_nat i) (2 ^ 32 - 1) ∧
  (∀ j q', MuxStream.take_seqs n (MuxStream.new id) !! j = Some q' →
     (q = q' ↔ i = j ∨ 2 ^ 32 - 1 ≤ Z.min (Z.of_nat i) (Z.of_nat j))).
Proof.
  assert (Hq : ∀ i q, MuxStream.take_seqs n (MuxStream.new id) !! i = Some q →
    q = Z.min (Z.of_nat i) (2 ^ 32 - 1)).
  { intros k x Hk. apply take_seqs_lookup in Hk; simpl in *; lia. }
  intros Hi. split; [by apply Hq|]. intros j q' Hj.
  rewrite (Hq i q Hi), (Hq j q' Hj). lia.
Qed.

(** ** Witnesses *)

Lemma mux_sequence_saturates_witness :
  MuxStream.take_seqs 3 (MuxStream.new 4) !! 2%nat = Some 2 ∧
  2 = Z.min (Z.of_nat 2) (2 ^ 32 - 1) ∧
  (∀ j q', MuxStream.take_seqs 3 (MuxStream.new 4) !! j = Some q' →
     (2 = q' ↔ 2%nat = j ∨ 2 ^ 32 - 1 ≤ Z.min (Z.of_nat 2) (Z.of_nat j))).
Proof. split; [done|]. apply (mux_sequence_saturates 4 3 2 2). done. Defined.
