(* ===== verification/RateLimit.v ===== *)
(** * RateLimit: the daemon's per-address quotas

    Models [RateLimiter] of crates/daemon/src/main.rs.  [Instant::now()] is
    the argument [now] of each operation; the counters are 32-bit. *)
From S2P Require Import Prelude.

Definition SYN_RATE_LIMIT : Z := 5.
Definition CMD_RATE_LIMIT : Z := 30.
Definition RATE_WINDOW_SECS : Z := 60.

(** Source address to the window's start and the count in it. *)
Abbreviation Counts := (gmap IpAddr (Instant * Z)).

Record RateLimiter := mkLimiter { syn_counts : Counts; cmd_counts : Counts }.

Module RateLimiter.
Definition new : RateLimiter := mkLimiter ∅ ∅.

(** The body that [check_syn] and [check_cmd] share. *)
Definition check (limit : Z) (now : Instant) (ip : IpAddr) (counts : Counts) : bool * Counts :=
  let entry := default (now, 0) (counts !! ip) in
  if from_secs RATE_WINDOW_SECS <? duration_since now entry.1
  then (true, <[ip := (now, 1)]> counts)
  else let c := wrap 32 (entry.2 + 1) in
       (c <=? limit, <[ip := (entry.1, c)]> counts).

Definition check_syn (now : Instant) (ip : IpAddr) (l : RateLimiter) : bool * RateLimiter :=
  let '(ok, m) := check SYN_RATE_LIMIT now ip (syn_counts l) in (ok, mkLimiter m (cmd_counts l)).
Definition check_cmd (now : Instant) (ip : IpAddr) (l : RateLimiter) : bool * RateLimiter :=
  let '(ok, m) := check CMD_RATE_LIMIT now ip (cmd_counts l) in (ok, mkLimiter (syn_counts l) m).

Definition expire (now : Instant) (counts : Counts) : Counts :=
  filter (λ e, duration_since now e.2.1 < from_secs (RATE_WINDOW_SECS * 2)) counts.
Definition gc (now : Instant) (l : RateLimiter) : RateLimiter :=
  mkLimiter (expire now (syn_counts l)) (expire now (cmd_counts l)).
End RateLimiter.
Import RateLimiter.

(** ** Histories of one quota *)

(** What happens to a table: a check of an address, or a collection. *)
Inductive event := Check_ (now : Instant) (ip : IpAddr) | Gc (now : Instant).
Definition time (e : event) : Instant := match e with Check_ now _ => now | Gc now => now end.

(** The requests that were allowed, in order. *)
Fixpoint run (limit : Z) (es : list event) (m : Counts) : list (Instant * IpAddr) :=
  match es with
  | [] => []
  | Check_ now a :: es =>
      let '(ok, m) := check limit now a m in
      (if ok then [(now, a)] else []) ++ run limit es m
  | Gc now :: es => run limit es (expire now m)
  end.

Definition window : Duration := from_secs RATE_WINDOW_SECS.

(** How many requests of [a] were allowed from [t] to [t + 60s]. *)
Definition allowed_in (t : Instant) (a : IpAddr) (out : list (Instant * IpAddr)) : Z :=
  len (filter (λ r, r.2 = a ∧ t <= r.1 <= t + window) out).

(** ** Lemmas *)

Lemma expire_lookup now m a :
  expire now m !! a =
  e ← m !! a; if duration_since now e.1 <? 2 * window then Some e else None.
Proof.
  unfold expire. rewrite map_lookup_filter. destruct (m !! a) as [[w c]|]; simpl; [|done].
  unfold window, from_secs, RATE_WINDOW_SECS.
  destruct (Z.ltb_spec (duration_since now w) (2 * (60 * 1000000000))).
  - rewrite option_guard_True; [done|]. simpl. lia.
  - rewrite option_guard_False; [done|]. simpl. lia.
Qed.

Lemma check_lookup limit now a m b :
  (check limit now a m).2 !! b =
  if decide (a = b) then (check limit now a m).2 !! a else m !! b.
Proof.
  unfold check. repeat case_match; simpl; subst; rewrite ?lookup_insert_eq, ?lookup_insert_ne;
    done.
Qed.

(** What the history so far allows the quota of [a] to hold: [x] requests of
    the interval starting at [t] allowed, [n] requests made, the last at [l]. *)
Definition quota_ok (limit t : Z) (x n l : Z) (e : Instant * Z) : Prop :=
  let '(w, c) := e in
  w <= l ∧ 1 <= c <= n ∧ (l < t → x = 0) ∧
  (w < t → x <= Z.min c limit - 1) ∧
  (t <= w <= t + window → x <= limit - 1 + Z.min c limit) ∧
  (t + window < w → x <= 2 * limit - 1).

Definition quota_inv (limit t : Z) (a : IpAddr) (x n l : Z) (m : Counts) : Prop :=
  match m !! a with
  | Some e => quota_ok limit t x n l e
  | None => x = 0 ∨ ∃ e, quota_ok limit t x n l e ∧ e.1 + window < l
  end.

Lemma quota_later limit t a x n l n' l' m :
  l <= l' → n <= n' → 0 <= x →
  quota_inv limit t a x n l m → quota_inv limit t a x n' l' m.
Proof.
  unfold quota_inv, quota_ok. intros Hl Hn Hx H.
  destruct (m !! a) as [[w c]|]; [lia|].
  destruct H as [->|([w c] & H & Hw)]; [by left|right].
  exists (w, c). simpl in *. lia.
Qed.

(** The request counted, when it falls in the interval. *)
Definition counted (t now : Z) (ok : bool) : Z :=
  if ok && (t <=? now) && (now <=? t + window) then 1 else 0.

(** A fresh window keeps the invariant: the old one lies entirely before. *)
Lemma quota_fresh limit t x n l now :
  1 <= limit → 0 <= x → 0 <= n → l <= now →
  (x = 0 ∨ ∃ e, quota_ok limit t x n l e ∧ e.1 + window < now) →
  quota_ok limit t (x + counted t now true) (n + 1) now (now, 1).
Proof.
  unfold quota_ok, counted, window, from_secs, RATE_WINDOW_SECS.
  intros Hlim Hx Hn Hl [->|([w c] & H & Hw)]; simpl in *;
    repeat match goal with |- context [?a <=? ?b] => destruct (Z.leb_spec a b) end; simpl;
    lia.
Qed.

Lemma quota_check limit t a x n l now m :
  1 <= limit → 0 <= x → 0 <= n → n + 1 < 2 ^ 32 → l <= now →
  quota_inv limit t a x n l m →
  quota_inv limit t a (x + counted t now (check limit now a m).1) (n + 1) now
    (check limit now a m).2.
Proof.
  intros Hlim Hx Hn Hn32 Hl H. unfold quota_inv in *. unfold check.
  change (from_secs RATE_WINDOW_SECS) with window.
  destruct (m !! a) as [[w c]|] eqn:Em; simpl.
  - destruct (Z.ltb_spec window (duration_since now w)) as [He|He]; simpl;
      rewrite lookup_insert_eq.
    + apply (quota_fresh _ _ _ _ l); [done..|]. right. exists (w, c). split; [done|].
      simpl. unfold duration_since in He. change window with 60000000000 in *. lia.
    + unfold quota_ok in H |- *. destruct H as (Hw & Hc & H1 & H2 & H3 & H4).
      rewrite wrap_id by (unfold fits; lia).
      unfold duration_since, counted, window, from_secs, RATE_WINDOW_SECS in *.
      repeat match goal with |- context [?a <=? ?b] => destruct (Z.leb_spec a b) end; simpl;
        lia.
  - assert (Hd : duration_since now now = 0) by (unfold duration_since; lia).
    cbn [from_option fst snd]. unfold id. cbn [fst snd]. rewrite Hd.
    change (window <? 0) with false. change (wrap 32 (0 + 1)) with 1. cbv zeta iota.
    cbn [fst snd]. rewrite lookup_insert_eq, (proj2 (Z.leb_le 1 limit)) by done.
    apply (quota_fresh _ _ _ _ l); [done..|].
    destruct H as [->|(e & H & Hw)]; [by left|right]. exists e. split; [done|lia].
Qed.

Lemma quota_gc limit t a x n l now m :
  0 <= x → l <= now → quota_inv limit t a x n l m → quota_inv limit t a x n now (expire now m).
Proof.
  intros Hx Hl H. unfold quota_inv in *. rewrite expire_lookup.
  destruct (m !! a) as [[w c]|] eqn:Em; simpl.
  - destruct (Z.ltb_spec (duration_since now w) (2 * window)) as [E|E].
    + unfold quota_ok in *. lia.
    + right. exists (w, c). split; [unfold quota_ok in *; lia|].
      unfold duration_since in *. simpl in *. change window with 60000000000 in *. lia.
  - destruct H as [->|([w c] & H & Hw)]; [by left|right]. exists (w, c).
    unfold quota_ok in *. simpl in *. lia.
Qed.

(** The times of a history do not decrease. *)
Definition ordered (l : Z) (es : list event) : Prop :=
  StronglySorted Z.le (l :: (time <$> es)).

Lemma ordered_cons l e es : ordered l (e :: es) → l <= time e ∧ ordered (time e) es.
Proof.
  unfold ordered. cbn [fmap list_fmap]. intros [Hs Hl]%StronglySorted_inv.
  apply Forall_cons in Hl as [Hl _]. done.
Qed.

Lemma allowed_in_cons t a now b ok out :
  allowed_in t a ((if ok : bool then [(now, b)] else []) ++ out) =
  (if decide (b = a) then counted t now ok else 0) + allowed_in t a out.
Proof.
  unfold allowed_in, counted. destruct ok; [|by case_decide].
  cbn [app andb]. rewrite filter_cons. cbn [fst snd].
  destruct (Z.leb_spec t now), (Z.leb_spec now (t + window)); simpl;
    destruct (decide (b = a)), (decide (b = a ∧ t <= now <= t + window)); cbn [length];
    first [lia | tauto | destruct_and!; lia | by rewrite Nat2Z.inj_succ, <-Z.add_1_l].
Qed.

Lemma run_bound limit t a es : ∀ x n l m,
  1 <= limit → 0 <= x → 0 <= n → n + len es < 2 ^ 32 → ordered l es →
  quota_inv limit t a x n l m → x <= 2 * limit - 1 →
  x + allowed_in t a (run limit es m) <= 2 * limit - 1.
Proof.
  induction es as [|e es IH]; intros x n l m Hlim Hx Hn Hlen Ho Hq H2.
  { unfold allowed_in. simpl. lia. }
  apply ordered_cons in Ho as [Hl Ho]. cbn [length] in Hlen.
  destruct e as [now b|now]; simpl in Hl, Ho |- *.
  - destruct (check limit now b m) as [ok m'] eqn:E.
    rewrite allowed_in_cons. case_decide as Hb.
    + subst b. pose proof (quota_check limit t a x n l now m) as Hc. rewrite E in Hc. simpl in Hc.
      rewrite Z.add_assoc. apply (IH _ (n + 1) now); try done; try lia.
      * unfold counted. case_match; lia.
      * apply Hc; done || lia.
      * specialize (Hc Hlim Hx Hn ltac:(lia) Hl Hq).
        unfold quota_inv, quota_ok in Hc. destruct (m' !! a) as [[w c]|] eqn:Ew.
        { unfold window, from_secs, RATE_WINDOW_SECS in *.
          lia. }
        { exfalso. unfold check in E. repeat case_match; simplify_map_eq. }
    + rewrite Z.add_0_l. apply (IH _ (n + 1) now); try done; try lia.
      unfold quota_inv. pose proof (check_lookup limit now b m a) as Hm.
      rewrite E, decide_False in Hm by done. simpl in Hm. rewrite Hm.
      apply (quota_later _ _ _ _ n l (n + 1) now m); done || lia.
  - apply (IH _ n now); try done; try lia. by apply (quota_gc _ _ _ _ _ l).
Qed.

(** C38: the limiter bounds every sliding interval: whatever requests and
    collections happen, in any 60 seconds an address gets at most one less
    than twice the quota (its windows are fixed, so one interval can see the
    end of a window and all of the next), provided fewer than 2^32 events
    happen in all. *)
Theorem sliding_interval_bound limit es t a :
  1 <= limit → len es < 2 ^ 32 → StronglySorted Z.le (time <$> es) →
  allowed_in t a (run limit es ∅) <= 2 * limit - 1.
Proof.
  intros Hlim Hlen Ho. destruct es as [|e es]; [unfold allowed_in; simpl; lia|].
  rewrite <-(Z.add_0_l (allowed_in _ _ _)).
  apply (run_bound _ _ _ _ _ 0 (time e)); try done; try lia.
  - unfold ordered. cbn [fmap list_fmap] in *. constructor; [done|].
    apply StronglySorted_inv in Ho as [_ Ho]. constructor; [lia|done].
  - unfold quota_inv. rewrite lookup_empty. by left.
Qed.

(** Collecting expired entries is invisible: a check at a later time
    answers the same, and leaves the same entry, as if the table had not been
    collected. *)
Theorem gc_transparent limit m a now now' :
  1 <= limit → now <= now' →
  (check limit now' a (expire now m)).1 = (check limit now' a m).1 ∧
  (check limit now' a (expire now m)).2 !! a = (check limit now' a m).2 !! a.
Proof.
  intros Hlim Hn. unfold check. rewrite !expire_lookup.
  destruct (m !! a) as [[w c]|] eqn:E; simpl.
  - destruct (Z.ltb_spec (duration_since now w) (2 * window)) as [H|H]; simpl.
    + case_match; simpl; by rewrite !lookup_insert_eq.
    + replace (duration_since now' now') with 0 by (unfold duration_since; lia).
      rewrite (proj2 (Z.ltb_lt _ (duration_since now' w)));
        [|unfold duration_since, window, from_secs, RATE_WINDOW_SECS in *; lia].
      simpl. rewrite !lookup_insert_eq. change (wrap 32 1) with 1.
      split; [by apply Z.leb_le|done].
  - case_match; simpl; by rewrite !lookup_insert_eq.
Qed.

(** ** Witnesses *)

Definition host_a : IpAddr := V4 0x0A000001.

(** One request, four more at the end of its window and six in the next: nine
    are allowed within half a second, so the bound is reached. *)
Definition burst : list event :=
  Check_ 0 host_a :: replicate 4 (Check_ (from_secs 60) host_a)
  ++ replicate 6 (Check_ (from_millis 60500) host_a).

Lemma sliding_interval_bound_witness :
  StronglySorted Z.le (time <$> burst) ∧
  allowed_in (from_secs 1) host_a (run SYN_RATE_LIMIT burst ∅) = 9 ∧
  allowed_in (from_secs 1) host_a (run SYN_RATE_LIMIT burst ∅) <= 2 * SYN_RATE_LIMIT - 1.
Proof.
  assert (Hs : StronglySorted Z.le (time <$> burst)).
  { apply Sorted_StronglySorted; [intros ???; lia|]. simpl.
    repeat first [apply Sorted_nil | apply HdRel_nil | apply Sorted_cons
                 | apply HdRel_cons; unfold from_secs, from_millis; lia]. }
  split; [exact Hs|]. split; [vm_compute; reflexivity|]. apply sliding_interval_bound; [unfold SYN_RATE_LIMIT; lia|done|exact Hs].
Defined.

Definition one_entry : Counts := {[ host_a := (0, 5) ]}.

Lemma gc_transparent_witness :
  (check SYN_RATE_LIMIT (from_secs 300) host_a (expire (from_secs 200) one_entry)).1 =
    (check SYN_RATE_LIMIT (from_secs 300) host_a one_entry).1 ∧
  (check SYN_RATE_LIMIT (from_secs 300) host_a (expire (from_secs 200) one_entry)).2 !! host_a =
    (check SYN_RATE_LIMIT (from_secs 300) host_a one_entry).2 !! host_a.
Proof. apply gc_transparent; unfold SYN_RATE_LIMIT, from_secs; lia. Defined.
