(* ===== verification/Connection.v ===== *)
(** * Connection: the daemon's connections and the packets it builds

    Models crates/daemon/src/connection.rs, and the two functions of
    crates/daemon/src/main.rs that seal a control message
    ([send_control], [build_control_packet_tcp]).  [bincode] is third-party:
    the class [ControlCodec].  [send_seq] is an [Arc<AtomicU64>] that the
    tasks of a connection share, so it is a location of a heap of counters. *)
From S2P Require Import Prelude Frame Stream.

Inductive ConnState := Listening | SynSent | Established | Closed.
#[global] Instance ConnState_eq_dec : EqDecision ConnState.
Proof. solve_decision. Defined.

Record Connection := mkConn {
  id : Z;
  peer : SocketAddr;
  state : ConnState;
  mux : StreamMux;
  created : Instant;
  last_activity : Instant;
  send_seq : nat
}.

Definition set_state (s : ConnState) (c : Connection) : Connection :=
  mkConn (id c) (peer c) s (mux c) (created c) (last_activity c) (send_seq c).
Definition touch (now : Instant) (c : Connection) : Connection :=
  mkConn (id c) (peer c) (state c) (mux c) (created c) now (send_seq c).

(** [bincode::serialize] and [bincode::deserialize] at [ControlMsg]. *)
Class ControlCodec := {
  serialize : ControlMsg → list byte;
  deserialize : list byte → option ControlMsg
}.

Module Connection.
(** [Connection::new], with the location its fresh counter got. *)
Definition new (now : Instant) (id : Z) (peer : SocketAddr) (arc : nat) : Connection :=
  mkConn id peer Listening StreamMux.new now now arc.

Section Build.
Context `{BufCrate}.

Definition bare (conn_id : Z) (t : PacketType) : PacketHeader :=
  mkHeader conn_id t empty_flags (StreamId.as_u16 Control) 0 0 0 0 (replicate 12 Byte.x00).
Definition build_syn (conn_id : Z) : list byte := encode (bare conn_id Syn) [].
Definition build_syn_ack (conn_id : Z) : list byte := encode (bare conn_id SynAck) [].
Definition build_heartbeat (conn_id : Z) : list byte := encode (bare conn_id Heartbeat) [].

(** [payload.len() as u16] keeps the low 16 bits. *)
Definition data_header (conn_id stream_id seq : Z) (flags : Flags) (body nonce : list byte)
    : PacketHeader :=
  mkHeader conn_id Data flags stream_id seq 0 0 (wrap 16 (len body)) nonce.
Definition build_data (conn_id stream_id seq : Z) (flags : Flags) (payload : list byte)
    : list byte :=
  put_slice (encode (data_header conn_id stream_id seq flags payload (replicate 12 Byte.x00)) [])
    payload.
Definition build_encrypted_data (conn_id stream_id seq : Z) (flags : Flags)
    (ciphertext nonce : list byte) : list byte :=
  put_slice (encode (data_header conn_id stream_id seq flags ciphertext nonce) []) ciphertext.
End Build.
End Connection.

(** ** Sealing a control message *)

Section Seal.
Context `{BufCrate} `{AeadCrate} `{ControlCodec}.

(** What [send_control] hands to the socket: [None] when encryption fails. *)
Definition control_datagram (conn_id : Z) (psk : Psk) (seq : Z) (msg : ControlMsg)
    : option (list byte) :=
  let payload := serialize msg in
  let seq32 := wrap 32 seq in
  let nonce := make_nonce conn_id seq32 in
  encrypted ← encrypt psk nonce payload;
  Some (Connection.build_encrypted_data conn_id (StreamId.as_u16 Control) seq32 RELIABLE
          encrypted nonce).

(** The TCP variant returns an empty vector when encryption fails. *)
Definition build_control_packet_tcp (conn_id : Z) (psk : Psk) (seq : Z) (msg : ControlMsg)
    : list byte :=
  let payload := serialize msg in
  let seq32 := wrap 32 seq in
  let nonce := make_nonce conn_id seq32 in
  match encrypt psk nonce payload with
  | None => []
  | Some encrypted =>
      encode (mkHeader conn_id Data RELIABLE (StreamId.as_u16 Control) seq32 0 0
                (wrap 16 (len encrypted)) nonce) [] ++ encrypted
  end.

(** What the other end does with a data packet: the header, the nonce of the
    header, and the rest of the packet as ciphertext. *)
Definition open_packet (psk : Psk) (data : list byte) : option (PacketHeader * list byte) :=
  h ← decode_header data;
  p ← decrypt psk (nonce h) (drop HEADER_SIZE data);
  Some (h, p).
End Seal.

(** ** Length-prefixed frames on a TCP stream *)

(** The frames that the loop of [handle_tcp_client] reads from the bytes that
    arrive, until it stops or the stream ends; [fuel] bounds the frames, and
    every frame takes at least five bytes. *)
Fixpoint tcp_frames (fuel : nat) (bs : list byte) : list (list byte) :=
  match fuel with
  | O => []
  | S fuel =>
      if (length bs <? 4)%nat then [] else
      let frame_len := of_be (take 4 bs) in
      if (frame_len =? 0) || (Z.of_nat (MAX_PACKET + 4) <? frame_len) then [] else
      let rest := drop 4 bs in
      if (length rest <? Z.to_nat frame_len)%nat then [] else
      take (Z.to_nat frame_len) rest :: tcp_frames fuel (drop (Z.to_nat frame_len) rest)
  end.
Definition read_frames (bs : list byte) : list (list byte) := tcp_frames (length bs) bs.

(** The bytes that [tcp_send] writes. *)
Definition tcp_frame (data : list byte) : list byte := be_bytes 4 (wrap 32 (len data)) ++ data.

(** ** Lemmas *)

Section SealFacts.
Context `{BufCrateOk} `{AeadCrateOk} `{ControlCodec}.

Lemma data_header_ok c s q f b n :
  u64_ok c → u16_ok s → u32_ok q → u8_ok (bits f) → length n = 12%nat →
  header_ok (Connection.data_header c s q f b n).
Proof.
  intros. unfold header_ok. simpl. split_and!; try done; try (unfold fits; lia).
  apply wrap_fits. lia.
Qed.

Lemma length_make_nonce c s : length (make_nonce c s) = 12%nat.
Proof. done. Qed.

Lemma decode_header_encode h rest :
  header_ok h → decode_header (encode h [] ++ rest) = Some h.
Proof.
  intros Hh. pose proof (decode_fields (le_bytes 8 (conn_id h))
    (le_bytes 1 (PacketType.as_u8 (pkt_type h)))
    (le_bytes 1 (bits (flags h))) (le_bytes 2 (stream_id h)) (le_bytes 4 (seq h))
    (le_bytes 4 (ack_seq h)) (le_bytes 4 (ack_bitmap h)) (le_bytes 2 (payload_len h))
    (nonce h) rest) as Hd.
  destruct Hh as (Hc & Hf & Hs & Hq & Ha & Hm & Hl & Hn).
  unfold decode_header. rewrite encode_layout, app_nil_l, <-!app_assoc.
  rewrite Hd by (done || apply length_le_bytes).
  rewrite !of_le_le_bytes_id by (done || apply PacketType.as_u8_fits).
  rewrite PacketType.from_as_u8. by destruct h as [? ? [] ? ? ? ? ? ?].
Qed.
Lemma bare_ok c t : u64_ok c → header_ok (Connection.bare c t).
Proof. unfold header_ok. cbn. intros. split_and!; done || by unfold fits. Qed.
Lemma decode_bare c t : u64_ok c → decode_header (encode (Connection.bare c t) []) = Some (Connection.bare c t).
Proof. intros. rewrite <-(app_nil_r (encode _ _)). by apply decode_header_encode, bare_ok. Qed.

(** The two transports send the same packet. *)
Lemma tcp_packet_is_datagram c psk q m :
  build_control_packet_tcp c psk q m = default [] (control_datagram c psk q m).
Proof.
  unfold build_control_packet_tcp, control_datagram. destruct (encrypt _ _ _); [|done]. simpl.
  unfold Connection.build_encrypted_data. by rewrite put_slice_ok.
Qed.

(** Every control packet the daemon seals is read back by a peer with the
    key: the header carries the connection, the control stream and the 32-bit
    sequence number, the nonce is derived from both, and decryption and
    deserialization give the message, whatever its size. *)
Theorem sealed_control_opens c psk q m pkt :
  u64_ok c → control_datagram c psk q m = Some pkt →
  ∃ h p, open_packet psk pkt = Some (h, p) ∧ p = serialize m ∧
    conn_id h = c ∧ pkt_type h = Data ∧ stream_id h = StreamId.as_u16 Control ∧
    seq h = wrap 32 q ∧ nonce h = make_nonce (conn_id h) (seq h) ∧
    length pkt = (HEADER_SIZE + length (serialize m) + 16)%nat.
Proof.
  intros Hc. unfold control_datagram, encrypt.
  destruct (aead_encrypt _ _ _) as [ct|] eqn:E; [|done]. simpl.
  intros [= <-]. unfold Connection.build_encrypted_data. rewrite put_slice_ok.
  set (h := Connection.data_header _ _ _ _ _ _).
  assert (Hh : header_ok h).
  { apply data_header_ok; try done. by apply wrap_fits. }
  assert (Hl : length (encode h []) = HEADER_SIZE) by by apply length_encode.
  exists h, (serialize m). unfold open_packet. rewrite decode_header_encode by done. simpl.
  rewrite drop_app_length' by done. unfold decrypt.
  rewrite (aead_roundtrip _ _ _ _ E). split_and!; try done.
  rewrite length_app, Hl, (aead_length _ _ _ _ E). unfold HEADER_SIZE. lia.
Qed.
End SealFacts.

Lemma tcp_frames_cons fuel data rest :
  (1 ≤ length data ≤ MAX_PACKET + 4)%nat →
  tcp_frames (S fuel) (tcp_frame data ++ rest) = data :: tcp_frames fuel rest.
Proof.
  intros [H1 H2]. unfold MAX_PACKET, HEADER_SIZE, MAX_PAYLOAD in H2. unfold tcp_frame.
  assert (Hf : fits 32 (len data)) by (unfold fits; lia).
  rewrite wrap_id by done. cbn [tcp_frames]. rewrite <-app_assoc.
  assert (H4 : length (be_bytes 4 (len data)) = 4%nat) by apply length_be_bytes.
  rewrite take_app_length', drop_app_length' by done.
  rewrite of_be_be_bytes_id by done.
  rewrite (proj2 (Nat.ltb_ge _ _)) by (rewrite length_app, H4; lia).
  rewrite (proj2 (Z.eqb_neq _ _)), (proj2 (Z.ltb_ge _ _)) by
    (unfold MAX_PACKET, HEADER_SIZE, MAX_PAYLOAD; lia). cbn [orb].
  rewrite Nat2Z.id, (proj2 (Nat.ltb_ge _ _)) by (rewrite length_app; lia).
  by rewrite take_app_length, drop_app_length.
Qed.

Lemma tcp_frames_enough fuel frames :
  Forall (λ d : list byte, 1 ≤ length d ≤ MAX_PACKET + 4)%nat frames →
  (length frames ≤ fuel)%nat →
  tcp_frames fuel (mjoin (tcp_frame <$> frames)) = frames.
Proof.
  revert fuel. induction frames as [|d frames IH]; intros fuel Hall Hle.
  { destruct fuel; done. }
  apply Forall_cons in Hall as [Hd Hall]. cbn [length] in Hle.
  destruct fuel as [|fuel]; [lia|].
  cbn [fmap list_fmap mjoin list_join]. rewrite tcp_frames_cons by done.
  f_equal. apply IH; [done|lia].
Qed.

(** Framing on TCP is transparent: the frames written one after the other,
    each of 1 to 1458 bytes, are exactly the frames the reader sees. *)
Theorem tcp_framing_roundtrip frames :
  Forall (λ d : list byte, 1 ≤ length d ≤ MAX_PACKET + 4)%nat frames →
  read_frames (mjoin (tcp_frame <$> frames)) = frames.
Proof.
  intros Hall. apply tcp_frames_enough; [done|].
  induction Hall as [|d frames Hd Hall IH]; [done|].
  change (mjoin (tcp_frame <$> d :: frames))
    with (tcp_frame d ++ mjoin (tcp_frame <$> frames)).
  rewrite length_app. cbn [length].
  assert (4 ≤ length (tcp_frame d))%nat; [|lia].
  unfold tcp_frame. rewrite length_app, length_be_bytes. lia.
Qed.

(** ** Witnesses *)

(** A codec that carries two of the messages, enough to evaluate examples. *)
Definition byte_of_caps (c : list string) : list byte := as_bytes (String.concat "," c).
#[export] Instance toy_codec : ControlCodec := {
  serialize m :=
    match m with
    | Hello v _ => Byte.x0c :: le_bytes 2 v
    | Exec i cmd => Byte.x00 :: le_bytes 4 i ++ as_bytes cmd
    | FileAck i o => Byte.x03 :: le_bytes 4 i ++ le_bytes 8 o
    | HelloAck v _ => Byte.x0d :: le_bytes 2 v
    | _ => [Byte.xff]
    end;
  deserialize bs :=
    match bs with
    | Byte.x0c :: rest => Some (Hello (of_le (take 2 rest)) [])
    | Byte.x00 :: rest =>
        Some (Exec (of_le (take 4 rest)) (String.string_of_list_byte (drop 4 rest)))
    | _ => None
    end
}.

Definition sample_psk : Psk := zero32.

Lemma sealed_control_opens_witness :
  ∃ pkt, control_datagram 42 sample_psk 5 (Hello 1 []) = Some pkt ∧
  ∃ h p, open_packet sample_psk pkt = Some (h, p) ∧ p = serialize (Hello 1 []) ∧
    conn_id h = 42 ∧ pkt_type h = Data ∧ stream_id h = StreamId.as_u16 Control ∧
    seq h = wrap 32 5 ∧ nonce h = make_nonce (conn_id h) (seq h) ∧
    length pkt = (HEADER_SIZE + length (serialize (Hello 1 [])) + 16)%nat.
Proof.
  eexists. split; [reflexivity|].
  apply sealed_control_opens; [unfold fits; lia|reflexivity].
Defined.

Lemma tcp_framing_roundtrip_witness :
  read_frames (mjoin (tcp_frame <$> [[Byte.x01]; [Byte.x02; Byte.x03]])) =
    [[Byte.x01]; [Byte.x02; Byte.x03]].
Proof. apply tcp_framing_roundtrip. repeat constructor. Defined.
