(* ===== verification/Daemon.v ===== *)
(** * Daemon: the packet handlers, control commands and tasks of lan-linkd

    Models crates/daemon/src/main.rs.  The UDP loop and the TCP clients keep
    separate connection tables and limiters ([Endpoint]); they share the
    running tasks, the file transfers and the sockets ([Host]).  Each handler
    is a function of the packet, the time and the answers of the operating
    system ([Env]); what it sends is appended to [trace].  [dstep] is the
    interleaving of datagrams, TCP frames, ticks and task events, each of them one
    step; DaemonParts and TcpTasks cut the steps where the code may wait. *)
From S2P Require Import Prelude Frame Stream RateLimit Connection.

Definition MAX_CONNECTIONS : nat := 100.
Definition HEARTBEAT_INTERVAL : Duration := from_secs 5.
Definition TIMEOUT : Duration := from_secs 30.

(** ** State *)

Inductive ExecCmd := Stdin (data : list byte) (close : bool) | Signal (signo : Z).

(** The transport a task answers on. *)
Inductive Route := ViaUdp (p : SocketAddr) | ViaTcp.

(** A running [run_exec_task]: its connection, the counter it shares with it,
    the commands and the process output that wait in its channels. *)
Record ExecTask := mkTask {
  task_id : Z;
  task_conn : Z;
  task_route : Route;
  task_seq : nat;
  task_cmd : string;
  inbox : list ExecCmd;
  chunks : list (Z * list byte)
}.

(** A [FILE_TRANSFERS] entry: the open file, its position, the size told. *)
Record Transfer := mkTransfer { ft_path : string; ft_pos : Z; ft_size : Z }.

Inductive Effect :=
| SentUdp (dest : SocketAddr) (data : list byte)
| SentTcp (stream : SocketAddr) (data : list byte)
| WroteStdin (task : nat) (data : list byte) (close : bool)
| Killed (task : nat).

Record Host := mkHost {
  counters : list Z;
  tasks : gmap nat ExecTask;
  next_task : nat;
  exec_map : gmap Z nat;
  tcp_conns : gmap Z SocketAddr;
  transfers : gmap Z Transfer;
  disk : gmap string (list byte);
  trace : list Effect
}.

Record Endpoint := mkEndpoint { connections : gmap Z Connection; limiter : RateLimiter }.

Record Daemon := mkDaemon { udp : Endpoint; tcp : Endpoint; host : Host; last_hb : Instant }.

(** What the operating system answers while one message is handled:
    whether the process starts, what a native command prints ([None]: its
    thread failed), whether a file opens, and after how many bytes a write
    fails ([None]: it succeeds). *)
Record Env := mkEnv {
  spawn_ok : bool;
  native_result : option (list byte * option Z);
  open_ok : bool;
  write_fails : option nat
}.

Definition set_counters (v : list Z) (h : Host) : Host :=
  mkHost v (tasks h) (next_task h) (exec_map h) (tcp_conns h) (transfers h) (disk h) (trace h).
Definition set_tasks (v : gmap nat ExecTask) (h : Host) : Host :=
  mkHost (counters h) v (next_task h) (exec_map h) (tcp_conns h) (transfers h) (disk h) (trace h).
Definition set_tcp_conns (v : gmap Z SocketAddr) (h : Host) : Host :=
  mkHost (counters h) (tasks h) (next_task h) (exec_map h) v (transfers h) (disk h) (trace h).
Definition set_files (t : gmap Z Transfer) (d : gmap string (list byte)) (h : Host) : Host :=
  mkHost (counters h) (tasks h) (next_task h) (exec_map h) (tcp_conns h) t d (trace h).
Definition emit (e : Effect) (h : Host) : Host :=
  mkHost (counters h) (tasks h) (next_task h) (exec_map h) (tcp_conns h) (transfers h) (disk h)
    (trace h ++ [e]).

(** The task [k] with other contents in its channels. *)
Definition put_task (k : nat) (t : ExecTask) (inbox : list ExecCmd) (chunks : list (Z * list byte))
    (h : Host) : Host :=
  set_tasks (<[k := mkTask (task_id t) (task_conn t) (task_route t) (task_seq t) (task_cmd t)
                inbox chunks]> (tasks h)) h.

(** A new task, under the [id] by which commands reach it. *)
Definition put_exec (conn_id : Z) (route : Route) (l : nat) (id : Z) (cmd : string) (h : Host) : Host :=
  mkHost (counters h) (<[next_task h := mkTask id conn_id route l cmd [] []]> (tasks h)) (S (next_task h))
    (<[id := next_task h]> (exec_map h)) (tcp_conns h) (transfers h) (disk h) (trace h).

(** [Arc::new(AtomicU64::new(0))]: a fresh location. *)
Definition new_counter (h : Host) : nat * Host :=
  (length (counters h), set_counters (counters h ++ [0]) h).
(** [ctrl_seq.fetch_add(1)]: the old value. *)
Definition next_seq (l : nat) (h : Host) : Z * Host :=
  let q := default 0 (counters h !! l) in
  (q, set_counters (<[l := wrap 64 (q + 1)]> (counters h)) h).

Section Daemon.
Context `{BufCrate} `{AeadCrate} `{ControlCodec}.
Variable psk : Psk.

(** ** Sending *)

Definition send_control (conn_id : Z) (p : SocketAddr) (seq : Z) (msg : ControlMsg)
    (h : Host) : Host :=
  match control_datagram conn_id psk seq msg with
  | Some packet => emit (SentUdp p packet) h
  | None => h
  end.

Definition tcp_send (conn_id : Z) (data : list byte) (h : Host) : Host :=
  match tcp_conns h !! conn_id with
  | Some stream => emit (SentTcp stream (tcp_frame data)) h
  | None => h
  end.

(** [send_control(.., next_seq(), msg, ..)] *)
Definition reply_udp (conn_id : Z) (p : SocketAddr) (l : nat) (msg : ControlMsg)
    (h : Host) : Host :=
  let '(q, h) := next_seq l h in send_control conn_id p q msg h.
(** [tcp_send(.., build_control_packet_tcp(.., next_seq(), msg))] *)
Definition reply_tcp (conn_id : Z) (l : nat) (msg : ControlMsg) (h : Host) : Host :=
  let '(q, h) := next_seq l h in
  tcp_send conn_id (build_control_packet_tcp conn_id psk q msg) h.
Definition reply_on (route : Route) (conn_id : Z) (l : nat) (msg : ControlMsg)
    (h : Host) : Host :=
  match route with
  | ViaUdp p => reply_udp conn_id p l msg h
  | ViaTcp => reply_tcp conn_id l msg h
  end.

(** ** Control commands *)

(** [StreamingExec::spawn], the [exec_map] entry, the task, and the answer. *)
Definition spawn_exec (env : Env) (conn_id : Z) (route : Route) (l : nat) (id : Z)
    (cmd : string) (h : Host) : Host :=
  if spawn_ok env then reply_on route conn_id l (ExecStarted id) (put_exec conn_id route l id cmd h)
  else reply_on route conn_id l (ExecDone id None) h.

(** The command string of a [NativeSpawn], for the variants that have one. *)
Definition spawn_command (cmd : NativeCmdType) : option string :=
  match cmd with
  | ShellExec cmd _ => Some cmd
  | Tail path lines true follow_secs =>
      let tail := ("tail -n " +:+ pretty lines +:+ " -f " +:+ path)%string in
      Some (if 0 <? follow_secs
            then ("timeout " +:+ pretty follow_secs +:+ " " +:+ tail)%string else tail)
  | _ => None
  end.

(** [tx.send(cmd)] through the map: nothing happens for an unknown id, and a
    task that has ended dropped its receiver. *)
Definition send_exec (id : Z) (cmd : ExecCmd) (h : Host) : Host :=
  match exec_map h !! id with
  | None => h
  | Some k =>
      match tasks h !! k with
      | None => h
      | Some t => put_task k t (inbox t ++ [cmd]) (chunks t) h
      end
  end.

(** [signo as i32]. *)
Definition as_i32 (z : Z) : Z := wrap 32 (z + 2 ^ 31) - 2 ^ 31.

(** A native command runs to its end; then its output and its exit code. *)
Definition run_native (env : Env) (fallback : list byte) (conn_id : Z) (route : Route) (l : nat)
    (id : Z) (h : Host) : Host :=
  let '(out, exit) := default (fallback, Some 1) (native_result env) in
  reply_on route conn_id l (ExecDone id exit) (reply_on route conn_id l (ExecChunk id 0 out) h).

(** Writing at a position of a file: zeros fill a gap. *)
Definition write_at (pos : Z) (data file : list byte) : list byte :=
  match data with
  | [] => file
  | _ =>
      let p := Z.to_nat pos in
      take p (file ++ replicate (p - length file) Byte.x00) ++ data ++ drop (p + length data) file
  end.

(** [None]: the file could not be created. *)
Definition file_push (env : Env) (id : Z) (path : string) (size : Z) (h : Host) : option Host :=
  if open_ok env then
    Some (set_files (<[id := mkTransfer path 0 size]> (transfers h)) (<[path := []]> (disk h)) h)
  else None.

(** The acknowledged offset; [None]: no transfer, or the write failed.  A
    seek beyond the largest signed offset fails and leaves the position. *)
Definition file_chunk (env : Env) (id offset : Z) (chunk : list byte) (h : Host)
    : Host * option Z :=
  match transfers h !! id with
  | None => (h, None)
  | Some ft =>
      let pos := if offset <? 2 ^ 63 then offset else ft_pos ft in
      let data := match write_fails env with Some n => take n chunk | None => chunk end in
      let file := write_at pos data (default [] (disk h !! ft_path ft)) in
      let ft := mkTransfer (ft_path ft) (pos + len data) (ft_size ft) in
      let h := set_files (<[id := ft]> (transfers h)) (<[ft_path ft := file]> (disk h)) h in
      match write_fails env with
      | Some _ => (h, None)
      | None =>
          let ack := wrap 64 (offset + len chunk) in
          (if ft_size ft <=? ack then set_files (delete id (transfers h)) (disk h) h else h,
           Some ack)
      end
  end.

Definition newline : string := String (Ascii.ascii_of_nat 10) "".
Definition daemon_capabilities : list string := ["exec"; "input"].

(** [handle_control] after [bincode::deserialize]. *)
Definition handle_msg (env : Env) (msg : ControlMsg) (conn_id : Z) (p : SocketAddr) (l : nat)
    (h : Host) : Host :=
  let reply := reply_udp conn_id p l in
  match msg with
  | Exec id cmd => spawn_exec env conn_id (ViaUdp p) l id cmd h
  | NativeSpawn id cmd =>
      match spawn_command cmd with
      | Some cmd_str => spawn_exec env conn_id (ViaUdp p) l id cmd_str h
      | None => reply (ExecDone id None) h
      end
  | ExecStdin id data close => send_exec id (Stdin data close) h
  | ExecSignal id signo => send_exec id (Signal (as_i32 signo)) h
  | Hello version _ =>
      if version =? PROTOCOL_VERSION
      then reply (HelloAck PROTOCOL_VERSION daemon_capabilities) h else h
  | NativeCmd id _ =>
      run_native env (as_bytes ("NativeCmd: spawn_blocking failed" +:+ newline))
        conn_id (ViaUdp p) l id h
  | FilePush id path size =>
      match file_push env id path size h with
      | Some h => reply (FileAck id 0) h
      | None => h
      end
  | FileChunk id offset chunk =>
      match file_chunk env id offset chunk h with
      | (h, Some ack_off) => reply (FileAck id ack_off) h
      | (h, None) => h
      end
  | _ => h
  end.

Definition handle_control (env : Env) (data : list byte) (conn_id : Z) (p : SocketAddr) (l : nat)
    (h : Host) : Host :=
  match deserialize data with
  | Some msg => handle_msg env msg conn_id p l h
  | None => h
  end.

(** [handle_control_tcp] after [bincode::deserialize]. *)
Definition handle_msg_tcp (env : Env) (msg : ControlMsg) (conn_id : Z) (l : nat)
    (h : Host) : Host :=
  let reply := reply_tcp conn_id l in
  match msg with
  | Hello version _ =>
      if version =? PROTOCOL_VERSION
      then reply (HelloAck PROTOCOL_VERSION daemon_capabilities) h else h
  | NativeCmd id _ =>
      run_native env (as_bytes ("NativeCmd: spawn_blocking failed" +:+ newline))
        conn_id ViaTcp l id h
  | NativeSpawn id cmd =>
      match spawn_command cmd with
      | Some cmd_str => spawn_exec env conn_id ViaTcp l id cmd_str h
      | None =>
          run_native env (as_bytes ("spawn_blocking failed" +:+ newline))
            conn_id ViaTcp l id h
      end
  | Exec id cmd => spawn_exec env conn_id ViaTcp l id cmd h
  | ExecStdin id data close => send_exec id (Stdin data close) h
  | ExecSignal id signo => send_exec id (Signal (as_i32 signo)) h
  | FilePush id path size =>
      match file_push env id path size h with
      | Some h => reply (FileAck id 0) h
      | None => h
      end
  | FileChunk id offset chunk =>
      match file_chunk env id offset chunk h with
      | (h, Some ack_off) => reply (FileAck id ack_off) h
      | (h, None) => h
      end
  | _ => h
  end.

Definition handle_control_tcp (env : Env) (data : list byte) (conn_id : Z) (l : nat)
    (h : Host) : Host :=
  match deserialize data with
  | Some msg => handle_msg_tcp env msg conn_id l h
  | None => h
  end.

(** ** Packets *)

Definition new_connection (now : Instant) (c : Z) (p : SocketAddr) (ep : Endpoint) (h : Host)
    : Endpoint * Host :=
  let '(l, h) := new_counter h in
  let conn := set_state Established (Connection.new now c p l) in
  (mkEndpoint (<[c := conn]> (connections ep)) (limiter ep), h).
Definition update_conn (f : Connection → Connection) (c : Z) (ep : Endpoint) : Endpoint :=
  mkEndpoint (alter f c (connections ep)) (limiter ep).
Definition is_established (conn : Connection) : bool := bool_decide (state conn = Established).

(** A datagram received by the UDP loop. *)
Definition handle_packet_inner (now : Instant) (env : Env) (data : list byte) (p : SocketAddr)
    (ep : Endpoint) (h : Host) : Endpoint * Host :=
  match decode_header data with
  | None => (ep, h)
  | Some header =>
      let c := conn_id header in
      match pkt_type header with
      | Syn =>
          let '(ok, rl) := RateLimiter.check_syn now (ip p) (limiter ep) in
          let ep := mkEndpoint (connections ep) rl in
          if negb ok then (ep, h) else
          if (MAX_CONNECTIONS <=? size (connections ep))%nat then (ep, h) else
          match connections ep !! c with
          | Some existing =>
              if decide (peer existing = p)
              then (ep, emit (SentUdp p (Connection.build_syn_ack c)) h)
              else (ep, h)
          | None =>
              let '(ep, h) := new_connection now c p ep h in
              (ep, emit (SentUdp p (Connection.build_syn_ack c)) h)
          end
      | SynAck => (update_conn (λ x, touch now (set_state Established x)) c ep, h)
      | Data =>
          match connections ep !! c with
          | None => (ep, h)
          | Some conn =>
              if negb (is_established conn && bool_decide (peer conn = p)) then (ep, h) else
              if (length data <=? HEADER_SIZE)%nat then (ep, h) else
              match decrypt psk (nonce header) (drop HEADER_SIZE data) with
              | None => (ep, h)
              | Some plaintext =>
                  let ep := update_conn (touch now) c ep in
                  if stream_id header =? StreamId.as_u16 Control then
                    let '(ok, rl) := RateLimiter.check_cmd now (ip p) (limiter ep) in
                    let ep := mkEndpoint (connections ep) rl in
                    if negb ok then (ep, h) else
                    (ep, handle_control env plaintext c p (send_seq conn) h)
                  else (ep, h)
              end
          end
      | Heartbeat =>
          match connections ep !! c with
          | None => (ep, h)
          | Some conn =>
              if negb (is_established conn && bool_decide (peer conn = p)) then (ep, h) else
              (update_conn (touch now) c ep,
               emit (SentUdp (peer conn) (Connection.build_heartbeat c)) h)
          end
      | Rst => (mkEndpoint (delete c (connections ep)) (limiter ep), h)
      | Ack => (ep, h)
      end
  end.

(** A frame received from a TCP client. *)
Definition handle_packet_tcp (now : Instant) (env : Env) (data : list byte) (p : SocketAddr)
    (ep : Endpoint) (h : Host) : Endpoint * Host :=
  match decode_header data with
  | None => (ep, h)
  | Some header =>
      let c := conn_id header in
      match pkt_type header with
      | Syn =>
          let '(ok, rl) := RateLimiter.check_syn now (ip p) (limiter ep) in
          let ep := mkEndpoint (connections ep) rl in
          if negb ok then (ep, h) else
          match connections ep !! c with
          | Some existing =>
              if decide (peer existing = p)
              then (ep, tcp_send c (Connection.build_syn_ack c) h)
              else (ep, h)
          | None =>
              let '(ep, h) := new_connection now c p ep h in
              (ep, tcp_send c (Connection.build_syn_ack c) h)
          end
      | Data =>
          match connections ep !! c with
          | None => (ep, h)
          | Some conn =>
              if negb (is_established conn) then (ep, h) else
              if (length data <=? HEADER_SIZE)%nat then (ep, h) else
              match decrypt psk (nonce header) (drop HEADER_SIZE data) with
              | None => (ep, h)
              | Some plaintext =>
                  let ep := update_conn (touch now) c ep in
                  if stream_id header =? StreamId.as_u16 Control then
                    let '(ok, rl) := RateLimiter.check_cmd now (ip p) (limiter ep) in
                    let ep := mkEndpoint (connections ep) rl in
                    if negb ok then (ep, h) else
                    (ep, handle_control_tcp env plaintext c (send_seq conn) h)
                  else (ep, h)
              end
          end
      | Heartbeat =>
          (update_conn (λ x, if is_established x then touch now x else x) c ep, h)
      | Rst => (mkEndpoint (delete c (connections ep)) (limiter ep), h)
      | SynAck | Ack => (ep, h)
      end
  end.

(** One iteration of [handle_tcp_client]: the connection is registered for
    answers by the first client that names it. *)
Definition handle_tcp_frame (now : Instant) (env : Env) (data : list byte) (p : SocketAddr)
    (ep : Endpoint) (h : Host) : Endpoint * Host :=
  match decode_header data with
  | None => (ep, h)
  | Some header =>
      let tc := tcp_conns h in
      let tc := match tc !! conn_id header with
                | Some _ => tc
                | None => <[conn_id header := p]> tc
                end in
      handle_packet_tcp now env data p ep (set_tcp_conns tc h)
  end.
(** The end of [handle_tcp_client]. *)
Definition close_tcp (p : SocketAddr) (h : Host) : Host :=
  set_tcp_conns (filter (λ e, e.2 ≠ p) (tcp_conns h)) h.

(** ** The tick of the main loop *)

Definition alive (now : Instant) (conn : Connection) : bool :=
  duration_since now (last_activity conn) <? TIMEOUT.
Definition heartbeat (e : Z * Connection) (h : Host) : Host :=
  if is_established e.2
  then emit (SentUdp (peer e.2) (Connection.build_heartbeat (id e.2))) h else h.
Definition send_heartbeats (conns : gmap Z Connection) (h : Host) : Host :=
  foldr heartbeat h (map_to_list conns).
Definition tick (now : Instant) (d : Daemon) : Daemon :=
  if duration_since now (last_hb d) <? HEARTBEAT_INTERVAL then d else
  let ep := udp d in
  mkDaemon (mkEndpoint (filter (λ e, alive now e.2 = true) (connections ep))
              (RateLimiter.gc now (limiter ep)))
    (tcp d) (send_heartbeats (connections ep) (host d)) now.

(** ** Tasks *)

(** What can happen to a running task: its process prints; [select!] takes
    the next chunk, the exit code, or the next command. *)
Inductive TaskEvent :=
| Output (stream : Z) (data : list byte)
| Forward
| Exited (code : option Z)
| Command.

(** Some sender of the task's channel is still in the map. *)
Definition sender_alive (k : nat) (h : Host) : bool :=
  bool_decide (k ∈ (map_to_list (exec_map h)).*2).

Definition run_task (k : nat) (ev : TaskEvent) (h : Host) : Host :=
  match tasks h !! k with
  | None => h
  | Some t =>
      let reply := reply_on (task_route t) (task_conn t) (task_seq t) in
      match ev with
      | Output stream data => put_task k t (inbox t) (chunks t ++ [(stream, data)]) h
      | Forward =>
          match chunks t with
          | [] => h
          | (stream, data) :: rest =>
              reply (ExecChunk (task_id t) stream data) (put_task k t (inbox t) rest h)
          end
      | Exited code =>
          let h := reply (ExecDone (task_id t) code) h in set_tasks (delete k (tasks h)) h
      | Command =>
          match inbox t with
          | Stdin data close :: rest =>
              emit (WroteStdin k data close) (put_task k t rest (chunks t) h)
          | Signal _ :: rest => emit (Killed k) (put_task k t rest (chunks t) h)
          | [] =>
              if sender_alive k h then h
              else emit (Killed k) (set_tasks (delete k (tasks h)) h)
          end
      end
  end.

(** ** The daemon as a transition system *)

Definition start (now : Instant) : Daemon :=
  mkDaemon (mkEndpoint ∅ RateLimiter.new) (mkEndpoint ∅ RateLimiter.new)
    (mkHost [] ∅ 0 ∅ ∅ ∅ ∅ []) now.
Definition on_udp (r : Endpoint * Host) (d : Daemon) : Daemon :=
  mkDaemon r.1 (tcp d) r.2 (last_hb d).
Definition on_tcp (r : Endpoint * Host) (d : Daemon) : Daemon :=
  mkDaemon (udp d) r.1 r.2 (last_hb d).
Definition on_host (h : Host) (d : Daemon) : Daemon :=
  mkDaemon (udp d) (tcp d) h (last_hb d).

Inductive dstep : Daemon → Daemon → Prop :=
| dstep_datagram now env data p d :
    dstep d (on_udp (handle_packet_inner now env data p (udp d) (host d)) d)
| dstep_frame now env data p d :
    dstep d (on_tcp (handle_tcp_frame now env data p (tcp d) (host d)) d)
| dstep_close p d : dstep d (on_host (close_tcp p (host d)) d)
| dstep_tick now d : dstep d (tick now d)
| dstep_task k ev d : dstep d (on_host (run_task k ev (host d)) d).

Definition reachable (d : Daemon) : Prop := ∃ now, rtc dstep (start now) d.
End Daemon.
