(* ===== verification/DaemonProofs.v ===== *)
(** * DaemonProofs: what the daemon guarantees, and what it does not

    The invariant of the reachable states, the reach of packets without the
    key, the file transfers and the tick; and three behaviours that break an
    intention of the protocol: nonces restart with a connection, a replayed
    datagram is executed again, an exit can overtake the output. *)
From S2P Require Import Prelude Frame Stream RateLimit Connection Daemon.

(** ** Preservation of the host *)

Record host_ok (h : Host) : Prop := {
  ok_exec i k : exec_map h !! i = Some k → (k < next_task h)%nat;
  ok_task k t : tasks h !! k = Some t →
    (k < next_task h)%nat ∧ (task_seq t < length (counters h))%nat;
  ok_owner i k t : exec_map h !! i = Some k → tasks h !! k = Some t → task_id t = i
}.

(** [h'] comes from [h] by operations that keep the host well formed. *)
Definition ext (h h' : Host) : Prop :=
  (length (counters h) ≤ length (counters h'))%nat ∧ (host_ok h → host_ok h').

Lemma ext_refl h : ext h h.
Proof. by split. Qed.
Lemma ext_trans h1 h2 h3 : ext h1 h2 → ext h2 h3 → ext h1 h3.
Proof. intros [] []. split; [lia|auto]. Qed.

(** Operations that leave the tasks and the map alone. *)
Lemma ext_frame h h' :
  tasks h' = tasks h → exec_map h' = exec_map h → next_task h' = next_task h →
  (length (counters h) ≤ length (counters h'))%nat → ext h h'.
Proof.
  intros Ht He Hn Hc. split; [done|]. intros [H1 H2 H3].
  split; rewrite ?Ht, ?He, ?Hn; [done| |done].
  intros k t Hk. apply H2 in Hk. lia.
Qed.

Lemma ext_emit e h : ext h (emit e h).
Proof. by apply ext_frame. Qed.
Lemma ext_counter h : ext h (new_counter h).2.
Proof. apply ext_frame; try done. simpl. rewrite length_app. lia. Qed.
Lemma ext_next_seq l h : ext h (next_seq l h).2.
Proof. apply ext_frame; try done. simpl. by rewrite length_insert. Qed.
Lemma ext_files t d h : ext h (set_files t d h).
Proof. by apply ext_frame. Qed.
Lemma ext_tcp_conns m h : ext h (set_tcp_conns m h).
Proof. by apply ext_frame. Qed.

(** Ending a task, and changing what waits in its channels. *)
Lemma ext_drop k h : ext h (set_tasks (delete k (tasks h)) h).
Proof.
  split; [done|]. intros [H1 H2 H3].
  split; simpl; [done| |]; intros *; rewrite lookup_delete_Some; naive_solver.
Qed.
Lemma ext_put k t i c h : tasks h !! k = Some t → ext h (put_task k t i c h).
Proof.
  intros Hk. split; [done|]. intros [H1 H2 H3]. split; simpl; [done| |].
  - intros k' t'. rewrite lookup_insert_Some. intros [[<- <-]|[_ Hk']]; [|by eapply H2].
    simpl. by eapply H2.
  - intros i' k' t' Hi. rewrite lookup_insert_Some.
    intros [[<- <-]|[_ Hk']]; [simpl|]; by eapply H3.
Qed.
Lemma ext_send_exec i cmd h : ext h (send_exec i cmd h).
Proof.
  unfold send_exec. destruct (exec_map h !! i) as [k|]; [|apply ext_refl].
  destruct (tasks h !! k) as [t|] eqn:Hk; [by apply ext_put|apply ext_refl].
Qed.

Create HintDb host discriminated.
#[export] Hint Resolve ext_refl ext_emit ext_next_seq ext_files ext_tcp_conns ext_drop ext_put
  ext_send_exec : host.

Section Preservation.
Context `{BufCrate} `{AeadCrate} `{ControlCodec}.
Variable psk : Psk.

Lemma ext_reply_on route c l m h : ext h (reply_on psk route c l m h).
Proof.
  destruct route as [p|]; simpl; unfold reply_udp, reply_tcp, send_control, tcp_send;
    destruct (next_seq l h) as [q h'] eqn:E; pose proof (ext_next_seq l h) as Hn;
    rewrite E in Hn; repeat case_match; eauto using ext_trans, ext_emit.
Qed.

Lemma ext_reply_udp c p l m h : ext h (reply_udp psk c p l m h).
Proof. apply (ext_reply_on (ViaUdp p)). Qed.
Lemma ext_reply_tcp c l m h : ext h (reply_tcp psk c l m h).
Proof. apply (ext_reply_on ViaTcp). Qed.

Lemma ext_put_exec c route l i cmd h :
  (l < length (counters h))%nat → ext h (put_exec c route l i cmd h).
Proof.
  intros Hl. split; [done|]. intros [He Hta Ho].
  split; simpl.
  - intros i' k. rewrite lookup_insert_Some. intros [[_ <-]|[_ Hk]]; [lia|].
    apply He in Hk. lia.
  - intros k t. rewrite lookup_insert_Some. intros [[<- <-]|[_ Hk]]; [simpl; lia|].
    apply Hta in Hk. lia.
  - intros i' k t. rewrite !lookup_insert_Some.
    intros [[<- <-]|[Hi Hk]] [[? <-]|[Hk' Ht]]; simpl; try done.
    + subst k. apply He in Hk. lia.
    + by eapply Ho.
Qed.
Lemma ext_spawn env c route l i cmd h :
  (l < length (counters h))%nat → ext h (spawn_exec psk env c route l i cmd h).
Proof.
  intros Hl. unfold spawn_exec. destruct (spawn_ok env); [|apply ext_reply_on].
  eapply ext_trans; [by apply ext_put_exec|apply ext_reply_on].
Qed.

Lemma ext_native env fb c route l i h : ext h (run_native psk env fb c route l i h).
Proof.
  unfold run_native. destruct (default _ _) as [out exit].
  eapply ext_trans; apply ext_reply_on.
Qed.

Lemma ext_file_push env i path sz h h' : file_push env i path sz h = Some h' → ext h h'.
Proof. unfold file_push. intros Hp. case_match; [|done]. simplify_eq. apply ext_files. Qed.
Lemma ext_file_chunk env i off ch h : ext h (file_chunk env i off ch h).1.
Proof.
  unfold file_chunk. repeat case_match; simpl; eauto using ext_trans, ext_files, ext_refl.
  all: apply ext_frame; done.
Qed.

Lemma ext_file_push_reply env i path sz h (reply : ControlMsg → Host → Host) :
  (∀ m h, ext h (reply m h)) →
  ext h (match file_push env i path sz h with
         | Some h => reply (FileAck i 0) h
         | None => h
         end).
Proof.
  intros Hr. destruct (file_push env i path sz h) eqn:Ep; [|apply ext_refl].
  eapply ext_trans; [by eapply ext_file_push|apply Hr].
Qed.
Lemma ext_file_chunk_reply env i off ch h (reply : ControlMsg → Host → Host) :
  (∀ m h, ext h (reply m h)) →
  ext h (match file_chunk env i off ch h with
         | (h, Some ack) => reply (FileAck i ack) h
         | (h, None) => h
         end).
Proof.
  intros Hr. pose proof (ext_file_chunk env i off ch h) as Hf.
  destruct (file_chunk env i off ch h) as [h1 [ack|]]; [|done].
  eapply ext_trans; [exact Hf|apply Hr].
Qed.

Lemma ext_handle_msg env m c p l h :
  (l < length (counters h))%nat → ext h (handle_msg psk env m c p l h).
Proof.
  intros Hl. destruct m; simpl;
    eauto using ext_refl, ext_spawn, ext_send_exec, ext_native, ext_reply_udp.
  - apply ext_file_push_reply, ext_reply_udp.
  - apply ext_file_chunk_reply, ext_reply_udp.
  - case_match; eauto using ext_refl, ext_reply_udp.
  - case_match; eauto using ext_spawn, ext_reply_udp.
Qed.

Lemma ext_handle_msg_tcp env m c l h :
  (l < length (counters h))%nat → ext h (handle_msg_tcp psk env m c l h).
Proof.
  intros Hl. destruct m; simpl;
    eauto using ext_refl, ext_spawn, ext_send_exec, ext_native, ext_reply_tcp.
  - apply ext_file_push_reply, ext_reply_tcp.
  - apply ext_file_chunk_reply, ext_reply_tcp.
  - case_match; eauto using ext_refl, ext_reply_tcp.
  - case_match; eauto using ext_spawn, ext_native.
Qed.

Lemma ext_run_task k ev h : ext h (run_task psk k ev h).
Proof.
  unfold run_task. destruct (tasks h !! k) as [t|] eqn:Hk; [|apply ext_refl].
  destruct ev as [s d| |code|].
  - by apply ext_put.
  - destruct (chunks t) as [|[s d] rest]; [apply ext_refl|].
    eapply ext_trans; [by apply ext_put|apply ext_reply_on].
  - eapply ext_trans; [apply ext_reply_on|]. apply ext_drop.
  - destruct (inbox t) as [|[d cl|sg] rest].
    + case_match; [apply ext_refl|]. eapply ext_trans; [apply ext_drop|apply ext_emit].
    + eapply ext_trans; [by apply ext_put|apply ext_emit].
    + eapply ext_trans; [by apply ext_put|apply ext_emit].
Qed.
End Preservation.

(** ** Evolution of a connection table *)

(** How the entry [o] of [c] may have become [x'] while the host went from [h]
    to [h']: the same connection, or the one new connection [n], with a counter
    of its own. *)
Definition evolves (n : Z) (h h' : Host) (c : Z) (o : option Connection) (x' : Connection)
    : Prop :=
  (∃ x, o = Some x ∧ id x' = id x ∧ peer x' = peer x ∧ send_seq x' = send_seq x ∧
        (state x' = state x ∨ state x' = Established)) ∨
  (c = n ∧ id x' = c ∧ state x' = Established ∧ send_seq x' = length (counters h) ∧
   (length (counters h) < length (counters h'))%nat).

Definition ep_evolves (ep : Endpoint) (h : Host) (r : Endpoint * Host) : Prop :=
  ext h r.2 ∧
  ∃ n, ∀ c x', connections r.1 !! c = Some x' → evolves n h r.2 c (connections ep !! c) x'.

Lemma evolves_same n h h' c x : evolves n h h' c (Some x) x.
Proof. left. exists x. auto 10. Qed.

Lemma ep_evolves_same ep rl h h' :
  ext h h' → ep_evolves ep h (mkEndpoint (connections ep) rl, h').
Proof. intros He. split; [done|]. exists 0. intros c x Hx. simpl in Hx. rewrite Hx. apply evolves_same. Qed.

Lemma ep_evolves_refl ep h h' : ext h h' → ep_evolves ep h (ep, h').
Proof. intros He. split; [done|]. exists 0. intros c x Hx. simpl in Hx. rewrite Hx. apply evolves_same. Qed.

Lemma ep_evolves_delete ep c h h' rl :
  ext h h' → ep_evolves ep h (mkEndpoint (delete c (connections ep)) rl, h').
Proof.
  intros He. split; [done|]. exists 0. intros c' x. simpl. rewrite lookup_delete_Some.
  intros [_ ->]. apply evolves_same.
Qed.

(** Updates of one connection that keep its identity. *)
Definition keeps (f : Connection → Connection) : Prop :=
  ∀ x, id (f x) = id x ∧ peer (f x) = peer x ∧ send_seq (f x) = send_seq x ∧
       (state (f x) = state x ∨ state (f x) = Established).
Lemma ep_evolves_update ep f c rl h h' :
  keeps f → ext h h' →
  ep_evolves ep h (mkEndpoint (alter f c (connections ep)) rl, h').
Proof.
  intros Hf He. split; [done|]. exists 0. intros c' x. simpl. rewrite lookup_alter_Some.
  intros [(-> & y & -> & ->)|[_ ->]]; [|apply evolves_same].
  left. exists y. split; [done|]. apply Hf.
Qed.
Lemma keeps_touch now : keeps (touch now).
Proof. intros x. simpl. auto. Qed.
Lemma keeps_establish now : keeps (λ x, touch now (set_state Established x)).
Proof. intros x. simpl. auto. Qed.
Lemma keeps_touch_if now : keeps (λ x, if is_established x then touch now x else x).
Proof. intros x. case_match; simpl; auto. Qed.

Lemma ep_evolves_new now c p ep rl h h' :
  connections ep !! c = None → ext (new_connection now c p (mkEndpoint (connections ep) rl) h).2 h' →
  ep_evolves ep h ((new_connection now c p (mkEndpoint (connections ep) rl) h).1, h').
Proof.
  intros Hc He. split.
  { eapply ext_trans; [apply ext_counter|exact He]. }
  exists c. intros c' x. simpl. rewrite lookup_insert_Some. intros [[<- <-]|[_ ->]]; [|apply evolves_same].
  right. simpl. split_and!; try done. destruct He as [He _]. simpl in He.
  rewrite length_app in He. simpl in He. lia.
Qed.

Definition arcs_ok (ep : Endpoint) (h : Host) : Prop :=
  ∀ c x, connections ep !! c = Some x → (send_seq x < length (counters h))%nat.

Section Packets.
Context `{BufCrate} `{AeadCrate} `{ControlCodec}.
Variable psk : Psk.

Lemma ext_tcp_send c data h : ext h (tcp_send c data h).
Proof. unfold tcp_send. case_match; [apply ext_emit|apply ext_refl]. Qed.
Lemma ext_handle_control env data c p l h :
  (l < length (counters h))%nat → ext h (handle_control psk env data c p l h).
Proof. intros. unfold handle_control. case_match; [by apply ext_handle_msg|apply ext_refl]. Qed.
Lemma ext_handle_control_tcp env data c l h :
  (l < length (counters h))%nat → ext h (handle_control_tcp psk env data c l h).
Proof.
  intros. unfold handle_control_tcp. case_match; [by apply ext_handle_msg_tcp|apply ext_refl].
Qed.

Lemma packet_inner_evolves now env data p ep h :
  arcs_ok ep h → ep_evolves ep h (handle_packet_inner psk now env data p ep h).
Proof.
  intros Ha. unfold handle_packet_inner. destruct (decode_header data) as [hd|];
    [|apply ep_evolves_refl, ext_refl].
  destruct (pkt_type hd).
  - destruct (RateLimiter.check_syn _ _ _) as [ok rl]. destruct ok; simpl negb; cbv iota;
      [|apply ep_evolves_same, ext_refl].
    case_match; [apply ep_evolves_same, ext_refl|]. cbn [connections].
    destruct (connections ep !! conn_id hd) as [x|] eqn:Hx.
    + case_decide; [apply ep_evolves_same, ext_emit|apply ep_evolves_same, ext_refl].
    + by apply (ep_evolves_new now (conn_id hd) p ep rl), ext_emit.
  - apply ep_evolves_update; [apply keeps_establish|apply ext_refl].
  - apply ep_evolves_refl, ext_refl.
  - destruct (connections ep !! conn_id hd) as [x|] eqn:Hx; [|apply ep_evolves_refl, ext_refl].
    do 2 (case_match; [apply ep_evolves_refl, ext_refl|]).
    destruct (decrypt _ _ _) as [pt|]; [|apply ep_evolves_refl, ext_refl].
    case_match; [|apply ep_evolves_update; [apply keeps_touch|apply ext_refl]].
    destruct (RateLimiter.check_cmd _ _ _) as [ok rl].
    destruct ok; simpl; apply ep_evolves_update; try apply keeps_touch; try apply ext_refl.
    by eapply ext_handle_control, Ha.
  - apply ep_evolves_delete, ext_refl.
  - destruct (connections ep !! conn_id hd) as [x|] eqn:Hx; [|apply ep_evolves_refl, ext_refl].
    case_match; [apply ep_evolves_refl, ext_refl|].
    apply ep_evolves_update; [apply keeps_touch|apply ext_emit].
Qed.

Lemma packet_tcp_evolves now env data p ep h :
  arcs_ok ep h → ep_evolves ep h (handle_packet_tcp psk now env data p ep h).
Proof.
  intros Ha. unfold handle_packet_tcp. destruct (decode_header data) as [hd|];
    [|apply ep_evolves_refl, ext_refl].
  destruct (pkt_type hd).
  - destruct (RateLimiter.check_syn _ _ _) as [ok rl]. destruct ok; simpl negb; cbv iota;
      [|apply ep_evolves_same, ext_refl]. cbn [connections].
    destruct (connections ep !! conn_id hd) as [x|] eqn:Hx.
    + case_decide; [apply ep_evolves_same, ext_tcp_send|apply ep_evolves_same, ext_refl].
    + by apply (ep_evolves_new now (conn_id hd) p ep rl), ext_tcp_send.
  - apply ep_evolves_refl, ext_refl.
  - apply ep_evolves_refl, ext_refl.
  - destruct (connections ep !! conn_id hd) as [x|] eqn:Hx; [|apply ep_evolves_refl, ext_refl].
    do 2 (case_match; [apply ep_evolves_refl, ext_refl|]).
    destruct (decrypt _ _ _) as [pt|]; [|apply ep_evolves_refl, ext_refl].
    case_match; [|apply ep_evolves_update; [apply keeps_touch|apply ext_refl]].
    destruct (RateLimiter.check_cmd _ _ _) as [ok rl].
    destruct ok; simpl; apply ep_evolves_update; try apply keeps_touch; try apply ext_refl.
    by eapply ext_handle_control_tcp, Ha.
  - apply ep_evolves_delete, ext_refl.
  - apply ep_evolves_update; [apply keeps_touch_if|apply ext_refl].
Qed.

Lemma frame_evolves now env data p ep h :
  arcs_ok ep h → ep_evolves ep h (handle_tcp_frame psk now env data p ep h).
Proof.
  intros Ha. unfold handle_tcp_frame. destruct (decode_header data) as [hd|];
    [|apply ep_evolves_refl, ext_refl].
  match goal with |- context [set_tcp_conns ?m h] => set (tc := m) end.
  destruct (packet_tcp_evolves now env data p ep (set_tcp_conns tc h) Ha) as [He Hc].
  split; [eapply ext_trans; [apply ext_tcp_conns|exact He]|exact Hc].
Qed.

Lemma send_heartbeats_frame m h :
  let h' := send_heartbeats m h in
  tasks h' = tasks h ∧ exec_map h' = exec_map h ∧ next_task h' = next_task h ∧
  counters h' = counters h ∧ tcp_conns h' = tcp_conns h ∧ transfers h' = transfers h ∧
  disk h' = disk h.
Proof.
  unfold send_heartbeats. induction (map_to_list m) as [|[c x] l IH]; [done|].
  cbn [foldr]. unfold heartbeat at 1 3 5 7 9 11 13. case_match; done.
Qed.

(** ** The invariant *)

Definition conn_of (d : Daemon) (b : bool) (c : Z) : option Connection :=
  connections (if b then udp d else tcp d) !! c.

Record inv (d : Daemon) : Prop := {
  inv_host : host_ok (host d);
  inv_conn b c x : conn_of d b c = Some x →
    id x = c ∧ state x = Established ∧ (send_seq x < length (counters (host d)))%nat;
  inv_own b1 c1 x1 b2 c2 x2 :
    conn_of d b1 c1 = Some x1 → conn_of d b2 c2 = Some x2 → send_seq x1 = send_seq x2 →
    b1 = b2 ∧ c1 = c2;
  inv_size : (size (connections (udp d)) ≤ MAX_CONNECTIONS)%nat
}.

Lemma inv_arcs d (b : bool) : inv d → arcs_ok (if b then udp d else tcp d) (host d).
Proof. intros I c x Hx. apply (inv_conn d I b) in Hx. tauto. Qed.

(** One endpoint evolves, the other stays. *)
Lemma inv_evolves (b : bool) d d' :
  inv d →
  ep_evolves (if b then udp d else tcp d) (host d) (if b then udp d' else tcp d', host d') →
  (if b then tcp d' = tcp d else udp d' = udp d) →
  (size (connections (udp d')) ≤ MAX_CONNECTIONS)%nat → inv d'.
Proof.
  intros I [[Hlen Hok] [n He]] Hother Hsize. simpl in *.
  assert (Hev : ∀ b' c x', conn_of d' b' c = Some x' →
    evolves n (host d) (host d') c (conn_of d b' c) x' ∧
    (b' ≠ b → conn_of d b' c = Some x')).
  { intros b' c x' Hx. destruct (decide (b' = b)) as [->|Hne].
    - split; [|done]. by apply He.
    - assert (conn_of d b' c = Some x') as ->.
      { rewrite <-Hx. unfold conn_of. destruct b, b'; congruence. }
      split; [apply evolves_same|done]. }
  split; [apply Hok, I| | |done].
  - intros b' c x' Hx. destruct (Hev _ _ _ Hx) as [[(x & Ho & -> & _ & -> & Hs)|
      (Ho & -> & -> & -> & Hl)] _]; [|done].
    apply (inv_conn d I) in Ho as (? & ? & ?). split_and!; [done| |lia].
    destruct Hs; congruence.
  - intros b1 c1 x1 b2 c2 x2 H1' H2' Hs.
    destruct (Hev _ _ _ H1') as [[(y1 & Ho1 & _ & _ & Hs1 & _)|(Ho1 & _ & _ & Hs1 & _)] _],
      (Hev _ _ _ H2') as [[(y2 & Ho2 & _ & _ & Hs2 & _)|(Ho2 & _ & _ & Hs2 & _)] _].
    + apply (inv_own d I _ _ y1 _ _ y2); congruence.
    + apply (inv_conn d I) in Ho1 as (_ & _ & ?). lia.
    + apply (inv_conn d I) in Ho2 as (_ & _ & ?). lia.
    + assert (Hnew : ∀ b' c x', conn_of d' b' c = Some x' →
        send_seq x' = length (counters (host d)) → b' = b).
      { intros b' c x' Hx Hl. destruct (decide (b' = b)) as [|Hne]; [done|].
        destruct (Hev b' c x' Hx) as [_ Hb]. apply Hb, (inv_conn d I) in Hne as (_ & _ & ?). lia. }
      split; [|congruence].
      rewrite (Hnew b1 c1 x1), (Hnew b2 c2 x2); done.
Qed.

Lemma packet_inner_size now env data p ep h :
  (size (connections ep) ≤ MAX_CONNECTIONS)%nat →
  (size (connections (handle_packet_inner psk now env data p ep h).1) ≤ MAX_CONNECTIONS)%nat.
Proof.
  intros Hs. unfold handle_packet_inner. destruct (decode_header data) as [hd|]; [|done].
  destruct (pkt_type hd); try done.
  - destruct (RateLimiter.check_syn _ _ _) as [[] rl]; [|done]. cbn [negb connections].
    destruct (Nat.leb_spec MAX_CONNECTIONS (size (connections ep))); [done|].
    destruct (connections ep !! conn_id hd) eqn:E; [by case_decide|].
    simpl. rewrite map_size_insert_None by done. lia.
  - simpl. by rewrite map_size_alter.
  - unfold update_conn. repeat (case_match; try done); simplify_eq; simpl; by rewrite map_size_alter.
  - simpl. rewrite map_size_delete. destruct (connections ep !! conn_id hd); simpl; lia.
  - unfold update_conn. repeat (case_match; try done); simplify_eq; simpl; by rewrite map_size_alter.
Qed.

Lemma tick_inv now d : inv d → inv (tick now d).
Proof.
  intros I. unfold tick. case_match; [done|].
  destruct (send_heartbeats_frame (connections (udp d)) (host d))
    as (Ht & He & Hn & Hc & _ & _ & _).
  apply (inv_evolves true d); try done; simpl.
  - split; [apply ext_frame; [done..|simpl; rewrite Hc; lia]|]. exists 0. intros c x. simpl.
    rewrite map_lookup_filter_Some. intros [-> _]. apply evolves_same.
  - etransitivity; [|apply I]. apply map_subseteq_size, map_filter_subseteq.
Qed.

Lemma dstep_inv d d' : dstep psk d d' → inv d → inv d'.
Proof.
  intros Hstep I. destruct Hstep as [now env data p d|now env data p d|p d|now d|k ev d].
  - apply (inv_evolves true d); try done; simpl.
    + rewrite <-surjective_pairing. apply packet_inner_evolves, (inv_arcs d true I).
    + apply packet_inner_size, I.
  - apply (inv_evolves false d); try done; simpl.
    + rewrite <-surjective_pairing. apply frame_evolves, (inv_arcs d false I).
    + apply I.
  - apply (inv_evolves true d); try done; [|apply I].
    apply ep_evolves_refl, ext_tcp_conns.
  - by apply tick_inv.
  - apply (inv_evolves true d); try done; [|apply I].
    apply ep_evolves_refl, ext_run_task.
Qed.

Lemma start_inv now : inv (start now).
Proof.
  assert (Hc : ∀ b c, conn_of (start now) b c = None).
  { intros [] c; unfold conn_of; simpl; apply lookup_empty. }
  split.
  - split; simpl; intros *; rewrite lookup_empty; done.
  - intros b c x. by rewrite Hc.
  - intros b1 c1 x1 b2 c2 x2. by rewrite Hc.
  - simpl. rewrite map_size_empty. unfold MAX_CONNECTIONS. lia.
Qed.

(** C1: in every reachable state, whatever datagrams, frames, ticks and task
    events happened in whatever order: a table entry is the connection of its
    key and is established; no two connections, UDP or TCP, share a sequence
    counter; there are at most 100 UDP connections; and the map from exec ids
    leads to the task started under that id, if it still runs. *)
Theorem daemon_invariant d : reachable psk d → inv d.
Proof.
  intros [now Hr]. remember (start now) as d0.
  assert (inv d0) as I by (subst; apply start_inv). clear Heqd0.
  induction Hr as [|d1 d2 d3 Hstep Hr IH]; [done|]. by eapply IH, dstep_inv.
Qed.

(** ** Packets without the key *)

(** A data packet the UDP loop accepts: of an established connection, from its
    peer, and sealed with the key. *)
Definition authentic (data : list byte) (p : SocketAddr) (ep : Endpoint) : Prop :=
  ∃ hd conn pt, decode_header data = Some hd ∧ pkt_type hd = Data ∧
    connections ep !! conn_id hd = Some conn ∧ state conn = Established ∧ peer conn = p ∧
    decrypt psk (nonce hd) (drop HEADER_SIZE data) = Some pt.

(** The answers that carry no secret: a bare SYN-ACK or heartbeat. *)
Definition bare_answer (p : SocketAddr) (e : Effect) : Prop :=
  ∃ c, e = SentUdp p (Connection.build_syn_ack c) ∨ e = SentUdp p (Connection.build_heartbeat c).

(** The host after a packet that only created a connection or was answered. *)
Definition quiet (p : SocketAddr) (h h' : Host) : Prop :=
  tasks h' = tasks h ∧ exec_map h' = exec_map h ∧ transfers h' = transfers h ∧
  disk h' = disk h ∧ tcp_conns h' = tcp_conns h ∧ counters h `prefix_of` counters h' ∧
  ∃ es, trace h' = trace h ++ es ∧ Forall (bare_answer p) es.

Lemma quiet_refl p h : quiet p h h.
Proof. split_and!; try done. exists []. by rewrite app_nil_r. Qed.
Lemma quiet_answer p h h' e :
  quiet p h h' → bare_answer p e → quiet p h (emit e h').
Proof.
  intros (? & ? & ? & ? & ? & ? & es & Ht & Hes) He. split_and!; try done.
  exists (es ++ [e]). simpl. rewrite Ht, app_assoc. split; [done|].
  apply Forall_app. split; [done|]. by constructor.
Qed.
Lemma quiet_counter p h : quiet p h (new_counter h).2.
Proof.
  split_and!; try done; simpl.
  - by exists [0].
  - exists []. by rewrite app_nil_r.
Qed.

(** The case in which nothing happened. *)
Ltac idle := solve [cbn [fst snd]; split_and!; [apply quiet_refl|done|done]].

(** C3: a datagram that is not a sealed packet of an established connection
    from its own peer runs nothing: tasks, files, transfers and TCP routes
    stay, no existing counter moves, no command quota is used, the only
    answers are a bare SYN-ACK or heartbeat to the sender, and the other
    connections are untouched. *)
Theorem unauthentic_datagram_runs_nothing now env data p ep h :
  ¬ authentic data p ep →
  let '(ep', h') := handle_packet_inner psk now env data p ep h in
  quiet p h h' ∧ cmd_counts (limiter ep') = cmd_counts (limiter ep) ∧
  ∀ c, (∀ hd, decode_header data = Some hd → conn_id hd ≠ c) →
    connections ep' !! c = connections ep !! c.
Proof.
  intros Hna. unfold handle_packet_inner.
  destruct (decode_header data) as [hd|] eqn:Ehd; [|idle].
  assert (Hother : ∀ c, (∀ hd', Some hd = Some hd' → conn_id hd' ≠ c) → conn_id hd ≠ c) by auto.
  destruct (pkt_type hd) eqn:Et.
  - unfold RateLimiter.check_syn. destruct (RateLimiter.check _ _ _ _) as [ok m].
    destruct ok; cbn [negb connections limiter]; [|idle].
    destruct (MAX_CONNECTIONS <=? size (connections ep))%nat; [idle|].
    destruct (connections ep !! conn_id hd) as [x|] eqn:Hx.
    + case_decide as Hp; simpl; [|idle].
      split_and!; [|done|done]. apply quiet_answer; [apply quiet_refl|].
      exists (conn_id hd). auto.
    + simpl. split_and!; [|done|intros c Hc; apply lookup_insert_ne; auto].
      apply quiet_answer; [apply quiet_counter|]. exists (conn_id hd). auto.
  - simpl. split_and!; [apply quiet_refl|done|]. intros c Hc. apply lookup_alter_ne; auto.
  - idle.
  - destruct (connections ep !! conn_id hd) as [x|] eqn:Hx; [|idle].
    unfold is_established. case_bool_decide as Hs; [|idle].
    case_bool_decide as Hp; [|idle]. cbn [negb andb].
    destruct (length data <=? HEADER_SIZE)%nat; [idle|].
    destruct (decrypt _ _ _) as [pt|] eqn:Ed; [|idle].
    destruct Hna. by exists hd, x, pt.
  - simpl. split_and!; [apply quiet_refl|done|]. intros c Hc. apply lookup_delete_ne; auto.
  - destruct (connections ep !! conn_id hd) as [x|] eqn:Hx; [|idle].
    unfold is_established. case_bool_decide as Hs; [|idle].
    case_bool_decide as Hp; [|idle]. simpl.
    split_and!; [|done|intros c Hc; apply lookup_alter_ne; auto].
    apply quiet_answer; [apply quiet_refl|]. exists (conn_id hd). subst p. auto.
Qed.
End Packets.

(** ** Replies *)

Section Replies.
Context `{BufCrate} `{AeadCrate} `{ControlCodec}.
Variable psk : Psk.

(** A reply touches the counter it takes and the trace. *)
Lemma reply_on_keeps route c l m h :
  let h' := reply_on psk route c l m h in
  tasks h' = tasks h ∧ exec_map h' = exec_map h ∧ next_task h' = next_task h ∧
  tcp_conns h' = tcp_conns h ∧ transfers h' = transfers h ∧ disk h' = disk h.
Proof.
  destruct route as [p|]; simpl; unfold reply_udp, reply_tcp, send_control, tcp_send; simpl;
    case_match; done.
Qed.
Lemma reply_udp_keeps c p l m h :
  let h' := reply_udp psk c p l m h in
  tasks h' = tasks h ∧ exec_map h' = exec_map h ∧ next_task h' = next_task h ∧
  tcp_conns h' = tcp_conns h ∧ transfers h' = transfers h ∧ disk h' = disk h.
Proof. apply (reply_on_keeps (ViaUdp p)). Qed.

(** Sequence numbers, and so nonces, restart with every connection.  Any
    address can reset a connection with a bare RST, and after the next SYN the
    first reply on the same connection id is sealed with sequence number 0 under
    the same key, whatever was sealed with it before. *)
Theorem reconnection_restarts_nonces `{!BufCrateOk} `{!AeadCrateOk}
    now now' env ep h c p p' m pkt :
  u64_ok c → is_Some (connections ep !! c) →
  (size (connections ep) ≤ MAX_CONNECTIONS)%nat →
  (RateLimiter.check_syn now' (ip p) (limiter ep)).1 = true →
  control_datagram c psk 0 m = Some pkt →
  let rst := encode (Connection.bare c Rst) [] in
  let r1 := handle_packet_inner psk now env rst p' ep h in
  let r2 := handle_packet_inner psk now' env (Connection.build_syn c) p r1.1 r1.2 in
  ∃ conn, connections r2.1 !! c = Some conn ∧ state conn = Established ∧ peer conn = p ∧
    trace (reply_udp psk c p (send_seq conn) m r2.2) = trace r2.2 ++ [SentUdp p pkt] ∧
    ∃ hd, decode_header pkt = Some hd ∧ nonce hd = make_nonce c 0.
Proof.
  intros Hc Hsome Hsize Hrl Hpkt rst r1 r2.
  unfold r2, r1, rst, handle_packet_inner, Connection.build_syn. rewrite !decode_bare by done.
  cbn [Connection.bare pkt_type conn_id fst snd connections limiter].
  destruct (RateLimiter.check_syn _ _ _) as [ok rl]. simpl in Hrl. subst ok.
  cbn [negb connections limiter].
  destruct Hsome as [x Hx].
  destruct (Nat.leb_spec MAX_CONNECTIONS (size (delete c (connections ep)))) as [Hle|_].
  { exfalso. rewrite map_size_delete, Hx in Hle.
    destruct (size (connections ep)) eqn:E; [apply map_size_empty_inv in E; by rewrite E, lookup_empty in Hx|].
    simpl in Hle. lia. }
  rewrite lookup_delete_eq. cbn [new_connection new_counter fst snd connections].
  eexists. rewrite lookup_insert_eq. split_and!; [done..| |].
  - cbn [send_seq set_state Connection.new]. unfold reply_udp, next_seq. simpl.
    rewrite lookup_app_r by lia. rewrite Nat.sub_diag. simpl.
    unfold send_control. by rewrite Hpkt.
  - destruct (sealed_control_opens c psk 0 m pkt Hc Hpkt)
      as (hd & pt & Ho & _ & Hcd & _ & _ & Hs & Hn & _).
    exists hd. unfold open_packet in Ho. destruct (decode_header pkt) as [hd'|]; [|done].
    simpl in Ho. destruct (decrypt _ _ _); [|done]. simplify_eq/=. by rewrite Hn, Hs.
Qed.

Lemma accept_control now env data p ep h hd conn pt :
  decode_header data = Some hd → pkt_type hd = Data →
  connections ep !! conn_id hd = Some conn → state conn = Established → peer conn = p →
  (HEADER_SIZE < length data)%nat →
  decrypt psk (nonce hd) (drop HEADER_SIZE data) = Some pt →
  stream_id hd = StreamId.as_u16 Control →
  (RateLimiter.check_cmd now (ip p) (limiter ep)).1 = true →
  handle_packet_inner psk now env data p ep h =
    (mkEndpoint (alter (touch now) (conn_id hd) (connections ep))
       (RateLimiter.check_cmd now (ip p) (limiter ep)).2,
     handle_control psk env pt (conn_id hd) p (send_seq conn) h).
Proof.
  intros Hd Ht Hx Hs Hp Hl Hdec Hst Hrl. unfold handle_packet_inner.
  rewrite Hd, Ht, Hx. unfold is_established. rewrite !bool_decide_true by done. cbn [negb andb].
  rewrite (proj2 (Nat.leb_gt _ _)) by done. rewrite Hdec, Hst, Z.eqb_refl.
  cbn [update_conn limiter connections].
  destruct (RateLimiter.check_cmd _ _ _) as [ok rl]. simpl in Hrl. by subst ok.
Qed.

Lemma spawn_exec_spec env c route l i cmd h :
  spawn_ok env = true →
  tasks (spawn_exec psk env c route l i cmd h) =
    <[next_task h := mkTask i c route l cmd [] []]> (tasks h) ∧
  next_task (spawn_exec psk env c route l i cmd h) = S (next_task h).
Proof.
  intros Hs. unfold spawn_exec. rewrite Hs.
  edestruct reply_on_keeps as (-> & _ & -> & _). done.
Qed.

(** A sealed datagram is not protected against replay.  The same bytes
    received a second time, from the same address and within the quota, start
    the command a second time: two tasks run it. *)
Theorem replayed_exec_runs_again now1 now2 env data p ep h hd conn pt i cmd :
  decode_header data = Some hd → pkt_type hd = Data →
  connections ep !! conn_id hd = Some conn → state conn = Established → peer conn = p →
  (HEADER_SIZE < length data)%nat →
  decrypt psk (nonce hd) (drop HEADER_SIZE data) = Some pt →
  stream_id hd = StreamId.as_u16 Control →
  deserialize pt = Some (Exec i cmd) → spawn_ok env = true →
  (RateLimiter.check_cmd now1 (ip p) (limiter ep)).1 = true →
  (RateLimiter.check_cmd now2 (ip p) (RateLimiter.check_cmd now1 (ip p) (limiter ep)).2).1 = true →
  let r1 := handle_packet_inner psk now1 env data p ep h in
  let r2 := handle_packet_inner psk now2 env data p r1.1 r1.2 in
  task_cmd <$> tasks r2.2 !! next_task h = Some cmd ∧
  task_cmd <$> tasks r2.2 !! S (next_task h) = Some cmd ∧
  next_task r2.2 = S (S (next_task h)).
Proof.
  intros Hd Ht Hx Hs Hp Hl Hdec Hst Hmsg Hsp Hr1 Hr2.
  assert (Hc : ∀ l h, handle_control psk env pt (conn_id hd) p l h =
    spawn_exec psk env (conn_id hd) (ViaUdp p) l i cmd h).
  { intros. unfold handle_control. by rewrite Hmsg. }
  erewrite (accept_control now1) by done. cbn [fst snd].
  erewrite (accept_control now2);
    [|done|done|cbn [connections]; by rewrite lookup_alter_eq, Hx|done..].
  cbn [fst snd]. rewrite !Hc.
  edestruct spawn_exec_spec as [-> ->]; [done|]. edestruct spawn_exec_spec as [-> ->]; [done|].
  rewrite lookup_insert_ne, !lookup_insert_eq by lia. done.
Qed.
End Replies.

(** ** File transfers, the tick, the end of a task *)

Lemma write_at_end file data : write_at (len file) data file = file ++ data.
Proof.
  unfold write_at. destruct data as [|b data]; [by rewrite app_nil_r|].
  rewrite Nat2Z.id, Nat.sub_diag, app_nil_r, take_ge by done.
  by rewrite drop_ge, app_nil_r by lia.
Qed.

Section Files.
Context `{BufCrate} `{AeadCrate} `{ControlCodec}.
Variable psk : Psk.
Variables (env : Env) (c : Z) (p : SocketAddr) (l : nat).
Hypothesis Hopen : open_ok env = true.
Hypothesis Hwrite : write_fails env = None.

(** The chunks of a file whose first [off] bytes have been sent. *)
Fixpoint chunk_msgs (i off : Z) (pieces : list (list byte)) : list ControlMsg :=
  match pieces with
  | [] => []
  | d :: ps => FileChunk i off d :: chunk_msgs i (off + len d) ps
  end.
Definition run_msgs (ms : list ControlMsg) (h : Host) : Host :=
  foldl (λ h m, handle_msg psk env m c p l h) h ms.

(** One chunk at the end of what was written. *)
Lemma chunk_step i path size file d h :
  transfers h !! i = Some (mkTransfer path (len file) size) → disk h !! path = Some file →
  len file + len d < 2 ^ 63 →
  let h' := handle_msg psk env (FileChunk i (len file) d) c p l h in
  disk h' = <[path := file ++ d]> (disk h) ∧
  transfers h' !! i = (if size <=? len file + len d then None
                       else Some (mkTransfer path (len (file ++ d)) size)).
Proof.
  intros Ht Hd Hl h'. unfold h', handle_msg, file_chunk. rewrite Ht, Hwrite. cbn [ft_path ft_pos ft_size].
  rewrite Hd. cbn [from_option]. unfold id.
  rewrite (proj2 (Z.ltb_lt _ _)) by lia. rewrite write_at_end.
  rewrite wrap_id by (unfold fits; lia).
  match goal with |- context [reply_udp psk c p l ?m ?h] =>
    destruct (reply_udp_keeps psk c p l m h) as (_ & _ & _ & _ & -> & ->) end.
  destruct (Z.leb_spec size (len file + len d)); simpl; (split; [done|]).
  - by rewrite lookup_delete_eq.
  - rewrite lookup_insert_eq, length_app. do 2 f_equal. lia.
Qed.

Lemma chunks_write i path size pieces : ∀ file h,
  transfers h !! i = Some (mkTransfer path (len file) size) → disk h !! path = Some file →
  size = len file + len (mjoin pieces) → size < 2 ^ 63 →
  Forall (λ d, d ≠ []) pieces → pieces ≠ [] →
  let h' := run_msgs (chunk_msgs i (len file) pieces) h in
  disk h' = <[path := file ++ mjoin pieces]> (disk h) ∧ transfers h' !! i = None.
Proof.
  induction pieces as [|d ps IH]; intros file h Ht Hd Hsize H63 Hne Hps; [done|].
  apply Forall_cons in Hne as [Hd0 Hne].
  change (mjoin (d :: ps)) with (d ++ mjoin ps) in *. rewrite length_app in Hsize.
  destruct (chunk_step i path size file d h Ht Hd ltac:(lia)) as [Hdisk Htr].
  cbn [chunk_msgs run_msgs foldl].
  set (h1 := handle_msg psk env (FileChunk i (len file) d) c p l h) in *.
  destruct ps as [|d' ps].
  - simpl in *. rewrite (proj2 (Z.leb_le _ _)) in Htr by lia.
    by rewrite app_nil_r.
  - rewrite (proj2 (Z.leb_gt _ _)) in Htr.
    2:{ apply Forall_cons in Hne as [Hd1 _]. destruct d'; [done|].
        change (mjoin ((b :: d') :: ps)) with ((b :: d') ++ mjoin ps) in Hsize.
        rewrite length_app in Hsize. cbn [length] in Hsize. lia. }
    replace (len file + len d) with (len (file ++ d)) by (rewrite length_app; lia).
    destruct (IH (file ++ d) h1) as [IHd IHt]; try done.
    + rewrite Hdisk. by rewrite lookup_insert_eq.
    + rewrite length_app. lia.
    + unfold run_msgs in IHd, IHt. rewrite IHd, Hdisk. split; [|done].
      by rewrite insert_insert_eq, app_assoc.
Qed.

(** Pushing a file writes it: a [FilePush] and then the chunks, in order
    and none empty, leave exactly their concatenation at the path, whatever was
    there, close the transfer with the last chunk, and touch no other file. *)
Theorem file_push_writes_file i path pieces h :
  len (mjoin pieces) < 2 ^ 63 → Forall (λ d, d ≠ []) pieces → pieces ≠ [] →
  let h' := run_msgs (FilePush i path (len (mjoin pieces)) :: chunk_msgs i 0 pieces) h in
  disk h' = <[path := mjoin pieces]> (disk h) ∧ transfers h' !! i = None.
Proof.
  intros H63 Hne Hps. cbn [run_msgs foldl].
  set (h1 := handle_msg _ _ _ _ _ _ _).
  assert (Hh1 : transfers h1 !! i = Some (mkTransfer path 0 (len (mjoin pieces))) ∧
    disk h1 = <[path := []]> (disk h)).
  { unfold h1, handle_msg, file_push. rewrite Hopen.
    match goal with |- context [reply_udp psk c p l ?m ?h] =>
      destruct (reply_udp_keeps psk c p l m h) as (_ & _ & _ & _ & -> & ->) end.
    simpl. by rewrite lookup_insert_eq. }
  destruct Hh1 as [Ht Hd].
  destruct (chunks_write i path (len (mjoin pieces)) pieces [] h1) as [Hd' Ht'];
    try done; [by rewrite Hd, lookup_insert_eq|].
  unfold run_msgs in Hd', Ht'. change (len []) with 0 in Hd', Ht'. rewrite Hd', Hd.
  by rewrite insert_insert_eq.
Qed.
End Files.

Section Events.
Context `{BufCrate} `{AeadCrate} `{ControlCodec}.
Variable psk : Psk.

(** The tick, when it is due: a connection stays exactly when its last
    activity is less than 30 seconds ago; every established connection, also
    one that is dropped, is sent one heartbeat; TCP connections are left alone;
    and when the tick is not due nothing happens. *)
Theorem tick_exact now d :
  (duration_since now (last_hb d) < HEARTBEAT_INTERVAL → tick now d = d) ∧
  (HEARTBEAT_INTERVAL ≤ duration_since now (last_hb d) →
   (∀ c x, connections (udp (tick now d)) !! c = Some x ↔
      connections (udp d) !! c = Some x ∧ duration_since now (last_activity x) < TIMEOUT) ∧
   tcp (tick now d) = tcp d ∧ last_hb (tick now d) = now ∧
   ∃ hbs, trace (host (tick now d)) = trace (host d) ++ hbs ∧
     hbs ≡ₚ (λ e : Z * Connection, SentUdp (peer e.2) (Connection.build_heartbeat (id e.2))) <$>
              filter (λ e, state e.2 = Established) (map_to_list (connections (udp d)))).
Proof.
  unfold tick. split; intros Hd.
  { by rewrite (proj2 (Z.ltb_lt _ _)). }
  rewrite (proj2 (Z.ltb_ge _ _)) by done. cbn [udp tcp host last_hb connections].
  split_and!; [|done|done|].
  - intros c x. rewrite map_lookup_filter_Some. unfold alive. simpl. by rewrite Z.ltb_lt.
  - unfold send_heartbeats. induction (map_to_list (connections (udp d))) as [|[c x] es IH].
    { exists []. simpl. by rewrite app_nil_r. }
    destruct IH as (hbs & Ht & Hp). cbn [foldr]. rewrite filter_cons. cbn [snd].
    unfold heartbeat at 1, is_established. cbn [snd].
    case_bool_decide as Hs; [rewrite decide_True by done|rewrite decide_False by done];
      [|by exists hbs].
    exists (hbs ++ [SentUdp (peer x) (Connection.build_heartbeat (id x))]).
    cbn [trace emit]. rewrite Ht, app_assoc. split; [done|].
    cbn [fmap list_fmap]. rewrite <-Hp. symmetry. apply Permutation_cons_append.
Qed.

(** The exit of a process can overtake its output: when the task takes
    the exit code while chunks wait in its channel, it answers [ExecDone],
    ends, and whatever it is offered afterwards none of them is sent. *)
Theorem exit_drops_pending_output k t h code evs :
  tasks h !! k = Some t → chunks t ≠ [] →
  let h' := run_task psk k (Exited code) h in
  tasks h' !! k = None ∧
  trace h' = trace (reply_on psk (task_route t) (task_conn t) (task_seq t)
                      (ExecDone (task_id t) code) h) ∧
  foldl (λ h ev, run_task psk k ev h) h' evs = h'.
Proof.
  intros Hk Hc h'. assert (Hnone : tasks h' !! k = None).
  { unfold h', run_task. rewrite Hk. simpl. by rewrite lookup_delete_eq. }
  split_and!; [done| |].
  - unfold h', run_task. by rewrite Hk.
  - clearbody h'. induction evs as [|ev evs IH]; [done|]. simpl.
    unfold run_task at 2. by rewrite Hnone.
Qed.
End Events.

(** ** Witnesses *)

Definition cl : SocketAddr := mkAddr (V4 0x0A000002) 4000.
Definition other : SocketAddr := mkAddr (V4 0x0A000003) 4000.
Definition all_ok : Env := mkEnv true None true None.
Definition after_syn : Endpoint * Host :=
  handle_packet_inner sample_psk 0 all_ok (Connection.build_syn 42) cl (udp (start 0))
    (host (start 0)).
Definition one_conn : Daemon := on_udp after_syn (start 0).

Lemma daemon_invariant_witness : reachable sample_psk one_conn ∧ inv one_conn.
Proof.
  assert (Hr : reachable sample_psk one_conn).
  { exists 0. eapply rtc_l; [|apply rtc_refl].
    apply (dstep_datagram sample_psk 0 all_ok (Connection.build_syn 42) cl (start 0)). }
  split; [exact Hr|]. apply (daemon_invariant sample_psk), Hr.
Defined.

(** A datagram that carries [m], as a client seals it. *)
Definition sealed (m : ControlMsg) : list byte :=
  default [] (control_datagram 42 sample_psk 1 m).

Lemma unauthentic_datagram_runs_nothing_witness :
  ¬ authentic sample_psk (sealed (Exec 1 "ls")) other after_syn.1 ∧
  let '(ep', h') := handle_packet_inner sample_psk 0 all_ok (sealed (Exec 1 "ls")) other
                      after_syn.1 after_syn.2 in
  quiet other after_syn.2 h' ∧ cmd_counts (limiter ep') = cmd_counts (limiter after_syn.1) ∧
  ∀ c, (∀ hd, decode_header (sealed (Exec 1 "ls")) = Some hd → conn_id hd ≠ c) →
    connections ep' !! c = connections after_syn.1 !! c.
Proof.
  assert (Hn : ¬ authentic sample_psk (sealed (Exec 1 "ls")) other after_syn.1).
  { intros (hd & conn & pt & Hd & _ & Hc & _ & Hp & _).
    vm_compute in Hd. injection Hd as <-. vm_compute in Hc. injection Hc as <-.
    vm_compute in Hp. discriminate. }
  split; [exact Hn|].
  exact (unauthentic_datagram_runs_nothing sample_psk 0 all_ok _ other _ _ Hn).
Defined.

Lemma reconnection_restarts_nonces_witness :
  ∃ pkt, control_datagram 42 sample_psk 0 (HelloAck 1 []) = Some pkt ∧
  let rst := encode (Connection.bare 42 Rst) [] in
  let r1 := handle_packet_inner sample_psk 0 all_ok rst other after_syn.1 after_syn.2 in
  let r2 := handle_packet_inner sample_psk 1 all_ok (Connection.build_syn 42) cl r1.1 r1.2 in
  ∃ conn, connections r2.1 !! 42 = Some conn ∧ state conn = Established ∧ peer conn = cl ∧
    trace (reply_udp sample_psk 42 cl (send_seq conn) (HelloAck 1 []) r2.2) =
      trace r2.2 ++ [SentUdp cl pkt] ∧
    ∃ hd, decode_header pkt = Some hd ∧ nonce hd = make_nonce 42 0.
Proof.
  eexists. split; [reflexivity|].
  apply (reconnection_restarts_nonces sample_psk 0 1 all_ok after_syn.1 after_syn.2 42 cl other).
  - unfold fits. lia.
  - vm_compute. by eexists.
  - vm_compute. lia.
  - vm_compute. reflexivity.
  - reflexivity.
Defined.

Lemma replayed_exec_runs_again_witness :
  let r1 := handle_packet_inner sample_psk 1 all_ok (sealed (Exec 1 "ls")) cl
              after_syn.1 after_syn.2 in
  let r2 := handle_packet_inner sample_psk 2 all_ok (sealed (Exec 1 "ls")) cl r1.1 r1.2 in
  task_cmd <$> tasks r2.2 !! next_task after_syn.2 = Some "ls"%string ∧
  task_cmd <$> tasks r2.2 !! S (next_task after_syn.2) = Some "ls"%string ∧
  next_task r2.2 = S (S (next_task after_syn.2)).
Proof.
  eapply (replayed_exec_runs_again sample_psk 1 2 all_ok (sealed (Exec 1 "ls")) cl
            after_syn.1 after_syn.2 _ _ _ 1 "ls"%string);
    try (vm_compute; reflexivity).
  vm_compute. lia.
Defined.

Lemma file_push_writes_file_witness :
  let h' := run_msgs sample_psk all_ok 42 cl 0
              (FilePush 7 "/tmp/x" 3 :: chunk_msgs 7 0 [[Byte.x61; Byte.x62]; [Byte.x63]])
              after_syn.2 in
  disk h' = <["/tmp/x"%string := [Byte.x61; Byte.x62; Byte.x63]]> (disk after_syn.2) ∧
  transfers h' !! 7 = None.
Proof.
  apply (file_push_writes_file sample_psk all_ok 42 cl 0 eq_refl eq_refl 7 "/tmp/x"%string
           [[Byte.x61; Byte.x62]; [Byte.x63]] after_syn.2); [simpl; lia| |done].
  by repeat constructor.
Defined.

Definition printing : Host :=
  run_task sample_psk 0 (Output 0 [Byte.x61])
    (handle_control sample_psk all_ok (serialize (Exec 1 "ls")) 42 cl 0 after_syn.2).
Definition printing_task : ExecTask :=
  mkTask 1 42 (ViaUdp cl) 0 "ls" [] [(0, [Byte.x61])].

Lemma exit_drops_pending_output_witness :
  tasks printing !! 0%nat = Some printing_task ∧ chunks printing_task ≠ [] ∧
  let h' := run_task sample_psk 0 (Exited (Some 0)) printing in
  tasks h' !! 0%nat = None ∧
  trace h' = trace (reply_on sample_psk (ViaUdp cl) 42 0 (ExecDone 1 (Some 0)) printing) ∧
  foldl (λ h ev, run_task sample_psk 0 ev h) h' [Forward] = h'.
Proof.
  split; [vm_compute; reflexivity|]. split; [discriminate|].
  apply (exit_drops_pending_output sample_psk 0 printing_task printing (Some 0) [Forward]);
    [vm_compute; reflexivity|discriminate].
Defined.

Lemma tick_exact_witness :
  HEARTBEAT_INTERVAL ≤ duration_since (from_secs 6) (last_hb one_conn) ∧
  (∀ c x, connections (udp (tick (from_secs 6) one_conn)) !! c = Some x ↔
      connections (udp one_conn) !! c = Some x ∧
      duration_since (from_secs 6) (last_activity x) < TIMEOUT).
Proof.
  assert (Hd : HEARTBEAT_INTERVAL ≤ duration_since (from_secs 6) (last_hb one_conn))
    by (vm_compute; discriminate).
  split; [exact Hd|]. apply (tick_exact (from_secs 6) one_conn), Hd.
Defined.
