(* ===== verification/Identity.v ===== *)
(** * Identity: node identifiers

    Models crates/vpn/src/vpn/identity.rs.  The crates [hex], [sha2],
    [ed25519_dalek] and [serde_json] are third-party: the classes [HexCrate],
    [Sha256Crate], [Ed25519Crate] and [IdentityJson], with the documented laws
    the theorems use and concrete instances for the witnesses. *)
From Stdlib Require Import SpecFloat Ascii.
From S2P Require Import Prelude.
#[local] Open Scope Z_scope.

(** ** Third-party crates *)

Class HexCrate := {
  hex_encode : list byte → string;
  hex_decode : string → option (list byte)
}.
Class HexCrateOk `{HexCrate} : Prop := {
  hex_decode_encode b : hex_decode (hex_encode b) = Some b;
  hex_length b : String.length (hex_encode b) = (2 * length b)%nat
}.

Class Sha256Crate := sha256 : list byte → bytes32.

Class Ed25519Crate := {
  SigningKey : Type;
  signing_key_from_bytes : bytes32 → SigningKey;
  signing_key_to_bytes : SigningKey → bytes32;
  verifying_key_bytes : SigningKey → list byte
}.
Class Ed25519CrateOk `{Ed25519Crate} : Prop :=
  signing_key_roundtrip k : signing_key_from_bytes (signing_key_to_bytes k) = k.

(** The JSON object that [save] prints and [load] reads: the strings under
    ["node_id"] and ["secret_key"]. *)
Class IdentityJson := {
  print_identity : string → string → string;
  parse_identity : string → option (string * string)
}.
Class IdentityJsonOk `{IdentityJson} : Prop :=
  parse_print_identity n s : parse_identity (print_identity n s) = Some (n, s).

(** Lower-case hexadecimal. *)
Definition hex_digit (n : Z) : Ascii.ascii :=
  Ascii.ascii_of_nat (Z.to_nat (if n <? 10 then 48 + n else 87 + n)).
Definition hex_value (a : Ascii.ascii) : option Z :=
  let n := Z.of_nat (Ascii.nat_of_ascii a) in
  if (48 <=? n) && (n <=? 57) then Some (n - 48) else
  if (97 <=? n) && (n <=? 102) then Some (n - 87) else
  if (65 <=? n) && (n <=? 70) then Some (n - 55) else None.
Fixpoint lower_hex (bs : list byte) : string :=
  match bs with
  | [] => ""
  | b :: bs => String (hex_digit (Z_of_byte b / 16))
                 (String (hex_digit (Z_of_byte b mod 16)) (lower_hex bs))
  end.
Fixpoint of_hex (s : string) : option (list byte) :=
  match s with
  | EmptyString => Some []
  | String a (String b s) =>
      x ← hex_value a; y ← hex_value b; bs ← of_hex s; Some (byte_of_Z (16 * x + y) :: bs)
  | _ => None
  end.
#[export] Instance std_hex : HexCrate := { hex_encode := lower_hex; hex_decode := of_hex }.

Lemma hex_value_digit n : 0 <= n < 16 → hex_value (hex_digit n) = Some n.
Proof.
  intros Hn. assert (Hf : Forall (λ n, hex_value (hex_digit n) = Some n) (seqZ 0 16))
    by repeat constructor.
  rewrite Forall_forall in Hf. apply Hf, elem_of_seqZ. lia.
Qed.
#[export] Instance std_hex_ok : HexCrateOk.
Proof.
  split; intros b; induction b as [|b bs IH]; simpl in *; [done| |done|lia].
  pose proof (Z_of_byte_range b).
  rewrite !hex_value_digit by (Z.to_euclidean_division_equations; lia).
  simpl. rewrite IH. simpl. do 2 f_equal.
  rewrite <-Z.div_mod by lia. apply byte_of_Z_of_byte.
Qed.

(** A stand-in for SHA-256 that tells short inputs apart: the bytes, padded. *)
Definition pad32 (bs : list byte) : list byte := take 32 (bs ++ replicate 32 Byte.x00).
Lemma length_pad32 bs : length (pad32 bs) = 32%nat.
Proof. unfold pad32. rewrite length_take, length_app, length_replicate. lia. Qed.
#[export] Instance toy_sha256 : Sha256Crate := λ bs, dexist (pad32 bs) (length_pad32 bs).

#[export] Instance toy_ed25519 : Ed25519Crate := {
  SigningKey := bytes32;
  signing_key_from_bytes k := k;
  signing_key_to_bytes k := k;
  verifying_key_bytes k := arr_bytes k
}.
#[export] Instance toy_ed25519_ok : Ed25519CrateOk.
Proof. done. Qed.
(** A stand-in for the JSON text: the first string escaped, then the second. *)
Fixpoint print_pair (n s : string) : string :=
  match n with
  | EmptyString => String "."%char s
  | String a n => String ","%char (String a (print_pair n s))
  end.
Fixpoint parse_pair (t : string) : option (string * string) :=
  match t with
  | String "."%char s => Some (EmptyString, s)
  | String ","%char (String a t) => '(n, s) ← parse_pair t; Some (String a n, s)
  | _ => None
  end.
#[export] Instance toy_json : IdentityJson := {
  print_identity := print_pair; parse_identity := parse_pair
}.
#[export] Instance toy_json_ok : IdentityJsonOk.
Proof. intros n s. simpl. induction n as [|a n IH]; simpl; [done|]. by rewrite IH. Qed.

(** ** Node identifiers *)

Definition NodeID := bytes32.

Module NodeID.
Section NodeID.
Context `{HexCrate} `{Sha256Crate} `{Ed25519Crate} `{IdentityJson}.

Definition from_public_key (key : list byte) : NodeID := sha256 key.
Definition from_bytes (bytes : bytes32) : NodeID := bytes.
Definition to_hex (n : NodeID) : string := hex_encode (arr_bytes n).
Definition as_bytes (n : NodeID) : bytes32 := n.

(** The loop of [distance]: shifting a [u128] left by eight drops its top byte. *)
Definition distance_bits (a b : NodeID) : Z :=
  foldl (λ dist '(x, y), Z.lor (wrap 128 (Z.shiftl dist 8)) (Z.lxor (Z_of_byte x) (Z_of_byte y)))
    0 (zip (arr_bytes a) (arr_bytes b)).
(** [dist as f64]: rounding to nearest, ties to even. *)
Definition f64_of_int (z : Z) : spec_float := binary_normalize 53 1024 z 0 false.
Definition distance (a b : NodeID) : spec_float := f64_of_int (distance_bits a b).

(** [FromHexError], up to the two outcomes the function distinguishes. *)
Inductive HexError := BadHex | InvalidStringLength.
Definition from_hex (s : string) : result NodeID HexError :=
  match hex_decode s with
  | None => Err BadHex
  | Some bytes => ok_or (to_arr32 bytes) InvalidStringLength
  end.

(** [generate], from the 32 random bytes. *)
Definition generate (bytes : bytes32) : NodeID * SigningKey :=
  let signing_key := signing_key_from_bytes bytes in
  (from_public_key (verifying_key_bytes signing_key), signing_key).

(** The contents of the file that [save] writes. *)
Definition save (n : NodeID) (k : SigningKey) : string :=
  print_identity (to_hex n) (hex_encode (arr_bytes (signing_key_to_bytes k))).

Inductive LoadError := InvalidData | Panic.
(** [load], from the contents of the file.  [as_str().unwrap()] panics on a
    missing key, [copy_from_slice] on a secret of another length. *)
Definition load (data : string) : result (NodeID * SigningKey) LoadError :=
  match parse_identity data with
  | None => Err Panic
  | Some (node_id_hex, secret_hex) =>
      let? node_id := map_err (λ _, InvalidData) (from_hex node_id_hex) in
      let? secret := ok_or (hex_decode secret_hex) InvalidData in
      let? bytes := ok_or (to_arr32 secret) Panic in
      Ok (node_id, signing_key_from_bytes bytes)
  end.
End NodeID.
End NodeID.

(** ** Properties *)

Section Facts.
Context `{HexCrateOk} `{Ed25519CrateOk} `{IdentityJsonOk}.

Lemma from_hex_to_hex n : NodeID.from_hex (NodeID.to_hex n) = Ok n.
Proof.
  unfold NodeID.from_hex, NodeID.to_hex. by rewrite hex_decode_encode, to_arr32_arr_bytes.
Qed.
#[export] Instance to_hex_inj : Inj (=) (=) NodeID.to_hex.
Proof.
  intros a b E. pose proof (from_hex_to_hex a) as Ha. pose proof (from_hex_to_hex b) as Hb.
  rewrite E, Hb in Ha. by injection Ha.
Qed.

(** An identity that is saved is loaded back, identifier and key. *)
Theorem identity_save_load n k : NodeID.load (NodeID.save n k) = Ok (n, k).
Proof.
  unfold NodeID.load, NodeID.save. rewrite parse_print_identity, from_hex_to_hex. simpl.
  rewrite hex_decode_encode. simpl. rewrite to_arr32_arr_bytes. simpl.
  by rewrite signing_key_roundtrip.
Qed.
End Facts.

(** ** The distance *)

Definition xor_bytes (a b : list byte) : list Z :=
  zip_with (λ x y, Z.lxor (Z_of_byte x) (Z_of_byte y)) a b.
(** The number that big-endian digits of base 256 denote. *)
Definition value (ds : list Z) : Z := foldl (λ acc d, acc * 256 + d) 0 ds.

Lemma value_app ds es : value (ds ++ es) = value ds * 256 ^ len es + value es.
Proof.
  unfold value. rewrite foldl_app. generalize (foldl (λ acc d, acc * 256 + d) 0 ds). intros a.
  revert a. induction es as [|e es IH] using rev_ind; intros a; [simpl; lia|].
  rewrite !foldl_app, length_app, Nat2Z.inj_add, Z.pow_add_r by lia. simpl. rewrite IH. lia.
Qed.

Lemma xor_byte_fits x y : fits 8 (Z.lxor (Z_of_byte x) (Z_of_byte y)).
Proof. apply fits_lxor; [lia|apply Z_of_byte_range..]. Qed.

(** One turn of the loop, as arithmetic modulo 2^128. *)
Lemma shift_step acc d :
  fits 8 d → Z.lor (wrap 128 (Z.shiftl (wrap 128 acc) 8)) d = wrap 128 (acc * 256 + d).
Proof.
  intros Hd. rewrite Z.shiftl_mul_pow2 by done.
  assert (Hw : wrap 128 (wrap 128 acc * 2 ^ 8) = acc mod 2 ^ 120 * 2 ^ 8).
  { unfold wrap. rewrite Zmult_mod_idemp_l.
    replace (2 ^ 128) with (2 ^ 120 * 2 ^ 8) by done. by rewrite Z.mul_mod_distr_r. }
  rewrite Hw, lor_low by done. unfold wrap, fits in *.
  change (2 ^ 8) with 256 in *.
  change (2 ^ 120) with 1329227995784915872903807060280344576.
  change (2 ^ 128) with 340282366920938463463374607431768211456.
  Z.to_euclidean_division_equations. lia.
Qed.

Lemma distance_bits_value a b :
  NodeID.distance_bits a b = wrap 128 (value (xor_bytes (arr_bytes a) (arr_bytes b))).
Proof.
  unfold NodeID.distance_bits, xor_bytes, value. change 0 with (wrap 128 0) at 1.
  generalize (arr_bytes a) (arr_bytes b) 0. clear a b. intros a.
  induction a as [|x a IH]; intros [|y b] acc; try done. cbn [zip zip_with foldl].
  rewrite shift_step by apply xor_byte_fits. apply IH.
Qed.

Lemma xor_bytes_app a1 b1 a2 b2 :
  length a1 = length b1 → xor_bytes (a1 ++ a2) (b1 ++ b2) = xor_bytes a1 b1 ++ xor_bytes a2 b2.
Proof. apply zip_with_app. Qed.

(** The distance between two identifiers is not a distance on all of
    them: the 128-bit accumulator keeps the last 16 of the 32 bytes, so
    identifiers that agree there are at the same distance from every other,
    and two distinct ones that agree there are at distance zero. *)
Theorem distance_ignores_first_half a a' b b' :
  drop 16 (arr_bytes a) = drop 16 (arr_bytes a') →
  drop 16 (arr_bytes b) = drop 16 (arr_bytes b') →
  NodeID.distance a b = NodeID.distance a' b' ∧
  (drop 16 (arr_bytes a) = drop 16 (arr_bytes b) → NodeID.distance_bits a b = 0).
Proof.
  assert (Hhalf : ∀ a b, NodeID.distance_bits a b =
    wrap 128 (value (xor_bytes (drop 16 (arr_bytes a)) (drop 16 (arr_bytes b))))).
  { intros x y. pose proof (length_arr_bytes x) as Hx. pose proof (length_arr_bytes y) as Hy.
    rewrite distance_bits_value.
    rewrite <-(take_drop 16 (arr_bytes x)) at 1. rewrite <-(take_drop 16 (arr_bytes y)) at 1.
    rewrite xor_bytes_app by (rewrite !length_take; lia).
    rewrite value_app. unfold xor_bytes at 2. rewrite length_zip_with, !length_drop, Hx, Hy.
    change (256 ^ Z.of_nat _) with (2 ^ 128).
    unfold wrap. by rewrite Z.add_comm, Z_mod_plus_full. }
  intros Ha Hb. split.
  - unfold NodeID.distance. by rewrite (Hhalf a b), (Hhalf a' b'), Ha, Hb.
  - intros Hab. rewrite Hhalf, Hab. set (l := drop 16 (arr_bytes b)). clearbody l.
    replace (value (xor_bytes l l)) with 0; [done|].
    unfold value. induction l as [|x l IH]; [done|].
    cbn [xor_bytes zip_with foldl]. by rewrite Z.lxor_nilpotent.
Qed.

(** ** Witnesses *)

Lemma identity_save_load_witness :
  NodeID.load (NodeID.save zero32 zero32) = Ok (zero32, zero32).
Proof. exact (identity_save_load zero32 (zero32 : SigningKey)). Defined.

(** The identifier whose first byte is one and whose other bytes are zero. *)
Definition one_high : NodeID :=
  dexist (Byte.x01 :: replicate 31 Byte.x00) (eq_refl : length (_ :: replicate 31 _) = 32%nat).

Lemma distance_ignores_first_half_witness :
  one_high ≠ zero32 ∧
  NodeID.distance one_high zero32 = NodeID.distance zero32 zero32 ∧
  (drop 16 (arr_bytes one_high) = drop 16 (arr_bytes zero32) →
   NodeID.distance_bits one_high zero32 = 0).
Proof.
  split; [intros H; apply (f_equal arr_bytes) in H; discriminate|].
  apply (distance_ignores_first_half one_high zero32 zero32 zero32); reflexivity.
Defined.
