(* ===== verification/Address.v ===== *)
(** * Address: node addresses and the resolvers with a cache

    Models crates/vpn/src/address.rs.  The trait [AddressResolver] is the
    class [Resolver]: each method takes the time and the resolver's state.
    [MemAddressResolver] and [CachingResolver] are its instances. *)
From Stdlib Require Import Ascii.
From S2P Require Import Prelude Text Identity.
#[local] Open Scope Z_scope.

Inductive AddressError :=
| InvalidFormat (msg : string)
| UnknownNode (name : string)
| ResolveTimeout (name : string)
| CacheExpired (name : string).

Definition AddressError_display (e : AddressError) : string :=
  match e with
  | InvalidFormat msg => "invalid address format: " +:+ msg
  | UnknownNode name => "unknown node: " +:+ name
  | ResolveTimeout name => "resolve timeout for node: " +:+ name
  | CacheExpired name => "cache expired for node: " +:+ name
  end.

(** ** Addresses *)

Record ParsedAddress := mkParsed { name : string; port : option Z }.

Module ParsedAddress.
Definition parse (addr : string) : result ParsedAddress AddressError :=
  match splitn 3 ":" addr with
  | [scheme; name] =>
      if String.eqb scheme "node" then
        if String.eqb name "" then Err (InvalidFormat "node name cannot be empty")
        else Ok (mkParsed name None)
      else Err (InvalidFormat
             ("expected node:<name> or node:<name>:<port>, got: " +:+ addr))
  | [scheme; name; port_str] =>
      if String.eqb scheme "node" then
        if String.eqb name "" then Err (InvalidFormat "node name cannot be empty") else
        let? port := ok_or (parse_uint 16 port_str)
                       (InvalidFormat ("invalid port number: " +:+ port_str)) in
        if port =? 0 then Err (InvalidFormat "port number cannot be zero")
        else Ok (mkParsed name (Some port))
      else Err (InvalidFormat
             ("expected node:<name> or node:<name>:<port>, got: " +:+ addr))
  | _ => Err (InvalidFormat ("expected node:<name> or node:<name>:<port>, got: " +:+ addr))
  end.

Definition is_node_address (addr : string) : bool := starts_with "node:" addr.
End ParsedAddress.

(** ** Resolvers *)

Class Resolver (R : Type) := {
  resolve : Instant → string → R → result NodeID AddressError * R;
  cache : Instant → string → NodeID → Duration → R → R;
  get_cached : Instant → string → R → option NodeID;
  clear_cache : R → R
}.

Record CacheEntry := mkEntry { entry_id : NodeID; inserted_at : Instant; ttl : Duration }.
Definition is_expired (now : Instant) (e : CacheEntry) : bool :=
  ttl e <? duration_since now (inserted_at e).

(** The lookup both implementations make. *)
Definition fresh (now : Instant) (name : string) (c : gmap string CacheEntry) : option NodeID :=
  e ← c !! name; if is_expired now e then None else Some (entry_id e).

Record MemAddressResolver := mkMem {
  mem_cache : gmap string CacheEntry;
  static_map : gmap string NodeID;
  default_ttl : Duration
}.

Module MemAddressResolver.
Definition with_ttl (default_ttl : Duration) : MemAddressResolver := mkMem ∅ ∅ default_ttl.
Definition new : MemAddressResolver := with_ttl (from_secs 300).
Definition add_static_mapping (name : string) (id : NodeID) (r : MemAddressResolver)
    : MemAddressResolver :=
  mkMem (mem_cache r) (<[name := id]> (static_map r)) (default_ttl r).
Definition remove_static_mapping (name : string) (r : MemAddressResolver)
    : option NodeID * MemAddressResolver :=
  (static_map r !! name, mkMem (mem_cache r) (delete name (static_map r)) (default_ttl r)).
Definition known_nodes (now : Instant) (r : MemAddressResolver) : nat :=
  (size (static_map r) +
   length (filter (λ e, is_expired now e.2 = false) (map_to_list (mem_cache r))))%nat.

Definition cache (now : Instant) (name : string) (id : NodeID) (ttl : Duration)
    (r : MemAddressResolver) : MemAddressResolver :=
  mkMem (<[name := mkEntry id now ttl]> (mem_cache r)) (static_map r) (default_ttl r).
Definition resolve (now : Instant) (name : string) (r : MemAddressResolver)
    : result NodeID AddressError * MemAddressResolver :=
  match fresh now name (mem_cache r) with
  | Some id => (Ok id, r)
  | None =>
      match static_map r !! name with
      | Some id => (Ok id, cache now name id (default_ttl r) r)
      | None => (Err (UnknownNode name), r)
      end
  end.
Definition get_cached (now : Instant) (name : string) (r : MemAddressResolver) : option NodeID :=
  fresh now name (mem_cache r).
Definition clear_cache (r : MemAddressResolver) : MemAddressResolver :=
  mkMem ∅ (static_map r) (default_ttl r).
End MemAddressResolver.

#[export] Instance mem_resolver : Resolver MemAddressResolver := {
  resolve := MemAddressResolver.resolve;
  cache := MemAddressResolver.cache;
  get_cached := MemAddressResolver.get_cached;
  clear_cache := MemAddressResolver.clear_cache
}.

Record CachingResolver (R : Type) := mkCaching {
  inner : R;
  outer_cache : gmap string CacheEntry
}.
Arguments mkCaching {R} _ _.
Arguments inner {R} _.
Arguments outer_cache {R} _.

Module CachingResolver.
Section CachingResolver.
Context `{Resolver R}.

Definition new (r : R) : CachingResolver R := mkCaching r ∅.
Definition with_ttl (r : R) (_ttl : Duration) : CachingResolver R := new r.
Definition cache (now : Instant) (name : string) (id : NodeID) (ttl : Duration)
    (r : CachingResolver R) : CachingResolver R :=
  mkCaching (Address.cache now name id ttl (inner r))
    (<[name := mkEntry id now ttl]> (outer_cache r)).
Definition resolve (now : Instant) (name : string) (r : CachingResolver R)
    : result NodeID AddressError * CachingResolver R :=
  match fresh now name (outer_cache r) with
  | Some id => (Ok id, r)
  | None =>
      let '(res, i) := Address.resolve now name (inner r) in
      let r := mkCaching i (outer_cache r) in
      match res with
      | Err e => (Err e, r)
      | Ok id => (Ok id, cache now name id (from_secs 300) r)
      end
  end.
Definition get_cached (now : Instant) (name : string) (r : CachingResolver R) : option NodeID :=
  fresh now name (outer_cache r).
Definition clear_cache (r : CachingResolver R) : CachingResolver R :=
  mkCaching (Address.clear_cache (inner r)) ∅.
End CachingResolver.
End CachingResolver.

#[export] Instance caching_resolver `{Resolver R} : Resolver (CachingResolver R) := {
  resolve := CachingResolver.resolve;
  cache := CachingResolver.cache;
  get_cached := CachingResolver.get_cached;
  clear_cache := CachingResolver.clear_cache
}.

Definition resolve_address `{Resolver R} (now : Instant) (addr : string) (r : R)
    : result (ParsedAddress * NodeID) AddressError * R :=
  match ParsedAddress.parse addr with
  | Err e => (Err e, r)
  | Ok parsed =>
      let '(res, r) := resolve now (name parsed) r in
      (let? id := res in Ok (parsed, id), r)
  end.

(** ** Properties of parsing *)

(** [addr] is written as the address [a]. *)
Definition written (a : ParsedAddress) (addr : string) : Prop :=
  name a ≠ ""%string ∧ free_of ":" (name a) = true ∧
  match port a with
  | None => addr = ("node:" +:+ name a)%string
  | Some p => p ≠ 0 ∧ ∃ s, parse_uint 16 s = Some p ∧
      addr = ("node:" +:+ name a +:+ ":" +:+ s)%string
  end.

Lemma splitn_name n : free_of ":" n = true → splitn 3 ":" ("node:" +:+ n) = ["node"; n]%string.
Proof. intros Hn. simpl. change ("" +:+ n)%string with n. by rewrite split_once_free. Qed.
Lemma splitn_port n s :
  free_of ":" n = true → splitn 3 ":" ("node:" +:+ n +:+ ":" +:+ s) = ["node"; n; s]%string.
Proof.
  intros Hn. simpl.
  change ("" +:+ n +:+ ":" +:+ s)%string with (n +:+ String ":" s)%string.
  by rewrite split_once_app.
Qed.

(** [parse] accepts exactly the addresses [node:<name>] and
    [node:<name>:<port>] with a non-empty name without a colon and a decimal
    non-zero 16-bit port, and returns the parts; printing a port and parsing
    it back is one of the cases. *)
Theorem parse_exact addr a :
  (ParsedAddress.parse addr = Ok a ↔ written a addr) ∧
  (∀ p, u16_ok p → p ≠ 0 → name a ≠ ""%string → free_of ":" (name a) = true →
     ParsedAddress.parse ("node:" +:+ name a +:+ ":" +:+ pretty p) =
       Ok (mkParsed (name a) (Some p))).
Proof.
  assert (Hw : ∀ addr a, written a addr → ParsedAddress.parse addr = Ok a).
  { intros s [n [p|]] (Hne & Hf & Hp); cbn [name port] in *; unfold ParsedAddress.parse.
    - destruct Hp as (Hp0 & ps & Hps & ->). rewrite splitn_port by done. simpl.
      rewrite (proj2 (String.eqb_neq _ _)) by done. rewrite Hps. simpl.
      by rewrite (proj2 (Z.eqb_neq _ _)).
    - subst s. rewrite splitn_name by done. simpl.
      by rewrite (proj2 (String.eqb_neq _ _)). }
  split; [split; [|apply Hw]|].
  - unfold ParsedAddress.parse, splitn.
    destruct (split_once ":" addr) as [[x y]|] eqn:E1; [|done].
    apply split_once_Some in E1 as [-> Hx].
    destruct (split_once ":" y) as [[n s]|] eqn:E2.
    + apply split_once_Some in E2 as [-> Hn].
      destruct (String.eqb_spec x "node") as [->|]; [|done].
      destruct (String.eqb_spec n "") as [|Hne]; [done|].
      destruct (parse_uint 16 s) as [p|] eqn:Ep; [simpl|done].
      destruct (Z.eqb_spec p 0); [done|]. intros [= <-].
      split; [done|]. split; [done|]. split; [done|]. by exists s.
    + apply split_once_None in E2.
      destruct (String.eqb_spec x "node") as [->|]; [|done].
      destruct (String.eqb_spec y "") as [|Hne]; [done|].
      by intros [= <-].
  - intros p Hp H0 Hne Hf. apply Hw. split_and!; try done. cbn [port].
    split; [done|]. exists (pretty p). split; [by apply parse_uint_pretty|done].
Qed.

(** ** Properties of the cache *)

Lemma fresh_insert now name name' id t ttl c :
  fresh now name (<[name' := mkEntry id t ttl]> c) =
  if decide (name' = name)
  then if ttl <? duration_since now t then None else Some id
  else fresh now name c.
Proof.
  unfold fresh. rewrite lookup_insert. case_decide; [|done]. simpl. unfold is_expired. simpl.
  by case_match.
Qed.

(** What the caching layer adds to any resolver.  When a name is not
    cached it answers as the inner resolver does, and a positive answer is then
    given back for 300 seconds, whatever the inner resolver would say by then
    and whatever lifetime [with_ttl] was asked for; after that the inner
    resolver is asked again; errors are not cached. *)
Theorem caching_lifetime `{Resolver R} (r : CachingResolver R) (requested : Duration) now n :
  CachingResolver.with_ttl (inner r) requested = CachingResolver.new (inner r) ∧
  (fresh now n (outer_cache r) = None →
   let '(res, r') := CachingResolver.resolve now n r in
   res = (resolve now n (inner r)).1 ∧
   match res with
   | Err _ => outer_cache r' = outer_cache r
   | Ok id =>
       ∀ i later, now ≤ later →
         let r'' := mkCaching i (outer_cache r') in
         (later ≤ now + from_secs 300 →
            CachingResolver.resolve later n r'' = (Ok id, r'')) ∧
         (now + from_secs 300 < later →
            (CachingResolver.resolve later n r'').1 = (resolve later n i).1)
   end).
Proof.
  split; [done|]. intros Hf. unfold CachingResolver.resolve at 1. rewrite Hf.
  destruct (resolve now n (inner r)) as [[id|e] i'] eqn:Er; simpl; [|done].
  split; [done|]. intros i later Hl. unfold CachingResolver.resolve. cbn [outer_cache inner].
  rewrite fresh_insert, decide_True by done. unfold duration_since. split; intros Hd.
  - by rewrite (proj2 (Z.ltb_ge _ _)) by lia.
  - rewrite (proj2 (Z.ltb_lt _ _)) by (unfold from_secs in *; lia).
    by destruct (resolve later n i) as [[] ?].
Qed.

(** The in-memory resolver and its own cache: an answer is the unexpired
    cached one, else the static one; so after a static mapping is removed or
    replaced the old identifier is still returned until the cache entry that
    its last resolution made expires, and the new state shows from then on. *)
Theorem mem_resolver_staleness r n id now later change :
  fresh now n (mem_cache r) = None → static_map r !! n = Some id →
  now ≤ later → 0 ≤ default_ttl r →
  let '(res, r1) := MemAddressResolver.resolve now n r in
  let r2 := mkMem (mem_cache r1) (partial_alter (λ _, change) n (static_map r1)) (default_ttl r1) in
  res = Ok id ∧
  (later ≤ now + default_ttl r → (MemAddressResolver.resolve later n r2).1 = Ok id) ∧
  (now + default_ttl r < later →
     (MemAddressResolver.resolve later n r2).1 =
       match change with Some id' => Ok id' | None => Err (UnknownNode n) end).
Proof.
  intros Hf Hs Hl H0. unfold MemAddressResolver.resolve at 1. rewrite Hf, Hs.
  unfold MemAddressResolver.resolve. cbn [mem_cache static_map default_ttl MemAddressResolver.cache].
  rewrite fresh_insert, decide_True, lookup_partial_alter_eq by done.
  unfold duration_since. split_and!; [done| |]; intros Hd.
  - by rewrite (proj2 (Z.ltb_ge _ _)) by lia.
  - rewrite (proj2 (Z.ltb_lt _ _)) by lia. by destruct change.
Qed.

(** ** Witnesses *)

Lemma parse_exact_witness :
  (ParsedAddress.parse "node:Charizard:8080" = Ok (mkParsed "Charizard" (Some 8080)) ↔
   written (mkParsed "Charizard" (Some 8080)) "node:Charizard:8080") ∧
  (∀ p, u16_ok p → p ≠ 0 → name (mkParsed "Charizard" (Some 8080)) ≠ ""%string →
     free_of ":" "Charizard" = true →
     ParsedAddress.parse ("node:" +:+ "Charizard" +:+ ":" +:+ pretty p) =
       Ok (mkParsed "Charizard" (Some p))).
Proof. apply (parse_exact "node:Charizard:8080" (mkParsed "Charizard" (Some 8080))). Defined.

Definition mem_pika : MemAddressResolver :=
  MemAddressResolver.add_static_mapping "Pikachu" zero32 MemAddressResolver.new.

Lemma caching_lifetime_witness :
  fresh 0 "Pikachu" (outer_cache (CachingResolver.new mem_pika)) = None ∧
  (CachingResolver.resolve 0 "Pikachu" (CachingResolver.new mem_pika)).1 =
    (resolve 0 "Pikachu" mem_pika).1.
Proof.
  split; [vm_compute; reflexivity|].
  pose proof (caching_lifetime (CachingResolver.new mem_pika) (from_secs 1) 0 "Pikachu") as [_ Hc].
  specialize (Hc eq_refl). destruct (CachingResolver.resolve _ _ _) as [res r'].
  exact (proj1 Hc).
Defined.

Lemma mem_resolver_staleness_witness :
  let '(res, r1) := MemAddressResolver.resolve 0 "Pikachu" mem_pika in
  let r2 := mkMem (mem_cache r1) (partial_alter (λ _, None) "Pikachu"%string (static_map r1))
              (default_ttl r1) in
  res = Ok zero32 ∧
  (from_secs 10 ≤ 0 + default_ttl mem_pika →
     (MemAddressResolver.resolve (from_secs 10) "Pikachu" r2).1 = Ok zero32) ∧
  (0 + default_ttl mem_pika < from_secs 10 →
     (MemAddressResolver.resolve (from_secs 10) "Pikachu" r2).1 =
       match None with Some id' => Ok id' | None => Err (UnknownNode "Pikachu") end).
Proof.
  apply (mem_resolver_staleness mem_pika "Pikachu" zero32 0 (from_secs 10) None);
    [reflexivity|reflexivity|vm_compute; discriminate|vm_compute; discriminate].
Defined.
