(* ===== verification/Router.v ===== *)
(** * Router: the routing interface, its errors and the route table

    Models crates/vpn/src/router.rs.  The trait [Router] is the class
    [Router] below: a client of it is proved against the class. *)
From S2P Require Import Prelude Identity.

Inductive RouterError :=
| Unreachable (target : string)
| Timeout
| NoRoute (id : NodeID)
| SendFailed (msg : string)
| NodeOffline (id : NodeID)
| InvalidData (msg : string).

Definition RouterError_display `{HexCrate} (e : RouterError) : string :=
  match e with
  | Unreachable target => "target unreachable: " +:+ target
  | Timeout => "connection timeout"
  | NoRoute id => "no route to node: " +:+ NodeID.to_hex id
  | SendFailed msg => "send failed: " +:+ msg
  | NodeOffline id => "node offline: " +:+ NodeID.to_hex id
  | InvalidData msg => "invalid data: " +:+ msg
  end.

Inductive ConnectionType := Lan | Vpn | Relay | Unknown.
#[global] Instance ConnectionType_eq_dec : EqDecision ConnectionType.
Proof. solve_decision. Defined.
Definition ConnectionType_display (c : ConnectionType) : string :=
  match c with Lan => "LAN" | Vpn => "VPN" | Relay => "Relay" | Unknown => "Unknown" end.

Inductive NodeStatus := Online | Offline | Connecting | Error.
#[global] Instance NodeStatus_eq_dec : EqDecision NodeStatus.
Proof. solve_decision. Defined.
Definition NodeStatus_display (s : NodeStatus) : string :=
  match s with
  | Online => "online" | Offline => "offline" | Connecting => "connecting" | Error => "error"
  end.

Record RouterStatus := mkStatus {
  node_status : NodeStatus;
  connection_type : ConnectionType;
  known_nodes : nat;
  active_routes : nat;
  last_update : Z
}.

(** The trait: [send] and [status] read the clocks, [Instant] and Unix. *)
Class Router (R : Type) := {
  send : Instant → string → list byte → R → result unit RouterError * R;
  status : Instant → Z → R → RouterStatus;
  router_name : R → string
}.

(** ** The route table *)

Record RouteEntry := mkRoute {
  target : NodeID;
  next_hop : NodeID;
  route_type : ConnectionType;
  metric : Z;
  last_active : Z
}.

Record RouteTable := mkTable { routes : gmap NodeID RouteEntry }.

Module RouteTable.
Definition new : RouteTable := mkTable ∅.
Definition upsert (e : RouteEntry) (t : RouteTable) : RouteTable :=
  mkTable (<[target e := e]> (routes t)).
Definition remove (id : NodeID) (t : RouteTable) : option RouteEntry * RouteTable :=
  (routes t !! id, mkTable (delete id (routes t))).
Definition lookup (id : NodeID) (t : RouteTable) : option RouteEntry := routes t !! id.
Definition entries (t : RouteTable) : list RouteEntry := (map_to_list (routes t)).*2.
Definition len (t : RouteTable) : nat := size (routes t).
Definition is_empty (t : RouteTable) : bool := bool_decide (routes t = ∅).
Definition clear (t : RouteTable) : RouteTable := mkTable ∅.

(** [min_by_key(|e| e.metric)]: the first of the smallest. *)
Fixpoint min_by_metric (l : list RouteEntry) : option RouteEntry :=
  match l with
  | [] => None
  | e :: l =>
      match min_by_metric l with
      | Some e' => Some (if metric e' <? metric e then e' else e)
      | None => Some e
      end
  end.
Definition best_route (id : NodeID) (t : RouteTable) : option RouteEntry :=
  min_by_metric (filter (λ e, target e = id) (entries t)).
End RouteTable.

Record RouterManager := mkManager { route_table : RouteTable; manager_name : string }.

Module RouterManager.
Definition new (name : string) : RouterManager := mkManager RouteTable.new name.
Definition add_route (e : RouteEntry) (m : RouterManager) : RouterManager :=
  mkManager (RouteTable.upsert e (route_table m)) (manager_name m).
Definition remove_route (id : NodeID) (m : RouterManager) : option RouteEntry * RouterManager :=
  let '(e, t) := RouteTable.remove id (route_table m) in (e, mkManager t (manager_name m)).
Definition find_route (id : NodeID) (m : RouterManager) : option RouteEntry :=
  RouteTable.lookup id (route_table m).
End RouterManager.

(** ** Properties *)

Inductive tstep : RouteTable → RouteTable → Prop :=
| tstep_upsert e t : tstep t (RouteTable.upsert e t)
| tstep_remove id t : tstep t (RouteTable.remove id t).2
| tstep_clear t : tstep t (RouteTable.clear t).

(** Every entry is stored under its target. *)
Definition keyed (t : RouteTable) : Prop := map_Forall (λ id e, target e = id) (routes t).

Lemma keyed_step t t' : tstep t t' → keyed t → keyed t'.
Proof.
  intros [] Ht; unfold keyed in *; simpl.
  - by apply map_Forall_insert_2.
  - by apply map_Forall_delete.
  - apply map_Forall_empty.
Qed.

(** The entries of a target in a keyed table: the one under its key. *)
Lemma filter_entries t id :
  keyed t → filter (λ e, target e = id) (RouteTable.entries t) = option_list (routes t !! id).
Proof.
  intros Hk.
  assert (Hnd : NoDup ((map_to_list (routes t)).*1)) by apply NoDup_fst_map_to_list.
  assert (Hin : ∀ i e, (i, e) ∈ map_to_list (routes t) ↔ routes t !! i = Some e)
    by (intros; apply elem_of_map_to_list).
  assert (Hkey : ∀ i e, (i, e) ∈ map_to_list (routes t) → target e = i).
  { intros i e Hie. apply Hin in Hie. by apply (Hk i e). }
  assert (Hid : ∀ e, (id, e) ∈ map_to_list (routes t) ↔ routes t !! id = Some e) by auto.
  unfold RouteTable.entries. clear Hin. revert Hnd Hkey Hid. generalize (routes t !! id).
  induction (map_to_list (routes t)) as [|[i e] l IH]; intros o Hnd Hkey Hid; csimpl in *.
  - destruct o as [e|]; [|done]. exfalso. eapply not_elem_of_nil. by apply Hid.
  - apply NoDup_cons in Hnd as [Hi Hnd]. rewrite filter_cons.
    assert (Ht : target e = i) by (apply Hkey; left).
    destruct (decide (target e = id)) as [He|He].
    + subst. assert (o = Some e) as -> by (apply Hid; left).
      simpl. f_equal. apply (IH None); [done|set_solver|].
      intros e'. split; [|done]. intros Hin. destruct Hi. apply list_elem_of_fmap.
      by exists (target e, e').
    + apply IH; [done|set_solver|]. intros e'. rewrite <-Hid, elem_of_cons.
      split; [by right|]. intros [[= <- <-]|]; [congruence|done].
Qed.

(** In every table built by the operations, [best_route] is [lookup]:
    there is one route per target, and comparing metrics never chooses. *)
Theorem best_route_is_lookup t id :
  rtc tstep RouteTable.new t → RouteTable.best_route id t = RouteTable.lookup id t.
Proof.
  intros Hr. assert (Hk : keyed t).
  { remember RouteTable.new as t0. assert (keyed t0) as H0 by (subst; apply map_Forall_empty).
    clear Heqt0. induction Hr; eauto using keyed_step. }
  unfold RouteTable.best_route, RouteTable.lookup. rewrite filter_entries by done.
  by destruct (routes t !! id).
Qed.

(** ** Witnesses *)

Definition route_a : RouteEntry := mkRoute zero32 zero32 Lan 5 0.

Lemma best_route_is_lookup_witness :
  rtc tstep RouteTable.new (RouteTable.upsert route_a RouteTable.new) ∧
  RouteTable.best_route zero32 (RouteTable.upsert route_a RouteTable.new) =
    RouteTable.lookup zero32 (RouteTable.upsert route_a RouteTable.new).
Proof.
  assert (Hr : rtc tstep RouteTable.new (RouteTable.upsert route_a RouteTable.new)).
  { eapply rtc_l; [apply tstep_upsert|apply rtc_refl]. }
  split; [exact Hr|]. apply best_route_is_lookup, Hr.
Defined.
