(* ===== verification/Relay.v ===== *)
(** * Relay: the message codec, the connection pool and the relay manager

    Models crates/vpn/src/vpn/relay.rs.  A TCP stream is a number; what the
    operating system answers during one call ([connect], [try_clone],
    [peer_addr], [write_all]) is the record [Io]; the bytes that writes put on
    the streams are logged in order.  [max_idle] is the constant 60 s. *)
From S2P Require Import Prelude Identity.

Definition DEFAULT_POOL_SIZE : nat := 10.

Inductive MessageType :=
  Handshake | Data | Ack | Heartbeat | Relay | Registry | Dht | Route | SelfHeal.
#[global] Instance MessageType_eq_dec : EqDecision MessageType.
Proof. solve_decision. Defined.

Module MessageType.
Definition from_u8 (b : Z) : option MessageType :=
  match b with
  | 1 => Some Handshake | 2 => Some Data | 3 => Some Ack | 4 => Some Heartbeat
  | 5 => Some Relay | 6 => Some Registry | 7 => Some Dht | 8 => Some Route
  | 9 => Some SelfHeal | _ => None
  end.
Definition to_u8 (t : MessageType) : Z :=
  match t with
  | Handshake => 1 | Data => 2 | Ack => 3 | Heartbeat => 4 | Relay => 5
  | Registry => 6 | Dht => 7 | Route => 8 | SelfHeal => 9
  end.

Lemma type_of_to_u8 t : from_u8 (to_u8 t) = Some t.
Proof. by destruct t. Qed.
Lemma type_of_u8_Some b t : from_u8 b = Some t → to_u8 t = b.
Proof. unfold from_u8. intros H. by repeat case_match; simplify_eq. Qed.
Lemma to_u8_range t : 0 <= to_u8 t < 256.
Proof. destruct t; simpl; lia. Qed.
End MessageType.

Inductive RelayError :=
| IoError (e : string)
| ConnectionError (msg : string)
| ParseError (msg : string)
| PoolFull
| Unreachable (addr : string)
| Timeout.

Definition RelayError_display (e : RelayError) : string :=
  match e with
  | IoError e => "io error: " +:+ e
  | ConnectionError msg => "connection error: " +:+ msg
  | ParseError msg => "parse error: " +:+ msg
  | PoolFull => "connection pool full"
  | Unreachable addr => "unreachable: " +:+ addr
  | Timeout => "timeout"
  end.

(** ** Messages *)

Record Message := mkMessage { msg_type : MessageType; payload : list byte }.

Module Message.
Definition to_bytes (m : Message) : list byte :=
  be_bytes 4 (wrap 32 (len (payload m)))
    ++ [byte_of_Z (MessageType.to_u8 (msg_type m))] ++ payload m.

Definition from_bytes (data : list byte) : result Message RelayError :=
  if (length data <? 5)%nat then Err (ParseError "message too short") else
  let len := Z.to_nat (of_be (slice 0 4 data)) in
  let b := Z_of_byte (nth 4 data Byte.x00) in
  let? msg_type := ok_or (MessageType.from_u8 b)
                     (ParseError ("invalid message type: " +:+ pretty b)) in
  if (length data <? 5 + len)%nat
  then Err (ParseError ("payload too short: expected " +:+ pretty (Z.of_nat len) +:+ " bytes"))
  else Ok (mkMessage msg_type (slice 5 (5 + len) data)).
End Message.

(** ** Reading messages from a stream *)

Definition MAX_MESSAGE : Z := 1024 * 1024.

(** [read_message] on a stream that delivers [bs] and then ends; the second
    component is what is left to read. *)
Definition read_message (bs : list byte)
    : result (option (NodeID * Message)) RelayError * list byte :=
  if (length bs <? 4)%nat then (Ok None, []) else
  let len := of_be (take 4 bs) in
  let bs := drop 4 bs in
  if MAX_MESSAGE <? len then (Err (ParseError "message too large"), bs) else
  match bs with
  | [] => (Err (IoError "failed to fill whole buffer"), [])
  | t :: bs =>
      if (length bs <? Z.to_nat len)%nat
      then (Err (IoError "failed to fill whole buffer"), []) else
      let rest := drop (Z.to_nat len) bs in
      match MessageType.from_u8 (Z_of_byte t) with
      | None => (Err (ParseError ("invalid type: " +:+ pretty (Z_of_byte t))), rest)
      | Some ty => (Ok (Some (zero32, mkMessage ty (take (Z.to_nat len) bs))), rest)
      end
  end.

(** The loop of [handle_connection]: what it appends to [received].  Every
    message takes five bytes, so the length of the input is enough fuel. *)
Fixpoint handle_connection_loop (fuel : nat) (bs : list byte) : list (NodeID * Message) :=
  match fuel with
  | O => []
  | S fuel =>
      match read_message bs with
      | (Ok (Some m), rest) => m :: handle_connection_loop fuel rest
      | _ => []
      end
  end.
Definition handle_connection (bs : list byte) : list (NodeID * Message) :=
  handle_connection_loop (length bs) bs.

(** ** The connection pool *)

Record PooledConnection := mkPooled {
  stream : nat; peer_id : option NodeID; last_used : Instant; in_use : bool
}.
Record ConnectionPool := mkPool {
  connections : gmap string (list PooledConnection);
  max_size : nat;
  max_idle : Duration;
  active_count : Z
}.

Record Io := mkIo {
  peer_alive : nat → bool;
  clone_ok : bool;
  connect : option nat;
  write_ok : bool
}.

Module ConnectionPool.
Definition new (max_size : nat) : ConnectionPool := mkPool ∅ max_size (from_secs 60) 0.

(** The first connection that is not in use and still has a peer. *)
Fixpoint acquire (now : Instant) (io : Io) (pool : list PooledConnection)
    : option (nat * list PooledConnection) :=
  match pool with
  | [] => None
  | c :: pool =>
      if negb (in_use c) && peer_alive io (stream c)
      then Some (stream c, mkPooled (stream c) (peer_id c) now true :: pool)
      else '(s, pool) ← acquire now io pool; Some (s, c :: pool)
  end.
(** The first connection that is in use and still has a peer. *)
Fixpoint release (now : Instant) (io : Io) (pool : list PooledConnection)
    : option (list PooledConnection) :=
  match pool with
  | [] => None
  | c :: pool =>
      if in_use c && peer_alive io (stream c)
      then Some (mkPooled (stream c) (peer_id c) now false :: pool)
      else pool ← release now io pool; Some (c :: pool)
  end.

Definition get_connection (now : Instant) (io : Io) (addr : string) (p : ConnectionPool)
    : result nat RelayError * ConnectionPool :=
  let pool := default [] (connections p !! addr) in
  match acquire now io pool with
  | Some (s, pool) =>
      (if clone_ok io then Ok s else Err (IoError "try_clone"),
       mkPool (<[addr := pool]> (connections p)) (max_size p) (max_idle p)
         (wrap 64 (active_count p + 1)))
  | None =>
      if (length pool <? max_size p)%nat then
        match connect io with
        | None =>
            (Err (IoError "connect"),
             mkPool (<[addr := pool]> (connections p)) (max_size p) (max_idle p) (active_count p))
        | Some s =>
            (Ok s,
             mkPool (<[addr := pool ++ [mkPooled s None now true]]> (connections p)) (max_size p)
               (max_idle p) (wrap 64 (active_count p + 1)))
        end
      else
        (Err PoolFull,
         mkPool (<[addr := pool]> (connections p)) (max_size p) (max_idle p) (active_count p))
  end.

(** The stream given back is not looked at. *)
Definition return_connection (now : Instant) (io : Io) (addr : string) (_stream : nat)
    (p : ConnectionPool) : ConnectionPool :=
  let count := wrap 64 (active_count p - 1) in
  match pool ← connections p !! addr; release now io pool with
  | Some pool => mkPool (<[addr := pool]> (connections p)) (max_size p) (max_idle p) count
  | None => mkPool (connections p) (max_size p) (max_idle p) count
  end.

Definition is_idle (now : Instant) (max_idle : Duration) (c : PooledConnection) : bool :=
  negb (in_use c) && (max_idle <? duration_since now (last_used c)).
Definition cleanup_idle (now : Instant) (p : ConnectionPool) : ConnectionPool :=
  mkPool (List.filter (λ c, negb (is_idle now (max_idle p) c)) <$> connections p)
    (max_size p) (max_idle p) (active_count p).
Definition clear (p : ConnectionPool) : ConnectionPool := mkPool ∅ (max_size p) (max_idle p) 0.
End ConnectionPool.

(** ** The relay manager *)

(** [log]: the bytes written, with the stream, in order. *)
Record RelayManager := mkRelay {
  local_id : NodeID;
  running : bool;
  received : list (NodeID * Message);
  pool : ConnectionPool;
  known_nodes : gmap NodeID string;
  relay_table : gmap NodeID string;
  log : list (nat * list byte)
}.

Module RelayManager.
Section RelayManager.
Context `{HexCrate}.

Definition new (local_id : NodeID) : RelayManager :=
  mkRelay local_id false [] (ConnectionPool.new DEFAULT_POOL_SIZE) ∅ ∅ [].
(** [start] once the listener is bound, [stop], a connection served,
    [take_received]. *)
Definition set_running (b : bool) (r : RelayManager) : RelayManager :=
  mkRelay (local_id r) b (received r) (pool r) (known_nodes r) (relay_table r) (log r).
Definition set_received (l : list (NodeID * Message)) (r : RelayManager) : RelayManager :=
  mkRelay (local_id r) (running r) l (pool r) (known_nodes r) (relay_table r) (log r).
Definition serve (bs : list byte) (r : RelayManager) : RelayManager :=
  if running r then set_received (received r ++ handle_connection bs) r else r.
Definition take_received (r : RelayManager) : list (NodeID * Message) * RelayManager :=
  (received r, set_received [] r).

Definition register_node (id : NodeID) (addr : string) (r : RelayManager) : RelayManager :=
  mkRelay (local_id r) (running r) (received r) (pool r) (<[id := addr]> (known_nodes r))
    (relay_table r) (log r).
Definition get_node_addr (id : NodeID) (r : RelayManager) : option string := known_nodes r !! id.
Definition set_relay (id : NodeID) (next_hop : string) (r : RelayManager) : RelayManager :=
  mkRelay (local_id r) (running r) (received r) (pool r) (known_nodes r)
    (<[id := next_hop]> (relay_table r)) (log r).

(** [TcpClient::send_message] on the manager's client. *)
Definition send_message (now : Instant) (io : Io) (addr : string) (m : Message)
    (r : RelayManager) : result unit RelayError * RelayManager :=
  match ConnectionPool.get_connection now io addr (pool r) with
  | (Err e, p) =>
      (Err e, mkRelay (local_id r) (running r) (received r) p (known_nodes r) (relay_table r) (log r))
  | (Ok s, p) =>
      (if write_ok io then Ok tt else Err (IoError "write"),
       mkRelay (local_id r) (running r) (received r)
         (ConnectionPool.return_connection now io addr s p) (known_nodes r) (relay_table r)
         (if write_ok io then log r ++ [(s, Message.to_bytes m)] else log r))
  end.

Definition send (now : Instant) (io : Io) (target : NodeID) (m : Message) (r : RelayManager)
    : result unit RelayError * RelayManager :=
  match get_node_addr target r with
  | Some addr => send_message now io addr m r
  | None =>
      match relay_table r !! target with
      | Some next_hop => send_message now io next_hop (mkMessage Relay (arr_bytes target)) r
      | None => (Err (Unreachable (NodeID.to_hex target)), r)
      end
  end.

Definition relay (now : Instant) (io : Io) (target : NodeID) (data : list byte)
    (r : RelayManager) : result unit RelayError * RelayManager :=
  match get_node_addr target r with
  | Some addr => send_message now io addr (mkMessage Data data) r
  | None => (Err (Unreachable (NodeID.to_hex target)), r)
  end.
End RelayManager.
End RelayManager.

(** ** Properties of the codec *)

Lemma to_bytes_parts m :
  fits 32 (len (payload m)) →
  Message.to_bytes m =
    be_bytes 4 (len (payload m)) ++ byte_of_Z (MessageType.to_u8 (msg_type m)) :: payload m.
Proof. intros Hl. unfold Message.to_bytes. by rewrite wrap_id. Qed.

Lemma type_byte t : Z_of_byte (byte_of_Z (MessageType.to_u8 t)) = MessageType.to_u8 t.
Proof. rewrite Z_of_byte_of_Z. apply Z.mod_small, MessageType.to_u8_range. Qed.

(** The message codec is exact: [from_bytes] returns a message exactly for
    the inputs that start with its encoding (what follows is ignored), and
    every other input, short, of an unknown type or truncated, is an error. *)
Theorem message_codec_exact data m :
  Message.from_bytes data = Ok m ↔
  fits 32 (len (payload m)) ∧ ∃ rest, data = Message.to_bytes m ++ rest.
Proof.
  split.
  - unfold Message.from_bytes. destruct (Nat.ltb_spec (length data) 5) as [|H5]; [done|].
    destruct data as [|a [|b [|c [|d [|t p]]]]]; try (simpl in H5; lia).
    change (slice 0 4 (a :: b :: c :: d :: t :: p)) with [a; b; c; d].
    change (nth 4 (a :: b :: c :: d :: t :: p) Byte.x00) with t.
    destruct (MessageType.from_u8 (Z_of_byte t)) as [ty|] eqn:Et; [|done]. cbn [ok_or result_bind].
    pose proof (of_be_range [a; b; c; d]) as Hr. cbn [length] in Hr.
    set (n := of_be [a; b; c; d]) in *.
    destruct (Nat.ltb_spec (length (a :: b :: c :: d :: t :: p)) (5 + Z.to_nat n)) as [|Hl]; [done|].
    cbn [length] in Hl.
    assert (Hs : slice 5 (5 + Z.to_nat n) (a :: b :: c :: d :: t :: p) = take (Z.to_nat n) p).
    { unfold slice. f_equal. lia. }
    rewrite Hs. intros [= <-]. cbn [payload].
    assert (Hlen : len (take (Z.to_nat n) p) = n) by (rewrite length_take; lia).
    split; [rewrite Hlen; unfold fits; lia|]. exists (drop (Z.to_nat n) p).
    rewrite to_bytes_parts by (cbn [payload]; rewrite Hlen; unfold fits; lia). cbn [payload msg_type].
    rewrite Hlen. unfold n. rewrite be_bytes_of_be' by done.
    rewrite (MessageType.type_of_u8_Some _ _ Et), byte_of_Z_of_byte. cbn [app].
    do 5 f_equal. symmetry. apply take_drop.
  - intros [Hl [rest ->]]. rewrite to_bytes_parts by done. unfold Message.from_bytes.
    pose proof (length_be_bytes 4 (len (payload m))) as H4.
    rewrite (proj2 (Nat.ltb_ge _ _)) by (rewrite !length_app, H4; simpl; lia).
    rewrite <-app_assoc. rewrite slice_head by done.
    rewrite app_nth2 by lia. rewrite H4. cbn [Nat.sub nth app].
    rewrite type_byte, MessageType.type_of_to_u8. cbn [ok_or result_bind].
    rewrite of_be_be_bytes_id by done. rewrite Nat2Z.id.
    rewrite (proj2 (Nat.ltb_ge _ _)) by (rewrite length_app, H4; cbn [length]; rewrite ?length_app; lia).
    f_equal. destruct m as [ty p]. cbn [msg_type payload] in *. f_equal.
    change (be_bytes 4 (len p) ++ ?x :: p ++ rest) with (be_bytes 4 (len p) ++ [x] ++ p ++ rest).
    rewrite (app_assoc (be_bytes 4 (len p))). apply slice_mid; [by rewrite length_app, H4|done].
Qed.

Lemma read_message_to_bytes m rest :
  len (payload m) <= MAX_MESSAGE →
  read_message (Message.to_bytes m ++ rest) = (Ok (Some (zero32, m)), rest).
Proof.
  unfold MAX_MESSAGE. intros Hl.
  assert (Hf : fits 32 (len (payload m))) by (unfold fits; lia).
  rewrite to_bytes_parts by done. unfold read_message.
  pose proof (length_be_bytes 4 (len (payload m))) as H4.
  rewrite <-app_assoc. cbn [app].
  rewrite (proj2 (Nat.ltb_ge _ _)) by (rewrite length_app, H4; lia).
  rewrite take_app_length', drop_app_length' by done.
  rewrite of_be_be_bytes_id by done. unfold MAX_MESSAGE. rewrite (proj2 (Z.ltb_ge _ _)) by lia.
  rewrite Nat2Z.id, (proj2 (Nat.ltb_ge _ _)) by (rewrite length_app; lia).
  rewrite type_byte, MessageType.type_of_to_u8, take_app_length, drop_app_length.
  by destruct m.
Qed.

Lemma handle_connection_messages ms : ∀ fuel,
  Forall (λ m, len (payload m) <= MAX_MESSAGE) ms → (length ms ≤ fuel)%nat →
  handle_connection_loop fuel (mjoin (Message.to_bytes <$> ms)) = (λ m, (zero32, m)) <$> ms.
Proof.
  induction ms as [|m ms IH]; intros fuel Hall Hfuel.
  { by destruct fuel. }
  apply Forall_cons in Hall as [Hm Hall]. cbn [length] in Hfuel.
  destruct fuel as [|fuel]; [lia|]. cbn [handle_connection_loop].
  change (mjoin (Message.to_bytes <$> m :: ms))
    with (Message.to_bytes m ++ mjoin (Message.to_bytes <$> ms)).
  rewrite read_message_to_bytes by done. csimpl. f_equal. apply IH; [done|lia].
Qed.

(** A relay connection delivers what was written on it: messages of at
    most one mebibyte, sent one after the other, are received in order and
    unchanged, whatever their number; but all of them under the all-zero node
    identifier, the sender is not known. *)
Theorem relay_stream_delivers ms r :
  Forall (λ m, len (payload m) <= MAX_MESSAGE) ms → running r = true →
  received (RelayManager.serve (mjoin (Message.to_bytes <$> ms)) r) =
    received r ++ ((λ m, (zero32, m)) <$> ms).
Proof.
  intros Hall Hr. unfold RelayManager.serve. rewrite Hr. simpl. f_equal.
  unfold handle_connection. apply handle_connection_messages; [done|].
  clear Hall. induction ms as [|m ms IH]; [simpl; lia|].
  change (mjoin (Message.to_bytes <$> m :: ms))
    with (Message.to_bytes m ++ mjoin (Message.to_bytes <$> ms)).
  rewrite length_app. cbn [length]. unfold Message.to_bytes at 1. rewrite !length_app. simpl. lia.
Qed.

(** ** Properties of the pool *)

(** How many connections are handed out, over all addresses. *)
Definition busy (l : list PooledConnection) : Z := len (List.filter in_use l).
Definition busy_total (m : gmap string (list PooledConnection)) : Z :=
  map_fold (λ _ l n, busy l + n) 0 m.

Lemma busy_app l1 l2 : busy (l1 ++ l2) = busy l1 + busy l2.
Proof. unfold busy. rewrite List.filter_app, length_app. lia. Qed.

Lemma busy_insert m a l :
  busy_total (<[a := l]> m) = busy_total m - busy (default [] (m !! a)) + busy l.
Proof.
  unfold busy_total. rewrite <-insert_delete_eq.
  rewrite map_fold_insert_L by (try apply lookup_delete_eq; intros; lia).
  destruct (m !! a) as [l0|] eqn:E; cbn [default from_option]; unfold id.
  - rewrite (map_fold_delete_L _ _ a l0 m) by (done || intros; lia). lia.
  - rewrite delete_id by done. change (busy []) with 0. lia.
Qed.

Lemma acquire_spec now io l s l' :
  ConnectionPool.acquire now io l = Some (s, l') →
  length l' = length l ∧ busy l' = busy l + 1.
Proof.
  revert l'. induction l as [|c l IH]; intros l'; simpl; [done|].
  destruct (in_use c) eqn:Eu; simpl.
  - destruct (ConnectionPool.acquire now io l) as [[s0 l0]|]; [|done]. simpl. intros [= -> <-].
    destruct (IH l0 eq_refl) as [Hl Hb]. unfold busy in *. simpl. rewrite Eu. simpl. lia.
  - destruct (peer_alive io (stream c)); simpl.
    + intros [= <- <-]. unfold busy. simpl. rewrite Eu. simpl. lia.
    + destruct (ConnectionPool.acquire now io l) as [[s0 l0]|]; [|done]. simpl. intros [= -> <-].
      destruct (IH l0 eq_refl) as [Hl Hb]. unfold busy in *. simpl. rewrite Eu. simpl. lia.
Qed.

Lemma release_spec now io l l' :
  ConnectionPool.release now io l = Some l' → length l' = length l ∧ busy l' = busy l - 1.
Proof.
  revert l'. induction l as [|c l IH]; intros l'; simpl; [done|].
  destruct (in_use c) eqn:Eu; simpl; [destruct (peer_alive io (stream c)); simpl|].
  - intros [= <-]. unfold busy. simpl. rewrite Eu. simpl. lia.
  - destruct (ConnectionPool.release now io l) as [l0|]; [|done]. simpl. intros [= <-].
    destruct (IH l0 eq_refl) as [Hl Hb]. unfold busy in *. simpl. rewrite Eu. simpl. lia.
  - destruct (ConnectionPool.release now io l) as [l0|]; [|done]. simpl. intros [= <-].
    destruct (IH l0 eq_refl) as [Hl Hb]. unfold busy in *. simpl. rewrite Eu. simpl. lia.
Qed.

(** The operations of the pool. *)
Inductive pstep : ConnectionPool → ConnectionPool → Prop :=
| pstep_get now io addr p : pstep p (ConnectionPool.get_connection now io addr p).2
| pstep_return now io addr s p : pstep p (ConnectionPool.return_connection now io addr s p)
| pstep_cleanup now p : pstep p (ConnectionPool.cleanup_idle now p)
| pstep_clear p : pstep p (ConnectionPool.clear p).

Definition bounded (p : ConnectionPool) : Prop :=
  map_Forall (λ _ l, (length l ≤ max_size p)%nat) (connections p).

Lemma bounded_insert p a l n :
  bounded p → (length l ≤ max_size p)%nat →
  bounded (mkPool (<[a := l]> (connections p)) (max_size p) (max_idle p) n).
Proof. intros Hp Hl. unfold bounded. simpl. by apply map_Forall_insert_2. Qed.
Lemma bounded_default p a : bounded p → (length (default [] (connections p !! a)) ≤ max_size p)%nat.
Proof.
  intros Hp. destruct (connections p !! a) as [l|] eqn:E; simpl; [by apply (Hp a l)|lia].
Qed.

Lemma get_bounded now io a p :
  bounded p → bounded (ConnectionPool.get_connection now io a p).2.
Proof.
  intros Hp. pose proof (bounded_default p a Hp) as Hd. unfold ConnectionPool.get_connection.
  destruct (ConnectionPool.acquire _ _ _) as [[s l]|] eqn:E; simpl.
  - apply bounded_insert; [done|]. apply acquire_spec in E. lia.
  - destruct (Nat.ltb_spec (length (default [] (connections p !! a))) (max_size p)) as [Hl|Hl].
    + destruct (connect io); simpl; apply bounded_insert; try done. rewrite length_app. simpl. lia.
    + by apply bounded_insert.
Qed.

Lemma pstep_bounded p p' : pstep p p' → bounded p → bounded p' ∧ max_size p' = max_size p.
Proof.
  intros Hs Hp. destruct Hs as [now io a p|now io a s p|now p|p].
  - split; [by apply get_bounded|]. unfold ConnectionPool.get_connection.
    repeat case_match; done.
  - unfold ConnectionPool.return_connection.
    destruct (connections p !! a) as [l|] eqn:El; simpl; [|done].
    destruct (ConnectionPool.release now io l) as [l'|] eqn:E; [|done]. split; [|done].
    apply bounded_insert; [done|]. apply release_spec in E as [-> _]. by apply (Hp a l).
  - split; [|done]. unfold bounded. simpl. intros i l. rewrite lookup_fmap.
    intros (l0 & Hl & ->)%fmap_Some_1. etransitivity; [|by apply (Hp i l0)].
    apply List.filter_length_le.
  - split; [|done]. apply map_Forall_empty.
Qed.

(** The counter compared with the connections marked in use. *)
Definition drift (p : ConnectionPool) : Z :=
  wrap 64 (active_count p - busy_total (connections p)).
Definition releasable (now : Instant) (io : Io) (a : string) (p : ConnectionPool) : bool :=
  match pool ← connections p !! a; ConnectionPool.release now io pool with
  | Some _ => true
  | None => false
  end.

Lemma wrap_drift n b k : wrap 64 (wrap 64 (n + k) - (b + k)) = wrap 64 (n - b).
Proof. rewrite wrap_sub_l. f_equal. lia. Qed.

Lemma get_drift now io a p : drift (ConnectionPool.get_connection now io a p).2 = drift p.
Proof.
  unfold ConnectionPool.get_connection, drift.
  destruct (ConnectionPool.acquire _ _ _) as [[s l]|] eqn:E; simpl.
  - apply acquire_spec in E as [_ Hb]. rewrite busy_insert, Hb.
    rewrite <-(wrap_drift (active_count p) (busy_total (connections p)) 1). f_equal. lia.
  - destruct (_ <? _)%nat; [destruct (connect io)|]; cbn [snd active_count connections];
      rewrite busy_insert.
    + rewrite <-(wrap_drift (active_count p) (busy_total (connections p)) 1). rewrite busy_app. change (busy [mkPooled n None now true]) with 1.
      f_equal. lia.
    + f_equal. lia.
    + f_equal. lia.
Qed.

Lemma cleanup_busy now p :
  busy_total (connections (ConnectionPool.cleanup_idle now p)) = busy_total (connections p).
Proof.
  assert (Hb : ∀ l, busy (List.filter (λ c, negb (ConnectionPool.is_idle now (max_idle p) c)) l)
    = busy l).
  { unfold busy. induction l as [|c l IH]; [done|]. simpl. unfold ConnectionPool.is_idle at 1.
    destruct (in_use c) eqn:Eu; simpl; [rewrite Eu; simpl; lia|].
    case_match; simpl; [rewrite Eu|]; done. }
  simpl. unfold busy_total. rewrite map_fold_fmap.
  induction (connections p) as [|a l m Hm IH] using map_ind; [done|].
  rewrite !map_fold_insert_L by (done || intros; simpl; lia). simpl. by rewrite Hb, IH.
Qed.

(** The pool keeps its bound and its books as far as its own operations
    go: an address never has more than [max_size] connections; the active
    counter differs from the number of connections in use by an amount that
    handing out, cleaning up and returning do not change, whatever the sockets
    do; a return that finds no live connection in use at the address still
    counts one down, below zero if need be (to 2^64-1 when the books were at
    zero). *)
Theorem pool_bound_and_accounting n p :
  rtc pstep (ConnectionPool.new n) p →
  (∀ a l, connections p !! a = Some l → (length l ≤ n)%nat) ∧
  (∀ now io a, drift (ConnectionPool.get_connection now io a p).2 = drift p) ∧
  (∀ now, drift (ConnectionPool.cleanup_idle now p) = drift p) ∧
  drift (ConnectionPool.clear p) = 0 ∧
  (∀ now io a s, drift (ConnectionPool.return_connection now io a s p) =
     if releasable now io a p then drift p else wrap 64 (drift p - 1)).
Proof.
  intros Hr. assert (Hb : bounded p ∧ max_size p = n).
  { remember (ConnectionPool.new n) as p0.
    assert (bounded p0 ∧ max_size p0 = n) as [H0 Hn] by (subst; split; [apply map_Forall_empty|done]).
    clear Heqp0. induction Hr as [p|p1 p2 p3 Hs Hr IH]; [done|].
    apply pstep_bounded in Hs as [Hb2 Hm2]; [|done]. apply IH; [done|congruence]. }
  destruct Hb as [Hb <-]. split_and!.
  - intros a l Hl. by apply (Hb a l).
  - intros. apply get_drift.
  - intros now. unfold drift. by rewrite cleanup_busy.
  - done.
  - intros now io a s. unfold ConnectionPool.return_connection, releasable, drift.
    destruct (connections p !! a) as [l|] eqn:El; simpl.
    + destruct (ConnectionPool.release now io l) as [l'|] eqn:E; simpl.
      * apply release_spec in E as [_ Hb']. rewrite busy_insert, El. simpl. rewrite Hb'.
        rewrite !wrap_sub_l. f_equal. lia.
      * rewrite !wrap_sub_l. f_equal. lia.
    + rewrite !wrap_sub_l. f_equal. lia.
Qed.

(** Returning a connection frees the first one in use at its address,
    not the one returned: with two handed out, after the second is returned
    the next caller is given the first, which its holder still uses. *)
Theorem return_frees_first_in_use now io a s1 s2 c1 c2 rest p :
  connections p !! a = Some (c1 :: c2 :: rest) →
  stream c1 = s1 → in_use c1 = true → stream c2 = s2 → in_use c2 = true →
  peer_alive io s1 = true → clone_ok io = true →
  (ConnectionPool.get_connection now io a
     (ConnectionPool.return_connection now io a s2 p)).1 = Ok s1.
Proof.
  intros Ha <- Hu1 <- Hu2 Hal Hcl. unfold ConnectionPool.return_connection. rewrite Ha. simpl.
  rewrite Hu1, Hal. simpl. unfold ConnectionPool.get_connection. simpl.
  rewrite lookup_insert_eq. simpl. by rewrite Hal, Hcl.
Qed.

(** A message sent through a relay loses its content: what is written to
    the next hop is the target's identifier, and two sends that differ in the
    message only leave the same state and put the same bytes on the wire. *)
Theorem relay_send_drops_payload `{HexCrate} now io target next_hop m1 m2 r :
  known_nodes r !! target = None → relay_table r !! target = Some next_hop →
  RelayManager.send now io target m1 r = RelayManager.send now io target m2 r ∧
  (∀ s p, ConnectionPool.get_connection now io next_hop (pool r) = (Ok s, p) → write_ok io = true →
     RelayManager.send now io target m1 r = (Ok tt,
       mkRelay (local_id r) (running r) (received r)
         (ConnectionPool.return_connection now io next_hop s p) (known_nodes r) (relay_table r)
         (log r ++ [(s, Message.to_bytes (mkMessage Relay (arr_bytes target)))]))).
Proof.
  intros Hk Ht. unfold RelayManager.send, RelayManager.get_node_addr. rewrite Hk, Ht.
  split; [done|]. intros s p Hg Hw. unfold RelayManager.send_message. by rewrite Hg, Hw.
Qed.

(** ** Witnesses *)

Definition hello_msg : Message := mkMessage Data [Byte.x68; Byte.x69].
Definition io_ok : Io := mkIo (λ _, true) true (Some 7%nat) true.

Lemma message_codec_exact_witness :
  Message.from_bytes (Message.to_bytes hello_msg ++ [Byte.xff]) = Ok hello_msg ↔
  fits 32 (len (payload hello_msg)) ∧
  ∃ rest, Message.to_bytes hello_msg ++ [Byte.xff] = Message.to_bytes hello_msg ++ rest.
Proof. apply message_codec_exact. Defined.

Lemma relay_stream_delivers_witness :
  received (RelayManager.serve (mjoin (Message.to_bytes <$> [hello_msg; hello_msg]))
    (RelayManager.set_running true (RelayManager.new zero32))) =
  [] ++ ((λ m, (zero32, m)) <$> [hello_msg; hello_msg]).
Proof.
  apply (relay_stream_delivers [hello_msg; hello_msg]
           (RelayManager.set_running true (RelayManager.new zero32))); [|done].
  repeat constructor; vm_compute; discriminate.
Defined.

Definition pool_one : ConnectionPool :=
  (ConnectionPool.get_connection 0 io_ok "a:1" (ConnectionPool.new 2)).2.

Lemma pool_bound_and_accounting_witness :
  rtc pstep (ConnectionPool.new 2) pool_one ∧
  drift (ConnectionPool.clear pool_one) = 0 ∧
  (∀ now io a s, drift (ConnectionPool.return_connection now io a s pool_one) =
     if releasable now io a pool_one then drift pool_one else wrap 64 (drift pool_one - 1)).
Proof.
  assert (Hr : rtc pstep (ConnectionPool.new 2) pool_one).
  { eapply rtc_l; [apply (pstep_get 0 io_ok "a:1")|apply rtc_refl]. }
  split; [exact Hr|].
  destruct (pool_bound_and_accounting 2 pool_one Hr) as (_ & _ & _ & Hc & Hret). by split.
Defined.

Definition busy_at (s : nat) : PooledConnection := mkPooled s None 0 true.
Definition pool_two : ConnectionPool :=
  mkPool {[ "a:1"%string := [busy_at 1; busy_at 2] ]} 2 (from_secs 60) 2.

Lemma return_frees_first_in_use_witness :
  (ConnectionPool.get_connection 5 io_ok "a:1"
     (ConnectionPool.return_connection 5 io_ok "a:1" 2 pool_two)).1 = Ok 1%nat.
Proof.
  apply (return_frees_first_in_use 5 io_ok "a:1" 1 2 (busy_at 1) (busy_at 2) []); reflexivity.
Defined.

Definition relayed : RelayManager := RelayManager.set_relay zero32 "b:1" (RelayManager.new zero32).

Lemma relay_send_drops_payload_witness :
  RelayManager.send 0 io_ok zero32 hello_msg relayed =
    RelayManager.send 0 io_ok zero32 (mkMessage Data []) relayed.
Proof.
  apply (relay_send_drops_payload 0 io_ok zero32 "b:1" hello_msg (mkMessage Data []) relayed);
    reflexivity.
Defined.
