(* ===== verification/RelayServer.v ===== *)
(** * RelayServer: the threads of the relay's TCP server

    Models [TcpServer] of crates/vpn/src/vpn/relay.rs: the thread of [start], which
    accepts, and a thread of [handle_connection] for each client, which reads with
    [read_message] byte by byte as they arrive and appends to the shared list.  A
    step is what a thread does between two points where another can come in: the test
    of the flag, one [read] of a stream, the push under the mutex.  [Relay.serve] is
    the same work as one step; here is what is lost and what is kept by that.  The
    callback field [handler] is never set and never read. *)
From S2P Require Import Prelude Identity Relay.

(** [set_read_timeout(30 s)]; at its end a [read] fails with [WouldBlock] on Unix. *)
Definition READ_TIMEOUT : Duration := from_secs 30.

(** Where a thread of [handle_connection] is: at the test of [running]; in one of the three
    [read_exact] of [read_message], with what it has read so far (the length as its four
    bytes, the type); with a message to push; at its end, with the error it logs. *)
Inductive Pc :=
| AtTest
| ReadLen (got : list byte)
| ReadType (l : list byte)
| ReadPayload (l : list byte) (t : byte) (got : list byte)
| AtPush (m : Message)
| Ended (why : option RelayError).

(** A connection: its thread, every byte that arrived, how many of them were read, whether the
    peer closed its side, and when the current [read] began. *)
Record Conn := mkConn {
  pc : Pc; arrived : list byte; taken : nat; peer_closed : bool; since : Instant
}.
Definition unread (c : Conn) : list byte := drop (taken c) (arrived c).

(** One [read] of at most [n] bytes. *)
Inductive ReadOutcome := Bytes (bs : list byte) | AtEof | WouldBlock | Waits.
Definition read (now : Instant) (n : nat) (c : Conn) : ReadOutcome :=
  match take n (unread c) with
  | [] =>
      if peer_closed c then AtEof
      else if READ_TIMEOUT <=? duration_since now (since c) then WouldBlock else Waits
  | bs => Bytes bs
  end.

Definition eof_error : RelayError := IoError "failed to fill whole buffer".
Definition timeout_error : RelayError := IoError "Resource temporarily unavailable (os error 11)".

Definition goto (now : Instant) (p : Pc) (c : Conn) : Conn :=
  mkConn p (arrived c) (taken c) (peer_closed c) now.
Definition advance (now : Instant) (bs : list byte) (p : Pc) (c : Conn) : Conn :=
  mkConn p (arrived c) (taken c + length bs) (peer_closed c) now.

(** What follows a part of the length, and a part of the payload. *)
Definition after_len (got : list byte) : Pc :=
  if (length got <? 4)%nat then ReadLen got
  else if MAX_MESSAGE <? of_be got then Ended (Some (ParseError "message too large"))
  else ReadType got.
Definition after_payload (l : list byte) (t : byte) (got : list byte) : Pc :=
  if (length got <? Z.to_nat (of_be l))%nat then ReadPayload l t got
  else match MessageType.from_u8 (Z_of_byte t) with
       | Some ty => AtPush (mkMessage ty got)
       | None => Ended (Some (ParseError ("invalid type: " +:+ pretty (Z_of_byte t))))
       end.

(** [read_exact] after its first byte: what it does with one [read]. *)
Definition read_step (now : Instant) (n : nat) (next : list byte → Pc)
    (on_eof on_timeout : option RelayError) (c : Conn) : option Conn :=
  match read now n c with
  | Bytes bs => Some (advance now bs (next bs) c)
  | AtEof => Some (goto now (Ended on_eof) c)
  | WouldBlock => Some (goto now (Ended on_timeout) c)
  | Waits => None
  end.

(** A step of the thread, with what it pushes; [None]: it waits for its stream, or is over.  An end of
    the stream and a time-out are no error while the length is read. *)
Definition thread_step (now : Instant) (running : bool) (c : Conn) : option (Conn * option Message) :=
  match pc c with
  | AtTest => Some (goto now (if running then ReadLen [] else Ended None) c, None)
  | ReadLen got =>
      c ← read_step now (4 - length got) (λ bs, after_len (got ++ bs)) None None c;
      Some (c, None)
  | ReadType l =>
      c ← read_step now 1 (λ bs, after_payload l (nth 0 bs Byte.x00) [])
            (Some eof_error) (Some timeout_error) c;
      Some (c, None)
  | ReadPayload l t got =>
      c ← read_step now (Z.to_nat (of_be l) - length got) (λ bs, after_payload l t (got ++ bs))
            (Some eof_error) (Some timeout_error) c;
      Some (c, None)
  | AtPush m => Some (goto now AtTest c, Some m)
  | Ended _ => None
  end.

(** The thread of [start]: at the test of [running], at [accept], over (the listener is closed). *)
Inductive Acceptor := Testing | Accepting | Stopped.
Inductive AcceptOutcome := Accepted | NoClient | AcceptFailed.

(** The server; [handed]: what [take_received] gave out, [log]: every push, with its connection. *)
Record TcpServer := mkServer {
  listen_addr : string;
  local_id : NodeID;
  running : bool;
  received : list (NodeID * Message);
  acceptors : list Acceptor;
  conns : gmap nat Conn;
  handed : list (NodeID * Message);
  log : list (nat * Message)
}.

Module TcpServer.
Definition new (id : NodeID) (port : Z) : TcpServer :=
  mkServer ("0.0.0.0:" +:+ pretty port) id false [] [] ∅ [] [].
Definition set_running (b : bool) (s : TcpServer) : TcpServer :=
  mkServer (listen_addr s) (local_id s) b (received s) (acceptors s) (conns s) (handed s) (log s).
Definition set_acceptors (a : list Acceptor) (s : TcpServer) : TcpServer :=
  mkServer (listen_addr s) (local_id s) (running s) (received s) a (conns s) (handed s) (log s).
Definition set_conn (i : nat) (c : Conn) (s : TcpServer) : TcpServer :=
  mkServer (listen_addr s) (local_id s) (running s) (received s) (acceptors s)
    (<[i := c]> (conns s)) (handed s) (log s).

(** [start], with what binding the address gives. *)
Definition start (bound : result unit string) (s : TcpServer) : result unit RelayError * TcpServer :=
  match bound with
  | Err e => (Err (IoError e), s)
  | Ok _ => (Ok tt, set_acceptors (acceptors s ++ [Testing]) (set_running true s))
  end.
Definition stop (s : TcpServer) : TcpServer := set_running false s.
Definition take_received (s : TcpServer) : list (NodeID * Message) * TcpServer :=
  (received s,
   mkServer (listen_addr s) (local_id s) (running s) [] (acceptors s) (conns s)
     (handed s ++ received s) (log s)).

(** The sender of every message is the all-zero identifier. *)
Definition push (i : nat) (m : Message) (s : TcpServer) : TcpServer :=
  mkServer (listen_addr s) (local_id s) (running s) (received s ++ [(zero32, m)]) (acceptors s)
    (conns s) (handed s) (log s ++ [(i, m)]).

Definition accept (now : Instant) (s : TcpServer) : TcpServer :=
  set_conn (size (conns s)) (mkConn AtTest [] 0 false now) s.
Definition acceptor_step (now : Instant) (j : nat) (o : AcceptOutcome) (s : TcpServer)
    : option TcpServer :=
  match acceptors s !! j with
  | Some Testing =>
      Some (set_acceptors (<[j := if running s then Accepting else Stopped]> (acceptors s)) s)
  | Some Accepting =>
      let s := set_acceptors (<[j := Testing]> (acceptors s)) s in
      Some (match o with Accepted => accept now s | NoClient | AcceptFailed => s end)
  | _ => None
  end.

Definition conn_step (now : Instant) (i : nat) (s : TcpServer) : option TcpServer :=
  c ← conns s !! i;
  '(c, m) ← thread_step now (running s) c;
  let s := set_conn i c s in
  Some (match m with Some m => push i m s | None => s end).

(** What happens: calls of the methods, steps of the threads, and on a connection bytes that arrive and
    a peer that closes. *)
Inductive Action :=
| Start (bound : result unit string) | Stop | Take
| AcceptorStep (now : Instant) (j : nat) (o : AcceptOutcome)
| ConnStep (now : Instant) (i : nat)
| Arrives (i : nat) (bs : list byte) | Closes (i : nat).

Definition arrives (bs : list byte) (c : Conn) : Conn :=
  mkConn (pc c) (arrived c ++ bs) (taken c) (peer_closed c) (since c).
Definition closes (c : Conn) : Conn := mkConn (pc c) (arrived c) (taken c) true (since c).

Definition act (a : Action) (s : TcpServer) : option TcpServer :=
  match a with
  | Start b => Some (start b s).2
  | Stop => Some (stop s)
  | Take => Some (take_received s).2
  | AcceptorStep now j o => acceptor_step now j o s
  | ConnStep now i => conn_step now i s
  | Arrives i bs =>
      c ← conns s !! i; if peer_closed c then None else Some (set_conn i (arrives bs c) s)
  | Closes i => c ← conns s !! i; Some (set_conn i (closes c) s)
  end.
Fixpoint run (acts : list Action) (s : TcpServer) : option TcpServer :=
  match acts with [] => Some s | a :: acts => s ← act a s; run acts s end.
End TcpServer.
Import TcpServer.

(** ** What a stream of messages holds *)

Definition small (m : Message) : Prop := len (payload m) <= MAX_MESSAGE.
Definition stream_of (ms : list Message) : list byte := mjoin (Message.to_bytes <$> ms).
Definition messages (bs : list byte) : list Message := snd <$> handle_connection bs.
Definition log_of (i : nat) (s : TcpServer) : list Message :=
  snd <$> filter (λ e, e.1 = i) (log s).
(** No whole message of an admitted length stands at the front. *)
Definition incomplete (bs : list byte) : Prop := ∀ m rest, small m → bs ≠ Message.to_bytes m ++ rest.

Lemma stream_of_cons m ms : stream_of (m :: ms) = Message.to_bytes m ++ stream_of ms.
Proof. done. Qed.
Lemma stream_of_snoc ms m : stream_of (ms ++ [m]) = stream_of ms ++ Message.to_bytes m.
Proof. unfold stream_of. rewrite fmap_app, join_app. simpl. by rewrite app_nil_r. Qed.

Lemma read_message_some bs i m rest :
  read_message bs = (Ok (Some (i, m)), rest) →
  i = zero32 ∧ small m ∧ bs = Message.to_bytes m ++ rest.
Proof.
  unfold read_message, small. destruct (Nat.ltb_spec (length bs) 4) as [|H4]; [done|].
  destruct (Z.ltb_spec MAX_MESSAGE (of_be (take 4 bs))) as [|Hm]; [done|].
  rewrite <-(take_drop 4 bs) at 2. destruct (drop 4 bs) as [|t p]; [done|].
  pose proof (of_be_range (take 4 bs)) as Hr.
  assert (Ht : length (take 4 bs) = 4%nat) by (rewrite length_take; lia). rewrite Ht in Hr.
  destruct (Nat.ltb_spec (length p) (Z.to_nat (of_be (take 4 bs)))) as [|Hp]; [done|].
  destruct (MessageType.from_u8 (Z_of_byte t)) as [ty|] eqn:Et; [|done].
  intros [= <- <- <-]. split; [done|]. cbn [payload].
  assert (Hl : len (take (Z.to_nat (of_be (take 4 bs))) p) = of_be (take 4 bs)) by (rewrite length_take; lia).
  rewrite Hl. split; [done|]. rewrite to_bytes_parts by (cbn [payload]; rewrite Hl; unfold fits; lia).
  cbn [payload msg_type]. rewrite Hl, be_bytes_of_be' by done.
  rewrite (MessageType.type_of_u8_Some _ _ Et), byte_of_Z_of_byte, <-app_assoc. f_equal. cbn [app]. f_equal.
  symmetry. apply take_drop.
Qed.

Lemma length_to_bytes m : length (Message.to_bytes m) = (5 + length (payload m))%nat.
Proof. unfold Message.to_bytes. rewrite !length_app, length_be_bytes. simpl. lia. Qed.

Lemma handle_connection_fuel fuel : ∀ bs, (length bs ≤ fuel)%nat →
  handle_connection_loop fuel bs = handle_connection bs.
Proof.
  unfold handle_connection. induction fuel as [fuel IH] using lt_wf_ind. intros bs Hf.
  destruct fuel as [|fuel]; [by destruct bs; [|simpl in Hf; lia]|].
  destruct (length bs) as [|n] eqn:En.
  { destruct bs; [|done]. done. }
  cbn [handle_connection_loop].
  destruct (read_message bs) as [[[[i m]|]|] rest] eqn:E; try done.
  apply read_message_some in E as (_ & _ & ->). rewrite length_app, length_to_bytes in En.
  f_equal. rewrite (IH fuel), (IH n); (done || lia).
Qed.

Lemma messages_cons m rest : small m → messages (Message.to_bytes m ++ rest) = m :: messages rest.
Proof.
  intros Hm. unfold messages, handle_connection. rewrite length_app, length_to_bytes.
  change (5 + ?a + ?b)%nat with (S (4 + a + b)).
  remember (4 + length (payload m) + length rest)%nat as fuel eqn:Ef.
  cbn [handle_connection_loop]. rewrite read_message_to_bytes by done. csimpl.
  f_equal. f_equal. apply handle_connection_fuel. lia.
Qed.
Lemma messages_stream ms rest :
  Forall small ms → messages (stream_of ms ++ rest) = ms ++ messages rest.
Proof.
  induction 1 as [|m ms Hm _ IH]; [done|].
  rewrite stream_of_cons, <-app_assoc, messages_cons by done. cbn [app]. by f_equal.
Qed.
Lemma messages_incomplete bs : incomplete bs → messages bs = [].
Proof.
  intros Hi. unfold messages, handle_connection. destruct (length bs); [done|].
  cbn [handle_connection_loop].
  destruct (read_message bs) as [[[[i m]|]|] rest] eqn:E; try done.
  apply read_message_some in E as (_ & Hm & E). by destruct (Hi m rest Hm).
Qed.

Lemma message_ends_at (l : list byte) t p m rest :
  length l = 4%nat → small m → l ++ t :: p = Message.to_bytes m ++ rest →
  of_be l = len (payload m) ∧ MessageType.from_u8 (Z_of_byte t) = Some (msg_type m)
  ∧ p = payload m ++ rest.
Proof.
  unfold small, MAX_MESSAGE. intros Hl Hm.
  rewrite to_bytes_parts, <-app_assoc by (unfold fits; lia). cbn [app].
  intros [-> E]%app_inj_1; [|by rewrite length_be_bytes].
  injection E as -> ->. rewrite of_be_be_bytes_id by (unfold fits; lia).
  by rewrite type_byte, MessageType.type_of_to_u8.
Qed.
Lemma incomplete_short bs : (length bs < 5)%nat → incomplete bs.
Proof. intros Hl m rest _ ->. rewrite length_app, length_to_bytes in Hl. lia. Qed.
Lemma incomplete_payload (l : list byte) t p :
  length l = 4%nat → len p < of_be l → incomplete (l ++ t :: p).
Proof.
  intros Hl Hp m rest Hm E. destruct (message_ends_at _ _ _ _ _ Hl Hm E) as (El & _ & ->).
  rewrite length_app in Hp. lia.
Qed.
Lemma incomplete_type (l : list byte) t p :
  length l = 4%nat → MessageType.from_u8 (Z_of_byte t) = None → incomplete (l ++ t :: p).
Proof.
  intros Hl Ht m rest Hm E. destruct (message_ends_at _ _ _ _ _ Hl Hm E) as (_ & Et & _). congruence.
Qed.
Lemma incomplete_large (l : list byte) rest :
  length l = 4%nat → MAX_MESSAGE < of_be l → incomplete (l ++ rest).
Proof.
  unfold incomplete, small, MAX_MESSAGE. intros Hl Hn m r Hm.
  rewrite to_bytes_parts, <-app_assoc by (unfold fits; lia).
  intros [-> _]%app_inj_1; [|by rewrite length_be_bytes].
  rewrite of_be_be_bytes_id in Hn by (unfold fits; lia). lia.
Qed.

(** ** The invariant of a connection *)

(** What a thread at [p] has read since its last push. *)
Definition partial (p : Pc) (part : list byte) : Prop :=
  match p with
  | AtTest => part = []
  | ReadLen got => part = got ∧ (length got < 4)%nat
  | ReadType l => part = l ∧ length l = 4%nat ∧ of_be l <= MAX_MESSAGE
  | ReadPayload l t got =>
      part = l ++ t :: got ∧ length l = 4%nat ∧ of_be l <= MAX_MESSAGE ∧ len got < of_be l
  | AtPush m => part = Message.to_bytes m ∧ small m
  | Ended (Some (ParseError _)) => ∀ rest, incomplete (part ++ rest)
  | Ended _ => incomplete part
  end.
Definition conn_ok (ms : list Message) (c : Conn) : Prop :=
  (taken c ≤ length (arrived c))%nat ∧ Forall small ms
  ∧ ∃ part, take (taken c) (arrived c) = stream_of ms ++ part ∧ partial (pc c) part.
Definition pushing (p : Pc) : bool := match p with AtPush _ => true | _ => false end.

Lemma partial_incomplete p part : partial p part → pushing p = false → incomplete part.
Proof.
  destruct p as [|got|l|l t got|m|[[]|]]; simpl; try done.
  - intros -> _. apply incomplete_short. simpl. lia.
  - intros [-> H] _. apply incomplete_short. lia.
  - intros (-> & H & _) _. apply incomplete_short. lia.
  - intros (-> & H & _ & Hn) _. by apply incomplete_payload.
  - intros H _. by specialize (H []); rewrite app_nil_r in H.
Qed.

Lemma take_min {A} n (l : list A) : take (n `min` length l) l = take n l.
Proof.
  destruct (decide (n ≤ length l)%nat); [by rewrite Nat.min_l|].
  rewrite Nat.min_r, !take_ge by lia. done.
Qed.
Lemma read_bytes now n c bs :
  read now n c = Bytes bs → (taken c ≤ length (arrived c))%nat →
  (length bs ≤ n)%nat ∧ bs ≠ [] ∧ (taken c + length bs ≤ length (arrived c))%nat
  ∧ take (taken c + length bs) (arrived c) = take (taken c) (arrived c) ++ bs.
Proof.
  unfold read, unread. intros H Ht.
  assert (Hb : bs = take n (drop (taken c) (arrived c)) ∧ bs ≠ []).
  { destruct (take n (drop (taken c) (arrived c))) eqn:E; [by repeat case_match|by injection H as <-]. }
  destruct Hb as [-> Hne]. repeat split; rewrite ?length_take, ?length_drop; [lia|done|lia|].
  rewrite <-take_take_drop. f_equal. rewrite <-length_drop. apply take_min.
Qed.

Lemma after_len_ok got : (length got ≤ 4)%nat → partial (after_len got) got.
Proof.
  intros Hl. unfold after_len. destruct (Nat.ltb_spec (length got) 4); [done|].
  assert (length got = 4)%nat by lia.
  destruct (Z.ltb_spec MAX_MESSAGE (of_be got)); [|done].
  intros rest. by apply incomplete_large.
Qed.
Lemma after_payload_ok l t got :
  length l = 4%nat → of_be l <= MAX_MESSAGE → len got <= of_be l →
  partial (after_payload l t got) (l ++ t :: got).
Proof.
  unfold after_payload, small. intros Hl Hm Hg.
  destruct (Nat.ltb_spec (length got) (Z.to_nat (of_be l))) as [|Hn]; [by repeat split; [..|lia]|].
  assert (Hlen : len got = of_be l) by (pose proof (of_be_range l); lia).
  destruct (MessageType.from_u8 (Z_of_byte t)) as [ty|] eqn:Et.
  - assert (small (mkMessage ty got)) as Hs by (unfold small; simpl; lia). split; [|done].
    pose proof (of_be_range l) as Hr. rewrite Hl in Hr. unfold MAX_MESSAGE in *.
    rewrite to_bytes_parts by (cbn [payload]; rewrite Hlen; unfold fits; lia). cbn [payload msg_type].
    rewrite Hlen, be_bytes_of_be' by done. by rewrite (MessageType.type_of_u8_Some _ _ Et), byte_of_Z_of_byte.
  - intros rest. rewrite <-app_assoc. by apply incomplete_type.
Qed.

(** One [read]: the bytes of its [read_exact] grow by at most [n], or the thread ends. *)
Lemma read_step_ok now n next e1 e2 ms c c' part :
  (taken c ≤ length (arrived c))%nat → Forall small ms →
  take (taken c) (arrived c) = stream_of ms ++ part → incomplete part →
  (∀ bs, bs ≠ [] → (length bs ≤ n)%nat → partial (next bs) (part ++ bs)) →
  (∀ why, why = e1 ∨ why = e2 → partial (Ended why) part) →
  read_step now n next e1 e2 c = Some c' → conn_ok ms c'.
Proof.
  intros Ht Hs Htake Hi Hnext Hend. unfold read_step.
  destruct (read now n c) as [bs| | |] eqn:E; [|intros [= <-]..|done].
  - intros [= <-]. destruct (read_bytes _ _ _ _ E Ht) as (Hn & Hne & Hle & Htk).
    split; [done|]. split; [done|]. exists (part ++ bs). cbn [taken arrived advance pc].
    rewrite Htk, Htake, <-app_assoc. split; [done|by apply Hnext].
  - split; [done|]. split; [done|]. exists part. split; [done|]. apply Hend. by left.
  - split; [done|]. split; [done|]. exists part. split; [done|]. apply Hend. by right.
Qed.

Lemma thread_step_ok now b ms c c' m :
  conn_ok ms c → thread_step now b c = Some (c', m) → conn_ok (ms ++ option_list m) c'.
Proof.
  intros (Ht & Hs & part & Htake & Hp). unfold thread_step.
  destruct (pc c) as [|got|l|l t got|m0|why] eqn:Epc; simpl in Hp.
  - intros [= <- <-]. simpl. rewrite app_nil_r. repeat split; [done..|]. exists part. split; [done|].
    subst part. destruct b; simpl; [split; [done|lia]|apply incomplete_short; simpl; lia].
  - destruct Hp as [-> Hl]. intros (c1 & E & [= <- <-])%bind_Some. simpl. rewrite app_nil_r.
    assert (incomplete got) by (apply incomplete_short; lia).
    eapply read_step_ok; [..|exact E]; try done.
    + intros bs _ Hb. apply after_len_ok. rewrite length_app. lia.
    + by intros why [->| ->].
  - destruct Hp as (-> & Hl & Hm). intros (c1 & E & [= <- <-])%bind_Some. simpl. rewrite app_nil_r.
    assert (incomplete l) by (apply incomplete_short; lia).
    eapply read_step_ok; [..|exact E]; try done.
    + intros [|t [|]] Hne Hb; [done| |simpl in Hb; lia]. apply after_payload_ok; [done..|].
      pose proof (of_be_range l). simpl. lia.
    + by intros why [->| ->].
  - destruct Hp as (-> & Hl & Hm & Hg). intros (c1 & E & [= <- <-])%bind_Some. simpl. rewrite app_nil_r.
    assert (incomplete (l ++ t :: got)) by by apply incomplete_payload.
    eapply read_step_ok; [..|exact E]; try done.
    + intros bs _ Hb. rewrite <-app_assoc. apply after_payload_ok; [done..|]. rewrite length_app. lia.
    + by intros why [->| ->].
  - destruct Hp as [-> Hm]. intros [= <- <-]. simpl. split; [done|]. split.
    + apply Forall_app. by split; [|repeat constructor].
    + exists []. simpl. by rewrite stream_of_snoc, app_nil_r.
  - done.
Qed.

(** ** The invariant of the server *)

Record inv (s : TcpServer) : Prop := {
  inv_history : handed s ++ received s = (λ e, (zero32, e.2)) <$> log s;
  inv_conns i c : conns s !! i = Some c → conn_ok (log_of i s) c;
  inv_log e : e ∈ log s → is_Some (conns s !! e.1);
  inv_fresh i : (size (conns s) ≤ i)%nat → conns s !! i = None
}.

Lemma log_of_push i j m s :
  log_of i (push j m s) = log_of i s ++ (if decide (j = i) then [m] else []).
Proof.
  unfold log_of. simpl. rewrite filter_app, fmap_app, filter_cons. simpl. by case_decide.
Qed.
Lemma log_of_unknown i s : inv s → conns s !! i = None → log_of i s = [].
Proof.
  intros Hs Hi. unfold log_of. destruct (filter (λ e, e.1 = i) (log s)) as [|e l] eqn:E; [done|].
  assert (e ∈ filter (λ e, e.1 = i) (log s)) as [<- He]%list_elem_of_filter by (rewrite E; left).
  apply (inv_log _ Hs) in He as [c Hc]. congruence.
Qed.

Lemma new_inv id port : inv (new id port).
Proof. split; simpl; try done. set_solver. Qed.

(** A connection, old or new, in a state that fits its log. *)
Lemma set_conn_inv i c s :
  inv s → (i ≤ size (conns s))%nat → conn_ok (log_of i s) c → inv (set_conn i c s).
Proof.
  intros [Hh Hc Hl Hf] Hi Hok. split; simpl; [done|..].
  - intros j c'. destruct (decide (i = j)) as [<-|Hne].
    + rewrite lookup_insert_eq. by intros [= <-].
    + rewrite lookup_insert_ne by done. apply Hc.
  - intros e He. rewrite lookup_insert_is_Some. destruct (decide (i = e.1)); auto.
  - intros j. rewrite map_size_insert. destruct (conns s !! i) eqn:E; simpl; intros Hj.
    + rewrite lookup_insert_ne; [by apply Hf|]. intros ->. rewrite Hf in E by lia. done.
    + rewrite lookup_insert_ne by lia. apply Hf. lia.
Qed.
Lemma known_le s i c : inv s → conns s !! i = Some c → (i ≤ size (conns s))%nat.
Proof.
  intros Hs Hc. destruct (decide (size (conns s) ≤ i)%nat) as [H|]; [|lia].
  rewrite (inv_fresh _ Hs) in Hc by done. done.
Qed.

(** The thread of a connection and its push. *)
Lemma conn_step_inv now i s s' : inv s → conn_step now i s = Some s' → inv s'.
Proof.
  unfold conn_step. intros Hs. destruct (conns s !! i) as [c|] eqn:Ec; [|done].
  pose proof (inv_conns _ Hs _ _ Ec) as Hok. pose proof (known_le _ _ _ Hs Ec) as Hle. simpl.
  destruct (thread_step now (running s) c) as [[c' m]|] eqn:Et; [|done]. simpl.
  pose proof (thread_step_ok _ _ _ _ _ _ Hok Et) as Hok'. destruct m as [m|]; intros [= <-].
  - destruct Hs as [Hh Hc Hl Hf]. split; simpl.
    + by rewrite fmap_app, <-Hh, <-app_assoc.
    + intros j c1. change (log_of j _) with (log_of j (push i m s)). rewrite log_of_push.
      destruct (decide (i = j)) as [<-|Hne].
      * rewrite lookup_insert_eq. by intros [= <-].
      * rewrite lookup_insert_ne, app_nil_r by done. apply Hc.
    + intros e. rewrite lookup_insert_is_Some, elem_of_app, list_elem_of_singleton.
      intros [He| ->]; [|by left]. destruct (decide (i = e.1)); auto.
    + intros j. rewrite map_size_insert, Ec. intros Hj. rewrite lookup_insert_ne; [by apply Hf|].
      intros ->. by rewrite Hf in Ec.
  - apply set_conn_inv; [done..|]. by rewrite app_nil_r in Hok'.
Qed.

Lemma relay_act_inv a s s' : inv s → act a s = Some s' → inv s'.
Proof.
  intros Hs. destruct a as [b| | |now j o|now i|i bs|i]; simpl.
  - intros [= <-]. destruct b; [|done]. destruct Hs. by split.
  - intros [= <-]. destruct Hs. by split.
  - intros [= <-]. destruct Hs. split; [|done..]. by rewrite app_nil_r.
  - unfold acceptor_step. destruct (acceptors s !! j) as [[]|]; [|simpl|done..].
    { intros [= <-]. destruct Hs. by split. }
    intros [= <-]. set (s1 := set_acceptors _ s).
    assert (Hs1 : inv s1) by (destruct Hs; by split).
    destruct o; [|done..]. apply set_conn_inv; [done..|].
    rewrite log_of_unknown by (done || by apply (inv_fresh _ Hs1)).
    split; [done|]. split; [done|]. by exists [].
  - by apply conn_step_inv.
  - destruct (conns s !! i) as [c|] eqn:Ec; [|done]. simpl. destruct (peer_closed c); [done|].
    intros [= <-]. apply set_conn_inv; [done|by eapply known_le|].
    destruct (inv_conns _ Hs _ _ Ec) as (Ht & Hsm & part & Htk & Hp). split; [|split; [done|]].
    + simpl. rewrite length_app. lia.
    + exists part. simpl. by rewrite take_app_le.
  - destruct (conns s !! i) as [c|] eqn:Ec; [|done]. intros [= <-].
    apply set_conn_inv; [done|by eapply known_le|]. apply (inv_conns _ Hs _ _ Ec).
Qed.

Lemma run_inv acts : ∀ s s', inv s → run acts s = Some s' → inv s'.
Proof.
  induction acts as [|a acts IH]; intros s s' Hs; simpl; [by intros [= <-]|].
  intros (s1 & E & Hr)%bind_Some. eapply IH, Hr. by eapply relay_act_inv.
Qed.

(** What a step of the server does to one connection. *)
Lemma act_conn a s s' i c :
  inv s → act a s = Some s' → conns s !! i = Some c →
  ∃ c', conns s' !! i = Some c'
    ∧ (pc c' = pc c ∧ log_of i s' = log_of i s
       ∨ ∃ now m, thread_step now (running s) c = Some (c', m)
                  ∧ log_of i s' = log_of i s ++ option_list m).
Proof.
  intros Hs Ha Hc. assert (Hsame : ∀ s1, conns s1 = conns s → log s1 = log s → ∃ c', conns s1 !! i = Some c'
    ∧ (pc c' = pc c ∧ log_of i s1 = log_of i s
       ∨ ∃ now m, thread_step now (running s) c = Some (c', m) ∧ log_of i s1 = log_of i s ++ option_list m)).
  { intros s1 -> El. exists c. split; [done|]. left. unfold log_of. by rewrite El. }
  assert (Hset : ∀ j c1, (j = i → pc c1 = pc c) → ∃ c', conns (set_conn j c1 s) !! i = Some c'
    ∧ (pc c' = pc c ∧ log_of i (set_conn j c1 s) = log_of i s
       ∨ ∃ now m, thread_step now (running s) c = Some (c', m)
                  ∧ log_of i (set_conn j c1 s) = log_of i s ++ option_list m)).
  { intros j c1 Hj. simpl. destruct (decide (j = i)) as [->|Hne].
    - rewrite lookup_insert_eq. exists c1. split; [done|]. left. by split; [apply Hj|].
    - rewrite lookup_insert_ne by done. exists c. split; [done|]. by left. }
  destruct a as [b| | |now j o|now j|j bs|j]; simpl in Ha.
  - injection Ha as <-. destruct b; by apply Hsame.
  - injection Ha as <-. by apply Hsame.
  - injection Ha as <-. by apply Hsame.
  - unfold acceptor_step in Ha. destruct (acceptors s !! j) as [[]|]; [|simpl in Ha|done..].
    { injection Ha as <-. by apply Hsame. }
    injection Ha as <-. destruct o; [simpl|by apply Hsame|by apply Hsame].
    rewrite lookup_insert_ne; [exists c; split; [done|by left]|].
    intros Ei. rewrite (inv_fresh _ Hs) in Hc by lia. done.
  - unfold conn_step in Ha. destruct (conns s !! j) as [cj|] eqn:Ej; [|done]. simpl in Ha.
    destruct (thread_step now (running s) cj) as [[c1 m]|] eqn:Et; [|done]. simpl in Ha.
    assert (log_of i s' = log_of i s ++ (if decide (j = i) then option_list m else [])
                 ∧ conns s' = <[j := c1]> (conns s)) as [El ->].
    { destruct m; injection Ha as <-; [rewrite log_of_push|]; simpl;
        case_decide; rewrite ?app_nil_r; done. }
    destruct (decide (j = i)) as [->|Hne].
    + rewrite lookup_insert_eq. exists c1. split; [done|]. right. exists now, m. by simplify_eq.
    + rewrite lookup_insert_ne by done. exists c. split; [done|]. left. by rewrite El, app_nil_r.
  - destruct (conns s !! j) as [cj|] eqn:Ej; [|done]. simpl in Ha. destruct (peer_closed cj); [done|].
    injection Ha as <-. apply Hset. intros ->. by simplify_eq.
  - destruct (conns s !! j) as [cj|] eqn:Ej; [|done]. injection Ha as <-.
    apply Hset. intros ->. by simplify_eq.
Qed.

(** A thread that is over pushes nothing more. *)
Lemma ended_silent acts : ∀ s s' i c why,
  inv s → conns s !! i = Some c → pc c = Ended why → run acts s = Some s' → log_of i s' = log_of i s.
Proof.
  induction acts as [|a acts IH]; intros s s' i c why Hs Hc Hp; simpl; [by intros [= <-]|].
  intros (s1 & Ea & Hr)%bind_Some.
  destruct (act_conn _ _ _ _ _ Hs Ea Hc) as (c1 & Hc1 & [[Hp1 El]|(now & m & Et & _)]).
  - rewrite <-El. apply (IH s1 s' i c1 why); [by eapply relay_act_inv|done|congruence|done].
  - unfold thread_step in Et. by rewrite Hp in Et.
Qed.

(** ** Properties *)

(** C28: Whatever the interleaving of the server's threads and however the bytes of the streams arrive,
    each connection pushes the messages that [handle_connection] reads off its whole stream, in
    their order and each once: always a prefix of them, and all of them once its thread has read
    every byte and pushed, or has given up on a length or a type.  What [take_received] gave
    out, followed by what it has still to give, is the pushes of all connections in the order
    they happened, and no message names its sender. *)
Theorem relay_threads_deliver id port acts s :
  run acts (new id port) = Some s →
  handed s ++ received s = (λ e, (zero32, e.2)) <$> log s
  ∧ ∀ i c, conns s !! i = Some c →
      log_of i s `prefix_of` (snd <$> handle_connection (arrived c))
      ∧ (taken c = length (arrived c) ∧ pushing (pc c) = false
         ∨ (∃ e, pc c = Ended (Some (ParseError e))) →
         log_of i s = snd <$> handle_connection (arrived c)).
Proof.
  intros Hr. pose proof (run_inv _ _ _ (new_inv id port) Hr) as Hs. split; [apply Hs|].
  intros i c Hc. destruct (inv_conns _ Hs _ _ Hc) as (Ht & Hsm & part & Htk & Hp).
  change (snd <$> handle_connection (arrived c)) with (messages (arrived c)).
  assert (messages (arrived c) = log_of i s ++ messages (part ++ drop (taken c) (arrived c))) as ->.
  { rewrite <-messages_stream by done. f_equal. rewrite app_assoc, <-Htk. symmetry. apply take_drop. }
  split; [by eexists|]. intros Hend. rewrite (messages_incomplete (part ++ _)); [by rewrite app_nil_r|].
  destruct Hend as [[Hall Hpc]|[e Hpc]].
  - rewrite drop_ge, app_nil_r by lia. by eapply partial_incomplete.
  - rewrite Hpc in Hp. apply Hp.
Qed.

(** ** Stopping *)

(** How many messages a thread can still push when it finds [running] unset at its next test. *)
Definition last_push (p : Pc) : nat := match p with AtTest | Ended _ => 0 | _ => 1 end.
Definition pending (i : nat) (s : TcpServer) : nat :=
  match conns s !! i with Some c => last_push (pc c) | None => 0 end.
Definition not_start (a : Action) : bool := match a with Start _ => false | _ => true end.

Lemma thread_step_last now c c' m :
  thread_step now false c = Some (c', m) →
  (length (option_list m) + last_push (pc c') ≤ last_push (pc c))%nat.
Proof.
  unfold thread_step, read_step.
  destruct (pc c); [| | | | |done];
    try (destruct (read _ _ _) as [bs| | |]; simpl; [| | |done]); intros [= <- <-]; simpl; try lia.
  all: match goal with |- (last_push ?p ≤ 1)%nat => destruct p; simpl; lia end.
Qed.

Lemma act_running a s s' :
  running s = false → not_start a = true → act a s = Some s' → running s' = false.
Proof.
  intros Hr Ha. destruct a as [b| | |now j o|now j|j bs|j]; simpl in *; try done.
  - by intros [= <-].
  - by intros [= <-].
  - unfold acceptor_step. destruct (acceptors s !! j) as [[]|]; try done; [|simpl]; intros [= <-]; by destruct o.
  - unfold conn_step. destruct (conns s !! j); [|done]. simpl.
    destruct (thread_step _ _ _) as [[? []]|]; [|simpl|done]; by intros [= <-].
  - destruct (conns s !! j) as [c|]; [|done]. simpl. destruct (peer_closed c); [done|]. by intros [= <-].
  - destruct (conns s !! j) as [c|]; [|done]. by intros [= <-].
Qed.

(** A connection that appears with a step has a thread at its first test; nothing is pushed then. *)
Lemma act_new_conn a s s' i c :
  act a s = Some s' → conns s !! i = None → conns s' !! i = Some c → pc c = AtTest ∧ log s' = log s.
Proof.
  assert (Hset : ∀ j cj c1, conns s !! j = Some cj → conns s !! i = None →
    <[j := c1]> (conns s) !! i = Some c → pc c = AtTest ∧ log s' = log s).
  { intros j cj c1 Hj Hi. rewrite lookup_insert_ne by congruence. congruence. }
  destruct a as [b| | |now j o|now j|j bs|j]; simpl.
  - intros [= <-]. destruct b; simpl; congruence.
  - intros [= <-]. simpl. congruence.
  - intros [= <-]. simpl. congruence.
  - unfold acceptor_step. destruct (acceptors s !! j) as [[]|]; [intros [= <-]; simpl; congruence|simpl|done..].
    intros [= <-]. destruct o; [|simpl; congruence..]. simpl. intros Hi.
    rewrite lookup_insert. case_decide; [by intros [= <-]|congruence].
  - unfold conn_step. destruct (conns s !! j) as [cj|] eqn:Ej; [|done]. simpl.
    destruct (thread_step _ _ _) as [[c1 m]|]; [|done]. simpl. intros [= <-] Hi.
    destruct m; by eapply Hset.
  - destruct (conns s !! j) as [cj|] eqn:Ej; [|done]. simpl. destruct (peer_closed cj); [done|].
    intros [= <-]. by eapply Hset.
  - destruct (conns s !! j) as [cj|] eqn:Ej; [|done]. intros [= <-]. by eapply Hset.
Qed.

Lemma act_pending a s s' i :
  inv s → running s = false → act a s = Some s' →
  (length (log_of i s') + pending i s' ≤ length (log_of i s) + pending i s)%nat.
Proof.
  intros Hs Hr Ha. unfold pending. destruct (conns s !! i) as [c|] eqn:Ec.
  - destruct (act_conn _ _ _ _ _ Hs Ha Ec) as (c1 & -> & [[-> ->]|(now & m & Et & ->)]); [done|].
    rewrite Hr in Et. apply thread_step_last in Et. rewrite length_app. lia.
  - destruct (conns s' !! i) as [c|] eqn:Ec'.
    + destruct (act_new_conn _ _ _ _ _ Ha Ec Ec') as [-> El]. unfold log_of. rewrite El. simpl. lia.
    + rewrite (log_of_unknown i s') by (done || by eapply relay_act_inv). simpl. lia.
Qed.

Lemma run_pending acts : ∀ s s' i,
  inv s → running s = false → Forall (λ a, not_start a = true) acts → run acts s = Some s' →
  (length (log_of i s') ≤ length (log_of i s) + pending i s)%nat.
Proof.
  induction acts as [|a acts IH]; intros s s' i Hs Hr Hall; simpl; [intros [= <-]; lia|].
  apply Forall_cons in Hall as [Ha Hall]. intros (s1 & E & Hrun)%bind_Some.
  pose proof (act_pending _ _ _ i Hs Hr E).
  enough (length (log_of i s') ≤ length (log_of i s1) + pending i s1)%nat by lia.
  apply (IH s1); [by eapply relay_act_inv|by eapply act_running|done..].
Qed.

(** After [stop], and until a new [start], each connection that was open pushes at most the one message
    its thread was waiting for or had read, and a connection accepted later pushes nothing. *)
Theorem stop_takes_one_more acts0 acts id port s s' i :
  run acts0 (new id port) = Some s → run acts (stop s) = Some s' →
  Forall (λ a, not_start a = true) acts →
  (length (log_of i s') ≤ length (log_of i s) + pending i s)%nat ∧ (pending i s ≤ 1)%nat.
Proof.
  intros H0 Hr Hall. pose proof (run_inv _ _ _ (new_inv id port) H0) as Hs. split.
  - apply (run_pending acts (stop s)); [|done..]. by apply (relay_act_inv Stop s).
  - unfold pending. destruct (conns s !! i) as [c|]; [destruct (pc c); simpl; lia|lia].
Qed.

(** ** Connections that rest *)

(** The thread of a connection that waits for the next message, or for the rest of its length. *)
Definition resting (c : Conn) : Prop :=
  (∃ got, pc c = ReadLen got) ∧ unread c = [] ∧ peer_closed c = false.

(** C35: The server closes a connection on which nothing arrives for thirty seconds, without an error.  The
    pool of the client keeps it however long it rests: while the socket still has a peer, a
    message for the address is written on that stream and reported as sent.  Whatever
    happens on the server from then on, that message is not pushed. *)
Theorem rested_connection_loses_messages acts id port s i c now :
  run acts (new id port) = Some s → conns s !! i = Some c → resting c →
  READ_TIMEOUT <= now - since c →
  (∃ s1, act (ConnStep now i) s = Some s1
     ∧ (∃ c1, conns s1 !! i = Some c1 ∧ pc c1 = Ended None)
     ∧ ∀ acts' s2, run acts' s1 = Some s2 → log_of i s2 = log_of i s)
  ∧ ∀ later io addr peer t0 m r,
      connections (pool r) !! addr = Some [mkPooled i peer t0 false] →
      peer_alive io i = true → clone_ok io = true → write_ok io = true →
      (RelayManager.send_message later io addr m r).1 = Ok tt
      ∧ Relay.log (RelayManager.send_message later io addr m r).2 =
          Relay.log r ++ [(i, Message.to_bytes m)].
Proof.
  intros Hr Hc ([got Hpc] & Hu & Hp) Ht. pose proof (run_inv _ _ _ (new_inv id port) Hr) as Hs. split.
  - assert (Hstep : thread_step now (running s) c = Some (goto now (Ended None) c, None)).
    { unfold thread_step, read_step, read. rewrite Hpc, Hu, take_nil, Hp.
      unfold duration_since, READ_TIMEOUT, from_secs in *. by rewrite (proj2 (Z.leb_le _ _)) by lia. }
    assert (Ha : act (ConnStep now i) s = Some (set_conn i (goto now (Ended None) c) s)).
    { simpl. unfold conn_step. rewrite Hc. simpl. by rewrite Hstep. }
    eexists. split; [exact Ha|]. split.
    + exists (goto now (Ended None) c). split; [apply lookup_insert_eq|done].
    + intros acts' s2 Hrun.
      apply (ended_silent acts' _ s2 i (goto now (Ended None) c) None) in Hrun; [done| |apply lookup_insert_eq|done].
      by eapply relay_act_inv.
  - intros later io addr peer t0 m r Hpool Hpeer Hclone Hwrite.
    unfold RelayManager.send_message, ConnectionPool.get_connection.
    rewrite Hpool. simpl. rewrite Hpeer. simpl. by rewrite Hclone, Hwrite.
Qed.

(** ** Witnesses *)

Definition hello_bytes : list byte := Message.to_bytes hello_msg.

(** Two clients connect; the message of the first arrives in two parts, that of the second between them. *)
Definition two_clients : list Action :=
  [Start (Ok tt); AcceptorStep 0 0 Accepted; AcceptorStep 0 0 Accepted; AcceptorStep 0 0 Accepted;
   AcceptorStep 0 0 Accepted; ConnStep 0 0; ConnStep 0 1;
   Arrives 0 (take 2 hello_bytes); ConnStep 1 0; Arrives 1 (hello_bytes ++ take 3 hello_bytes);
   ConnStep 1 1; ConnStep 1 1; ConnStep 1 1; ConnStep 1 1; Take;
   Arrives 0 (drop 2 hello_bytes); ConnStep 2 0; ConnStep 2 0; ConnStep 2 0; ConnStep 2 0;
   ConnStep 2 1; ConnStep 2 1; ConnStep 2 0].
Definition two_served : TcpServer := default (new zero32 9876) (run two_clients (new zero32 9876)).

Lemma relay_threads_deliver_witness :
  log two_served = [(1%nat, hello_msg); (0%nat, hello_msg)]
  ∧ handed two_served ++ received two_served = [(zero32, hello_msg); (zero32, hello_msg)].
Proof.
  split; [vm_compute; reflexivity|].
  rewrite (proj1 (relay_threads_deliver zero32 9876 two_clients two_served ltac:(vm_compute; reflexivity))).
  vm_compute. reflexivity.
Defined.

(** The first client sends two messages after [stop]: one gets through. *)
Definition last_words : list Action :=
  [Arrives 0 (hello_bytes ++ hello_bytes); ConnStep 3 0; ConnStep 3 0; ConnStep 3 0; ConnStep 3 0; ConnStep 3 0].
Definition stopped : TcpServer := default (new zero32 9876) (run last_words (stop two_served)).

Lemma stop_takes_one_more_witness :
  log_of 0 stopped = log_of 0 two_served ++ [hello_msg]
  ∧ (length (log_of 0 stopped) ≤ length (log_of 0 two_served) + pending 0 two_served)%nat.
Proof.
  split; [vm_compute; reflexivity|].
  apply (stop_takes_one_more two_clients last_words zero32 9876 two_served stopped 0);
    [vm_compute; reflexivity..|repeat constructor].
Defined.

(** The connection of the second client rests with three bytes of a length read. *)
Lemma rested_connection_loses_messages_witness :
  ∃ s1, act (ConnStep (from_secs 40) 1) two_served = Some s1
    ∧ ∀ acts' s2, run acts' s1 = Some s2 → log_of 1 s2 = [hello_msg].
Proof.
  destruct (rested_connection_loses_messages two_clients zero32 9876 two_served 1
              (default (mkConn AtTest [] 0 false 0) (conns two_served !! 1%nat)) (from_secs 40))
    as [(s1 & Ha & _ & Hl) _].
  - vm_compute. reflexivity.
  - vm_compute. reflexivity.
  - split; [eexists; vm_compute; reflexivity|]. by split; vm_compute.
  - vm_compute. discriminate.
  - exists s1. split; [exact Ha|]. intros acts' s2 Hr. rewrite (Hl acts' s2 Hr). vm_compute. reflexivity.
Defined.
