(* ===== verification/LanRouter.v ===== *)
(** * LanRouter: discovery and data on the local network

    Models crates/vpn/src/lan_router.rs: the UDP frame format, the receive
    thread's handling of one datagram, and the [Router] methods.  What the
    router sends is logged; [LanIo] says what the sockets answer and which
    datagrams the receive thread handles during the half second that [send]
    sleeps. *)
From Stdlib Require Import Ascii.
From S2P Require Import Prelude Text Identity Address Router.
#[local] Open Scope Z_scope.

Definition DEFAULT_PORT : Z := 9876.

Inductive UdpMessageType := Discover | DiscoverReply | Data | Heartbeat.
#[global] Instance UdpMessageType_eq_dec : EqDecision UdpMessageType.
Proof. solve_decision. Defined.

Module UdpMessageType.
Definition from_u8 (b : Z) : option UdpMessageType :=
  match b with
  | 1 => Some Discover | 2 => Some DiscoverReply | 3 => Some Data | 4 => Some Heartbeat
  | _ => None
  end.
Definition to_u8 (t : UdpMessageType) : Z :=
  match t with Discover => 1 | DiscoverReply => 2 | Data => 3 | Heartbeat => 4 end.
End UdpMessageType.

(** ** Frames *)

Definition HEADER_SIZE : nat := 2.
Definition NODE_ID_SIZE : nat := 32.
Definition DATA_LEN_SIZE : nat := 2.

Definition frame_head (t : UdpMessageType) (name : string) (node_id : NodeID) : list byte :=
  let name_bytes := as_bytes name in
  byte_of_Z (UdpMessageType.to_u8 t) :: byte_of_Z (len name_bytes) :: name_bytes
    ++ arr_bytes node_id.
Definition build_discover_msg (name : string) (node_id : NodeID) : list byte :=
  frame_head Discover name node_id.
Definition build_discover_reply (name : string) (node_id : NodeID) : list byte :=
  frame_head DiscoverReply name node_id.
Definition build_data_msg (name : string) (node_id : NodeID) (data : list byte) : list byte :=
  frame_head Data name node_id ++ be_bytes 2 (len data) ++ data.

Definition parse_udp_frame (buf : list byte)
    : option (UdpMessageType * string * NodeID * option (list byte)) :=
  if (length buf <? HEADER_SIZE + NODE_ID_SIZE)%nat then None else
  msg_type ← UdpMessageType.from_u8 (Z_of_byte (nth 0 buf Byte.x00));
  let name_len := Z.to_nat (Z_of_byte (nth 1 buf Byte.x00)) in
  if (length buf <? HEADER_SIZE + name_len + NODE_ID_SIZE)%nat then None else
  name ← from_utf8 (slice HEADER_SIZE (HEADER_SIZE + name_len) buf);
  let id_start := (HEADER_SIZE + name_len)%nat in
  node_id ← to_arr32 (slice id_start (id_start + NODE_ID_SIZE) buf);
  match msg_type with
  | Data =>
      let data_offset := (id_start + NODE_ID_SIZE)%nat in
      if (length buf <? data_offset + DATA_LEN_SIZE)%nat then None else
      let data_len := Z.to_nat (of_be (slice data_offset (data_offset + 2) buf)) in
      let data_start := (data_offset + DATA_LEN_SIZE)%nat in
      if (length buf <? data_start + data_len)%nat then None else
      Some (msg_type, name, node_id, Some (slice data_start (data_start + data_len) buf))
  | _ => Some (msg_type, name, node_id, None)
  end.

(** ** The router *)

Record LanNode := mkNode {
  node_name : string;
  node_id : NodeID;
  addr : SocketAddr;
  last_seen : Instant;
  node_state : NodeStatus
}.
Definition is_online (now : Instant) (n : LanNode) : bool :=
  duration_since now (last_seen n) <? from_secs 5.

(** Where a datagram goes: to an address, or to 255.255.255.255. *)
Inductive Dest := ToIp (a : IpAddr) (p : Z) | Broadcast (p : Z).

Record LanRouter := mkLan {
  local_name : string;
  local_id : NodeID;
  lan_port : Z;
  nodes : gmap string LanNode;
  lan_running : bool;
  received_data : list (string * list byte);
  socket : bool;
  sent : list (Dest * list byte)
}.

Record LanIo := mkLanIo {
  bind_ok : bool;
  broadcast_ok : bool;
  send_ok : bool;
  during : list (Instant * SocketAddr * list byte)
}.

Module LanRouter.
Definition with_port (name : string) (id : NodeID) (port : Z) : LanRouter :=
  mkLan name id port ∅ false [] false [].
Definition new (name : string) (id : NodeID) : LanRouter := with_port name id DEFAULT_PORT.

Definition set_nodes (m : gmap string LanNode) (r : LanRouter) : LanRouter :=
  mkLan (local_name r) (local_id r) (lan_port r) m (lan_running r) (received_data r) (socket r)
    (sent r).
Definition push_sent (d : Dest) (bs : list byte) (r : LanRouter) : LanRouter :=
  mkLan (local_name r) (local_id r) (lan_port r) (nodes r) (lan_running r) (received_data r)
    (socket r) (sent r ++ [(d, bs)]).
Definition set_received (l : list (string * list byte)) (r : LanRouter) : LanRouter :=
  mkLan (local_name r) (local_id r) (lan_port r) (nodes r) (lan_running r) l (socket r) (sent r).

Definition discovered_nodes (r : LanRouter) : list LanNode := (map_to_list (nodes r)).*2.
Definition online_node_count (now : Instant) (r : LanRouter) : nat :=
  length (filter (λ n, is_online now n = true) (discovered_nodes r)).
Definition take_received_data (r : LanRouter) : list (string * list byte) * LanRouter :=
  (received_data r, set_received [] r).
Definition find_node (name : string) (r : LanRouter) : option LanNode := nodes r !! name.

(** One datagram in the receive thread. *)
Definition note_node (now : Instant) (name : string) (id : NodeID) (from : SocketAddr)
    (r : LanRouter) : LanRouter :=
  if String.eqb name (local_name r) then r
  else set_nodes (<[name := mkNode name id from now Online]> (nodes r)) r.
Definition handle_datagram (now : Instant) (from : SocketAddr) (buf : list byte)
    (r : LanRouter) : LanRouter :=
  match parse_udp_frame buf with
  | None => r
  | Some (msg_type, name, id, data) =>
      match msg_type with
      | Discover =>
          note_node now name id from
            (push_sent (ToIp (ip from) (Prelude.port from))
               (build_discover_reply (local_name r) (local_id r)) r)
      | DiscoverReply => note_node now name id from r
      | Data =>
          match data with
          | Some d => set_received (received_data r ++ [(name, d)]) r
          | None => r
          end
      | Heartbeat =>
          set_nodes (alter (λ n, mkNode (node_name n) (node_id n) (addr n) now Online) name
                       (nodes r)) r
      end
  end.
Definition run_during (io : LanIo) (r : LanRouter) : LanRouter :=
  foldl (λ r '(now, from, buf), handle_datagram now from buf r) r (during io).

Definition broadcast_discover (io : LanIo) (r : LanRouter)
    : result unit RouterError * LanRouter :=
  if socket r then
    if broadcast_ok io
    then (Ok tt, push_sent (Broadcast (lan_port r))
                   (build_discover_msg (local_name r) (local_id r)) r)
    else (Err (SendFailed "broadcast failed"), r)
  else (Err (SendFailed "socket not initialized"), r).

Definition start (io : LanIo) (r : LanRouter) : result unit RouterError * LanRouter :=
  if bind_ok io then
    broadcast_discover io
      (mkLan (local_name r) (local_id r) (lan_port r) (nodes r) true (received_data r) true (sent r))
  else (Err (SendFailed "failed to bind UDP"), r).
Definition stop (r : LanRouter) : LanRouter :=
  mkLan (local_name r) (local_id r) (lan_port r) (nodes r) false (received_data r) (socket r)
    (sent r).

Definition update_node_status (now : Instant) (r : LanRouter) : LanRouter :=
  set_nodes ((λ n, if is_online now n then n
                   else mkNode (node_name n) (node_id n) (addr n) (last_seen n) Offline)
               <$> nodes r) r.

Definition send (io : LanIo) (target : string) (data : list byte) (r : LanRouter)
    : result unit RouterError * LanRouter :=
  match ParsedAddress.parse target with
  | Err e => (Err (InvalidData (AddressError_display e)), r)
  | Ok parsed =>
      let '(node, r) :=
        match nodes r !! name parsed with
        | Some n => (Ok n, r)
        | None =>
            match broadcast_discover io r with
            | (Err e, r) => (Err e, r)
            | (Ok _, r) =>
                let r := run_during io r in
                (ok_or (nodes r !! name parsed)
                   (Unreachable ("node not found: " +:+ name parsed)), r)
            end
        end in
      match node with
      | Err e => (Err e, r)
      | Ok n =>
          let target_port := default (lan_port r) (Address.port parsed) in
          let msg := build_data_msg (local_name r) (local_id r) data in
          if socket r then
            if send_ok io then (Ok tt, push_sent (ToIp (ip (addr n)) target_port) msg r)
            else (Err (SendFailed "send failed"), r)
          else (Err (SendFailed "socket not initialized"), r)
      end
  end.

Definition status (now : Instant) (unix : Z) (r : LanRouter) : RouterStatus :=
  mkStatus (if lan_running r then Online else Offline) Lan (size (nodes r))
    (online_node_count now r) unix.
End LanRouter.

(** The trait implementation, for sockets that answer [io]. *)
Definition lan_router (io : LanIo) : Router LanRouter := {|
  send := λ _, LanRouter.send io;
  status := LanRouter.status;
  router_name := local_name
|}.

(** ** Properties *)

Lemma to_u8_byte t : Z_of_byte (byte_of_Z (UdpMessageType.to_u8 t)) = UdpMessageType.to_u8 t.
Proof. by destruct t. Qed.

(** The start of a frame, parsed. *)
Lemma parse_frame_head t name id rest :
  is_str name → len (as_bytes name) < 256 →
  parse_udp_frame (frame_head t name id ++ rest) =
  match t with
  | Data =>
      if (length rest <? 2)%nat then None else
      let n := Z.to_nat (of_be (take 2 rest)) in
      if (length rest <? 2 + n)%nat then None
      else Some (Data, name, id, Some (take n (drop 2 rest)))
  | _ => Some (t, name, id, None)
  end.
Proof.
  intros Hs Hl. unfold parse_udp_frame, frame_head.
  set (nb := as_bytes name) in *. pose proof (length_arr_bytes id) as Hid.
  set (buf := _ ++ rest).
  assert (Hbuf : buf = [byte_of_Z (UdpMessageType.to_u8 t); byte_of_Z (len nb)] ++ nb
    ++ arr_bytes id ++ rest) by (unfold buf; simpl; by rewrite <-app_assoc).
  assert (Hlen : length buf = (34 + length nb + length rest)%nat).
  { rewrite Hbuf, !length_app, Hid. simpl. lia. }
  clearbody buf. unfold HEADER_SIZE, NODE_ID_SIZE, DATA_LEN_SIZE.
  rewrite (proj2 (Nat.ltb_ge _ _)) by lia.
  assert (Hn0 : nth 0 buf Byte.x00 = byte_of_Z (UdpMessageType.to_u8 t)) by by rewrite Hbuf.
  assert (Hn1 : nth 1 buf Byte.x00 = byte_of_Z (len nb)) by by rewrite Hbuf.
  rewrite Hn0, Hn1, to_u8_byte, Z_of_byte_of_Z, Z.mod_small, Nat2Z.id by lia.
  assert (Ht : UdpMessageType.from_u8 (UdpMessageType.to_u8 t) = Some t) by by destruct t.
  rewrite Ht. cbn [mbind option_bind]. rewrite (proj2 (Nat.ltb_ge _ _)) by lia.
  assert (H1 : slice 2 (2 + length nb) buf = nb) by (rewrite Hbuf; by apply slice_mid).
  assert (H2 : slice (2 + length nb) (2 + length nb + 32) buf = arr_bytes id).
  { rewrite Hbuf, app_assoc. apply slice_mid; rewrite ?length_app, ?Hid; done. }
  rewrite H1, H2. unfold nb. rewrite from_utf8_as_bytes by done. cbn [mbind option_bind].
  rewrite to_arr32_arr_bytes. cbn [mbind option_bind]. fold nb.
  destruct t; try done.
  assert (Hr : ∀ k, slice (2 + length nb + 32) (2 + length nb + 32 + k) buf = take k rest).
  { intros k. rewrite Hbuf, !app_assoc. unfold slice.
    rewrite drop_app_length' by (rewrite !length_app, Hid; simpl; lia). f_equal. lia. }
  rewrite Hr, Hlen.
  destruct (Nat.ltb_spec (length rest) 2).
  { by rewrite (proj2 (Nat.ltb_lt _ _)) by lia. }
  rewrite (proj2 (Nat.ltb_ge _ _)) by lia.
  set (n := Z.to_nat (of_be (take 2 rest))).
  assert (Hd : slice (2 + length nb + 32 + 2) (2 + length nb + 32 + 2 + n) buf = take n (drop 2 rest)).
  { specialize (Hr (2 + n)%nat). unfold slice in *.
    replace (2 + length nb + 32 + 2 + n - (2 + length nb + 32 + 2))%nat with n by lia.
    rewrite <-drop_drop. f_equal. f_equal. rewrite Hbuf, !app_assoc.
    by rewrite drop_app_length' by (rewrite !length_app, Hid; simpl; lia). }
  rewrite Hd.
  destruct (Nat.ltb_spec (length rest) (2 + n)).
  - by rewrite (proj2 (Nat.ltb_lt _ _)) by lia.
  - by rewrite (proj2 (Nat.ltb_ge _ _)) by lia.
Qed.

(** The frames are read back: for a name of fewer than 256 bytes, each
    builder's frame, followed by anything, parses to its type, name and
    identifier, and a data frame of fewer than 65536 bytes to its data. *)
Theorem lan_frame_roundtrip name id data rest :
  is_str name → len (as_bytes name) < 256 → len data < 65536 →
  parse_udp_frame (build_discover_msg name id ++ rest) = Some (Discover, name, id, None) ∧
  parse_udp_frame (build_discover_reply name id ++ rest) = Some (DiscoverReply, name, id, None) ∧
  parse_udp_frame (build_data_msg name id data ++ rest) = Some (Data, name, id, Some data).
Proof.
  intros Hs Hl Hd. unfold build_discover_msg, build_discover_reply, build_data_msg.
  rewrite <-!app_assoc, !parse_frame_head by done. split_and!; [done|done|].
  pose proof (length_be_bytes 2 (len data)) as H2.
  rewrite (proj2 (Nat.ltb_ge _ _)) by (rewrite length_app, H2; lia).
  rewrite take_app_length', drop_app_length' by done.
  rewrite of_be_be_bytes_id by (unfold fits; lia). rewrite Nat2Z.id. cbv zeta.
  rewrite (proj2 (Nat.ltb_ge _ _)) by (rewrite !length_app, H2; lia).
  by rewrite take_app_length.
Qed.

(** Discovery then delivery.  Once [a] has seen the answer of [b] from an
    address, data that [a] sends to [b]'s name goes in one datagram to that
    address, at [a]'s own port, and when [b] handles it the data is received
    from [a]'s name, exactly once and after what was there. *)
Theorem lan_discover_then_deliver io now now' p q data a b :
  is_str (local_name a) → len (as_bytes (local_name a)) < 256 →
  is_str (local_name b) → len (as_bytes (local_name b)) < 256 →
  local_name b ≠ local_name a → local_name b ≠ ""%string → free_of ":"%char (local_name b) = true →
  len data < 65536 → socket a = true → send_ok io = true →
  let a1 := LanRouter.handle_datagram now p (build_discover_reply (local_name b) (local_id b)) a in
  ∃ a2 msg,
    LanRouter.send io ("node:" +:+ local_name b) data a1 = (Ok tt, a2) ∧
    sent a2 = sent a ++ [(ToIp (ip p) (lan_port a), msg)] ∧
    received_data (LanRouter.handle_datagram now' q msg b) =
      received_data b ++ [(local_name a, data)].
Proof.
  intros Hsa Hla Hsb Hlb Hne Hnb Hfree Hd Hsock Hok a1.
  assert (Ha1 : a1 = LanRouter.set_nodes
    (<[local_name b := mkNode (local_name b) (local_id b) p now Online]> (nodes a)) a).
  { unfold a1, LanRouter.handle_datagram. rewrite <-(app_nil_r (build_discover_reply _ _)).
    destruct (lan_frame_roundtrip (local_name b) (local_id b) [] [] Hsb Hlb) as (_ & -> & _);
      [simpl; lia|].
    unfold LanRouter.note_node. by rewrite (proj2 (String.eqb_neq _ _)). }
  exists (LanRouter.push_sent (ToIp (ip p) (lan_port a))
            (build_data_msg (local_name a) (local_id a) data) a1).
  exists (build_data_msg (local_name a) (local_id a) data).
  split_and!.
  - unfold LanRouter.send.
    assert (Hp : ParsedAddress.parse ("node:" +:+ local_name b) = Ok (mkParsed (local_name b) None)).
    { unfold ParsedAddress.parse. rewrite splitn_name by done.
      cbn. by rewrite (proj2 (String.eqb_neq _ _)). }
    rewrite Hp, Ha1. cbn [name nodes LanRouter.set_nodes]. rewrite lookup_insert_eq.
    cbn. by rewrite Hsock, Hok.
  - by rewrite Ha1.
  - unfold LanRouter.handle_datagram. rewrite <-(app_nil_r (build_data_msg _ _ _)).
    by destruct (lan_frame_roundtrip (local_name a) (local_id a) data [] Hsa Hla Hd)
      as (_ & _ & ->).
Qed.

(** ** Witnesses *)

Lemma lan_frame_roundtrip_witness :
  is_str "Pikachu" ∧
  parse_udp_frame (build_data_msg "Pikachu" zero32 [Byte.x01] ++ [Byte.xff]) =
    Some (Data, "Pikachu"%string, zero32, Some [Byte.x01]).
Proof.
  split; [reflexivity|].
  apply (lan_frame_roundtrip "Pikachu" zero32 [Byte.x01] [Byte.xff]); [reflexivity|simpl; lia..].
Defined.

Definition lan_a : LanRouter :=
  (LanRouter.start (mkLanIo true true true []) (LanRouter.new "A" zero32)).2.
Definition lan_b : LanRouter := LanRouter.new "B" zero32.
Definition addr_b : SocketAddr := mkAddr (V4 0x0A000007) 9876.

Lemma lan_discover_then_deliver_witness :
  ∃ a2 msg,
    LanRouter.send (mkLanIo true true true []) ("node:" +:+ "B") [Byte.x01]
      (LanRouter.handle_datagram 0 addr_b (build_discover_reply "B" zero32) lan_a) = (Ok tt, a2) ∧
    sent a2 = sent lan_a ++ [(ToIp (ip addr_b) (lan_port lan_a), msg)] ∧
    received_data (LanRouter.handle_datagram 1 addr_b msg lan_b) =
      received_data lan_b ++ [("A"%string, [Byte.x01])].
Proof.
  apply (lan_discover_then_deliver (mkLanIo true true true []) 0 1 addr_b addr_b [Byte.x01]
           lan_a lan_b); try reflexivity; try discriminate; simpl; lia.
Defined.
