(* ===== verification/VpnRouter.v ===== *)
(** * VpnRouter: local network first, relay as the fallback

    Models crates/vpn/src/vpn/vpn_router.rs.  The router is generic in its
    parts: any [Router] as the LAN router, any [Resolver] for the names.  A
    listener is what was registered, a user's callback or the one a [ping] or a
    restore (Command.v) leaves behind; the calls made to listeners are logged. *)
From S2P Require Import Prelude Text Identity Address Router Relay.
From S2P Require LanRouter.

Definition DEFAULT_VPN_PORT : Z := 9877.

Inductive Listener := User (k : nat) | Ping (id : string) | Restore (tag : string).
#[global] Instance Listener_eq_dec : EqDecision Listener.
Proof. solve_decision. Defined.

Section VpnRouter.
Context `{HexCrate} `{LR : Router L} `{RS : Resolver R}.

Record VpnRouter := mkVpn {
  local_name : string;
  local_id : NodeID;
  vpn_port : Z;
  resolver : R;
  lan_router : option L;
  relay_manager : RelayManager;
  vpn_running : bool;
  listeners : list Listener;
  known_nodes : gmap string (NodeID * ConnectionType * NodeStatus);
  calls : list (Listener * string * list byte)
}.

Definition with_port (name : string) (id : NodeID) (r : R) (lan : option L) (relay : RelayManager)
    (port : Z) : VpnRouter :=
  mkVpn name id port r lan relay false [] ∅ [].
Definition new (name : string) (id : NodeID) (r : R) (lan : option L) (relay : RelayManager)
    : VpnRouter := with_port name id r lan relay DEFAULT_VPN_PORT.

Definition set_resolver (r : R) (v : VpnRouter) : VpnRouter :=
  mkVpn (local_name v) (local_id v) (vpn_port v) r (lan_router v) (relay_manager v)
    (vpn_running v) (listeners v) (known_nodes v) (calls v).
Definition set_lan (l : option L) (v : VpnRouter) : VpnRouter :=
  mkVpn (local_name v) (local_id v) (vpn_port v) (resolver v) l (relay_manager v)
    (vpn_running v) (listeners v) (known_nodes v) (calls v).
Definition set_relay_manager (r : RelayManager) (v : VpnRouter) : VpnRouter :=
  mkVpn (local_name v) (local_id v) (vpn_port v) (resolver v) (lan_router v) r
    (vpn_running v) (listeners v) (known_nodes v) (calls v).
Definition set_running (b : bool) (v : VpnRouter) : VpnRouter :=
  mkVpn (local_name v) (local_id v) (vpn_port v) (resolver v) (lan_router v) (relay_manager v)
    b (listeners v) (known_nodes v) (calls v).

Definition register_listener (l : Listener) (v : VpnRouter) : VpnRouter :=
  mkVpn (local_name v) (local_id v) (vpn_port v) (resolver v) (lan_router v) (relay_manager v)
    (vpn_running v) (listeners v ++ [l]) (known_nodes v) (calls v).
Definition update_node (name : string) (id : NodeID) (ct : ConnectionType) (s : NodeStatus)
    (v : VpnRouter) : VpnRouter :=
  mkVpn (local_name v) (local_id v) (vpn_port v) (resolver v) (lan_router v) (relay_manager v)
    (vpn_running v) (listeners v) (<[name := (id, ct, s)]> (known_nodes v)) (calls v).

Definition known_nodes_info (v : VpnRouter)
    : list (string * (NodeID * ConnectionType * NodeStatus)) := map_to_list (known_nodes v).
Definition known_nodes_count (v : VpnRouter) : nat := size (known_nodes v).

(** [start], when the relay's listener binds or not, and [stop]. *)
Definition start (bound : bool) (v : VpnRouter) : result unit RouterError * VpnRouter :=
  if bound
  then (Ok tt, set_running true (set_relay_manager
                 (RelayManager.set_running true (relay_manager v)) v))
  else (Err (SendFailed ("relay start failed: " +:+ RelayError_display (IoError "bind"))), v).
Definition stop (v : VpnRouter) : VpnRouter :=
  set_running false (set_relay_manager (RelayManager.set_running false (relay_manager v)) v).

(** One turn of the receive loop: the calls that the messages cause. *)
Definition dispatch (ls : list Listener) (ms : list (NodeID * Message))
    : list (Listener * string * list byte) :=
  mjoin ((λ '(sender, m),
    if decide (msg_type m = Data)
    then (λ l, (l, NodeID.to_hex sender, payload m)) <$> ls else []) <$> ms).
Definition receive_turn (v : VpnRouter) : VpnRouter :=
  if vpn_running v then
    let '(ms, relay) := RelayManager.take_received (relay_manager v) in
    mkVpn (local_name v) (local_id v) (vpn_port v) (resolver v) (lan_router v) relay
      (vpn_running v) (listeners v) (known_nodes v) (calls v ++ dispatch (listeners v) ms)
  else v.

(** ** Ping *)

(** The test of the listener that a ping registers: the text [PONG:<id>],
    where the identifier ends in a digit, up to trailing white space. *)
Definition is_pong (id : string) (data : list byte) : bool :=
  let expected := as_bytes ("PONG:" +:+ id) in
  utf8_valid data && bool_decide (take (length expected) data = expected)
    && white_space (drop (length expected) data).

(** [ping_node]: [nonce] is the random number, [incoming] what arrives at the
    relay while the call waits; the five seconds end when none of it is the answer.
    The round-trip time is not modelled. *)
Definition ping_node (now : Instant) (io : Io) (nonce : Z) (incoming : list (NodeID * Message))
    (target : string) (v : VpnRouter) : result unit RouterError * VpnRouter :=
  match ParsedAddress.parse target with
  | Err e => (Err (InvalidData (AddressError_display e)), v)
  | Ok parsed =>
      let '(res, r) := resolve now (name parsed) (resolver v) in
      let v := set_resolver r v in
      match res with
      | Err e => (Err (Router.Unreachable (AddressError_display e)), v)
      | Ok node_id =>
          let ping_id := ("ping-" +:+ pretty nonce)%string in
          let v := register_listener (Ping ping_id) v in
          let msg := mkMessage Data (as_bytes ("PING:" +:+ ping_id)) in
          let by_lan :=
            match lan_router v with
            | None => (false, v)
            | Some lan =>
                let '(res, lan) := send now target (Message.to_bytes msg) lan in
                (is_ok res, set_lan (Some lan) v)
            end in
          if by_lan.1 then (Ok tt, update_node (name parsed) node_id Lan Online by_lan.2) else
          let v := by_lan.2 in
          let '(res, relay) := RelayManager.send now io node_id msg (relay_manager v) in
          let v := set_relay_manager relay v in
          match res with
          | Err e => (Err (SendFailed (RelayError_display e)), v)
          | Ok _ =>
              let v := receive_turn (set_relay_manager (RelayManager.set_received
                         (received (relay_manager v) ++ incoming) (relay_manager v)) v) in
              if existsb (λ '(l, _, data),
                   bool_decide (l = Ping ping_id) && is_pong ping_id data)
                   (dispatch (listeners v) incoming)
              then (Ok tt, update_node (name parsed) node_id Vpn Online v)
              else (Err Router.Timeout, v)
          end
      end
  end.

(** ** The trait *)

Definition vpn_send (io : Io) (now : Instant) (target : string) (data : list byte)
    (v : VpnRouter) : result unit RouterError * VpnRouter :=
  match ParsedAddress.parse target with
  | Err e => (Err (InvalidData (AddressError_display e)), v)
  | Ok parsed =>
      let '(res, r) := resolve now (name parsed) (resolver v) in
      let v := set_resolver r v in
      match res with
      | Err e => (Err (Router.Unreachable (AddressError_display e)), v)
      | Ok node_id =>
          let by_lan :=
            match lan_router v with
            | None => (false, v)
            | Some lan =>
                let '(res, lan) := send now target data lan in
                (is_ok res, set_lan (Some lan) v)
            end in
          if by_lan.1 then (Ok tt, update_node (name parsed) node_id Lan Online by_lan.2) else
          let v := by_lan.2 in
          let '(res, relay) := RelayManager.send now io node_id (mkMessage Data data)
                                 (relay_manager v) in
          let v := set_relay_manager relay v in
          match res with
          | Err e => (Err (SendFailed (RelayError_display e)), v)
          | Ok _ => (Ok tt, update_node (name parsed) node_id Vpn Online v)
          end
      end
  end.

(** [session_count] is that of the router's session manager. *)
Definition vpn_status (session_count : nat) (unix : Z) (v : VpnRouter) : RouterStatus :=
  mkStatus (if vpn_running v then Online else Offline) Vpn
    (known_nodes_count v + session_count)
    (length (filter (λ e, e.2.2 = Online) (known_nodes_info v))) unix.

(** ** Properties *)

(** The outcome of a send, branch by branch. *)
Lemma vpn_send_unfold io now target data v parsed id r :
  ParsedAddress.parse target = Ok parsed →
  resolve now (name parsed) (resolver v) = (Ok id, r) →
  vpn_send io now target data v =
  match lan_router v with
  | Some lan =>
      let '(lres, lan) := send now target data lan in
      match lres with
      | Ok _ => (Ok tt, update_node (name parsed) id Lan Online (set_lan (Some lan) (set_resolver r v)))
      | Err _ =>
          let '(res, relay) := RelayManager.send now io id (mkMessage Data data) (relay_manager v) in
          match res with
          | Err e => (Err (SendFailed (RelayError_display e)),
                      set_relay_manager relay (set_lan (Some lan) (set_resolver r v)))
          | Ok _ => (Ok tt, update_node (name parsed) id Vpn Online
                              (set_relay_manager relay (set_lan (Some lan) (set_resolver r v))))
          end
      end
  | None =>
      let '(res, relay) := RelayManager.send now io id (mkMessage Data data) (relay_manager v) in
      match res with
      | Err e => (Err (SendFailed (RelayError_display e)), set_relay_manager relay (set_resolver r v))
      | Ok _ => (Ok tt, update_node (name parsed) id Vpn Online
                          (set_relay_manager relay (set_resolver r v)))
      end
  end.
Proof.
  intros Hp Hr. unfold vpn_send. rewrite Hp, Hr. cbn [lan_router set_resolver].
  destruct (lan_router v) as [lan|]; [|done].
  destruct (send now target data lan) as [[[]|e] lan']; done.
Qed.

(** The routing policy of [send], for any LAN router and any resolver.
    A malformed target or an unknown name is reported before anything is sent;
    when the LAN router accepts the data the relay is not touched and the node
    is recorded on the LAN; otherwise the relay is tried with the same data,
    its success is recorded as VPN, its error is the error returned, and then
    no node is recorded. *)
Theorem lan_first_then_relay io now target data v :
  match ParsedAddress.parse target with
  | Err e => vpn_send io now target data v = (Err (InvalidData (AddressError_display e)), v)
  | Ok parsed =>
      match resolve now (name parsed) (resolver v) with
      | (Err e, r) => vpn_send io now target data v =
          (Err (Router.Unreachable (AddressError_display e)), set_resolver r v)
      | (Ok id, _) =>
          let '(res, v') := vpn_send io now target data v in
          match send now target data <$> lan_router v with
          | Some (Ok _, lan) =>
              res = Ok tt ∧ relay_manager v' = relay_manager v ∧ lan_router v' = Some lan ∧
              known_nodes v' = <[name parsed := (id, Lan, Online)]> (known_nodes v)
          | tried =>
              let '(sent, relay) :=
                RelayManager.send now io id (mkMessage Data data) (relay_manager v) in
              relay_manager v' = relay ∧ lan_router v' = snd <$> tried ∧
              match sent with
              | Ok _ => res = Ok tt ∧
                  known_nodes v' = <[name parsed := (id, Vpn, Online)]> (known_nodes v)
              | Err e => res = Err (SendFailed (RelayError_display e)) ∧
                  known_nodes v' = known_nodes v
              end
          end
      end
  end.
Proof.
  destruct (ParsedAddress.parse target) as [parsed|e] eqn:Hp.
  - destruct (resolve now (name parsed) (resolver v)) as [[id|e] r] eqn:Hr.
    + rewrite (vpn_send_unfold io now target data v parsed id r) by done.
      destruct (lan_router v) as [lan|] eqn:Hl; simpl.
      * destruct (send now target data lan) as [[[]|e] lan']; [done|].
        by destruct (RelayManager.send _ _ _ _ _) as [[]].
      * by destruct (RelayManager.send _ _ _ _ _) as [[]].
    + unfold vpn_send. by rewrite Hp, Hr.
  - unfold vpn_send. by rewrite Hp.
Qed.

(** Every ping leaves its listener behind: once the name resolves, the
    call registers one listener and, whichever way it ends, removes none; so
    the listeners, and the work done for every later message, only grow. *)
Theorem ping_leaks_listener now io nonce incoming target v parsed id r :
  ParsedAddress.parse target = Ok parsed →
  resolve now (name parsed) (resolver v) = (Ok id, r) →
  listeners (ping_node now io nonce incoming target v).2 =
    listeners v ++ [Ping ("ping-" +:+ pretty nonce)].
Proof.
  intros Hp Hr. unfold ping_node. rewrite Hp, Hr.
  cbn [lan_router set_resolver register_listener].
  assert (Hturn : ∀ u, listeners (receive_turn u) = listeners u).
  { intros u. unfold receive_turn. by destruct (vpn_running u). }
  destruct (lan_router v) as [lan|]; [destruct (send _ _ _ lan) as [[[]|e] lan']; [done|]|];
    cbn [is_ok fst snd]; destruct (RelayManager.send _ _ _ _ _) as [[] relay]; try done;
    case_match; cbn [snd update_node listeners]; by rewrite Hturn.
Qed.
End VpnRouter.

(** ** Witnesses *)

Definition no_lan : option LanRouter.LanRouter := None.
#[local] Instance lan_impl : Router LanRouter.LanRouter :=
  LanRouter.lan_router (LanRouter.mkLanIo true true true []).
Definition vpn_pika :=
  new "Home" zero32 mem_pika no_lan
    (RelayManager.register_node zero32 "b:1" (RelayManager.new zero32)).

Lemma ping_leaks_listener_witness :
  listeners (ping_node 0 io_ok 5 [] "node:Pikachu" vpn_pika).2 =
    listeners vpn_pika ++ [Ping ("ping-" +:+ pretty 5)].
Proof.
  eapply (ping_leaks_listener 0 io_ok 5 [] "node:Pikachu" vpn_pika (mkParsed "Pikachu" None));
    vm_compute; reflexivity.
Defined.
