(* ===== verification/Session.v ===== *)
(** * Session: the state machine of an encrypted session, and its manager

    Models crates/vpn/src/vpn/session.rs.  [Instant::now()] is the argument
    [now]; the random bytes that overwrite an erased key are dropped with the
    key, so erasing is forgetting. *)
From S2P Require Import Prelude Identity.

Definition DEFAULT_SESSION_TIMEOUT_SECS : Z := 1800.
Definition DEFAULT_KEY_ROTATION_SECS : Z := 86400.

Inductive SessionError :=
| NotFound (msg : string)
| InvalidState (msg : string)
| Expired (msg : string)
| CreationFailed (msg : string).

Definition SessionError_display (e : SessionError) : string :=
  match e with
  | NotFound msg => "session not found: " +:+ msg
  | InvalidState msg => "invalid session state: " +:+ msg
  | Expired msg => "session expired: " +:+ msg
  | CreationFailed msg => "session creation failed: " +:+ msg
  end.

Inductive SessionState := Init | Handshake | Established | Closing | Closed.
#[global] Instance SessionState_eq_dec : EqDecision SessionState.
Proof. solve_decision. Defined.
Definition SessionState_display (s : SessionState) : string :=
  match s with
  | Init => "INIT" | Handshake => "HANDSHAKE" | Established => "ESTABLISHED"
  | Closing => "CLOSING" | Closed => "CLOSED"
  end.

Record SessionKeys := mkKeys {
  send_key : list byte; recv_key : list byte; keys_created_at : Instant
}.
Definition needs_rotation (now : Instant) (k : SessionKeys) : bool :=
  from_secs DEFAULT_KEY_ROTATION_SECS <? duration_since now (keys_created_at k).
(** [secure_erase]: both keys are emptied. *)
Definition secure_erase (k : SessionKeys) : SessionKeys := mkKeys [] [] (keys_created_at k).

Record Session := mkSession {
  id : string;
  local_id : NodeID;
  remote_id : NodeID;
  state : SessionState;
  keys : option SessionKeys;
  created_at : Instant;
  last_active : Instant;
  timeout : Duration;
  send_counter : Z;
  recv_counter : Z
}.

Module Session.
Section Session.
Context `{HexCrate}.

Definition with_timeout (now : Instant) (local remote : NodeID) (timeout : Duration) : Session :=
  mkSession (String.substring 0 8 (NodeID.to_hex local) +:+ "-" +:+ String.substring 0 8 (NodeID.to_hex remote))
    local remote Init None now now timeout 0 0.
Definition new (now : Instant) (local remote : NodeID) : Session :=
  with_timeout now local remote (from_secs DEFAULT_SESSION_TIMEOUT_SECS).
End Session.

Definition update (s : Session) (st : SessionState) (k : option SessionKeys) (active : Instant)
    (sc rc : Z) : Session :=
  mkSession (id s) (local_id s) (remote_id s) st k (created_at s) active (timeout s) sc rc.

Definition is_expired (now : Instant) (s : Session) : bool :=
  timeout s <? duration_since now (last_active s).
Definition is_active (now : Instant) (s : Session) : bool :=
  bool_decide (state s = Established) && negb (is_expired now s).
Definition touch (now : Instant) (s : Session) : Session :=
  update s (state s) (keys s) now (send_counter s) (recv_counter s).

Definition valid_transitions (s : SessionState) : list SessionState :=
  match s with
  | Init => [Handshake; Closed]
  | Handshake => [Established; Closed]
  | Established => [Closing]
  | Closing => [Closed]
  | Closed => []
  end.
Definition transition (now : Instant) (new_state : SessionState) (s : Session)
    : result unit SessionError * Session :=
  if decide (new_state ∈ valid_transitions (state s))
  then (Ok tt, update s new_state (keys s) now (send_counter s) (recv_counter s))
  else (Err (InvalidState ("cannot transition from " +:+ SessionState_display (state s) +:+
          " to " +:+ SessionState_display new_state)), s).

Definition set_keys (now : Instant) (send recv : list byte) (s : Session) : Session :=
  update s (state s) (Some (mkKeys send recv now)) now (send_counter s) (recv_counter s).
Definition needs_key_rotation (now : Instant) (s : Session) : bool :=
  match keys s with Some k => needs_rotation now k | None => false end.
(** The keys are taken out and erased; the activity time stays. *)
Definition secure_close (s : Session) : Session :=
  update s Closed None (last_active s) (send_counter s) (recv_counter s).
Definition next_send_counter (now : Instant) (s : Session) : Z * Session :=
  (send_counter s,
   update s (state s) (keys s) now (wrap 64 (send_counter s + 1)) (recv_counter s)).
Definition verify_recv_counter (now : Instant) (counter : Z) (s : Session)
    : result unit SessionError * Session :=
  if counter <? recv_counter s
  then (Err (InvalidState ("counter " +:+ pretty counter +:+ " < expected " +:+
          pretty (recv_counter s))), s)
  else (Ok tt, update s (state s) (keys s) now (send_counter s) (wrap 64 (counter + 1))).
End Session.

(** ** The manager *)

Record SessionManager := mkSessions {
  sessions : gmap NodeID Session;
  manager_id : NodeID;
  default_timeout : Duration
}.

Module SessionManager.
Section SessionManager.
Context `{HexCrate}.

Definition with_timeout (local_id : NodeID) (timeout : Duration) : SessionManager :=
  mkSessions ∅ local_id timeout.
Definition new (local_id : NodeID) : SessionManager :=
  with_timeout local_id (from_secs DEFAULT_SESSION_TIMEOUT_SECS).
Definition set_sessions (m : gmap NodeID Session) (sm : SessionManager) : SessionManager :=
  mkSessions m (manager_id sm) (default_timeout sm).

(** The session returned and the one stored are made separately, at the same
    time here. *)
Definition get_or_create (now : Instant) (remote : NodeID) (sm : SessionManager)
    : Session * SessionManager :=
  let fresh := Session.with_timeout now (manager_id sm) remote (default_timeout sm) in
  match sessions sm !! remote with
  | Some s => if Session.is_expired now s
              then (fresh, set_sessions (<[remote := fresh]> (sessions sm)) sm) else (s, sm)
  | None => (fresh, set_sessions (<[remote := fresh]> (sessions sm)) sm)
  end.
Definition get (remote : NodeID) (sm : SessionManager) : option Session := sessions sm !! remote.
Definition update_state (now : Instant) (remote : NodeID) (new_state : SessionState)
    (sm : SessionManager) : result unit SessionError * SessionManager :=
  match sessions sm !! remote with
  | None => (Err (NotFound (NodeID.to_hex remote)), sm)
  | Some s =>
      let '(r, s) := Session.transition now new_state s in
      (r, set_sessions (<[remote := s]> (sessions sm)) sm)
  end.
Definition set_keys (now : Instant) (remote : NodeID) (send recv : list byte)
    (sm : SessionManager) : result unit SessionError * SessionManager :=
  match sessions sm !! remote with
  | None => (Err (NotFound (NodeID.to_hex remote)), sm)
  | Some s => (Ok tt, set_sessions (<[remote := Session.set_keys now send recv s]> (sessions sm)) sm)
  end.
Definition remove (remote : NodeID) (sm : SessionManager) : option Session * SessionManager :=
  (sessions sm !! remote, set_sessions (delete remote (sessions sm)) sm).
Definition secure_remove (remote : NodeID) (sm : SessionManager) : SessionManager :=
  set_sessions (delete remote (sessions sm)) sm.
Definition cleanup_expired (now : Instant) (sm : SessionManager)
    : list NodeID * SessionManager :=
  let expired := (filter (λ e, Session.is_expired now e.2 = true)
                    (map_to_list (sessions sm))).*1 in
  (expired, set_sessions (foldl (λ m i, delete i m) (sessions sm) expired) sm).
Definition active_sessions (now : Instant) (sm : SessionManager) : list Session :=
  filter (λ s, Session.is_active now s = true) (map_to_list (sessions sm)).*2.
Definition session_count (sm : SessionManager) : nat := size (sessions sm).
Definition has_active_session (now : Instant) (remote : NodeID) (sm : SessionManager) : bool :=
  match sessions sm !! remote with Some s => Session.is_active now s | None => false end.
Definition touch (now : Instant) (remote : NodeID) (sm : SessionManager)
    : result unit SessionError * SessionManager :=
  match sessions sm !! remote with
  | None => (Err (NotFound (NodeID.to_hex remote)), sm)
  | Some s => (Ok tt, set_sessions (<[remote := Session.touch now s]> (sessions sm)) sm)
  end.
End SessionManager.
End SessionManager.

(** ** Counters *)

(** The counters of a sequence of packets that are accepted. *)
Fixpoint accepted (cs : list (Instant * Z)) (s : Session) : list Z * Session :=
  match cs with
  | [] => ([], s)
  | (now, c) :: cs =>
      let '(r, s) := Session.verify_recv_counter now c s in
      let '(out, s) := accepted cs s in
      ((if is_ok r then [c] else []) ++ out, s)
  end.

(** Replay protection.  However the counters of the received packets
    come, those accepted are strictly increasing, so none is accepted twice,
    as long as none is 2^64-1; that one is accepted at most at the end: it
    resets the expected counter to zero, and every counter is valid again. *)
Theorem accepted_counters_increase cs s :
  Forall (λ p : Instant * Z, 0 ≤ p.2 < 2 ^ 64 - 1) cs → 0 ≤ recv_counter s →
  StronglySorted Z.lt (accepted cs s).1 ∧
  Forall (λ c, recv_counter s ≤ c < recv_counter (accepted cs s).2) (accepted cs s).1 ∧
  recv_counter s ≤ recv_counter (accepted cs s).2 ∧
  ∀ now, u64_ok (recv_counter s) →
    let '(r, s') := Session.verify_recv_counter now (2 ^ 64 - 1) s in
    r = Ok tt ∧ recv_counter s' = 0.
Proof.
  intros Hcs H0.
  assert (Hmain : StronglySorted Z.lt (accepted cs s).1 ∧
    Forall (λ c, recv_counter s ≤ c < recv_counter (accepted cs s).2) (accepted cs s).1 ∧
    recv_counter s ≤ recv_counter (accepted cs s).2).
  { revert s H0. induction Hcs as [|[now c] cs Hc Hcs IH]; intros s H0.
    { simpl. split_and!; [constructor|constructor|lia]. }
    simpl in Hc |- *. unfold Session.verify_recv_counter.
    destruct (Z.ltb_spec c (recv_counter s)) as [Hlt|Hge].
    - specialize (IH s H0). by destruct (accepted cs s).
    - set (s1 := Session.update _ _ _ _ _ _).
      assert (H1 : recv_counter s1 = c + 1) by (simpl; apply wrap_id; unfold fits; lia).
      destruct (IH s1 ltac:(lia)) as (Hs & Hf & Hm).
      destruct (accepted cs s1) as [out s2]. simpl in *. split_and!; [| |lia].
      + constructor; [done|]. eapply Forall_impl; [exact Hf|]. simpl. lia.
      + constructor; [lia|]. eapply Forall_impl; [exact Hf|]. simpl. lia. }
  destruct Hmain as (Hs & Hf & Hm). split_and!; [done..|].
  intros now Hu. unfold Session.verify_recv_counter, fits in *.
  by rewrite (proj2 (Z.ltb_ge _ _)) by lia.
Qed.

(** ** The state machine *)

Definition rank (s : SessionState) : nat :=
  match s with Init => 0 | Handshake => 1 | Established => 2 | Closing => 3 | Closed => 4 end.

(** A sequence of attempted transitions: how many succeed, and the end. *)
Fixpoint transitions (ts : list (Instant * SessionState)) (s : Session) : nat * Session :=
  match ts with
  | [] => (0%nat, s)
  | (now, t) :: ts =>
      let '(r, s) := Session.transition now t s in
      let '(n, s) := transitions ts s in
      ((if is_ok r then S n else n), s)
  end.

Lemma transition_rank now t s :
  let '(r, s') := Session.transition now t s in
  match r with
  | Ok _ => (rank (state s) < rank (state s'))%nat ∧ state s' = t ∧
            (t = Established → state s = Handshake)
  | Err _ => s' = s
  end ∧ keys s' = keys s ∧ send_counter s' = send_counter s ∧ recv_counter s' = recv_counter s.
Proof.
  unfold Session.transition. case_decide as Hin; [|done]. simpl.
  destruct (state s); simpl in *; set_solver by lia.
Qed.

(** The session life cycle.  Whatever transitions are attempted, states
    only move forward, so at most four succeed and a closed session stays
    closed; a session is established only if it was or the handshake state
    was passed; and no transition, closing included, removes the keys. *)
Theorem session_lifecycle ts s :
  let '(n, s') := transitions ts s in
  (n + rank (state s) ≤ rank (state s'))%nat ∧ (n ≤ 4)%nat ∧
  (state s = Closed → s' = s) ∧ keys s' = keys s ∧
  (state s' = Established → state s = Init → 2 ≤ n)%nat.
Proof.
  assert (Hr : ∀ s0 : Session, (rank (state s0) ≤ 4)%nat)
    by (intros s0; destruct (state s0); simpl; lia).
  destruct (transitions ts s) as [n s'] eqn:E.
  assert (Hm : (n + rank (state s) ≤ rank (state s'))%nat ∧ (state s = Closed → s' = s) ∧
    keys s' = keys s ∧ (state s' = Established → state s = Init → 2 ≤ n)%nat ∧
    (state s' = Established → state s = Handshake → 1 ≤ n)%nat).
  { revert n s s' E. induction ts as [|[now t] ts IH]; intros n s s' E; simpl in E.
    { simplify_eq. split_and!; try done; intros; simplify_eq; congruence. }
    pose proof (transition_rank now t s) as Ht.
    destruct (Session.transition now t s) as [r s1].
    destruct (transitions ts s1) as [n1 s2] eqn:E2.
    destruct (IH _ _ _ E2) as (Hn & Hc & Hk & Hi & Hh).
    destruct r as [[]|e]; simpl in *; simplify_eq.
    - destruct Ht as ((Hlt & <- & Het) & Hk1 & _ & _). pose proof (Hr s').
      split_and!; [lia| |congruence| |lia].
      + intros Hcl. rewrite Hcl in Hlt. simpl in Hlt. pose proof (Hr s1). lia.
      + intros He Hin. destruct (state s1) eqn:Es1; try (rewrite Hin in Hlt; simpl in Hlt; lia).
        * by specialize (Hh He eq_refl); lia.
        * rewrite Hin in Het. by specialize (Het eq_refl).
        * rewrite He in Hn. simpl in Hn. lia.
        * rewrite He in Hn. simpl in Hn. lia.
    - destruct Ht as (-> & _). done. }
  pose proof (Hr s'). destruct Hm as (Hn & Hc & Hk & Hi & _). split_and!; try done. lia.
Qed.

(** ** The manager *)

Lemma foldl_delete_lookup {V} (l : list NodeID) (m : gmap NodeID V) i :
  foldl (λ m i, delete i m) m l !! i = if decide (i ∈ l) then None else m !! i.
Proof.
  revert m. induction l as [|j l IH]; intros m; [by rewrite decide_False by set_solver|].
  simpl. rewrite IH. destruct (decide (i ∈ l)) as [Hi|Hi].
  - by rewrite decide_True by set_solver.
  - destruct (decide (i = j)) as [->|Hne].
    + by rewrite lookup_delete_eq, decide_True by set_solver.
    + by rewrite lookup_delete_ne, decide_False by set_solver.
Qed.

(** The session table over time.  Cleaning up removes exactly the sessions
    idle beyond their timeout and reports exactly their nodes; asking for a
    session always yields one that has not expired and is the one stored: the
    existing one untouched, or, where there is none or it expired, a new one
    in its initial state, without keys, with its counters at zero. *)
Theorem session_table_exact `{HexCrate} now sm remote :
  (∀ i s, sessions (SessionManager.cleanup_expired now sm).2 !! i = Some s ↔
     sessions sm !! i = Some s ∧ Session.is_expired now s = false) ∧
  (∀ i, i ∈ (SessionManager.cleanup_expired now sm).1 ↔
     ∃ s, sessions sm !! i = Some s ∧ Session.is_expired now s = true) ∧
  (0 ≤ default_timeout sm →
   let '(s, sm') := SessionManager.get_or_create now remote sm in
   sessions sm' !! remote = Some s ∧ Session.is_expired now s = false ∧
   (sessions sm !! remote = Some s ∨
    state s = Init ∧ keys s = None ∧ send_counter s = 0 ∧ recv_counter s = 0) ∧
   ∀ i, i ≠ remote → sessions sm' !! i = sessions sm !! i).
Proof.
  assert (Hex : ∀ i, i ∈ (SessionManager.cleanup_expired now sm).1 ↔
    ∃ s, sessions sm !! i = Some s ∧ Session.is_expired now s = true).
  { intros i. simpl. rewrite list_elem_of_fmap. split.
    - intros ([j s] & -> & Hin). apply list_elem_of_filter in Hin as [He Hin].
      apply elem_of_map_to_list in Hin. by exists s.
    - intros (s & Hs & He). exists (i, s). split; [done|]. apply list_elem_of_filter.
      by rewrite elem_of_map_to_list. }
  split_and!; [|done|].
  - intros i s. cbn [SessionManager.cleanup_expired snd sessions SessionManager.set_sessions].
    rewrite foldl_delete_lookup. specialize (Hex i).
    cbn [SessionManager.cleanup_expired fst] in Hex. case_decide as Hin.
    + apply Hex in Hin as (s' & Hs' & He). split; [done|]. intros [Hs Hn]. congruence.
    + split; [|by intros []]. intros Hs. split; [done|].
      apply not_true_iff_false. intros He. apply Hin, Hex. by exists s.
  - intros H0. unfold SessionManager.get_or_create.
    assert (Hf : ∀ t, 0 ≤ t →
      Session.is_expired now (Session.with_timeout now (manager_id sm) remote t) = false).
    { intros t Ht. apply Z.ltb_ge. simpl. unfold duration_since. lia. }
    destruct (sessions sm !! remote) as [s|] eqn:Es; [destruct (Session.is_expired now s) eqn:Ee|];
      simpl; rewrite ?lookup_insert_eq; split_and!; auto; intros i Hi; by rewrite lookup_insert_ne.
Qed.

(** ** Witnesses *)

Definition fresh_session : Session := Session.new 0 zero32 zero32.

Lemma accepted_counters_increase_witness :
  Forall (λ p : Instant * Z, 0 ≤ p.2 < 2 ^ 64 - 1) [(1, 3); (2, 3); (3, 2); (4, 9)] ∧
  StronglySorted Z.lt (accepted [(1, 3); (2, 3); (3, 2); (4, 9)] fresh_session).1.
Proof.
  assert (Hf : Forall (λ p : Instant * Z, 0 ≤ p.2 < 2 ^ 64 - 1) [(1, 3); (2, 3); (3, 2); (4, 9)])
    by (repeat constructor; simpl; lia).
  split; [exact Hf|].
  exact (proj1 (accepted_counters_increase _ fresh_session Hf ltac:(simpl; lia))).
Defined.

Lemma session_lifecycle_witness :
  let '(n, s') := transitions [(1, Handshake); (2, Closing); (3, Established)] fresh_session in
  n = 2%nat ∧ state s' = Established ∧ (n ≤ 4)%nat.
Proof.
  pose proof (session_lifecycle [(1, Handshake); (2, Closing); (3, Established)] fresh_session) as Hl.
  split; [reflexivity|]. split; [reflexivity|]. exact (proj1 (proj2 Hl)).
Defined.

Lemma session_table_exact_witness :
  0 ≤ default_timeout (SessionManager.new zero32) ∧
  let '(s, sm') := SessionManager.get_or_create 5 zero32 (SessionManager.new zero32) in
  sessions sm' !! zero32 = Some s.
Proof.
  split; [vm_compute; discriminate|].
  destruct (session_table_exact 5 (SessionManager.new zero32) zero32) as (_ & _ & Hg).
  specialize (Hg ltac:(vm_compute; discriminate)).
  destruct (SessionManager.get_or_create _ _ _) as [s sm']. exact (proj1 Hg).
Defined.
