(* ===== verification/Heartbeat.v ===== *)
(** * Heartbeat: liveness of the peers

    Models crates/vpn/src/vpn/heartbeat.rs.  The callbacks of the trait
    [HeartbeatCallback] and the calls of the send function are logged in
    order; whether a send fails is the argument [fails].  One turn of the
    sender thread is [turn]; handling messages interleaves between turns. *)
From S2P Require Import Prelude Identity.

Definition DEFAULT_HEARTBEAT_INTERVAL_SECS : Z := 5.
Definition DEFAULT_OFFLINE_THRESHOLD : Z := 3.

Inductive HeartbeatError :=
| SendFailed (msg : string) | NodeNotFound (msg : string) | Timeout (msg : string).
Definition HeartbeatError_display (e : HeartbeatError) : string :=
  match e with
  | SendFailed msg => "heartbeat send failed: " +:+ msg
  | NodeNotFound msg => "node not found: " +:+ msg
  | Timeout msg => "heartbeat timeout: " +:+ msg
  end.

Inductive HeartbeatMsgType := Request | Response.
Module HeartbeatMsgType.
Definition from_u8 (b : Z) : option HeartbeatMsgType :=
  match b with 1 => Some Request | 2 => Some Response | _ => None end.
Definition to_u8 (t : HeartbeatMsgType) : Z := match t with Request => 1 | Response => 2 end.
End HeartbeatMsgType.

Record HeartbeatMessage := mkHb {
  msg_type : HeartbeatMsgType; sender_id : NodeID; timestamp : Z; sequence : Z
}.

Module HeartbeatMessage.
Definition to_bytes (m : HeartbeatMessage) : list byte :=
  [byte_of_Z (HeartbeatMsgType.to_u8 (msg_type m))] ++ arr_bytes (sender_id m)
    ++ be_bytes 8 (timestamp m) ++ be_bytes 8 (sequence m).
Definition from_bytes (data : list byte) : option HeartbeatMessage :=
  if (length data <? 1 + 32 + 8 + 8)%nat then None else
  msg_type ← HeartbeatMsgType.from_u8 (Z_of_byte (nth 0 data Byte.x00));
  sender_id ← to_arr32 (slice 1 33 data);
  Some (mkHb msg_type sender_id (of_be (slice 33 41 data)) (of_be (slice 41 49 data))).
End HeartbeatMessage.

Record NodeHeartbeatState := mkState {
  node_id : NodeID;
  last_heartbeat : Instant;
  missed_count : Z;
  is_online : bool;
  send_sequence : Z;
  recv_sequence : Z
}.
Definition new_state (now : Instant) (id : NodeID) : NodeHeartbeatState :=
  mkState id now 0 true 0 0.
Definition should_be_offline (threshold : Z) (s : NodeHeartbeatState) : bool :=
  threshold <=? missed_count s.

Inductive Call :=
| Send (dest : NodeID) (m : HeartbeatMessage)
| OnOnline (n : NodeID)
| OnOffline (n : NodeID)
| OnSent (n : NodeID) (sequence : Z)
| OnReceived (n : NodeID) (sequence : Z).

Record HeartbeatManager := mkManager {
  local_id : NodeID;
  interval : Duration;
  offline_threshold : Z;
  nodes : gmap NodeID NodeHeartbeatState;
  running : bool;
  next_sequence : Z;
  calls : list Call
}.

Module HeartbeatManager.
Definition with_interval (local_id : NodeID) (interval : Duration) : HeartbeatManager :=
  mkManager local_id interval DEFAULT_OFFLINE_THRESHOLD ∅ false 0 [].
Definition new (local_id : NodeID) : HeartbeatManager :=
  with_interval local_id (from_secs DEFAULT_HEARTBEAT_INTERVAL_SECS).
Definition set_offline_threshold (t : Z) (h : HeartbeatManager) : HeartbeatManager :=
  mkManager (local_id h) (interval h) t (nodes h) (running h) (next_sequence h) (calls h).
Definition set_nodes (m : gmap NodeID NodeHeartbeatState) (cs : list Call) (h : HeartbeatManager)
    : HeartbeatManager :=
  mkManager (local_id h) (interval h) (offline_threshold h) m (running h) (next_sequence h)
    (calls h ++ cs).

Definition add_node (now : Instant) (id : NodeID) (h : HeartbeatManager) : HeartbeatManager :=
  match nodes h !! id with
  | Some _ => h
  | None => set_nodes (<[id := new_state now id]> (nodes h)) [] h
  end.
Definition remove_node (id : NodeID) (h : HeartbeatManager) : HeartbeatManager :=
  set_nodes (delete id (nodes h)) [] h.
Definition get_node_state (id : NodeID) (h : HeartbeatManager) : option NodeHeartbeatState :=
  nodes h !! id.
Definition get_all_states (h : HeartbeatManager) : list NodeHeartbeatState :=
  (map_to_list (nodes h)).*2.
Definition online_nodes (h : HeartbeatManager) : list NodeID :=
  node_id <$> filter (λ s, is_online s = true) (get_all_states h).
Definition offline_nodes (h : HeartbeatManager) : list NodeID :=
  node_id <$> filter (λ s, is_online s = false) (get_all_states h).

(** The request to one node. *)
Definition send_request (unix : Z) (fails : NodeID → bool) (id : NodeID) (h : HeartbeatManager)
    : HeartbeatManager :=
  let seq := next_sequence h in
  let msg := mkHb Request (local_id h) unix seq in
  if fails id then set_nodes (nodes h) [Send id msg] h
  else set_nodes (alter (λ s, mkState (node_id s) (last_heartbeat s) (missed_count s)
                               (is_online s) seq (recv_sequence s)) id (nodes h))
         [Send id msg; OnSent id seq] h.

(** The check of one node: its state, and whether it went offline now. *)
Definition check_state (now : Instant) (interval threshold : Z) (s : NodeHeartbeatState)
    : NodeHeartbeatState * bool :=
  if is_online s && (interval * 2 <? duration_since now (last_heartbeat s)) then
    let s := mkState (node_id s) (last_heartbeat s) (wrap 32 (missed_count s + 1)) true
               (send_sequence s) (recv_sequence s) in
    if should_be_offline threshold s
    then (mkState (node_id s) (last_heartbeat s) (missed_count s) false (send_sequence s)
            (recv_sequence s), true)
    else (s, false)
  else (s, false).
(** The check of all nodes, by a thread that was started with [threshold]. *)
Definition check_nodes (now : Instant) (threshold : Z) (h : HeartbeatManager) : HeartbeatManager :=
  let checked := check_state now (interval h) threshold <$> nodes h in
  set_nodes (fst <$> checked)
    ((λ e, OnOffline (node_id e.2.1)) <$> filter (λ e, e.2.2 = true) (map_to_list checked)) h.

(** One turn of the loop that [start] spawns, of the one thread there is, the threshold not changed since. *)
Definition turn (now : Instant) (unix : Z) (fails : NodeID → bool) (h : HeartbeatManager)
    : HeartbeatManager :=
  if running h then
    let h := foldl (λ h id, send_request unix fails id h) h (map_to_list (nodes h)).*1 in
    let h := mkManager (local_id h) (interval h) (offline_threshold h) (nodes h) (running h)
               (wrap 64 (next_sequence h + 1)) (calls h) in
    check_nodes now (offline_threshold h) h
  else h.
Definition set_running (b : bool) (h : HeartbeatManager) : HeartbeatManager :=
  mkManager (local_id h) (interval h) (offline_threshold h) (nodes h) b
    (if b then 0 else next_sequence h) (calls h).

Definition handle_heartbeat (now : Instant) (m : HeartbeatMessage) (h : HeartbeatManager)
    : HeartbeatManager :=
  let s := default (new_state now (sender_id m)) (nodes h !! sender_id m) in
  let s' := mkState (node_id s) now 0 true (send_sequence s) (sequence m) in
  set_nodes (<[sender_id m := s']> (nodes h))
    ((if is_online s then [] else [OnOnline (sender_id m)])
       ++ [OnReceived (sender_id m) (sequence m)]) h.
Definition send_response (unix : Z) (target : NodeID) (sequence : Z) (h : HeartbeatManager)
    : HeartbeatManager :=
  set_nodes (nodes h) [Send target (mkHb Response (local_id h) unix sequence)] h.
End HeartbeatManager.
Import HeartbeatManager.

(** ** The codec *)

Lemma from_bytes_parts t id ts sq rest :
  length id = 32%nat → length ts = 8%nat → length sq = 8%nat →
  HeartbeatMessage.from_bytes (t :: id ++ ts ++ sq ++ rest) =
  ty ← HeartbeatMsgType.from_u8 (Z_of_byte t);
  i ← to_arr32 id; Some (mkHb ty i (of_be ts) (of_be sq)).
Proof.
  intros Hi Ht Hs. unfold HeartbeatMessage.from_bytes.
  rewrite (proj2 (Nat.ltb_ge _ _)) by (cbn [length]; rewrite !length_app; lia).
  change (nth 0 (t :: id ++ ts ++ sq ++ rest) Byte.x00) with t.
  change (t :: id ++ ts ++ sq ++ rest) with ([t] ++ id ++ ts ++ sq ++ rest).
  rewrite (slice_mid 1 33 [t] id) by (by rewrite ?Hi).
  rewrite (app_assoc [t] id), (slice_mid 33 41 ([t] ++ id) ts)
    by (rewrite ?length_app, ?Hi, ?Ht; done).
  rewrite (app_assoc _ ts), (slice_mid 41 49 (([t] ++ id) ++ ts) sq)
    by (rewrite ?length_app, ?Hi, ?Ht, ?Hs; done).
  done.
Qed.

(** The heartbeat codec is exact: [from_bytes] succeeds on exactly the
    buffers that start with the 49-byte encoding of the message it returns. *)
Theorem heartbeat_codec_exact data m :
  HeartbeatMessage.from_bytes data = Some m ↔
  u64_ok (timestamp m) ∧ u64_ok (sequence m) ∧
  ∃ rest, data = HeartbeatMessage.to_bytes m ++ rest.
Proof.
  split.
  - intros Hd. destruct (decide (49 ≤ length data)%nat) as [Hl|Hl].
    2:{ unfold HeartbeatMessage.from_bytes in Hd.
        rewrite (proj2 (Nat.ltb_lt _ _)) in Hd by lia. done. }
    destruct data as [|t data]; [simpl in Hl; lia|]. cbn [length] in Hl.
    destruct (cut 32 data ltac:(lia)) as (id & d1 & -> & Hid). rewrite length_app in Hl.
    destruct (cut 8 d1 ltac:(lia)) as (ts & d2 & -> & Hts). rewrite length_app in Hl.
    destruct (cut 8 d2 ltac:(lia)) as (sq & rest & -> & Hsq).
    rewrite from_bytes_parts in Hd by done.
    destruct (HeartbeatMsgType.from_u8 (Z_of_byte t)) as [ty|] eqn:Ety; [|done].
    destruct (to_arr32 id) as [i|] eqn:Ei; [|done]. simpl in Hd. simplify_eq. cbn [timestamp sequence].
    apply to_arr32_Some in Ei.
    pose proof (of_be_range ts) as Hrt. pose proof (of_be_range sq) as Hrs.
    rewrite Hts in Hrt. rewrite Hsq in Hrs. split_and!; [exact Hrt|exact Hrs|].
    exists rest. unfold HeartbeatMessage.to_bytes. cbn [msg_type sender_id timestamp sequence].
    rewrite Ei, !be_bytes_of_be' by done. rewrite <-!app_assoc. cbn [app]. f_equal.
    rewrite <-(byte_of_Z_of_byte t) at 1. f_equal.
    unfold HeartbeatMsgType.from_u8 in Ety. by repeat case_match; simplify_eq.
  - intros (Ht & Hs & rest & ->). unfold HeartbeatMessage.to_bytes.
    rewrite <-!app_assoc. cbn [app].
    rewrite from_bytes_parts by (apply length_arr_bytes || apply length_be_bytes).
    rewrite to_arr32_arr_bytes, !of_be_be_bytes_id by done. by destruct m as [[] ? ? ?].
Qed.

(** ** Detection *)

Lemma send_request_state unix fails i h id s :
  nodes h !! id = Some s →
  ∃ s', nodes (send_request unix fails i h) !! id = Some s' ∧
    last_heartbeat s' = last_heartbeat s ∧ missed_count s' = missed_count s ∧
    is_online s' = is_online s ∧ interval (send_request unix fails i h) = interval h ∧
    offline_threshold (send_request unix fails i h) = offline_threshold h ∧
    running (send_request unix fails i h) = running h.
Proof.
  intros Hs. unfold send_request. destruct (fails i); simpl; [by exists s|].
  destruct (decide (i = id)) as [->|Hne].
  - rewrite lookup_alter_eq, Hs. eexists. split; [done|]. done.
  - rewrite lookup_alter_ne by done. by exists s.
Qed.

Lemma send_requests_state unix fails l h id s :
  nodes h !! id = Some s →
  let h' := foldl (λ h i, send_request unix fails i h) h l in
  ∃ s', nodes h' !! id = Some s' ∧
    last_heartbeat s' = last_heartbeat s ∧ missed_count s' = missed_count s ∧
    is_online s' = is_online s ∧ interval h' = interval h ∧
    offline_threshold h' = offline_threshold h ∧ running h' = running h.
Proof.
  revert h s. induction l as [|i l IH]; intros h s Hs; [by exists s|]. simpl.
  destruct (send_request_state unix fails i h id s Hs) as (s1 & Hs1 & <- & <- & <- & <- & <- & <-).
  by apply IH.
Qed.

(** The times of the turns at which the last heartbeat was too long ago. *)
Definition late (iv : Duration) (last : Instant) (ts : list Instant) : Z :=
  len (filter (λ t, iv * 2 < duration_since t last) ts).
Definition turns (unix : Z) (fails : NodeID → bool) (ts : list Instant) (h : HeartbeatManager)
    : HeartbeatManager := foldl (λ h t, turn t unix fails h) h ts.

Lemma turn_state unix fails t h id s :
  running h = true → nodes h !! id = Some s →
  (is_online s = true → 0 <= missed_count s < 2 ^ 32 - 1) →
  ∃ s', nodes (turn t unix fails h) !! id = Some s' ∧
    last_heartbeat s' = last_heartbeat s ∧
    (if is_online s && (interval h * 2 <? duration_since t (last_heartbeat s)) then
       missed_count s' = missed_count s + 1 ∧
       is_online s' = negb (offline_threshold h <=? missed_count s + 1)
     else missed_count s' = missed_count s ∧ is_online s' = is_online s) ∧
    interval (turn t unix fails h) = interval h ∧
    offline_threshold (turn t unix fails h) = offline_threshold h ∧
    running (turn t unix fails h) = true.
Proof.
  intros Hr Hs Hm. unfold turn. rewrite Hr.
  destruct (send_requests_state unix fails (map_to_list (nodes h)).*1 h id s Hs)
    as (s1 & Hs1 & Hl & Hc & Ho & Hiv & Hth & Hrun).
  set (h1 := foldl _ h _) in *. unfold check_nodes. cbn [nodes set_nodes interval offline_threshold running].
  rewrite !lookup_fmap, Hs1. eexists. split; [done|]. rewrite Hiv, Hth, Hrun.
  unfold check_state. rewrite Ho, Hl, Hc.
  destruct (is_online s && _) eqn:E; [|done].
  apply andb_true_iff in E as [E _].
  rewrite wrap_id by (specialize (Hm E); unfold fits; lia). unfold should_be_offline. cbn [missed_count].
  by destruct (offline_threshold h <=? missed_count s + 1).
Qed.

(** Failure detection.  A node in the table that sends nothing is marked
    offline exactly when the check has found it late (no heartbeat for two
    intervals) as often as the threshold says, and not before; its count of
    misses stops there; and any heartbeat from it puts it online with no
    misses, whatever it was. *)
Theorem offline_after_threshold unix fails ts h id s :
  running h = true → nodes h !! id = Some s → is_online s = true → missed_count s = 0 →
  1 <= offline_threshold h < 2 ^ 32 →
  (∃ s', nodes (turns unix fails ts h) !! id = Some s' ∧
     missed_count s' = Z.min (late (interval h) (last_heartbeat s) ts) (offline_threshold h) ∧
     (is_online s' = false ↔
        offline_threshold h <= late (interval h) (last_heartbeat s) ts)) ∧
  ∀ now m, sender_id m = id →
    ∃ s', nodes (handle_heartbeat now m (turns unix fails ts h)) !! id = Some s' ∧
      is_online s' = true ∧ missed_count s' = 0 ∧ last_heartbeat s' = now.
Proof.
  intros Hr Hs Ho Hm Hth. split.
  2:{ intros now m <-. unfold handle_heartbeat. simpl. rewrite lookup_insert_eq.
      eexists. split; [done|]. done. }
  assert (Hg : ∀ ts h s k, running h = true → nodes h !! id = Some s →
    1 <= offline_threshold h < 2 ^ 32 → 0 <= k → missed_count s = Z.min k (offline_threshold h) →
    (is_online s = false ↔ offline_threshold h <= k) →
    ∃ s', nodes (turns unix fails ts h) !! id = Some s' ∧
      missed_count s' = Z.min (k + late (interval h) (last_heartbeat s) ts) (offline_threshold h) ∧
      (is_online s' = false ↔
         offline_threshold h <= k + late (interval h) (last_heartbeat s) ts)).
  { clear. intros ts. induction ts as [|t ts IH]; intros h s k Hr Hs Hth Hk Hm Ho.
    { exists s. unfold late. simpl. by rewrite Z.add_0_r. }
    assert (Hon : is_online s = true → k < offline_threshold h).
    { intros E. apply Z.nle_gt. intros Hle. apply Ho in Hle. congruence. }
    destruct (turn_state unix fails t h id s Hr Hs ltac:(intros E; specialize (Hon E); lia))
      as (s1 & Hs1 & Hl & Hc & Hiv & Hth1 & Hr1).
    set (d := if interval h * 2 <? duration_since t (last_heartbeat s) then 1 else 0).
    assert (Hlate : late (interval h) (last_heartbeat s) (t :: ts) =
      d + late (interval h) (last_heartbeat s) ts).
    { unfold late, d. rewrite filter_cons.
      destruct (Z.ltb_spec (interval h * 2) (duration_since t (last_heartbeat s)));
        [rewrite decide_True by done|rewrite decide_False by lia]; cbn [length]; lia. }
    assert (Hd : 0 <= d <= 1) by (unfold d; destruct (_ <? _); lia).
    rewrite Hlate, Z.add_assoc. cbn [turns foldl].
    rewrite <-Hiv, <-Hl, <-Hth1. apply (IH _ s1); [done|done|by rewrite Hth1|lia| |];
      rewrite Hth1; unfold d; clear Hlate IH.
    - destruct (is_online s) eqn:Eo; simpl in Hc.
      + specialize (Hon eq_refl). destruct (_ <? _); destruct Hc as [-> _]; lia.
      + destruct Hc as [-> _]. pose proof (proj1 Ho eq_refl). destruct (_ <? _); lia.
    - destruct (is_online s) eqn:Eo; simpl in Hc.
      + specialize (Hon eq_refl). destruct (_ <? _); destruct Hc as [_ ->].
        * rewrite negb_false_iff, Z.leb_le. lia.
        * split; [done|lia].
      + destruct Hc as [_ ->]. pose proof (proj1 Ho eq_refl). destruct (_ <? _); split; done || lia. }
  destruct (Hg ts h s 0) as (s' & Hs' & Hm' & Ho'); try done; try lia.
  { rewrite Ho. split; [done|lia]. }
  rewrite Z.add_0_l in Hm', Ho'. by exists s'.
Qed.

(** ** Witnesses *)

Definition beat : HeartbeatMessage := mkHb Request zero32 1000 7.

Lemma heartbeat_codec_exact_witness :
  HeartbeatMessage.from_bytes (HeartbeatMessage.to_bytes beat ++ [Byte.x01]) = Some beat ↔
  u64_ok (timestamp beat) ∧ u64_ok (sequence beat) ∧
  ∃ rest, HeartbeatMessage.to_bytes beat ++ [Byte.x01] = HeartbeatMessage.to_bytes beat ++ rest.
Proof. apply heartbeat_codec_exact. Defined.

Definition watching : HeartbeatManager :=
  set_running true (add_node 0 zero32 (HeartbeatManager.new zero32)).
Definition three_late : list Instant := [from_secs 11; from_secs 16; from_secs 21].

Lemma offline_after_threshold_witness :
  ∃ s', nodes (turns 0 (λ _, false) three_late watching) !! zero32 = Some s' ∧
    is_online s' = false.
Proof.
  destruct (offline_after_threshold 0 (λ _, false) three_late watching zero32 (new_state 0 zero32))
    as [(s' & Hs' & _ & Ho) _];
    [reflexivity|reflexivity|reflexivity|reflexivity
    |split; [vm_compute; discriminate|reflexivity]|].
  exists s'. split; [exact Hs'|]. apply Ho. vm_compute. discriminate.
Defined.
