(* ===== verification/HeartbeatThreads.v ===== *)
(** * HeartbeatThreads: the monitoring threads of the heartbeat manager

    Models the threads that [HeartbeatManager::start] of crates/vpn/src/vpn/heartbeat.rs
    spawns: one for each call, since [start] does not look whether one runs.  A thread
    keeps the off-line threshold that the manager had when it was started: one set later holds for the
    threads started from then on.  (It also keeps the callback of then; the log of calls
    does not tell callbacks apart.)  A thread
    takes the lock of the nodes for the list of identifiers, again after each
    request that was sent, and again for the check; the methods of the manager, and
    other threads, come in between.  [Heartbeat.turn] is what one thread does when
    nothing comes in between ([undisturbed_turn]). *)
From S2P Require Import Prelude Identity Heartbeat.
Import HeartbeatManager.

(** Where a thread is: at the test of [running]; about to list the nodes; with requests to send; with
    a sequence number to note for a node; at the check; asleep; over. *)
Inductive Pc :=
| AtTest | AtList | AtSend (ids : list NodeID) | AtNote (id : NodeID) (ids : list NodeID)
| AtCheck | Asleep (since : Instant) | Over.
Record Thread := mkThread { pc : Pc; seq : Z; threshold : Z }.
Definition at_pc (p : Pc) (t : Thread) : Thread := mkThread p (seq t) (threshold t).

Record Sys := mkSys { manager : HeartbeatManager; threads : list Thread }.

(** A step of a thread; [None]: it sleeps, or is over. *)
Definition thread_step (now : Instant) (unix : Z) (fails : NodeID → bool) (h : HeartbeatManager)
    (t : Thread) : option (HeartbeatManager * Thread) :=
  match pc t with
  | AtTest => Some (h, at_pc (if running h then AtList else Over) t)
  | AtList => Some (h, at_pc (AtSend (map_to_list (nodes h)).*1) t)
  | AtSend [] => Some (h, mkThread AtCheck (wrap 64 (seq t + 1)) (threshold t))
  | AtSend (id :: ids) =>
      let h := set_nodes (nodes h) [Send id (mkHb Request (local_id h) unix (seq t))] h in
      Some (if fails id then (h, at_pc (AtSend ids) t)
            else (set_nodes (nodes h) [OnSent id (seq t)] h, at_pc (AtNote id ids) t))
  | AtNote id ids =>
      Some (set_nodes (alter (λ s, mkState (node_id s) (last_heartbeat s) (missed_count s) (is_online s)
                                     (seq t) (recv_sequence s)) id (nodes h)) [] h,
            at_pc (AtSend ids) t)
  | AtCheck => Some (check_nodes now (threshold t) h, at_pc (Asleep now) t)
  | Asleep since =>
      if interval h <=? duration_since now since then Some (h, at_pc AtTest t) else None
  | Over => None
  end.

Inductive Action :=
| Start | Stop | SetThreshold (t : Z) | Add (now : Instant) (id : NodeID) | Remove (id : NodeID)
| Handle (now : Instant) (m : HeartbeatMessage)
| Step (now : Instant) (unix : Z) (fails : NodeID → bool) (j : nat).

Definition on_manager (f : HeartbeatManager → HeartbeatManager) (s : Sys) : Sys :=
  mkSys (f (manager s)) (threads s).
Definition act (a : Action) (s : Sys) : option Sys :=
  match a with
  | Start => Some (mkSys (set_running true (manager s)) (threads s ++ [mkThread AtTest 0 (offline_threshold (manager s))]))
  | Stop => Some (on_manager (set_running false) s)
  | SetThreshold t => Some (on_manager (set_offline_threshold t) s)
  | Add now id => Some (on_manager (add_node now id) s)
  | Remove id => Some (on_manager (remove_node id) s)
  | Handle now m => Some (on_manager (handle_heartbeat now m) s)
  | Step now unix fails j =>
      t ← threads s !! j;
      '(h, t) ← thread_step now unix fails (manager s) t;
      Some (mkSys h (<[j := t]> (threads s)))
  end.
Fixpoint run (acts : list Action) (s : Sys) : option Sys :=
  match acts with [] => Some s | a :: acts => s ← act a s; run acts s end.

Lemma threads_run_app acts1 acts2 s : run (acts1 ++ acts2) s = s ← run acts1 s; run acts2 s.
Proof.
  revert s. induction acts1 as [|a acts1 IH]; intros s; [done|]. simpl.
  destruct (act a s); simpl; [apply IH|done].
Qed.

(** ** What a turn is when nothing comes in between *)

(** The two logs and tables agree; the coarse model keeps the sequence number of its one thread. *)
Definition same (h h' : HeartbeatManager) : Prop :=
  nodes h = nodes h' ∧ calls h = calls h' ∧ local_id h = local_id h' ∧ interval h = interval h'
  ∧ offline_threshold h = offline_threshold h' ∧ running h = running h'.

(** The steps of thread [j] that send to [ids]. *)
Fixpoint send_acts (now : Instant) (unix : Z) (fails : NodeID → bool) (j : nat) (ids : list NodeID) : list Action :=
  match ids with
  | [] => [Step now unix fails j]
  | id :: ids =>
      (if fails id then [Step now unix fails j] else [Step now unix fails j; Step now unix fails j])
        ++ send_acts now unix fails j ids
  end.
Definition turn_acts (now : Instant) (unix : Z) (fails : NodeID → bool) (j : nat) (h : HeartbeatManager) : list Action :=
  let step := Step now unix fails j in
  step :: step :: send_acts now unix fails j (map_to_list (nodes h)).*1 ++ [step].

Lemma threads_act_step now unix fails j h ts t h' t' :
  ts !! j = Some t → thread_step now unix fails h t = Some (h', t') →
  act (Step now unix fails j) (mkSys h ts) = Some (mkSys h' (<[j := t']> ts)).
Proof. intros Hj Ht. simpl. rewrite Hj. simpl. by rewrite Ht. Qed.

Lemma send_acts_run now unix fails j th ids : ∀ h0 h ts n,
  ts !! j = Some (mkThread (AtSend ids) n th) → same h h0 → next_sequence h0 = n →
  ∃ h', run (send_acts now unix fails j ids) (mkSys h ts)
          = Some (mkSys h' (<[j := mkThread AtCheck (wrap 64 (n + 1)) th]> ts))
    ∧ same h' (foldl (λ h i, send_request unix fails i h) h0 ids)
    ∧ next_sequence (foldl (λ h i, send_request unix fails i h) h0 ids) = n.
Proof.
  induction ids as [|i ids IH]; intros h0 h ts n Hj Hs Hn; cbn [send_acts run].
  { erewrite threads_act_step by done. by eexists. }
  pose proof (lookup_lt_Some _ _ _ Hj) as Hlt. subst n.
  destruct Hs as (E1 & E2 & E3 & E4 & E5 & E6). destruct (fails i) eqn:Ef; cbn [app run foldl].
  - erewrite threads_act_step; [|exact Hj|unfold thread_step; cbn [pc seq threshold]; by rewrite Ef]. cbn [mbind option_bind].
    edestruct (IH (send_request unix fails i h0)) as (h' & -> & Hs' & Hn');
      [by apply list_lookup_insert_eq| | |exists h'; rewrite list_insert_insert_eq; by split_and!].
    + unfold send_request. rewrite Ef. split_and!; simpl; congruence.
    + unfold send_request. by rewrite Ef.
  - erewrite threads_act_step; [|exact Hj|unfold thread_step; cbn [pc seq threshold]; by rewrite Ef]. cbn [mbind option_bind].
    erewrite threads_act_step; [|by apply list_lookup_insert_eq|done]. cbn [mbind option_bind].
    rewrite list_insert_insert_eq.
    edestruct (IH (send_request unix fails i h0)) as (h' & -> & Hs' & Hn');
      [by apply list_lookup_insert_eq| | |exists h'; rewrite list_insert_insert_eq; by split_and!].
    + unfold send_request. rewrite Ef. split_and!; simpl; try congruence.
      by rewrite E2, E3, <-!app_assoc.
    + unfold send_request. by rewrite Ef.
Qed.

Lemma check_nodes_same now th h h' : same h h' → same (check_nodes now th h) (check_nodes now th h').
Proof.
  intros (E1 & E2 & E3 & E4 & E5 & E6). unfold check_nodes, same. simpl.
  rewrite E1, E2, E3, E4, E5, E6. done.
Qed.

Lemma send_requests_threshold unix fails ids : ∀ h,
  offline_threshold (foldl (λ h id, send_request unix fails id h) h ids) = offline_threshold h.
Proof.
  induction ids as [|id ids IH]; intros h; [done|]. simpl. rewrite IH. unfold send_request. by destruct (fails id).
Qed.

(** A thread that nothing disturbs, started with the threshold the manager has, does, from one test of [running] to its sleep, what [Heartbeat.turn]
    does: the same calls in the same order, the same table. *)
Theorem undisturbed_turn now unix fails j h ts :
  running h = true → ts !! j = Some (mkThread AtTest (next_sequence h) (offline_threshold h)) →
  ∃ h', run (turn_acts now unix fails j h) (mkSys h ts)
          = Some (mkSys h' (<[j := mkThread (Asleep now) (next_sequence (turn now unix fails h)) (offline_threshold h)]> ts))
    ∧ same h' (turn now unix fails h).
Proof.
  intros Hr Hj. pose proof (lookup_lt_Some _ _ _ Hj) as Hlt. unfold turn_acts. cbv zeta. cbn [run].
  erewrite threads_act_step; [|exact Hj|unfold thread_step; cbn [pc seq threshold]; by rewrite Hr]. cbn [mbind option_bind].
  erewrite threads_act_step; [|by apply list_lookup_insert_eq|done]. cbn [mbind option_bind]; unfold at_pc; cbn [seq threshold].
  rewrite list_insert_insert_eq, threads_run_app.
  destruct (send_acts_run now unix fails j (offline_threshold h) (map_to_list (nodes h)).*1 h h
              (<[j:=mkThread (AtSend (map_to_list (nodes h)).*1) (next_sequence h) (offline_threshold h)]> ts) (next_sequence h))
    as (h' & -> & Hs & Hn); [by apply list_lookup_insert_eq|done|done|].
  cbn [mbind option_bind run]. rewrite list_insert_insert_eq.
  erewrite threads_act_step; [|by apply list_lookup_insert_eq|done]. cbn [mbind option_bind]; unfold at_pc; cbn [seq threshold].
  rewrite list_insert_insert_eq. unfold turn. rewrite Hr, <-Hn. eexists. split; [done|].
  cbn [offline_threshold threshold]. rewrite send_requests_threshold.
  apply check_nodes_same. destruct Hs as (? & ? & ? & ? & Et & ?). rewrite send_requests_threshold in Et.
  by split_and!.
Qed.

(** ** Silent nodes *)

(** Nothing is heard from the node, and it is not taken out. *)
Definition silent (id : NodeID) (a : Action) : bool :=
  match a with
  | Handle _ m => bool_decide (sender_id m ≠ id)
  | Remove i => bool_decide (i ≠ id)
  | _ => true
  end.

(** What is given as a threshold is a [u32]. *)
Definition typed (a : Action) : Prop := match a with SetThreshold t => fits 32 t | _ => True end.
Definition sys_typed (s : Sys) : Prop :=
  fits 32 (offline_threshold (manager s)) ∧ Forall (λ t, fits 32 (threshold t)) (threads s).

(** The action is a check, by any of the threads, that finds the node late: the threshold of the thread. *)
Definition checks_late (id : NodeID) (a : Action) (s : Sys) : option Z :=
  match a with
  | Step now _ _ j =>
      match threads s !! j, nodes (manager s) !! id with
      | Some (mkThread AtCheck _ th), Some st =>
          if interval (manager s) * 2 <? duration_since now (last_heartbeat st) then Some th else None
      | _, _ => None
      end
  | _ => None
  end.
(** The late checks of a run, each with the threshold of the thread that made it. *)
Fixpoint late_checks (id : NodeID) (acts : list Action) (s : Sys) : list Z :=
  match acts with
  | [] => []
  | a :: acts =>
      option_list (checks_late id a s)
        ++ match act a s with Some s' => late_checks id acts s' | None => [] end
  end.

(** What an action makes of the state of a silent node: [late] is the threshold of a late check. *)
Definition node_moved (late : option Z) (st st' : NodeHeartbeatState) : Prop :=
  last_heartbeat st' = last_heartbeat st
  ∧ match (if is_online st then late else None) with
    | Some threshold => missed_count st' = missed_count st + 1
                        ∧ is_online st' = negb (threshold <=? missed_count st + 1)
    | None => missed_count st' = missed_count st ∧ is_online st' = is_online st
    end.

Lemma node_kept st st' :
  last_heartbeat st' = last_heartbeat st → missed_count st' = missed_count st →
  is_online st' = is_online st → node_moved None st st'.
Proof. intros. split; [done|]. by destruct (is_online st). Qed.

Lemma check_state_moved now iv threshold st :
  (is_online st = true → 0 <= missed_count st < 2 ^ 32 - 1) →
  node_moved (if iv * 2 <? duration_since now (last_heartbeat st) then Some threshold else None) st
    (check_state now iv threshold st).1.
Proof.
  intros Hm. unfold check_state, node_moved. destruct (is_online st) eqn:Eo; [|done].
  destruct (_ <? _); [|done]. cbn [andb].
  rewrite wrap_id by (specialize (Hm eq_refl); unfold fits; lia).
  unfold should_be_offline. cbn [missed_count]. by destruct (threshold <=? missed_count st + 1).
Qed.

Lemma thread_step_node now unix fails h t h' t' id st :
  thread_step now unix fails h t = Some (h', t') → nodes h !! id = Some st →
  (is_online st = true → 0 <= missed_count st < 2 ^ 32 - 1) →
  interval h' = interval h ∧ offline_threshold h' = offline_threshold h ∧ threshold t' = threshold t
  ∧ ∃ st', nodes h' !! id = Some st'
      ∧ node_moved
          (match pc t with
           | AtCheck => if interval h * 2 <? duration_since now (last_heartbeat st) then Some (threshold t) else None
           | _ => None
           end) st st'.
Proof.
  intros Ht Hst Hm. unfold thread_step in Ht.
  destruct (pc t) as [| |[|i ids]|i ids| |since|].
  - injection Ht as <- <-. split_and!; [done..|]. exists st. split; [done|by apply node_kept].
  - injection Ht as <- <-. split_and!; [done..|]. exists st. split; [done|by apply node_kept].
  - injection Ht as <- <-. split_and!; [done..|]. exists st. split; [done|by apply node_kept].
  - destruct (fails i); injection Ht as <- <-; (split_and!; [done..|]; exists st; split; [done|by apply node_kept]).
  - injection Ht as <- <-. split_and!; [done..|]. simpl. destruct (decide (i = id)) as [->|Hne].
    + rewrite lookup_alter_eq, Hst. eexists. split; [done|by apply node_kept].
    + rewrite lookup_alter_ne by done. exists st. split; [done|by apply node_kept].
  - injection Ht as <- <-. split_and!; [done..|]. simpl. rewrite !lookup_fmap, Hst.
    eexists. split; [done|]. by apply check_state_moved.
  - destruct (_ <=? _); [|done]. injection Ht as <- <-. split_and!; [done..|].
    exists st. split; [done|by apply node_kept].
  - done.
Qed.

Lemma act_node a s s' id st :
  silent id a = true → act a s = Some s' → nodes (manager s) !! id = Some st →
  (is_online st = true → 0 <= missed_count st < 2 ^ 32 - 1) →
  ∃ st', nodes (manager s') !! id = Some st' ∧ node_moved (checks_late id a s) st st'.
Proof.
  intros Hsil Ha Hst Hm.
  destruct a as [| |u|now i|i|now m|now unix fails j]; simpl in Ha, Hsil |- *; try injection Ha as <-.
  - exists st. split; [done|by apply node_kept].
  - exists st. split; [done|by apply node_kept].
  - exists st. split; [done|by apply node_kept].
  - exists st. split; [|by apply node_kept]. simpl. unfold add_node.
    destruct (nodes (manager s) !! i) eqn:Ei; [done|]. simpl. by rewrite lookup_insert_ne by congruence.
  - apply bool_decide_eq_true in Hsil. exists st. split; [|by apply node_kept]. simpl. by rewrite lookup_delete_ne.
  - apply bool_decide_eq_true in Hsil. exists st. split; [|by apply node_kept]. simpl. by rewrite lookup_insert_ne.
  - destruct (threads s !! j) as [t|]; [|done]. simpl in Ha.
    destruct (thread_step now unix fails (manager s) t) as [[h' t']|] eqn:Et; [|done].
    injection Ha as <-. rewrite Hst.
    destruct (thread_step_node _ _ _ _ _ _ _ id st Et Hst Hm) as (_ & _ & _ & st' & ? & Hmv).
    exists st'. split; [done|]. by destruct t as [[] ? ?].
Qed.

(** Thresholds stay [u32]s, and those of the late checks are. *)
Lemma act_typed a s s' : act a s = Some s' → typed a → sys_typed s → sys_typed s'.
Proof.
  intros Ha Hty [Hm Ht]. destruct a as [| |u|now i|i|now m|now unix fails j]; simpl in Ha; try injection Ha as <-.
  - split; [done|]. apply Forall_app. split; [done|by apply Forall_singleton].
  - done.
  - done.
  - split; [|done]. simpl. unfold add_node. by destruct (nodes (manager s) !! i).
  - done.
  - done.
  - destruct (threads s !! j) as [t|] eqn:Ej; [|done]. simpl in Ha.
    destruct (thread_step now unix fails (manager s) t) as [[h' t']|] eqn:Et; [|done]. injection Ha as <-.
    assert (offline_threshold h' = offline_threshold (manager s) ∧ threshold t' = threshold t) as [Eh E].
    { unfold thread_step in Et. repeat case_match; by simplify_eq. }
    split; simpl; [by rewrite Eh|]. apply Forall_insert; [done|]. rewrite E. exact (Forall_lookup_1 _ _ _ _ Ht Ej).
Qed.
Lemma checks_late_typed id a s th : checks_late id a s = Some th → sys_typed s → fits 32 th.
Proof.
  intros E [_ Ht]. destruct a as [| | | | | |now unix fails j]; try done. simpl in E.
  destruct (threads s !! j) as [[[] n th']|] eqn:Ej; try done. destruct (nodes (manager s) !! id); [|done].
  destruct (_ <? _); [|done]. injection E as <-. exact (Forall_lookup_1 _ _ _ _ Ht Ej).
Qed.

(** What the late checks [ts] so far make of a node: the first that brings the misses to its threshold
    puts it off-line, and none counts after it. *)
Definition reaches (i : nat) (ts : list Z) : Prop := ∃ t, ts !! i = Some t ∧ t <= Z.of_nat i + 1.
Definition counted (ts : list Z) (st : NodeHeartbeatState) : Prop :=
  if is_online st then missed_count st = Z.of_nat (length ts) ∧ ∀ i, ¬ reaches i ts
  else ∃ i : nat, missed_count st = Z.of_nat i + 1 ∧ reaches i ts ∧ ∀ j : nat, (j < i)%nat → ¬ reaches j ts.

Lemma reaches_before ts us (i : nat) : (i < length ts)%nat → reaches i (ts ++ us) ↔ reaches i ts.
Proof. intros Hi. unfold reaches. by rewrite lookup_app_l by done. Qed.
Lemma reaches_bound ts (i : nat) : reaches i ts → (i < length ts)%nat.
Proof. intros (t & Ht & _). by eapply lookup_lt_Some. Qed.
Lemma reaches_last ts th : reaches (length ts) (ts ++ [th]) ↔ th <= Z.of_nat (length ts) + 1.
Proof.
  unfold reaches. rewrite list_lookup_middle by done. split; [by intros (t & [= ->] & ?)|by eauto].
Qed.

Lemma counted_moved ts late st st' :
  counted ts st → node_moved late st st' → counted (ts ++ option_list late) st'.
Proof.
  intros Hc [_ Hmv]. unfold counted in *. destruct (is_online st) eqn:Eo.
  - destruct Hc as [Hm Hn]. destruct late as [th|]; cbn [option_list] in *.
    + destruct Hmv as [Hm' ->]. rewrite Hm in *. destruct (Z.leb_spec th (Z.of_nat (length ts) + 1)) as [Hle|Hgt]; cbn [negb].
      * exists (length ts). split_and!; [done|by apply reaches_last|].
        intros j Hj. rewrite reaches_before by done. apply Hn.
      * split; [rewrite length_app; simpl; lia|]. intros i Hi. pose proof (reaches_bound _ _ Hi) as Hb.
        rewrite length_app in Hb. simpl in Hb. destruct (decide (i = length ts)) as [->|].
        { apply reaches_last in Hi. lia. }
        apply (Hn i). by rewrite reaches_before in Hi by lia.
    + destruct Hmv as [-> ->]. by rewrite app_nil_r.
  - destruct Hmv as [-> ->]. destruct Hc as (i & Hm & Hi & Hf). pose proof (reaches_bound _ _ Hi).
    exists i. split_and!; [done|by apply reaches_before|]. intros j Hj. rewrite reaches_before by lia. by apply Hf.
Qed.

(** An on-line node can be missed once more. *)
Lemma counted_bound ts st :
  Forall (fits 32) ts → counted ts st → is_online st = true → 0 <= missed_count st < 2 ^ 32 - 1.
Proof.
  intros Hf Hc Ho. unfold counted in Hc. rewrite Ho in Hc. destruct Hc as [-> Hn]. split; [lia|].
  apply Z.nle_gt. intros Hle. destruct (lookup_lt_is_Some_2 ts (length ts - 1)) as [t Ht]; [lia|].
  apply (Hn (length ts - 1)%nat). exists t. split; [done|].
  eapply Forall_lookup_1 in Hf; [|exact Ht]. unfold fits in Hf. lia.
Qed.

Lemma late_checks_counted id acts : ∀ s s' st ts,
  run acts s = Some s' → Forall (λ a, silent id a = true) acts → Forall typed acts →
  nodes (manager s) !! id = Some st → sys_typed s → Forall (fits 32) ts → counted ts st →
  ∃ st', nodes (manager s') !! id = Some st' ∧ last_heartbeat st' = last_heartbeat st
    ∧ counted (ts ++ late_checks id acts s) st'.
Proof.
  induction acts as [|a acts IH]; intros s s' st ts; cbn [run late_checks].
  { intros [= <-] _ _ Hst _ _ Hc. exists st. by rewrite app_nil_r. }
  intros (s1 & Ea & Hr)%bind_Some [Hsil Hall]%Forall_cons [Hty Htys]%Forall_cons Hst Hs Hf Hc. rewrite Ea.
  destruct (act_node a s s1 id st Hsil Ea Hst) as (st1 & Hst1 & Hmv).
  { intros Ho. by eapply counted_bound. }
  rewrite <-(proj1 Hmv), app_assoc. apply (IH s1); try done.
  - by eapply act_typed.
  - apply Forall_app. split; [done|]. destruct (checks_late id a s) as [th|] eqn:El; [|constructor].
    repeat constructor; by eapply checks_late_typed in El as [].
  - by eapply counted_moved.
Qed.

(** Threads of one threshold: the misses add up to it. *)
Lemma counted_uniform ts st T :
  1 <= T → Forall (eq T) ts → counted ts st →
  missed_count st = Z.min (Z.of_nat (length ts)) T ∧ (is_online st = false ↔ T <= Z.of_nat (length ts)).
Proof.
  intros HT Hall Hc. unfold counted in Hc.
  assert (Hr : ∀ i : nat, (i < length ts)%nat → T <= Z.of_nat i + 1 → reaches i ts).
  { intros i [t Ht]%lookup_lt_is_Some_2 Hle. exists t. split; [done|].
    eapply Forall_lookup_1 in Hall; [|exact Ht]. by subst. }
  destruct (is_online st).
  - destruct Hc as [-> Hn]. assert (Z.of_nat (length ts) < T); [|split; [lia|split; [done|lia]]].
    apply Z.nle_gt. intros Hle. apply (Hn (Z.to_nat (T - 1))), Hr; lia.
  - destruct Hc as (i & -> & Hi & Hf). pose proof (reaches_bound _ _ Hi). destruct Hi as (t & Ht & Hle).
    eapply Forall_lookup_1 in Hall; [|exact Ht]. subst t.
    assert (Z.of_nat i + 1 <= T); [|split; [lia|split; [lia|done]]].
    apply Z.nlt_ge. intros Hlt. apply (Hf (Z.to_nat (T - 1))), Hr; lia.
Qed.

(** C39: Whatever the interleaving of the threads, the methods - a change of the off-line threshold included - and
    the messages of others, a node from which nothing is heard misses one heartbeat at each check,
    by whichever thread, that finds it late, until one of them brings the misses to the threshold
    its thread was started with: that check puts the node off-line, and no later one counts.
    When all of these threads have the same threshold, the misses are as many as
    the late checks of all threads together, up to the threshold, and the node is
    off-line exactly when they reached it: with two threads it has half the time. *)
Theorem silent_node_counted id acts s s' st :
  run acts s = Some s' → Forall (λ a, silent id a = true) acts → Forall typed acts →
  nodes (manager s) !! id = Some st → is_online st = true → missed_count st = 0 → sys_typed s →
  let ts := late_checks id acts s in
  ∃ st', nodes (manager s') !! id = Some st' ∧ last_heartbeat st' = last_heartbeat st
    ∧ (if is_online st' then missed_count st' = Z.of_nat (length ts) ∧ ∀ i, ¬ reaches i ts
       else ∃ i : nat, missed_count st' = Z.of_nat i + 1 ∧ reaches i ts ∧ ∀ j : nat, (j < i)%nat → ¬ reaches j ts)
    ∧ ∀ T, 1 <= T → Forall (eq T) ts →
        missed_count st' = Z.min (Z.of_nat (length ts)) T ∧ (is_online st' = false ↔ T <= Z.of_nat (length ts)).
Proof.
  intros Hr Hall Hty Hst Ho Hm Hs ts.
  destruct (late_checks_counted id acts s s' st [] Hr Hall Hty Hst Hs) as (st' & Hst' & Hl & Hc).
  - constructor.
  - unfold counted. rewrite Ho, Hm. split; [done|]. by intros i ?%reaches_bound%Nat.nlt_0_r.
  - exists st'. split_and!; [done..|]. intros T HT Ht. by eapply counted_uniform.
Qed.

(** A threshold set while a thread runs holds for the threads started later: the running one keeps
    its own. *)
Theorem threshold_kept acts : ∀ s s' j t,
  run acts s = Some s' → threads s !! j = Some t →
  ∃ t', threads s' !! j = Some t' ∧ threshold t' = threshold t.
Proof.
  induction acts as [|a acts IH]; intros s s' j t; cbn [run]; [intros [= <-]; by exists t|].
  intros (s1 & Ea & Hr)%bind_Some Hj.
  assert (∃ t1, threads s1 !! j = Some t1 ∧ threshold t1 = threshold t) as (t1 & Hj1 & <-); [|by eapply IH].
  destruct a as [| |u|now i|i|now m|now unix fails k]; simpl in Ea; try (injection Ea as <-; by exists t).
  - injection Ea as <-. exists t. split; [by apply lookup_app_l_Some|done].
  - destruct (threads s !! k) as [tk|] eqn:Ek; [|done]. simpl in Ea.
    destruct (thread_step now unix fails (manager s) tk) as [[h' t']|] eqn:Et; [|done]. injection Ea as <-. cbn [threads].
    destruct (decide (k = j)) as [->|Hne]; [|exists t; by rewrite list_lookup_insert_ne].
    exists t'. rewrite list_lookup_insert_eq by by eapply lookup_lt_Some. split; [done|]. simplify_eq.
    unfold thread_step in Et. repeat case_match; by simplify_eq.
Qed.

(** ** Starting again *)

Definition alive (t : Thread) : bool := match pc t with Over => false | _ => true end.
Definition not_stop (a : Action) : bool := match a with Stop => false | _ => true end.

Lemma thread_step_running now unix fails h t h' t' :
  thread_step now unix fails h t = Some (h', t') →
  running h' = running h ∧ interval h' = interval h ∧ (running h = true → alive t = true → alive t' = true).
Proof.
  unfold thread_step, alive. destruct (pc t) as [| |[|i ids]|i ids| |since|].
  - intros [= <- <-]. split_and!; [done..|]. by intros ->.
  - intros [= <- <-]. by split_and!.
  - intros [= <- <-]. by split_and!.
  - destruct (fails i); intros [= <- <-]; by split_and!.
  - intros [= <- <-]. by split_and!.
  - intros [= <- <-]. by split_and!.
  - destruct (_ <=? _); [intros [= <- <-]; by split_and!|done].
  - done.
Qed.

Lemma act_alive a s s' j t :
  act a s = Some s' → not_stop a = true → running (manager s) = true →
  threads s !! j = Some t → alive t = true →
  running (manager s') = true ∧ ∃ t', threads s' !! j = Some t' ∧ alive t' = true.
Proof.
  intros Ha Hns Hr Hj Ht.
  destruct a as [| |u|now i|i|now m|now unix fails k]; simpl in Ha; try done; try injection Ha as <-.
  - split; [done|]. exists t. split; [by apply lookup_app_l_Some|done].
  - split; [done|by exists t].
  - split; [|by exists t]. simpl. unfold add_node. by destruct (nodes (manager s) !! i).
  - split; [done|by exists t].
  - split; [done|by exists t].
  - destruct (threads s !! k) as [tk|] eqn:Ek; [|done]. simpl in Ha.
    destruct (thread_step now unix fails (manager s) tk) as [[h' t']|] eqn:Et; [|done].
    injection Ha as <-. apply thread_step_running in Et as (Er & _ & Hal). simpl.
    split; [congruence|]. destruct (decide (k = j)) as [->|Hne].
    + exists t'. rewrite list_lookup_insert_eq by by eapply lookup_lt_Some. simplify_eq. auto.
    + exists t. by rewrite list_lookup_insert_ne.
Qed.
Lemma run_alive acts : ∀ s s' j t,
  run acts s = Some s' → Forall (λ a, not_stop a = true) acts → running (manager s) = true →
  threads s !! j = Some t → alive t = true → ∃ t', threads s' !! j = Some t' ∧ alive t' = true.
Proof.
  induction acts as [|a acts IH]; intros s s' j t; simpl; [intros [= <-]; by exists t|].
  intros (s1 & Ea & Hrun)%bind_Some [Ha Hall]%Forall_cons Hr Hj Ht.
  destruct (act_alive a s s1 j t Ea Ha Hr Hj Ht) as (Hr1 & t1 & Hj1 & Ht1). by eapply IH.
Qed.

(** A thread asleep is left alone by everything that happens before its time. *)
Lemma act_asleep a s s' j t0 n th :
  act a s = Some s' → threads s !! j = Some (mkThread (Asleep t0) n th) →
  match a with Step now _ _ _ => duration_since now t0 < interval (manager s) | _ => True end →
  threads s' !! j = Some (mkThread (Asleep t0) n th) ∧ interval (manager s') = interval (manager s).
Proof.
  intros Ha Hj Hb. destruct a as [| |u|now i|i|now m|now unix fails k]; simpl in Ha; try injection Ha as <-.
  - split; [by apply lookup_app_l_Some|done].
  - done.
  - done.
  - split; [done|]. simpl. unfold add_node. by destruct (nodes (manager s) !! i).
  - done.
  - done.
  - destruct (threads s !! k) as [tk|] eqn:Ek; [|done]. simpl in Ha.
    destruct (thread_step now unix fails (manager s) tk) as [[h' t']|] eqn:Et; [|done].
    injection Ha as <-. pose proof (thread_step_running _ _ _ _ _ _ _ Et) as (_ & Ei & _).
    split; [|done]. simpl. destruct (decide (k = j)) as [->|Hne]; [|by rewrite list_lookup_insert_ne].
    simplify_eq. unfold thread_step in Et. simpl in Et. rewrite (proj2 (Z.leb_gt _ _)) in Et by done. done.
Qed.
Lemma run_asleep acts : ∀ s s' j t0 n th,
  run acts s = Some s' → threads s !! j = Some (mkThread (Asleep t0) n th) →
  Forall (λ a, match a with Step now _ _ _ => duration_since now t0 < interval (manager s) | _ => True end) acts →
  threads s' !! j = Some (mkThread (Asleep t0) n th).
Proof.
  induction acts as [|a acts IH]; intros s s' j t0 n th; simpl; [by intros [= <-]|].
  intros (s1 & Ea & Hrun)%bind_Some Hj [Ha Hall]%Forall_cons.
  destruct (act_asleep a s s1 j t0 n th Ea Hj Ha) as [Hj1 Ei]. eapply IH; [done..|]. by rewrite Ei.
Qed.

(** Stopping and starting again while a thread sleeps does not end it: it finds [running] set when it
    wakes.  From then on there are two threads, the old and the new, and both last until the
    next [stop]. *)
Theorem restart_keeps_old_thread s s1 s2 j t0 n th between later :
  threads s !! j = Some (mkThread (Asleep t0) n th) →
  run (Stop :: between ++ [Start]) s = Some s1 →
  Forall (λ a, match a with Step now _ _ _ => duration_since now t0 < interval (manager s) | _ => True end) between →
  run later s1 = Some s2 → Forall (λ a, not_stop a = true) later →
  ∃ k old new, j ≠ k ∧ threads s2 !! j = Some old ∧ alive old = true
    ∧ threads s2 !! k = Some new ∧ alive new = true.
Proof.
  intros Hj Hr1 Hb Hr2 Hl. cbn [run] in Hr1. apply bind_Some in Hr1 as (s0 & E0 & Hr1).
  rewrite threads_run_app in Hr1. apply bind_Some in Hr1 as (sb & Eb & Hr1).
  injection E0 as <-. simpl in Hr1. injection Hr1 as <-.
  assert (Hjb : threads sb !! j = Some (mkThread (Asleep t0) n th)) by by eapply run_asleep in Eb.
  destruct (run_alive later _ s2 j (mkThread (Asleep t0) n th) Hr2 Hl) as (old & Hold & Ho); [done| |done|].
  { by apply lookup_app_l_Some. }
  destruct (run_alive later _ s2 (length (threads sb)) (mkThread AtTest 0 (offline_threshold (manager sb))) Hr2 Hl) as (new & Hnew & Hn);
    [done| |done|].
  { simpl. rewrite lookup_app_r, Nat.sub_diag by lia. done. }
  exists (length (threads sb)), old, new. split_and!; try done.
  apply lookup_lt_Some in Hjb. lia.
Qed.

(** ** Witnesses *)

Definition idle_manager : HeartbeatManager := add_node 0 zero32 (HeartbeatManager.new zero32).
Definition steps (at_secs : Z) (j n : nat) : list Action :=
  replicate n (Step (from_secs at_secs) 0 (λ _, false) j).

(** A thread that runs at 1 and sleeps; the manager is stopped and started at 2. *)
Definition first_turn : list Action := Start :: steps 1 0 6.
Definition one_thread : Sys := default (mkSys idle_manager []) (run first_turn (mkSys idle_manager [])).
Definition two_threads : Sys := default one_thread (run [Stop; Start] one_thread).
(** Both threads wake every five seconds: from 11 on each check is late. *)
Definition four_checks : list Action :=
  steps 2 1 6 ++ steps 6 0 7 ++ steps 7 1 7 ++ steps 11 0 7 ++ steps 12 1 7 ++ steps 16 0 7.
Definition after_checks : Sys := default two_threads (run four_checks two_threads).

(** The threshold set to 1 while the first thread runs: its late check, at 11, counts one miss of its three;
    that of the second thread, at 12, puts the node off-line. *)
Example mixed_thresholds :
  let s := default one_thread (run [SetThreshold 1; Stop; Start] one_thread) in
  let acts := steps 2 1 6 ++ steps 6 0 7 ++ steps 7 1 7 ++ steps 11 0 7 in
  let node acts := s' ← run acts s; st ← nodes (manager s') !! zero32; Some (missed_count st, is_online st) in
  late_checks zero32 (acts ++ steps 12 1 7) s = [3; 1]
  ∧ node acts = Some (1, true) ∧ node (acts ++ steps 12 1 7) = Some (2, false).
Proof. vm_compute. done. Qed.

Lemma undisturbed_turn_witness :
  ∃ h', run (turn_acts 9 0 (λ _, false) 0 watching) (mkSys watching [mkThread AtTest 0 (offline_threshold watching)])
    = Some (mkSys h' [mkThread (Asleep 9) 1 (offline_threshold watching)]) ∧ same h' (turn 9 0 (λ _, false) watching).
Proof.
  destruct (undisturbed_turn 9 0 (λ _, false) 0 watching [mkThread AtTest 0 (offline_threshold watching)]) as (h' & E & Hs);
    [reflexivity|reflexivity|].
  exists h'. split; [|exact Hs]. rewrite E. by do 2 f_equal.
Defined.

(** With two threads of the same threshold the third late check comes at 16 seconds, not at 21. *)
Lemma silent_node_counted_witness :
  late_checks zero32 four_checks two_threads = [3; 3; 3]
  ∧ ∃ st', nodes (manager after_checks) !! zero32 = Some st' ∧ missed_count st' = 3 ∧ is_online st' = false.
Proof.
  split; [vm_compute; reflexivity|].
  destruct (silent_node_counted zero32 four_checks two_threads after_checks
              (mkState zero32 0 0 true 0 0)) as (st' & Hst & _ & _ & Hu);
    [vm_compute; reflexivity| | |vm_compute; reflexivity|done|done| |].
  { repeat constructor. }
  { repeat constructor. }
  { split; [rewrite (eq_refl : offline_threshold (manager two_threads) = 3); unfold fits; lia|].
    apply (Forall_fmap threshold (fits 32)).
    replace (threshold <$> threads two_threads) with [3; 3] by (vm_compute; reflexivity).
    repeat constructor; unfold fits; lia. }
  destruct (Hu 3) as [Hm Ho]; [lia|vm_compute; repeat constructor|].
  exists st'. split; [exact Hst|]. split; [rewrite Hm; vm_compute; reflexivity|].
  apply Ho. vm_compute. discriminate.
Defined.

Lemma restart_keeps_old_thread_witness :
  ∃ k old new, 0%nat ≠ k ∧ threads after_checks !! 0%nat = Some old ∧ alive old = true
    ∧ threads after_checks !! k = Some new ∧ alive new = true.
Proof.
  apply (restart_keeps_old_thread one_thread two_threads after_checks 0 (from_secs 1) 1 3 [] four_checks);
    [vm_compute; reflexivity|vm_compute; reflexivity|constructor|vm_compute; reflexivity|repeat constructor].
Defined.
