(* ===== verification/Dht.v ===== *)
(** * Dht: the Kademlia routing table, value store and messages

    Models crates/vpn/src/vpn/dht.rs.  The 256 buckets are a list; the
    monotonic clock is the argument [now], the Unix clock [unix]; SHA-256 is
    the class [Sha256Crate].  The relay-layer wrapper of a DHT message is
    [Relay.Message]. *)
From S2P Require Import Prelude Identity Relay.

Definition K_BUCKET_SIZE : nat := 20.
Definition BUCKET_COUNT : nat := 256.
Definition DEFAULT_VALUE_TTL : Z := 3600.
Definition REFRESH_INTERVAL_SECS : Z := 300.
Definition NODE_TIMEOUT_SECS : Z := 600.
Definition DEFAULT_DHT_PORT : Z := 9885.

Inductive DhtError :=
| NodeUnreachable (id : NodeID) | RoutingTableFull | ValueNotFound
| InvalidMessage (msg : string) | DhtTimeout.
Definition DhtError_display `{HexCrate} (e : DhtError) : string :=
  match e with
  | NodeUnreachable id => "node unreachable: " +:+ NodeID.to_hex id
  | RoutingTableFull => "routing table full"
  | ValueNotFound => "value not found"
  | InvalidMessage msg => "invalid DHT message: " +:+ msg
  | DhtTimeout => "DHT operation timeout"
  end.

Inductive DhtMessageType := Ping | Pong | FindNode | Nodes | Put | Get | Value.
Module DhtMessageType.
Definition from_u8 (b : Z) : option DhtMessageType :=
  match b with
  | 1 => Some Ping | 2 => Some Pong | 3 => Some FindNode | 4 => Some Nodes
  | 5 => Some Put | 6 => Some Get | 7 => Some Value | _ => None
  end.
Definition to_u8 (t : DhtMessageType) : Z :=
  match t with
  | Ping => 1 | Pong => 2 | FindNode => 3 | Nodes => 4 | Put => 5 | Get => 6 | Value => 7
  end.
End DhtMessageType.

(** ** Buckets *)

Record BucketEntry := mkEntry { node_id : NodeID; addr : string; last_seen : Instant }.
Record KBucket := mkBucket { entries : list BucketEntry; capacity : nat }.

Module KBucket.
Definition new (capacity : nat) : KBucket := mkBucket [] capacity.
Definition with_entries (es : list BucketEntry) (b : KBucket) : KBucket := mkBucket es (capacity b).
(** The entry with that identifier, and what precedes and follows it. *)
Fixpoint find (id : NodeID) (b : list BucketEntry)
    : option (list BucketEntry * BucketEntry * list BucketEntry) :=
  match b with
  | [] => None
  | e :: b =>
      if decide (node_id e = id) then Some ([], e, b) else
      '(l, e', r) ← find id b; Some (e :: l, e', r)
  end.

(** [Ok true]: inserted; [Ok false]: updated in place; [Err]: the bucket is
    full, with the entry that was to be inserted. *)
Definition insert (now : Instant) (id : NodeID) (addr : string) (b : KBucket)
    : result bool BucketEntry * KBucket :=
  match find id (entries b) with
  | Some (l, e, r) => (Ok false, with_entries (l ++ mkEntry (node_id e) addr now :: r) b)
  | None =>
      let e := mkEntry id addr now in
      if (length (entries b) <? capacity b)%nat
      then (Ok true, with_entries (entries b ++ [e]) b) else (Err e, b)
  end.
Definition touch (now : Instant) (id : NodeID) (b : KBucket) : bool * KBucket :=
  match find id (entries b) with
  | Some (l, e, r) => (true, with_entries (l ++ r ++ [mkEntry (node_id e) (addr e) now]) b)
  | None => (false, b)
  end.
Definition remove (id : NodeID) (b : KBucket) : option BucketEntry * KBucket :=
  match find id (entries b) with
  | Some (l, e, r) => (Some e, with_entries (l ++ r) b)
  | None => (None, b)
  end.
Definition len (b : KBucket) : nat := length (entries b).
Definition is_empty (b : KBucket) : bool := (len b =? 0)%nat.
Definition least_recently_seen (b : KBucket) : option BucketEntry := head (entries b).
Definition is_full (b : KBucket) : bool := (capacity b <=? len b)%nat.
Definition clear (b : KBucket) : KBucket := with_entries [] b.
End KBucket.

(** ** Values *)

Record ValueEntry := mkValue { value : list byte; created_at : Z; value_ttl : Z }.
Definition is_expired (unix : Z) (v : ValueEntry) : bool :=
  wrap 64 (created_at v + value_ttl v) <=? unix.

(** ** The distance *)

(** [u8::leading_zeros]. *)
Definition leading_zeros (x : Z) : nat :=
  if x =? 0 then 8%nat else (7 - Z.to_nat (Z.log2 x))%nat.
Definition xor_distance (a b : NodeID) : list byte :=
  zip_with (λ x y, byte_of_Z (Z.lxor (Z_of_byte x) (Z_of_byte y))) (arr_bytes a) (arr_bytes b).
(** The loop of [bucket_index], from byte [i] on. *)
Fixpoint first_bit (i : nat) (xor : list byte) : nat :=
  match xor with
  | [] => BUCKET_COUNT - 1
  | x :: xor =>
      if Z_of_byte x =? 0 then first_bit (S i) xor
      else (i * 8 + leading_zeros (Z_of_byte x))%nat
  end.
Definition bucket_index (local target : NodeID) : nat := first_bit 0 (xor_distance local target).

(** Lexicographic comparison of two distances. *)
Fixpoint cmp_xor (a b : list byte) : comparison :=
  match a, b with
  | x :: a, y :: b =>
      if decide (x = y) then cmp_xor a b else Z.compare (Z_of_byte x) (Z_of_byte y)
  | _, _ => Eq
  end.

(** ** Node lists *)

Definition encode_node (n : NodeID * string) : list byte :=
  let addr_bytes := as_bytes n.2 in
  let addr_len := Nat.min (length addr_bytes) 65535 in
  arr_bytes n.1 ++ be_bytes 2 (Z.of_nat addr_len) ++ take addr_len addr_bytes.
Definition encode_node_list (nodes : list (NodeID * string)) : list byte :=
  let count := Nat.min (length nodes) 65535 in
  be_bytes 2 (Z.of_nat count) ++ mjoin (encode_node <$> take count nodes).

Fixpoint decode_nodes (count : nat) (data : list byte) : list (NodeID * string) :=
  match count with
  | O => []
  | S count =>
      if (length data <? 34)%nat then [] else
      match to_arr32 (take 32 data) with
      | None => []
      | Some id =>
          let addr_len := Z.to_nat (of_be (take 2 (drop 32 data))) in
          let data := drop 34 data in
          if (length data <? addr_len)%nat then [] else
          (id, default ""%string (from_utf8 (take addr_len data)))
            :: decode_nodes count (drop addr_len data)
      end
  end.
Definition decode_node_list (data : list byte) : list (NodeID * string) :=
  if (length data <? 2)%nat then [] else
  decode_nodes (Z.to_nat (of_be (take 2 data))) (drop 2 data).

(** ** The manager *)

Record DhtManager := mkDht {
  local_id : NodeID;
  buckets : list KBucket;
  values : gmap bytes32 ValueEntry;
  local_addr : string;
  relay_manager : option RelayManager;
  running : bool
}.

Module DhtManager.
Section DhtManager.
Context `{Sha256Crate}.

Definition init_buckets : list KBucket := replicate BUCKET_COUNT (KBucket.new K_BUCKET_SIZE).
Definition new (id : NodeID) : DhtManager := mkDht id init_buckets ∅ "" None false.
Definition set_buckets (bs : list KBucket) (d : DhtManager) : DhtManager :=
  mkDht (local_id d) bs (values d) (local_addr d) (relay_manager d) (running d).
Definition set_values (vs : gmap bytes32 ValueEntry) (d : DhtManager) : DhtManager :=
  mkDht (local_id d) (buckets d) vs (local_addr d) (relay_manager d) (running d).
Definition set_bucket (i : nat) (b : KBucket) (d : DhtManager) : DhtManager :=
  set_buckets (<[i := b]> (buckets d)) d.
(** The bucket of an index below [BUCKET_COUNT]. *)
Definition bucket (i : nat) (d : DhtManager) : KBucket :=
  default (KBucket.new K_BUCKET_SIZE) (buckets d !! i).

Definition set_relay_manager (r : RelayManager) (d : DhtManager) : DhtManager :=
  mkDht (local_id d) (buckets d) (values d) (local_addr d) (Some r) (running d).
Definition set_local_addr (a : string) (d : DhtManager) : DhtManager :=
  mkDht (local_id d) (buckets d) (values d) a (relay_manager d) (running d).
Definition set_running (b : bool) (d : DhtManager) : DhtManager :=
  mkDht (local_id d) (buckets d) (values d) (local_addr d) (relay_manager d) b.
Definition start (d : DhtManager) : DhtManager := set_running true d.
Definition stop (d : DhtManager) : DhtManager := set_running false d.

Definition insert_node (now : Instant) (id : NodeID) (addr : string) (d : DhtManager)
    : result bool BucketEntry * DhtManager :=
  if decide (id = local_id d) then (Ok false, d) else
  let i := bucket_index (local_id d) id in
  let '(r, b) := KBucket.insert now id addr (bucket i d) in
  (r, set_bucket i b d).
Definition touch_node (now : Instant) (id : NodeID) (d : DhtManager) : bool * DhtManager :=
  if decide (id = local_id d) then (false, d) else
  let i := bucket_index (local_id d) id in
  let '(r, b) := KBucket.touch now id (bucket i d) in
  (r, set_bucket i b d).
Definition remove_node (id : NodeID) (d : DhtManager) : option BucketEntry * DhtManager :=
  if decide (id = local_id d) then (None, d) else
  let i := bucket_index (local_id d) id in
  let '(r, b) := KBucket.remove id (bucket i d) in
  (r, set_bucket i b d).

Definition all_nodes (d : DhtManager) : list (NodeID * string) :=
  (λ e, (node_id e, addr e)) <$> mjoin (entries <$> buckets d).
Definition node_count (d : DhtManager) : nat := sum_list (KBucket.len <$> buckets d).
Definition bucket_size (i : nat) (d : DhtManager) : nat :=
  if (i <? BUCKET_COUNT)%nat then KBucket.len (bucket i d) else 0.
Definition by_distance (target : NodeID) (a b : NodeID * string) : comparison :=
  cmp_xor (xor_distance target a.1) (xor_distance target b.1).
Definition find_nearest (target : NodeID) (count : nat) (d : DhtManager)
    : list (NodeID * string) :=
  take count (sort_by (by_distance target) (all_nodes d)).
Definition find_node (target : NodeID) (d : DhtManager) : list (NodeID * string) :=
  find_nearest target K_BUCKET_SIZE d.

Definition put_value (unix : Z) (key val : list byte) (ttl : Z) (d : DhtManager)
    : bytes32 * DhtManager :=
  (sha256 key, set_values (<[sha256 key := mkValue val unix ttl]> (values d)) d).
Definition get_value_by_hash (unix : Z) (h : bytes32) (d : DhtManager) : option ValueEntry :=
  v ← values d !! h; if is_expired unix v then None else Some v.
Definition get_value (unix : Z) (key : list byte) (d : DhtManager) : option ValueEntry :=
  get_value_by_hash unix (sha256 key) d.
Definition cleanup_values (unix : Z) (d : DhtManager) : nat * DhtManager :=
  let vs := filter (λ e, is_expired unix e.2 = false) (values d) in
  ((size (values d) - size vs)%nat, set_values vs d).
Definition value_count (d : DhtManager) : nat := size (values d).

(** [bootstrap_from_nodes]: every address under the all-zero identifier. *)
Definition bootstrap_from_nodes (now : Instant) (addrs : list string) (d : DhtManager)
    : DhtManager := foldl (λ d a, (insert_node now zero32 a d).2) d addrs.

(** One bucket of [refresh]: how many were removed, and what is left. *)
Definition refresh_bucket (now : Instant) (b : KBucket) : nat * KBucket :=
  let should_ping :=
    match KBucket.least_recently_seen b with
    | Some e => from_secs (NODE_TIMEOUT_SECS / 2) <? duration_since now (last_seen e)
    | None => false
    end in
  if should_ping
  then (KBucket.len b, foldl (λ b' e, (KBucket.remove (node_id e) b').2) b (entries b))
  else (0%nat, b).
Definition refresh (now : Instant) (d : DhtManager) : nat * DhtManager :=
  let rs := refresh_bucket now <$> buckets d in
  (sum_list rs.*1, set_buckets rs.*2 d).

Definition create_dht_message (t : DhtMessageType) (data : list byte) : Message :=
  mkMessage Dht (byte_of_Z (DhtMessageType.to_u8 t) :: data).

Definition handle_put (unix : Z) (data : list byte) (d : DhtManager) : DhtManager :=
  if (length data <? 2)%nat then d else
  let key_len := Z.to_nat (of_be (slice 0 2 data)) in
  if (length data <? 2 + key_len + 4)%nat then d else
  let key := slice 2 (2 + key_len) data in
  let value_len := Z.to_nat (of_be (slice (2 + key_len) (2 + key_len + 4) data)) in
  if (length data <? 2 + key_len + 4 + value_len + 8)%nat then d else
  let val := slice (2 + key_len + 4) (2 + key_len + 4 + value_len) data in
  let ttl := of_be (slice (2 + key_len + 4 + value_len) (2 + key_len + 4 + value_len + 8) data) in
  (put_value unix key val ttl d).2.

Definition process_message (now : Instant) (unix : Z) (sender : NodeID) (payload : list byte)
    (d : DhtManager) : list Message * DhtManager :=
  match payload with
  | [] => ([], d)
  | t :: data =>
      match DhtMessageType.from_u8 (Z_of_byte t) with
      | None => ([], d)
      | Some Ping => ([create_dht_message Pong []], (touch_node now sender d).2)
      | Some Pong => ([], (touch_node now sender d).2)
      | Some FindNode =>
          match to_arr32 (take 32 data) with
          | None => ([create_dht_message Nodes (encode_node_list [])], d)
          | Some target =>
              ([create_dht_message Nodes (encode_node_list (find_node target d))], d)
          end
      | Some Nodes =>
          ([], foldl (λ d '(id, a), (insert_node now id a d).2) d (decode_node_list data))
      | Some Put => ([], handle_put unix data d)
      | Some Get =>
          match to_arr32 (take 32 data) with
          | None => ([], d)
          | Some h =>
              match get_value_by_hash unix h d with
              | Some v => ([create_dht_message Value
                  (arr_bytes h ++ be_bytes 4 (wrap 32 (len (value v))) ++ value v)], d)
              | None => ([], d)
              end
          end
      | Some Value => ([], d)
      end
  end.
End DhtManager.
End DhtManager.
Import DhtManager.

(** ** The distance as a 256-bit number *)

Definition id_num (a : NodeID) : Z := of_be (arr_bytes a).
(** The XOR metric of Kademlia on the identifiers as big-endian numbers. *)
Definition dist (a b : NodeID) : Z := Z.lxor (id_num a) (id_num b).

Lemma of_le_cons x l : of_le (x :: l) = Z_of_byte x + 256 * of_le l.
Proof. done. Qed.
Lemma of_le_app a b : of_le (a ++ b) = of_le a + 256 ^ len a * of_le b.
Proof.
  induction a as [|x a IH]; cbn [app length].
  - change (of_le []) with 0. cbn. lia.
  - rewrite !of_le_cons, IH, Nat2Z.inj_succ, Z.pow_succ_r by lia. lia.
Qed.
Lemma of_be_cons x l : of_be (x :: l) = Z_of_byte x * 2 ^ (8 * len l) + of_be l.
Proof.
  unfold of_be. rewrite reverse_cons, of_le_app, length_reverse.
  rewrite of_le_cons. change (of_le []) with 0.
  rewrite Z.pow_mul_r by lia. change (2 ^ 8) with 256. ring.
Qed.
Lemma of_be_fits l : fits (8 * len l) (of_be l).
Proof. unfold fits. rewrite Z.pow_mul_r by lia. apply of_be_range. Qed.
Lemma byte_fits b : fits 8 (Z_of_byte b).
Proof. apply Z_of_byte_range. Qed.
#[local] Hint Resolve of_be_fits byte_fits : lan.

Lemma lxor_split n x y a b :
  0 <= n → fits n a → fits n b →
  Z.lxor (x * 2 ^ n + a) (y * 2 ^ n + b) = Z.lxor x y * 2 ^ n + Z.lxor a b.
Proof.
  intros Hn Ha Hb. pose proof (fits_lxor n a b Hn Ha Hb).
  rewrite <-(lor_low n x a), <-(lor_low n y b), <-(lor_low n (Z.lxor x y)) by done.
  rewrite <-!Z.shiftl_mul_pow2, Z.shiftl_lxor by done.
  apply Z.bits_inj'. intros i Hi. rewrite !Z.lxor_spec, !Z.lor_spec, !Z.lxor_spec.
  destruct (Z.lt_ge_cases i n).
  - by rewrite !Z.shiftl_spec_low by lia.
  - by rewrite (fits_high n a), (fits_high n b), !orb_false_r by (done || lia).
Qed.

Lemma of_be_xor a b :
  length a = length b →
  of_be (zip_with (λ x y, byte_of_Z (Z.lxor (Z_of_byte x) (Z_of_byte y))) a b)
  = Z.lxor (of_be a) (of_be b).
Proof.
  revert b. induction a as [|x a IH]; intros [|y b] Hl; try done. injection Hl as Hl.
  cbn [zip_with]. rewrite !of_be_cons, length_zip_with, IH, <-Hl, Nat.min_id by done.
  rewrite lxor_split; [|lia|auto with lan|rewrite Hl; auto with lan].
  rewrite Z_of_byte_of_Z. f_equal. f_equal. apply Z.mod_small.
  by apply (fits_lxor 8); auto with lan.
Qed.
Lemma xor_distance_num a b : of_be (xor_distance a b) = dist a b.
Proof. unfold xor_distance. by rewrite of_be_xor by by rewrite !length_arr_bytes. Qed.
Lemma length_xor_distance a b : length (xor_distance a b) = 32%nat.
Proof. unfold xor_distance. by rewrite length_zip_with, !length_arr_bytes. Qed.

Lemma id_num_inj a b : id_num a = id_num b → a = b.
Proof.
  intros E. apply arr_bytes_inj.
  rewrite <-(be_bytes_of_be' 32 (arr_bytes a)), <-(be_bytes_of_be' 32 (arr_bytes b))
    by apply length_arr_bytes.
  unfold id_num in E. by rewrite E.
Qed.
Lemma dist_range a b : 0 <= dist a b < 2 ^ 256.
Proof.
  apply (fits_lxor 256); [done|..]; unfold id_num;
    rewrite <-(length_arr_bytes a) || idtac;
    match goal with |- fits _ (of_be (arr_bytes ?x)) =>
      replace 256 with (8 * len (arr_bytes x)) by (by rewrite length_arr_bytes); auto with lan end.
Qed.
Lemma dist_pos a b : a ≠ b → 0 < dist a b.
Proof.
  intros Hab. pose proof (dist_range a b). destruct (decide (dist a b = 0)) as [E|]; [|lia].
  apply Z.lxor_eq in E. by apply id_num_inj in E.
Qed.

(** [cmp_xor] orders the distances as numbers. *)
Lemma cmp_xor_num a b : length a = length b → cmp_xor a b = Z.compare (of_be a) (of_be b).
Proof.
  revert b. induction a as [|x a IH]; intros [|y b] Hl; try done. injection Hl as Hl.
  cbn [cmp_xor]. rewrite !of_be_cons, Hl.
  pose proof (of_be_fits a) as Ha. pose proof (of_be_fits b) as Hb. rewrite Hl in Ha.
  destruct (decide (x = y)) as [->|Hxy].
  - rewrite IH by done. symmetry. apply Z.add_compare_mono_l.
  - assert (Z_of_byte x ≠ Z_of_byte y) by (intros E; by apply (inj Z_of_byte) in E).
    unfold fits in *. symmetry.
    destruct (Z.compare_spec (Z_of_byte x) (Z_of_byte y)); [lia|apply Z.compare_lt_iff|
      apply Z.compare_gt_iff]; nia.
Qed.

(** [leading_zeros] and the loop of [bucket_index] find the top bit. *)
Lemma log2_shifted x n a :
  0 < x → 0 <= n → fits n a → Z.log2 (x * 2 ^ n + a) = Z.log2 x + n.
Proof.
  intros Hx Hn Ha. pose proof (Z.log2_spec x Hx) as [Hl Hu].
  pose proof (Z.log2_nonneg x). unfold fits in Ha. apply Z.log2_unique; [lia|].
  rewrite <-Z.add_succ_l, !Z.pow_add_r by lia. nia.
Qed.
Lemma first_bit_num i xor :
  0 < of_be xor →
  Z.of_nat (first_bit i xor) = 8 * Z.of_nat i + 8 * len xor - 1 - Z.log2 (of_be xor).
Proof.
  revert i. induction xor as [|x xor IH]; intros i Hpos; [done|].
  cbn [first_bit length]. rewrite of_be_cons in *. pose proof (byte_fits x) as Hx.
  destruct (Z.eqb_spec (Z_of_byte x) 0) as [E|E].
  - rewrite E, Z.mul_0_l, Z.add_0_l in *. rewrite IH by done. lia.
  - unfold fits in Hx. rewrite log2_shifted by (auto with lan; lia).
    unfold leading_zeros. destruct (Z.eqb_spec (Z_of_byte x) 0); [done|].
    assert (0 <= Z.log2 (Z_of_byte x) < 8) by (split; [apply Z.log2_nonneg|apply Z.log2_lt_pow2; lia]).
    lia.
Qed.
Lemma bucket_index_num l t : l ≠ t → Z.of_nat (bucket_index l t) = 255 - Z.log2 (dist l t).
Proof.
  intros Hlt. unfold bucket_index. rewrite first_bit_num; rewrite xor_distance_num;
    [|by apply dist_pos]. rewrite length_xor_distance. lia.
Qed.
Lemma bucket_index_lt l t : l ≠ t → (bucket_index l t < BUCKET_COUNT)%nat.
Proof.
  intros Hlt. pose proof (bucket_index_num l t Hlt). pose proof (Z.log2_nonneg (dist l t)).
  unfold BUCKET_COUNT. lia.
Qed.

(** ** Buckets: what the operations do to the identifiers *)

Lemma find_Some id b l e r :
  KBucket.find id b = Some (l, e, r) → b = l ++ e :: r ∧ node_id e = id.
Proof.
  revert l. induction b as [|e' b IH]; intros l; [done|]. cbn [KBucket.find].
  case_decide; [intros [= <- <- <-]; by split|].
  destruct (KBucket.find id b) as [[[l' e''] r']|] eqn:E; [|done]. cbn. intros [= <- -> ->].
  destruct (IH l' eq_refl) as [-> ?]. by split.
Qed.
Lemma find_None id b : KBucket.find id b = None → id ∉ node_id <$> b.
Proof.
  induction b as [|e b IH]; cbn [KBucket.find]; [intros _; apply not_elem_of_nil|].
  case_decide; [done|]. destruct (KBucket.find id b) as [[[l' e''] r']|]; [done|].
  intros _. rewrite fmap_cons, elem_of_cons. intros [?|?]; [congruence|by apply IH].
Qed.
Lemma find_head e b : KBucket.find (node_id e) (e :: b) = Some ([], e, b).
Proof. cbn [KBucket.find]. by rewrite decide_True. Qed.

Definition ids (b : KBucket) : list NodeID := node_id <$> entries b.

Lemma insert_ids now id a b :
  ids (KBucket.insert now id a b).2 = ids b
  ∨ ids (KBucket.insert now id a b).2 = ids b ++ [id] ∧ id ∉ ids b ∧ (length (ids b) < capacity b)%nat.
Proof.
  unfold KBucket.insert, ids. destruct (KBucket.find id (entries b)) as [[[l e] r]|] eqn:E.
  - left. apply find_Some in E as [-> _]. cbn. by rewrite !fmap_app, !fmap_cons.
  - apply find_None in E. rewrite length_fmap.
    destruct (Nat.ltb_spec (length (entries b)) (capacity b)); [right|by left].
    cbn. by rewrite fmap_app.
Qed.
Lemma touch_ids now id b : ids (KBucket.touch now id b).2 ≡ₚ ids b.
Proof.
  unfold KBucket.touch, ids. destruct (KBucket.find id (entries b)) as [[[l e] r]|] eqn:E; [|done].
  apply find_Some in E as [-> _]. cbn. rewrite !fmap_app, !fmap_cons. cbn.
  apply Permutation_app_head. by rewrite <-Permutation_cons_append.
Qed.
Lemma remove_ids id b : ids (KBucket.remove id b).2 `sublist_of` ids b.
Proof.
  unfold KBucket.remove, ids. destruct (KBucket.find id (entries b)) as [[[l e] r]|] eqn:E; [|done].
  apply find_Some in E as [-> _]. cbn. rewrite !fmap_app, !fmap_cons.
  apply sublist_app; [done|]. by apply sublist_cons.
Qed.
Lemma insert_capacity now id a b : capacity (KBucket.insert now id a b).2 = capacity b.
Proof. unfold KBucket.insert. by repeat case_match. Qed.
Lemma touch_capacity now id b : capacity (KBucket.touch now id b).2 = capacity b.
Proof. unfold KBucket.touch. by repeat case_match. Qed.
Lemma remove_capacity id b : capacity (KBucket.remove id b).2 = capacity b.
Proof. unfold KBucket.remove. by repeat case_match. Qed.
Lemma remove_head e es k : (KBucket.remove (node_id e) (mkBucket (e :: es) k)).2 = mkBucket es k.
Proof. unfold KBucket.remove. cbn [entries]. by rewrite find_head. Qed.
Lemma remove_all b : foldl (λ b' e, (KBucket.remove (node_id e) b').2) b (entries b) = KBucket.clear b.
Proof.
  destruct b as [es k]. cbn [entries]. induction es as [|e es IH]; [done|].
  cbn [foldl]. by rewrite remove_head.
Qed.

(** ** The routing table *)

Definition ids_ok (l : NodeID) (i : nat) (s : list NodeID) : Prop :=
  (length s ≤ K_BUCKET_SIZE)%nat ∧ NoDup s ∧ Forall (λ id, id ≠ l ∧ bucket_index l id = i) s.
Definition table_ok (l : NodeID) (d : DhtManager) : Prop :=
  local_id d = l ∧ length (buckets d) = BUCKET_COUNT
  ∧ ∀ i b, buckets d !! i = Some b → capacity b = K_BUCKET_SIZE ∧ ids_ok l i (ids b).

Lemma ids_ok_nil l i : ids_ok l i [].
Proof. split_and!; [cbn; lia|constructor|constructor]. Qed.
Lemma ids_ok_perm l i s s' : s' ≡ₚ s → ids_ok l i s → ids_ok l i s'.
Proof. unfold ids_ok. by intros ->. Qed.
Lemma ids_ok_sublist l i s s' : s' `sublist_of` s → ids_ok l i s → ids_ok l i s'.
Proof.
  intros Hs (Hl & Hd & Hf). split_and!.
  - apply sublist_length in Hs. lia.
  - by eapply sublist_NoDup.
  - rewrite Forall_forall in *. intros id Hid. apply Hf. by eapply elem_of_sublist.
Qed.

Lemma table_ok_set l d i b :
  table_ok l d → capacity b = K_BUCKET_SIZE → ids_ok l i (ids b) →
  table_ok l (DhtManager.set_bucket i b d).
Proof.
  intros (Hl & Hn & Hb) Hc Hok. split; [done|]. split; [by cbn; rewrite length_insert|].
  cbn. intros j b' Hj. apply list_lookup_insert_Some in Hj as [(-> & -> & _)|[_ ?]]; auto.
Qed.
Lemma table_ok_bucket l d i :
  table_ok l d →
  capacity (DhtManager.bucket i d) = K_BUCKET_SIZE ∧ ids_ok l i (ids (DhtManager.bucket i d)).
Proof.
  intros (_ & _ & Hb). unfold DhtManager.bucket.
  destruct (buckets d !! i) as [b|] eqn:E; cbn; [by apply Hb|]. split; [done|apply ids_ok_nil].
Qed.

Section Operations.
Context `{Sha256Crate}.
Implicit Types d : DhtManager.

Lemma ids_ok_new l i id s :
  id ≠ l → bucket_index l id = i → id ∉ s → (length s < K_BUCKET_SIZE)%nat →
  ids_ok l i s → ids_ok l i (s ++ [id]).
Proof.
  intros Hid Hi Hns Hlt (_ & Hd & Hf). split_and!.
  - rewrite length_app. cbn. lia.
  - apply NoDup_app. split_and!; [done| |apply NoDup_singleton].
    intros x Hx ->%list_elem_of_singleton. done.
  - apply Forall_app. split; [done|]. by repeat constructor.
Qed.

Lemma insert_node_ok l now id a d : table_ok l d → table_ok l (insert_node now id a d).2.
Proof.
  intros Hok. pose proof Hok as (Hl & _ & _). unfold insert_node. case_decide; [done|].
  rewrite Hl in *. destruct (table_ok_bucket l d (bucket_index l id) Hok) as [Hc Hb].
  pose proof (insert_ids now id a (bucket (bucket_index l id) d)) as Hi.
  pose proof (insert_capacity now id a (bucket (bucket_index l id) d)) as Hc'.
  destruct (KBucket.insert _ _ _ _) as [r b]. cbn [snd] in *.
  apply table_ok_set; [done|congruence|]. rewrite Hc in Hi.
  destruct Hi as [->|(-> & ? & ?)]; [done|by apply ids_ok_new].
Qed.
Lemma insert_nodes_ok l now ns d :
  table_ok l d → table_ok l (foldl (λ d '(id, a), (insert_node now id a d).2) d ns).
Proof.
  revert d. induction ns as [|[id a] ns IH]; intros d Hok; [done|].
  by apply IH, insert_node_ok.
Qed.
Lemma bootstrap_ok l now addrs d :
  table_ok l d → table_ok l (bootstrap_from_nodes now addrs d).
Proof.
  unfold bootstrap_from_nodes. revert d. induction addrs as [|a addrs IH]; intros d Hok; [done|].
  by apply IH, insert_node_ok.
Qed.
Lemma touch_node_ok l now id d : table_ok l d → table_ok l (touch_node now id d).2.
Proof.
  intros Hok. unfold touch_node. case_decide; [done|].
  destruct (table_ok_bucket l d (bucket_index (local_id d) id) Hok) as [Hc Hb].
  pose proof (touch_ids now id (bucket (bucket_index (local_id d) id) d)) as Hi.
  pose proof (touch_capacity now id (bucket (bucket_index (local_id d) id) d)) as Hc'.
  destruct (KBucket.touch _ _ _) as [r b]. cbn [snd] in *.
  apply table_ok_set; [done|congruence|by eapply ids_ok_perm].
Qed.
Lemma remove_node_ok l id d : table_ok l d → table_ok l (remove_node id d).2.
Proof.
  intros Hok. unfold remove_node. case_decide; [done|].
  destruct (table_ok_bucket l d (bucket_index (local_id d) id) Hok) as [Hc Hb].
  pose proof (remove_ids id (bucket (bucket_index (local_id d) id) d)) as Hi.
  pose proof (remove_capacity id (bucket (bucket_index (local_id d) id) d)) as Hc'.
  destruct (KBucket.remove _ _) as [r b]. cbn [snd] in *.
  apply table_ok_set; [done|congruence|by eapply ids_ok_sublist].
Qed.

(** A bucket's front entry is older than half of the node timeout. *)
Definition stale (now : Instant) (b : KBucket) : bool :=
  match head (entries b) with
  | Some e => from_secs 300 <? duration_since now (last_seen e)
  | None => false
  end.
Lemma refresh_bucket_eq now b :
  refresh_bucket now b = if stale now b then (KBucket.len b, KBucket.clear b) else (0%nat, b).
Proof. unfold refresh_bucket. rewrite remove_all. by destruct b as [[] ?]. Qed.
Lemma refresh_ok l now d : table_ok l d → table_ok l (refresh now d).2.
Proof.
  intros (Hl & Hn & Hb). split_and!; [done|cbn; by rewrite !length_fmap|].
  cbn. intros i b Hi. rewrite list_lookup_fmap in Hi.
  destruct (buckets d !! i) as [b0|] eqn:E; rewrite list_lookup_fmap, E in Hi; [|done].
  injection Hi as <-. rewrite refresh_bucket_eq.
  destruct (stale now b0); cbn [snd]; [|by apply Hb].
  split; [by apply (Hb i b0)|apply ids_ok_nil].
Qed.

(** Operations on the values leave the table alone. *)
Lemma table_ok_same l d d' :
  local_id d' = local_id d → buckets d' = buckets d → table_ok l d → table_ok l d'.
Proof. unfold table_ok. by intros -> ->. Qed.
Lemma handle_put_table unix data d :
  local_id (handle_put unix data d) = local_id d
  ∧ buckets (handle_put unix data d) = buckets d.
Proof. unfold handle_put. by repeat case_match. Qed.

Lemma process_message_ok l now unix sender p d :
  table_ok l d → table_ok l (process_message now unix sender p d).2.
Proof.
  intros Hok. destruct p as [|t data]; [done|]. cbn [process_message].
  destruct (DhtMessageType.from_u8 (Z_of_byte t)) as [[]|]; cbn [snd];
    auto using touch_node_ok, insert_nodes_ok; try by repeat case_match.
  pose proof (handle_put_table unix data d) as [].
  by eapply table_ok_same.
Qed.

(** The managers that a sequence of calls can produce. *)
Inductive dht_step d : DhtManager → Prop :=
| step_insert now id a : dht_step d (insert_node now id a d).2
| step_touch now id : dht_step d (touch_node now id d).2
| step_remove id : dht_step d (remove_node id d).2
| step_bootstrap now addrs : dht_step d (bootstrap_from_nodes now addrs d)
| step_refresh now : dht_step d (refresh now d).2
| step_put unix key v ttl : dht_step d (put_value unix key v ttl d).2
| step_cleanup unix : dht_step d (cleanup_values unix d).2
| step_message now unix sender p : dht_step d (process_message now unix sender p d).2
| step_relay r : dht_step d (set_relay_manager r d)
| step_addr a : dht_step d (set_local_addr a d)
| step_start : dht_step d (start d)
| step_stop : dht_step d (stop d).
Definition dht_reachable (l : NodeID) : DhtManager → Prop := rtc dht_step (new l).

Lemma reachable_table_ok l d : dht_reachable l d → table_ok l d.
Proof.
  apply (rtc_ind_r (table_ok l)).
  - split; [done|]. split; [apply length_replicate|]. intros i b Hb.
    apply lookup_replicate in Hb as [-> _]. split; [done|apply ids_ok_nil].
  - intros d1 d2 _ Hs Hok. destruct Hs;
      eauto using insert_node_ok, touch_node_ok, remove_node_ok, bootstrap_ok, refresh_ok,
        process_message_ok; by eapply table_ok_same.
Qed.
End Operations.

(** ** The routing table's promise *)

Section Table.
Context `{Sha256Crate}.

Lemma all_nodes_ids d : (all_nodes d).*1 = mjoin (ids <$> buckets d).
Proof.
  unfold all_nodes. rewrite <-list_fmap_compose.
  induction (buckets d) as [|b bs IH]; [done|]. cbn. rewrite fmap_app. by f_equal.
Qed.

(** Distinct buckets hold distinct identifiers, since an identifier names its bucket. *)
Lemma mjoin_NoDup (f : NodeID → nat) k (bs : list (list NodeID)) :
  (∀ i b, bs !! i = Some b → NoDup b ∧ Forall (λ x, f x = (k + i)%nat) b) → NoDup (mjoin bs).
Proof.
  revert k. induction bs as [|b bs IH]; intros k Hbs; [constructor|]. cbn.
  destruct (Hbs 0%nat b eq_refl) as [Hd Hf]. apply NoDup_app. split_and!; [done| |].
  - intros x Hx Hin. rewrite Forall_forall in Hf. specialize (Hf x Hx).
    apply list_elem_of_join in Hin as (b' & Hxb & Hb').
    apply list_elem_of_lookup in Hb' as [i Hi]. destruct (Hbs (S i) b' Hi) as [_ Hf'].
    rewrite Forall_forall in Hf'. specialize (Hf' x Hxb). lia.
  - apply (IH (S k)). intros i b' Hi. destruct (Hbs (S i) b' Hi) as [? Hf'].
    split; [done|]. eapply Forall_impl; [exact Hf'|]. cbn. lia.
Qed.

(** C13: after any sequence of calls and received messages the routing table is Kademlia's:
    256 buckets of at most twenty entries, no identifier twice in the whole table, never the
    local one, and a node stored in bucket [i] exactly when the top set bit of its XOR
    distance to the local identifier is bit [255 - i], so that the first [i] bits are equal.  (The
    comment of the struct has it the other way round: bit [i] set and the first [255 - i] equal.) *)
Theorem dht_routing_table l d :
  dht_reachable l d →
  local_id d = l ∧ length (buckets d) = BUCKET_COUNT ∧ NoDup (all_nodes d).*1
  ∧ ∀ i b e, buckets d !! i = Some b →
      (KBucket.len b ≤ K_BUCKET_SIZE)%nat
      ∧ (e ∈ entries b → node_id e ≠ l ∧ Z.log2 (dist l (node_id e)) = 255 - Z.of_nat i).
Proof.
  intros (Hl & Hn & Hb)%reachable_table_ok. split_and!; [done..| |].
  - rewrite all_nodes_ids. apply (mjoin_NoDup (bucket_index l) 0). intros i b Hi.
    rewrite list_lookup_fmap in Hi. destruct (buckets d !! i) as [b0|] eqn:E; [|done].
    injection Hi as <-. destruct (Hb i b0 E) as (_ & _ & Hd & Hf). split; [done|].
    eapply Forall_impl; [exact Hf|]. by intros x [_ ?].
  - intros i b e Hi. destruct (Hb i b Hi) as (_ & Hlen & _ & Hf).
    split; [unfold ids in Hlen; by rewrite length_fmap in Hlen|]. intros He.
    rewrite Forall_forall in Hf. destruct (Hf (node_id e)) as [Hne <-].
    { by apply list_elem_of_fmap_2. }
    split; [done|]. rewrite bucket_index_num by done. lia.
Qed.

(** [refresh] empties exactly the buckets whose front entry was last seen more than five
    minutes ago, and empties them whole: entries seen a moment ago go as well, although the
    code's comment says it takes the oldest node to ping. *)
Theorem dht_refresh_exact now d :
  let '(pinged, d') := refresh now d in
  pinged = sum_list (KBucket.len <$> filter (λ b, stale now b = true) (buckets d))
  ∧ local_id d' = local_id d ∧ values d' = values d
  ∧ ∀ i, buckets d' !! i = (λ b, if stale now b then KBucket.clear b else b) <$> buckets d !! i.
Proof.
  unfold refresh. split_and!; [|done|done|].
  - induction (buckets d) as [|b bs IH]; [done|]. rewrite filter_cons, !fmap_cons, refresh_bucket_eq.
    destruct (stale now b); [exact (f_equal (Nat.add (KBucket.len b)) IH)|exact IH].
  - intros i. cbn. rewrite !list_lookup_fmap. destruct (buckets d !! i) as [b|]; [|done].
    cbn. rewrite refresh_bucket_eq. by destruct (stale now b).
Qed.

(** A new table in which bucket [i] is [b]. *)
Definition only (l : NodeID) (i : nat) (es : list BucketEntry) : DhtManager :=
  set_bucket i (mkBucket es K_BUCKET_SIZE) (new l).
Definition placeholder (es : list BucketEntry) : Prop := es = [] ∨ ∃ e, es = [e] ∧ node_id e = zero32.

Lemma insert_placeholder l now a b :
  l ≠ zero32 → placeholder b →
  (insert_node now zero32 a (only l (bucket_index l zero32) b)).2
  = only l (bucket_index l zero32) [mkEntry zero32 a now].
Proof.
  intros Hl Hb. pose proof (bucket_index_lt l zero32 Hl) as Hi.
  unfold insert_node, only, bucket, set_bucket, set_buckets, new, init_buckets.
  cbn [local_id buckets values local_addr relay_manager running].
  rewrite decide_False by done. rewrite list_lookup_insert_eq by by rewrite length_replicate.
  unfold KBucket.insert. destruct Hb as [->|(e & -> & <-)]; cbn [default entries]; unfold id; cbn [entries].
  - cbn. by rewrite list_insert_insert_eq.
  - rewrite find_head. cbn. by rewrite list_insert_insert_eq.
Qed.
Lemma insert_placeholders l now addrs b :
  l ≠ zero32 → placeholder b →
  ∃ b', placeholder b' ∧
    bootstrap_from_nodes now addrs (only l (bucket_index l zero32) b)
    = only l (bucket_index l zero32) b'.
Proof.
  intros Hl. revert b. induction addrs as [|a addrs IH]; intros b Hb; [by exists b|].
  unfold bootstrap_from_nodes. cbn [foldl]. rewrite insert_placeholder by done.
  apply IH. right. by eexists.
Qed.
Lemma all_nodes_only l i es :
  (i < BUCKET_COUNT)%nat → all_nodes (only l i es) = (λ e, (node_id e, addr e)) <$> es.
Proof.
  intros Hi. unfold all_nodes, only, set_bucket, set_buckets, new, init_buckets. cbn [buckets]. f_equal.
  assert (Hr : ∀ n, mjoin (entries <$> replicate n (KBucket.new K_BUCKET_SIZE)) = []).
  { intros n. by induction n. }
  rewrite insert_take_drop by by rewrite length_replicate.
  rewrite take_replicate, drop_replicate, fmap_app, join_app. cbn [fmap list_fmap mjoin list_join entries].
  by rewrite Hr, (Hr (_ - _)%nat), app_nil_r.
Qed.

(** Every bootstrap address is stored under the same all-zero placeholder, so of a list of
    bootstrap nodes the table keeps one entry, with the last address. *)
Theorem dht_bootstrap_keeps_last l now addrs a :
  l ≠ zero32 →
  all_nodes (bootstrap_from_nodes now (addrs ++ [a]) (new l)) = [(zero32, a)].
Proof.
  intros Hl. unfold bootstrap_from_nodes. rewrite foldl_app. cbn [foldl].
  replace (new l) with (only l (bucket_index l zero32) []).
  2:{ unfold only, set_bucket, set_buckets, new. cbn [buckets]. f_equal.
      apply list_insert_id, lookup_replicate_2, bucket_index_lt, Hl. }
  destruct (insert_placeholders l now addrs [] Hl (or_introl eq_refl)) as (b & Hb & Hfold).
  unfold bootstrap_from_nodes in Hfold. rewrite Hfold, insert_placeholder by done.
  by rewrite all_nodes_only by by apply bucket_index_lt.
Qed.
End Table.

(** ** Messages *)

Section Messages.
Context `{Sha256Crate}.

(** What a node entry needs to survive the codec. *)
Definition entry_ok (n : NodeID * string) : Prop :=
  is_str n.2 ∧ fits 16 (len (as_bytes n.2)).

Lemma min_u16 n : fits 16 (Z.of_nat n) → Nat.min n 65535 = n.
Proof.
  intros Hn. apply Nat2Z.inj. rewrite Nat2Z.inj_min. change (Z.of_nat 65535) with 65535.
  solve_fits.
Qed.
Lemma of_be2 n rest :
  fits 16 (Z.of_nat n) → of_be (take 2 (be_bytes 2 (Z.of_nat n) ++ rest)) = Z.of_nat n.
Proof.
  intros Hn. rewrite take_app_length' by by rewrite length_be_bytes.
  by apply of_be_be_bytes_id.
Qed.
Lemma decode_nodes_encode ns :
  Forall entry_ok ns → decode_nodes (length ns) (mjoin (encode_node <$> ns)) = ns.
Proof.
  induction 1 as [|[id a] ns [Hs Hl] _ IH]; [done|]. cbn [fst snd] in *.
  cbn [length decode_nodes fmap list_fmap mjoin list_join]. unfold encode_node. cbn [fst snd].
  rewrite min_u16, firstn_all, <-!app_assoc by done.
  rewrite (proj2 (Nat.ltb_ge _ _)) by (rewrite !length_app, length_arr_bytes, length_be_bytes; lia).
  rewrite take_app_length' by by rewrite length_arr_bytes. rewrite to_arr32_arr_bytes.
  rewrite (drop_app_length' _ _ 32) by by rewrite length_arr_bytes.
  rewrite of_be2, Nat2Z.id by done.
  change 34%nat with (32 + 2)%nat. rewrite <-drop_drop, drop_app_length' by by rewrite length_arr_bytes.
  rewrite drop_app_length' by by rewrite length_be_bytes.
  rewrite (proj2 (Nat.ltb_ge _ _)) by (rewrite !length_app; lia).
  rewrite take_app_length, drop_app_length, from_utf8_as_bytes by done.
  cbn [default]. unfold Datatypes.id. f_equal. exact IH.
Qed.
Lemma decode_encode_node_list ns :
  fits 16 (len ns) → Forall entry_ok ns → decode_node_list (encode_node_list ns) = ns.
Proof.
  intros Hn Hns. unfold decode_node_list, encode_node_list.
  rewrite min_u16, firstn_all by done.
  rewrite (proj2 (Nat.ltb_ge _ _)) by (rewrite length_app, length_be_bytes; lia).
  rewrite of_be2, Nat2Z.id, drop_app_length' by (done || by rewrite length_be_bytes).
  by apply decode_nodes_encode.
Qed.

(** [by_distance] is the order of the distances as numbers. *)
Lemma by_distance_num t x y : by_distance t x y = Z.compare (dist t x.1) (dist t y.1).
Proof.
  unfold by_distance. rewrite cmp_xor_num by by rewrite !length_xor_distance.
  by rewrite !xor_distance_num.
Qed.
Lemma by_distance_le t x y : cmp_le (by_distance t) x y ↔ dist t x.1 <= dist t y.1.
Proof. unfold cmp_le. by rewrite by_distance_num. Qed.

Lemma find_nearest_split t k d :
  ∃ others,
    find_nearest t k d ++ others ≡ₚ all_nodes d
    ∧ StronglySorted (λ x y, dist t x.1 <= dist t y.1) (find_nearest t k d ++ others).
Proof.
  unfold find_nearest. set (s := sort_by (by_distance t) (all_nodes d)).
  exists (drop k s). rewrite take_drop. split; [apply sort_by_perm|].
  assert (Hs : StronglySorted (cmp_le (by_distance t)) s).
  { apply sort_by_sorted.
    - intros x y z. rewrite !by_distance_le. lia.
    - intros x y. rewrite by_distance_le, by_distance_num. intros E%Z.compare_gt_iff. lia. }
  induction Hs as [|x l _ IH Hx]; constructor; [done|].
  eapply Forall_impl; [exact Hx|]. intros y. apply by_distance_le.
Qed.

(** The answer to FIND_NODE, decoded by the node that asked, is exactly the twenty nodes
    of the table nearest to the target (all of them when there are fewer), nearest first in
    the XOR metric; every node left out is at least as far as every node sent, and answering
    changes nothing. *)
Theorem dht_find_node_answers now unix sender target rest d :
  Forall entry_ok (all_nodes d) →
  ∃ reply others,
    process_message now unix sender
      (byte_of_Z (DhtMessageType.to_u8 FindNode) :: arr_bytes target ++ rest) d
    = ([create_dht_message Nodes reply], d)
    ∧ decode_node_list reply ++ others ≡ₚ all_nodes d
    ∧ length (decode_node_list reply) = Nat.min K_BUCKET_SIZE (length (all_nodes d))
    ∧ StronglySorted (λ x y, dist target x.1 <= dist target y.1) (decode_node_list reply ++ others).
Proof.
  intros Hok. destruct (find_nearest_split target K_BUCKET_SIZE d) as (others & Hp & Hs).
  exists (encode_node_list (find_node target d)), others. split.
  { cbn [process_message]. rewrite Z_of_byte_of_Z. cbn [DhtMessageType.to_u8].
    change (DhtMessageType.from_u8 (3 mod 256)) with (Some FindNode). cbv iota.
    by rewrite take_app_length', to_arr32_arr_bytes by by rewrite length_arr_bytes. }
  assert (Hlen : length (find_node target d) = Nat.min K_BUCKET_SIZE (length (all_nodes d))).
  { unfold find_node, find_nearest. by rewrite length_take, sort_by_perm. }
  rewrite decode_encode_node_list; [by split_and!| |].
  - rewrite Hlen. unfold K_BUCKET_SIZE, fits. change (2 ^ 16) with 65536. lia.
  - rewrite <-Hp in Hok. by apply Forall_app in Hok as [? _].
Qed.

(** ** Values *)

(** The PUT message of a key, a value and its time to live, and the GET of a hash. *)
Definition put_message (key v : list byte) (ttl : Z) : list byte :=
  byte_of_Z (DhtMessageType.to_u8 Put)
    :: be_bytes 2 (len key) ++ key ++ be_bytes 4 (len v) ++ v ++ be_bytes 8 ttl.
Definition get_message (h : bytes32) : list byte :=
  byte_of_Z (DhtMessageType.to_u8 Get) :: arr_bytes h.

Lemma handle_put_encoded unix key v ttl d :
  fits 16 (len key) → fits 32 (len v) → fits 64 ttl →
  handle_put unix (be_bytes 2 (len key) ++ key ++ be_bytes 4 (len v) ++ v ++ be_bytes 8 ttl) d
  = (put_value unix key v ttl d).2.
Proof.
  intros Hk Hv Ht. unfold handle_put.
  rewrite !length_app, !length_be_bytes. cbn [Nat.add].
  rewrite (proj2 (Nat.ltb_ge _ 2)) by lia.
  rewrite (slice_head 2), (of_be_be_bytes_id 2), Nat2Z.id by (done || by rewrite length_be_bytes).
  rewrite (proj2 (Nat.ltb_ge _ _)) by lia.
  assert (Hs1 : ∀ r, slice 2 (2 + length key) (be_bytes 2 (len key) ++ key ++ r) = key).
  { intros r. apply slice_mid; by rewrite ?length_be_bytes. }
  rewrite Hs1.
  assert (Hs2 : ∀ r, slice (2 + length key) (2 + length key + 4)
    (be_bytes 2 (len key) ++ key ++ be_bytes 4 (len v) ++ r) = be_bytes 4 (len v)).
  { intros r. rewrite app_assoc. apply slice_mid; by rewrite ?length_app, ?length_be_bytes. }
  rewrite Hs2, (of_be_be_bytes_id 4), Nat2Z.id by done.
  rewrite (proj2 (Nat.ltb_ge _ _)) by lia.
  f_equal. f_equal.
  - rewrite (app_assoc key), (app_assoc (be_bytes 2 _)).
    apply slice_mid; rewrite ?length_app, ?length_be_bytes; lia.
  - rewrite (app_assoc (be_bytes 4 _)), (app_assoc key), (app_assoc (be_bytes 2 _)).
    rewrite slice_tail; [by apply (of_be_be_bytes_id 8)|..];
      rewrite ?length_app, ?length_be_bytes; lia.
Qed.

Lemma get_put unix unix' key v ttl d :
  get_value_by_hash unix' (sha256 key) (put_value unix key v ttl d).2
  = if unix' <? wrap 64 (unix + ttl) then Some (mkValue v unix ttl) else None.
Proof.
  unfold get_value_by_hash, put_value, set_values. cbn [snd values]. rewrite lookup_insert_eq. simpl.
  unfold is_expired. cbn [created_at value_ttl]. rewrite Z.leb_antisym.
  by destruct (unix' <? wrap 64 (unix + ttl)).
Qed.

(** A PUT message followed by a GET of the key's hash is answered with the stored value
    until the sum of the storing time and the TTL, computed modulo 2^64, and not after; no
    other hash and no routing entry is affected.  A TTL near [u64::MAX] makes the sum wrap:
    the value has expired when it is stored. *)
Theorem dht_put_then_get now unix sender key v ttl d :
  fits 16 (len key) → fits 32 (len v) → fits 64 ttl →
  let '(replies, d') := process_message now unix sender (put_message key v ttl) d in
  replies = [] ∧ buckets d' = buckets d
  ∧ (∀ now' unix' sender', process_message now' unix' sender' (get_message (sha256 key)) d'
     = (if unix' <? wrap 64 (unix + ttl)
        then [create_dht_message Value (arr_bytes (sha256 key) ++ be_bytes 4 (len v) ++ v)]
        else [], d'))
  ∧ (∀ unix' h, h ≠ sha256 key → get_value_by_hash unix' h d' = get_value_by_hash unix' h d)
  ∧ (0 < unix → fits 64 unix → ttl = 2 ^ 64 - 1 → ∀ unix', unix <= unix' →
     get_value unix' key d' = None).
Proof.
  intros Hk Hv Ht. unfold put_message. cbn [process_message]. rewrite Z_of_byte_of_Z.
  cbn [DhtMessageType.to_u8]. change (DhtMessageType.from_u8 (5 mod 256)) with (Some Put).
  cbv iota. rewrite handle_put_encoded by done. split_and!; [done|done|..].
  - intros now' unix' sender'. unfold get_message. cbn [process_message]. rewrite Z_of_byte_of_Z.
    cbn [DhtMessageType.to_u8]. change (DhtMessageType.from_u8 (6 mod 256)) with (Some Get).
    cbv iota. rewrite firstn_all2 by (rewrite length_arr_bytes; lia). rewrite to_arr32_arr_bytes.
    rewrite get_put. destruct (unix' <? wrap 64 (unix + ttl)); [|done]. cbn [value].
    by rewrite (wrap_id 32).
  - intros unix' h Hh. unfold get_value_by_hash, put_value, set_values. cbn [snd values].
    by rewrite lookup_insert_ne by done.
  - intros Hu Hfu -> unix' Hle. unfold get_value. rewrite get_put.
    replace (wrap 64 _) with (unix - 1) by (clear -Hu Hfu; solve_fits).
    by rewrite (proj2 (Z.ltb_ge _ _)) by lia.
Qed.
End Messages.

(** ** Witnesses *)

Definition id_of (b : byte) : NodeID := default zero32 (to_arr32 (replicate 32 b)).
Definition sample_table : DhtManager :=
  foldl (λ d b, (insert_node 0 (id_of b) "10.0.0.1:9885" d).2) (new (id_of Byte.x01))
    [Byte.x02; Byte.x03; Byte.x80; Byte.xff].

Lemma sample_reachable : dht_reachable (id_of Byte.x01) sample_table.
Proof.
  unfold dht_reachable, sample_table. cbn [foldl].
  repeat (eapply rtc_r; [|apply step_insert]). apply rtc_refl.
Qed.

Lemma dht_routing_table_witness :
  node_count sample_table = 4%nat ∧ NoDup (all_nodes sample_table).*1
  ∧ Z.log2 (dist (id_of Byte.x01) (id_of Byte.x80)) = 255.
Proof.
  split; [vm_compute; reflexivity|].
  destruct (dht_routing_table (id_of Byte.x01) sample_table sample_reachable)
    as (_ & _ & Hd & _).
  split; [exact Hd|vm_compute; reflexivity].
Defined.

Lemma dht_bootstrap_keeps_last_witness :
  all_nodes (bootstrap_from_nodes 5 (["a:1"; "b:2"]%string ++ ["c:3"%string]) (new (id_of Byte.x01)))
  = [(zero32, "c:3"%string)].
Proof.
  apply dht_bootstrap_keeps_last. intros E. apply (f_equal arr_bytes) in E. discriminate E.
Defined.

Lemma dht_find_node_answers_witness :
  ∃ reply, process_message 0 0 zero32
      (byte_of_Z 3 :: arr_bytes (id_of Byte.x81) ++ []) sample_table
    = ([create_dht_message Nodes reply], sample_table)
  ∧ (decode_node_list reply).*1 = [id_of Byte.x80; id_of Byte.xff; id_of Byte.x03; id_of Byte.x02].
Proof.
  destruct (dht_find_node_answers 0 0 zero32 (id_of Byte.x81) [] sample_table)
    as (reply & others & E & _).
  - assert (Hall : all_nodes sample_table
      = (λ b, (id_of b, "10.0.0.1:9885"%string)) <$> [Byte.x80; Byte.xff; Byte.x02; Byte.x03])
      by (vm_compute; reflexivity).
    rewrite Hall. repeat constructor; vm_compute; discriminate.
  - exists reply. split; [exact E|].
    assert (E' := E). vm_compute in E'. injection E' as <-. vm_compute. reflexivity.
Defined.

Lemma dht_put_then_get_witness :
  let key := as_bytes "k" in let v := as_bytes "hello" in
  let d' := (process_message 0 100 zero32 (put_message key v 60) sample_table).2 in
  fits 16 (len key)
  ∧ (process_message 0 159 zero32 (get_message (sha256 key)) d').1
    = [create_dht_message Value (arr_bytes (sha256 key) ++ be_bytes 4 5 ++ v)]
  ∧ (process_message 0 160 zero32 (get_message (sha256 key)) d').1 = [].
Proof.
  cbv zeta. split; [split; vm_compute; congruence|].
  assert (H1 : fits 16 (len (as_bytes "k"))) by (split; vm_compute; congruence).
  assert (H2 : fits 32 (len (as_bytes "hello"))) by (split; vm_compute; congruence).
  assert (H3 : fits 64 60) by (split; vm_compute; congruence).
  pose proof (dht_put_then_get 0 100 zero32 (as_bytes "k") (as_bytes "hello") 60 sample_table H1 H2 H3)
    as Hpg.
  destruct (process_message 0 100 zero32 (put_message (as_bytes "k") (as_bytes "hello") 60)
    sample_table) as [r d'].
  destruct Hpg as (_ & _ & Hget & _). cbn [snd].
  split; [rewrite (Hget 0 159 zero32)|rewrite (Hget 0 160 zero32)]; reflexivity.
Defined.
