(* ===== verification/Json.v ===== *)
(** * Json: the serde_json interface

    The payloads of the registry and the stores travel as JSON.  serde_json
    is not part of the repository: [SerdeJson T] is [to_vec] and [from_slice]
    at the type [T]; [SerdeJsonOk] says that reading back what was written
    gives the value.  A countable type has such a pair ([bits_json]).
    [JsonText] is [to_string] or [to_string_pretty] with [from_str]; a JSON text
    is never blank. *)
From S2P Require Import Prelude Text.

Class SerdeJson (T : Type) := {
  to_vec : T → list byte;
  from_slice : list byte → result T string
}.
Class SerdeJsonOk (T : Type) `{SerdeJson T} : Prop :=
  from_slice_to_vec x : from_slice (to_vec x) = Ok x.

(** ** An instance: the bits of the number of the value *)

Fixpoint pos_bits (p : positive) : list byte :=
  match p with
  | xH => []
  | xO p => Byte.x30 :: pos_bits p
  | xI p => Byte.x31 :: pos_bits p
  end.
Fixpoint of_bits (bs : list byte) : option positive :=
  match bs with
  | [] => Some xH
  | b :: bs =>
      p ← of_bits bs;
      match b with Byte.x30 => Some (xO p) | Byte.x31 => Some (xI p) | _ => None end
  end.
Lemma of_bits_pos_bits p : of_bits (pos_bits p) = Some p.
Proof. induction p as [p IH|p IH|]; cbn; by rewrite ?IH. Qed.

Definition bits_json (T : Type) `{Countable T} : SerdeJson T := {|
  to_vec x := pos_bits (encode x);
  from_slice bs :=
    match of_bits bs ≫= decode with Some x => Ok x | None => Err "invalid JSON"%string end
|}.
Lemma bits_json_ok (T : Type) `{Countable T} : @SerdeJsonOk T (bits_json T).
Proof. intros x. cbn. rewrite of_bits_pos_bits. cbn. by rewrite decode_encode. Qed.

(** ** Texts *)

Class JsonText (T : Type) := {
  to_string : T → string;
  from_str : string → result T string
}.
Class JsonTextOk (T : Type) `{JsonText T} : Prop := {
  from_str_to_string x : from_str (to_string x) = Ok x;
  to_string_str x : is_str (to_string x);
  to_string_not_blank x : white_space (as_bytes (to_string x)) = false
}.

(** The same bits, after a letter. *)
Definition bits_text (T : Type) `{Countable T} : JsonText T := {|
  to_string x := String.string_of_list_byte (Byte.x4a :: pos_bits (encode x));
  from_str s :=
    match as_bytes s with
    | Byte.x4a :: bs =>
        match of_bits bs ≫= decode with Some x => Ok x | None => Err "invalid JSON"%string end
    | _ => Err "invalid JSON"%string
    end
|}.
Lemma utf8_pos_bits p : utf8_valid (pos_bits p) = true.
Proof. by induction p. Qed.
Lemma bits_text_ok (T : Type) `{Countable T} : @JsonTextOk T (bits_text T).
Proof.
  assert (Hs : ∀ x : T, as_bytes (@to_string T (bits_text T) x) = Byte.x4a :: pos_bits (encode x)).
  { intros x. unfold as_bytes, to_string, bits_text. apply String.list_byte_of_string_of_list_byte. }
  split; intros x; unfold is_str; rewrite ?Hs; [|apply (utf8_pos_bits (encode x))|by destruct (pos_bits _) as [|? []]].
  unfold from_str. cbn [bits_text]. rewrite Hs, of_bits_pos_bits. cbn [mbind option_bind].
  by rewrite decode_encode.
Qed.
