(* ===== verification/Disk.v ===== *)
(** * Disk: files, failing writes and paths

    What std::fs and std::path do for the stores that keep a JSON file.  A
    [Disk] holds the files, and for the operations that fail the error: of
    creating the parent directory of a path, and of writing a file, with how
    many bytes reached the truncated file ([None]: it was not opened). *)
From S2P Require Import Prelude Text.

Record Disk := mkDisk {
  files : gmap string (list byte);
  dir_fault : string → option string;
  write_fault : string → option (string * option nat)
}.

(** [fs::write(path, data)] *)
Definition write (path : string) (data : list byte) (d : Disk) : result unit string * Disk :=
  match write_fault d path with
  | None => (Ok tt, mkDisk (<[path := data]> (files d)) (dir_fault d) (write_fault d))
  | Some (e, None) => (Err e, d)
  | Some (e, Some n) =>
      (Err e, mkDisk (<[path := take n data]> (files d)) (dir_fault d) (write_fault d))
  end.
(** [fs::create_dir_all(path.parent())]; directories are not modelled. *)
Definition create_parent (path : string) (d : Disk) : result unit string :=
  match dir_fault d path with Some e => Err e | None => Ok tt end.

(** [Path::file_name] of a Unix path: its last component other than ["."]. *)
Definition slash : Ascii.ascii := Ascii.ascii_of_nat 47.
Definition components (p : string) : list string :=
  filter (λ c, c ≠ ""%string ∧ c ≠ "."%string) (splitn (S (String.length p)) slash p).
Definition file_name (p : string) : option string :=
  match last (components p) with
  | Some c => if String.eqb c ".." then None else Some c
  | None => None
  end.

Definition empty_disk : Disk := mkDisk ∅ (λ _, None) (λ _, None).
Definition disk_with (path : string) (data : list byte) : Disk :=
  mkDisk {[ path := data ]} (λ _, None) (λ _, None).

Lemma write_ok path data d :
  write_fault d path = None →
  write path data d = (Ok tt, mkDisk (<[path := data]> (files d)) (dir_fault d) (write_fault d)).
Proof. unfold write. by intros ->. Qed.
