(* ===== verification/JsonFile.v ===== *)
(** * JsonFile: stores kept as one JSON file

    The loading and saving that crates/vpn/src/storage/version.rs,
    metadata.rs and other stores share: a missing or blank file is the empty
    store, and saving creates the parent directory and overwrites the file. *)
From S2P Require Import Prelude Text Json Disk.

Inductive LoadError := ReadError (e : string) | ParseError (e : string).
Inductive SaveError := DirError (e : string) | WriteError (e : string).

Section JsonFile.
Context {T : Type} `{JsonText T}.

Definition load_json (empty : T) (path : string) (d : Disk) : result T LoadError :=
  match files d !! path with
  | None => Ok empty
  | Some data =>
      match from_utf8 data with
      | None => Err (ReadError "stream did not contain valid UTF-8")
      | Some s =>
          if white_space (as_bytes s) then Ok empty else map_err ParseError (from_str s)
      end
  end.
Definition save_json (x : T) (path : string) (d : Disk) : result unit SaveError * Disk :=
  match create_parent path d with
  | Err e => (Err (DirError e), d)
  | Ok _ =>
      let '(res, d) := write path (as_bytes (to_string x)) d in (map_err WriteError res, d)
  end.

(** The file at [path] is the store [x]. *)
Definition stored (x : T) (path : string) (d : Disk) : Prop :=
  files d !! path = Some (as_bytes (to_string x)).

Lemma load_stored `{!JsonTextOk T} empty x path d :
  stored x path d → load_json empty path d = Ok x.
Proof.
  intros Hf. unfold load_json. rewrite Hf, from_utf8_as_bytes by apply to_string_str.
  by rewrite to_string_not_blank, from_str_to_string.
Qed.
Lemma save_stored x path d d' :
  save_json x path d = (Ok tt, d') → stored x path d'.
Proof.
  unfold save_json, create_parent, write. destruct (dir_fault d path) as [e|]; [done|].
  destruct (write_fault d path) as [[e [n|]]|]; [done..|].
  intros [= <-]. apply lookup_insert_eq.
Qed.
Lemma save_writable x path d :
  dir_fault d path = None → write_fault d path = None →
  ∃ d', save_json x path d = (Ok tt, d') ∧ dir_fault d' path = None ∧ write_fault d' path = None
    ∧ files d' = <[path := as_bytes (to_string x)]> (files d).
Proof.
  intros Hd Hw. unfold save_json, create_parent, write. rewrite Hd, Hw. by eexists.
Qed.
End JsonFile.
