(* ===== verification/Election.v ===== *)
(** * Election: the Raft-like election of the registration center

    Models crates/vpn/src/registry/election.rs.  A manager is a record; the
    hooks it was given (sending, starting and stopping the registry, loading
    synchronised data) are logged in [log].  Locks are never poisoned here, as
    no code panics while holding one. *)
From S2P Require Import Prelude Identity Json.

Definition DEFAULT_HEARTBEAT_MISS_THRESHOLD : Z := 3.
Definition DEFAULT_ELECTION_TIMEOUT_MS : Z := 1500.

Inductive RegistryStatus := Follower | Candidate | Leader.
#[export] Instance RegistryStatus_eq_dec : EqDecision RegistryStatus.
Proof. solve_decision. Defined.
Definition RegistryStatus_display (s : RegistryStatus) : string :=
  match s with Follower => "Follower" | Candidate => "Candidate" | Leader => "Leader" end.
Definition is_follower (s : RegistryStatus) : bool := bool_decide (s = Follower).
Definition is_candidate (s : RegistryStatus) : bool := bool_decide (s = Candidate).
Definition is_leader (s : RegistryStatus) : bool := bool_decide (s = Leader).

Inductive ElectionMessageType :=
| ElectionRequest | ElectionVote | ElectionResult | RegistryChange | RegistrySync.
Module ElectionMessageType.
Definition from_u8 (b : Z) : option ElectionMessageType :=
  match b with
  | 0x11 => Some ElectionRequest | 0x12 => Some ElectionVote | 0x13 => Some ElectionResult
  | 0x14 => Some RegistryChange | 0x15 => Some RegistrySync | _ => None
  end.
Definition to_u8 (t : ElectionMessageType) : Z :=
  match t with
  | ElectionRequest => 0x11 | ElectionVote => 0x12 | ElectionResult => 0x13
  | RegistryChange => 0x14 | RegistrySync => 0x15
  end.
End ElectionMessageType.

(** ** Payloads *)

Record ElectionRequestPayload := mkRequest { candidate_id : NodeID; candidate_name : string; req_term : Z }.
Record ElectionVotePayload := mkVote {
  voter_id : NodeID; vote_candidate : NodeID; vote_term : Z; granted : bool }.
Record ElectionResultPayload := mkResult { leader_id : NodeID; leader_name : string; result_term : Z }.
Record RegistryChangePayload := mkChange {
  change_id : NodeID; change_name : string; change_addr : string; change_term : Z }.
Record RegistrySyncPayload := mkSync { requester_id : NodeID; requester_name : string; sync_term : Z }.
Record RegistrySyncResponsePayload := mkSyncResponse {
  resp_leader_id : NodeID; resp_leader_name : string; resp_term : Z; registry_data : string }.

(** The JSON codecs of the payloads. *)
Class ElectionJson := {
  request_json :: SerdeJson ElectionRequestPayload;
  vote_json :: SerdeJson ElectionVotePayload;
  result_json :: SerdeJson ElectionResultPayload;
  change_json :: SerdeJson RegistryChangePayload;
  sync_json :: SerdeJson RegistrySyncPayload;
  sync_response_json :: SerdeJson RegistrySyncResponsePayload
}.
Class ElectionJsonOk `{ElectionJson} : Prop := {
  request_json_ok :: SerdeJsonOk ElectionRequestPayload;
  vote_json_ok :: SerdeJsonOk ElectionVotePayload;
  result_json_ok :: SerdeJsonOk ElectionResultPayload;
  change_json_ok :: SerdeJsonOk RegistryChangePayload;
  sync_json_ok :: SerdeJsonOk RegistrySyncPayload;
  sync_response_json_ok :: SerdeJsonOk RegistrySyncResponsePayload
}.

Inductive ElectionError :=
| NoRelayManager
| SerializeError (msg : string)
| SendFailed (msg : string)
| LockPoisoned
| ElectionTimeout
| NotEnoughNodes.
Definition ElectionError_display (e : ElectionError) : string :=
  match e with
  | NoRelayManager => "no relay manager configured"
  | SerializeError msg => "serialize error: " +:+ msg
  | SendFailed msg => "send failed: " +:+ msg
  | LockPoisoned => "lock poisoned"
  | ElectionTimeout => "election timeout"
  | NotEnoughNodes => "not enough nodes for election"
  end.

(** ** The manager *)

Record KnownNode := mkKnown { known_id : NodeID; known_name : string; known_addr : string }.

(** The calls of the hooks, in order. *)
Inductive Call := Send (addr : string) (msg : list byte) | Control (on : bool) | Load (data : string).
(** Which hooks are set; [sync_callback] with the data it returns. *)
Record Hooks := mkHooks {
  send_fn : bool; registry_control : bool; sync_callback : option string; load_callback : bool }.

Record ElectionConfig := mkElectionConfig { miss_threshold : Z; timeout : Duration }.
Definition default_config : ElectionConfig :=
  mkElectionConfig DEFAULT_HEARTBEAT_MISS_THRESHOLD (from_millis DEFAULT_ELECTION_TIMEOUT_MS).
(** [election_timeout] is stored and not read. *)
Record ElectionManager := mkElection {
  local_id : NodeID;
  local_name : string;
  status : RegistryStatus;
  term : Z;
  voted_for : option NodeID;
  registry_id : option NodeID;
  registry_name : option string;
  registry_addr : option string;
  last_registry_heartbeat : Instant;
  missed_heartbeats : Z;
  heartbeat_miss_threshold : Z;
  election_timeout : Duration;
  known_nodes : list KnownNode;
  votes_received : list NodeID;
  hooks : Hooks;
  log : list Call;
  (** The flag of the monitoring thread. *)
  running : bool
}.

(** The voting part, the registry part and the monitoring part of the state. *)
Definition set_vote (s : RegistryStatus) (t : Z) (v : option NodeID) (votes : list NodeID)
    (e : ElectionManager) : ElectionManager :=
  mkElection (local_id e) (local_name e) s t v (registry_id e) (registry_name e)
    (registry_addr e) (last_registry_heartbeat e) (missed_heartbeats e)
    (heartbeat_miss_threshold e) (election_timeout e) (known_nodes e) votes (hooks e) (log e) (running e).
Definition put_registry (id : option NodeID) (name addr : option string) (e : ElectionManager)
    : ElectionManager :=
  mkElection (local_id e) (local_name e) (status e) (term e) (voted_for e) id name addr
    (last_registry_heartbeat e) (missed_heartbeats e) (heartbeat_miss_threshold e) (election_timeout e)
    (known_nodes e) (votes_received e) (hooks e) (log e) (running e).
Definition set_monitor (last : Instant) (missed : Z) (e : ElectionManager) : ElectionManager :=
  mkElection (local_id e) (local_name e) (status e) (term e) (voted_for e) (registry_id e)
    (registry_name e) (registry_addr e) last missed (heartbeat_miss_threshold e) (election_timeout e)
    (known_nodes e) (votes_received e) (hooks e) (log e) (running e).
Definition set_known (l : list KnownNode) (e : ElectionManager) : ElectionManager :=
  mkElection (local_id e) (local_name e) (status e) (term e) (voted_for e) (registry_id e)
    (registry_name e) (registry_addr e) (last_registry_heartbeat e) (missed_heartbeats e)
    (heartbeat_miss_threshold e) (election_timeout e) l (votes_received e) (hooks e) (log e) (running e).
Definition set_hooks (h : Hooks) (e : ElectionManager) : ElectionManager :=
  mkElection (local_id e) (local_name e) (status e) (term e) (voted_for e) (registry_id e)
    (registry_name e) (registry_addr e) (last_registry_heartbeat e) (missed_heartbeats e)
    (heartbeat_miss_threshold e) (election_timeout e) (known_nodes e) (votes_received e) h (log e) (running e).
Definition set_log (l : list Call) (e : ElectionManager) : ElectionManager :=
  mkElection (local_id e) (local_name e) (status e) (term e) (voted_for e) (registry_id e)
    (registry_name e) (registry_addr e) (last_registry_heartbeat e) (missed_heartbeats e)
    (heartbeat_miss_threshold e) (election_timeout e) (known_nodes e) (votes_received e) (hooks e) l (running e).

Definition set_running (b : bool) (e : ElectionManager) : ElectionManager :=
  mkElection (local_id e) (local_name e) (status e) (term e) (voted_for e) (registry_id e)
    (registry_name e) (registry_addr e) (last_registry_heartbeat e) (missed_heartbeats e)
    (heartbeat_miss_threshold e) (election_timeout e) (known_nodes e) (votes_received e) (hooks e) (log e) b.

(** [ctrl(on)], [cb(data)] when the hook is set. *)
Definition control (on : bool) (e : ElectionManager) : ElectionManager :=
  if registry_control (hooks e) then set_log (log e ++ [Control on]) e else e.
Definition load (data : string) (e : ElectionManager) : ElectionManager :=
  if load_callback (hooks e) then set_log (log e ++ [Load data]) e else e.

(** What [send_fn] answers, per address; a broadcast only logs the failures. *)
Abbreviation Sending := (string → result unit string).

Module ElectionManager.
Section ElectionManager.
Context `{Sha256Crate} `{ElectionJson}.
Implicit Types e : ElectionManager.

Definition new (now : Instant) (id : NodeID) (name : string) (config : option ElectionConfig)
    : ElectionManager :=
  let config := default default_config config in
  mkElection id name Follower 0 None None None None now 0
    (miss_threshold config) (timeout config) [] [] (mkHooks false false None false) [] false.

Definition set_send_fn e : ElectionManager :=
  set_hooks (mkHooks true (registry_control (hooks e)) (sync_callback (hooks e)) (load_callback (hooks e))) e.
Definition set_registry_control e : ElectionManager :=
  set_hooks (mkHooks (send_fn (hooks e)) true (sync_callback (hooks e)) (load_callback (hooks e))) e.
Definition set_sync_callback (data : string) e : ElectionManager :=
  set_hooks (mkHooks (send_fn (hooks e)) (registry_control (hooks e)) (Some data) (load_callback (hooks e))) e.
Definition set_load_callback e : ElectionManager :=
  set_hooks (mkHooks (send_fn (hooks e)) (registry_control (hooks e)) (sync_callback (hooks e)) true) e.
(** The thread only looks at the flag: it records no missed heartbeat and starts no election. *)
Definition start e : ElectionManager := set_running true e.
Definition stop e : ElectionManager := set_running false e.

Definition add_known_node (id : NodeID) (name addr : string) e : ElectionManager :=
  if existsb (λ n, bool_decide (known_id n = id)) (known_nodes e) then e
  else set_known (known_nodes e ++ [mkKnown id name addr]) e.
Definition remove_known_node (id : NodeID) e : ElectionManager :=
  set_known (filter (λ n, known_id n ≠ id) (known_nodes e)) e.
Definition reset_heartbeat_monitor (now : Instant) e : ElectionManager := set_monitor now 0 e.
Definition set_registry (now : Instant) (id : NodeID) (name addr : string) e : ElectionManager :=
  reset_heartbeat_monitor now (put_registry (Some id) (Some name) (Some addr) e).
Definition record_missed_heartbeat e : ElectionManager :=
  set_monitor (last_registry_heartbeat e) (wrap 32 (missed_heartbeats e + 1)) e.

Definition is_registry_healthy e : bool := missed_heartbeats e <? heartbeat_miss_threshold e.
Definition should_start_election e : bool :=
  is_follower (status e) && negb (bool_decide (registry_id e = None)) && negb (is_registry_healthy e).

(** ** Sending *)

Definition frame {T} `{SerdeJson T} (t : ElectionMessageType) (payload : T) : list byte :=
  byte_of_Z (ElectionMessageType.to_u8 t) :: to_vec payload.
Definition broadcast (msg : list byte) e : ElectionManager :=
  if send_fn (hooks e)
  then set_log (log e ++ ((λ n, Send (known_addr n) msg) <$> known_nodes e)) e else e.
Definition build_vote_message (candidate : NodeID) (t : Z) (granted : bool) e : list byte :=
  frame ElectionVote (mkVote (local_id e) candidate t granted).
Definition get_local_addr e : option string :=
  known_addr <$> head (filter (λ n, known_id n = local_id e) (known_nodes e)).

(** ** Transitions *)

Definition start_election e : result unit ElectionError * ElectionManager :=
  if is_candidate (status e) then (Ok tt, e) else
  match known_nodes e with
  | [] => (Err NotEnoughNodes, e)
  | _ =>
      let new_term := wrap 64 (term e + 1) in
      let e := set_vote Candidate new_term (Some (local_id e)) [local_id e] e in
      (Ok tt, broadcast (frame ElectionRequest (mkRequest (local_id e) (local_name e) new_term)) e)
  end.

Definition become_leader e : ElectionManager :=
  let local_addr := get_local_addr e in
  let e := set_vote Leader (term e) (voted_for e) (votes_received e) e in
  let e := put_registry (Some (local_id e)) (Some (local_name e)) local_addr e in
  let e := control true e in
  let e := broadcast (frame ElectionResult (mkResult (local_id e) (local_name e) (term e))) e in
  match local_addr with
  | Some addr =>
      broadcast (frame RegistryChange (mkChange (local_id e) (local_name e) addr (term e))) e
  | None => e
  end.

Definition become_follower (now : Instant) (new_term : Z) (new_registry_id : option NodeID) e
    : ElectionManager :=
  let e := set_vote Follower (Z.max (term e) new_term) None [] e in
  let e :=
    match new_registry_id with
    | Some id =>
        let e := put_registry (Some id) (registry_name e) (registry_addr e) e in
        if decide (id = local_id e) then e else control false e
    | None => e
    end in
  reset_heartbeat_monitor now e.

(** ** Votes *)

Definition compute_candidate_hash (candidate : NodeID) (t : Z) : Z :=
  of_be (take 8 (arr_bytes (sha256 (arr_bytes candidate ++ be_bytes 8 t)))).
Definition should_vote_for (candidate : NodeID) (t : Z) e : bool :=
  match voted_for e with
  | Some _ => false
  | None =>
      if decide (candidate = local_id e) then true
      else of_be (take 8 (arr_bytes (local_id e))) <? compute_candidate_hash candidate t
  end.

(** ** Handlers *)

Abbreviation Answer := (result (option (list byte)) ElectionError).
(** [serde_json::from_slice(payload)?] *)
Definition parse {T} `{SerdeJson T} (payload : list byte) : result T ElectionError :=
  map_err SerializeError (from_slice payload).

Definition handle_election_request (now : Instant) (payload : list byte) e
    : Answer * ElectionManager :=
  match parse payload with
  | Err err => (Err err, e)
  | Ok req =>
      let c := candidate_id req in
      let t := req_term req in
      if t <? term e then (Ok (Some (build_vote_message c t false e)), e) else
      let e := if term e <? t then become_follower now t None e else e in
      let granted := should_vote_for c t e in
      let e := if granted then set_vote (status e) (term e) (Some c) (votes_received e) e else e in
      (Ok (Some (build_vote_message c t granted e)), e)
  end.

Definition handle_election_vote (payload : list byte) e : Answer * ElectionManager :=
  match parse payload with
  | Err err => (Err err, e)
  | Ok vote =>
      if negb (is_candidate (status e)) then (Ok None, e) else
      if negb (vote_term vote =? term e) then (Ok None, e) else
      if negb (bool_decide (vote_candidate vote = local_id e)) then (Ok None, e) else
      if negb (granted vote) then (Ok None, e) else
      if bool_decide (voter_id vote ∈ votes_received e) then (Ok None, e) else
      let vr := votes_received e ++ [voter_id vote] in
      let e := set_vote (status e) (term e) (voted_for e) vr e in
      let total_nodes := S (length (known_nodes e)) in
      (Ok None, if (total_nodes / 2 <? length vr)%nat then become_leader e else e)
  end.

Definition handle_election_result (now : Instant) (payload : list byte) e
    : Answer * ElectionManager :=
  match parse payload with
  | Err err => (Err err, e)
  | Ok res =>
      if result_term res <? term e then (Ok None, e) else
      if decide (leader_id res = local_id e) then (Ok None, e) else
      (Ok None, become_follower now (result_term res) (Some (leader_id res)) e)
  end.

Definition handle_registry_change (now : Instant) (payload : list byte) e
    : Answer * ElectionManager :=
  match parse payload with
  | Err err => (Err err, e)
  | Ok change =>
      if change_term change <? term e then (Ok None, e) else
      if decide (change_id change = local_id e) then (Ok None, e) else
      let e := put_registry (Some (change_id change)) (Some (change_name change))
                 (Some (change_addr change)) e in
      let e := if is_leader (status e) then control false e else e in
      (Ok None, become_follower now (change_term change) (Some (change_id change)) e)
  end.

Definition handle_registry_sync (now : Instant) (payload : list byte) e
    : Answer * ElectionManager :=
  match parse payload with
  | Err err => (Err err, e)
  | Ok sync =>
      if negb (is_leader (status e)) then (Ok None, e) else
      if term e <? sync_term sync
      then (Ok None, become_follower now (sync_term sync) (Some (requester_id sync)) e) else
      let data := default ""%string (sync_callback (hooks e)) in
      (Ok (Some (frame RegistrySync (mkSyncResponse (local_id e) (local_name e) (term e) data))), e)
  end.

Definition handle_message (now : Instant) (data : list byte) e : Answer * ElectionManager :=
  match data with
  | [] => (Ok None, e)
  | b :: payload =>
      match ElectionMessageType.from_u8 (Z_of_byte b) with
      | Some ElectionRequest => handle_election_request now payload e
      | Some ElectionVote => handle_election_vote payload e
      | Some ElectionResult => handle_election_result now payload e
      | Some RegistryChange => handle_registry_change now payload e
      | Some RegistrySync => handle_registry_sync now payload e
      | None => (Ok None, e)
      end
  end.

Definition request_sync (sending : Sending) (leader_addr : string) e
    : result unit ElectionError * ElectionManager :=
  let msg := frame RegistrySync (mkSync (local_id e) (local_name e) (term e)) in
  if send_fn (hooks e)
  then (map_err SendFailed (sending leader_addr), set_log (log e ++ [Send leader_addr msg]) e)
  else (Err NoRelayManager, e).

Definition handle_sync_response (payload : list byte) e : result unit ElectionError * ElectionManager :=
  match parse payload with
  | Err err => (Err err, e)
  | Ok resp =>
      let e := set_vote (status e) (Z.max (term e) (resp_term resp)) (voted_for e)
                 (votes_received e) e in
      let e := put_registry (Some (resp_leader_id resp)) (Some (resp_leader_name resp))
                 (registry_addr e) e in
      (Ok tt, if String.eqb (registry_data resp) "" then e else load (registry_data resp) e)
  end.
End ElectionManager.
End ElectionManager.
Import ElectionManager.
