(* ===== verification/ElectionProofs.v ===== *)
(** * ElectionProofs: a cluster of election managers

    A cluster is a map of managers and the messages ever sent; [cstep] is one
    call on one of them, that of [handle_sync_response] with the payload of a received
    message included, which the program leaves to its caller.  The first part shows
    that a term has one announced leader as long as nobody takes in an announcement of its
    own term, and one manager in the state Leader as long as, besides, no leader takes in
    the answer of a leader of a later term; the second builds executions with two
    leaders in which somebody does.  Members do not restart (a vote is only kept in memory). *)
From S2P Require Import Prelude Identity Json Election.
Import ElectionManager.

(** ** A cluster of managers *)

(** Every message ever sent stays deliverable: loss, reordering and
    duplication are executions in which it is not, later, or again. *)
Record Cluster := mkCluster { members : gmap NodeID ElectionManager; msgs : list (list byte) }.

Definition sent_msg (c : Call) : option (list byte) :=
  match c with Send _ m => Some m | _ => None end.
(** What one call of [e] that ends in [e'] and answers [reply] puts on the wire. *)
Definition wire (e e' : ElectionManager) (reply : option (list byte)) : list (list byte) :=
  omap sent_msg (drop (length (log e)) (log e')) ++ option_list reply.
Definition commit (n : NodeID) (e e' : ElectionManager) (reply : option (list byte)) (c : Cluster)
    : Cluster :=
  mkCluster (<[n := e']> (members c)) (msgs c ++ wire e e' reply).
Definition answer {E} (r : result (option (list byte)) E) : option (list byte) :=
  match r with Ok o => o | Err _ => None end.

Section Cluster.
Context `{Sha256Crate} `{ElectionJson}.
Variable may_receive : ElectionManager → list byte → Prop.

Inductive cstep (c : Cluster) : Cluster → Prop :=
| cstep_start n e :
    members c !! n = Some e → term e + 1 < 2 ^ 64 →
    cstep c (commit n e (start_election e).2 None c)
| cstep_message n e now m :
    members c !! n = Some e → m ∈ msgs c → may_receive e m →
    cstep c (commit n e (handle_message now m e).2 (answer (handle_message now m e).1) c)
| cstep_missed n e :
    members c !! n = Some e → cstep c (commit n e (record_missed_heartbeat e) None c)
| cstep_heartbeat n e now :
    members c !! n = Some e → cstep c (commit n e (reset_heartbeat_monitor now e) None c)
| cstep_registry n e now id name addr :
    members c !! n = Some e → cstep c (commit n e (set_registry now id name addr e) None c)
| cstep_request_sync n e sending addr :
    members c !! n = Some e → cstep c (commit n e (request_sync sending addr e).2 None c)
| cstep_sync_response n e b p :
    members c !! n = Some e → b :: p ∈ msgs c → may_receive e (b :: p) →
    cstep c (commit n e (handle_sync_response p e).2 None c).

(** At the start: followers that have not voted, that know all the others and
    can send. *)
Definition initial (c : Cluster) : Prop :=
  msgs c = [] ∧ ∀ n e, members c !! n = Some e →
    local_id e = n ∧ status e = Follower ∧ voted_for e = None ∧ votes_received e = []
    ∧ 0 <= term e ∧ send_fn (hooks e) = true ∧ known_nodes e ≠ []
    ∧ S (length (known_nodes e)) = size (members c).
Definition cluster_reachable (c : Cluster) : Prop := ∃ c0, initial c0 ∧ rtc cstep c0 c.
End Cluster.

(** An announcement ([ElectionResult], [RegistryChange]) of the very term the
    receiver is in. *)
Definition announces `{ElectionJson} (t : Z) (m : list byte) : Prop :=
  ∃ b p, m = b :: p ∧
    ((ElectionMessageType.from_u8 (Z_of_byte b) = Some ElectionResult
        ∧ ∃ r, from_slice p = Ok r ∧ result_term r = t)
     ∨ (ElectionMessageType.from_u8 (Z_of_byte b) = Some RegistryChange
        ∧ ∃ r, from_slice p = Ok r ∧ change_term r = t)).
Definition later_announcements `{ElectionJson} (e : ElectionManager) (m : list byte) : Prop :=
  ¬ announces (term e) m.
(** The answer to a synchronisation, of a term later than [t]. *)
Definition answers_later `{ElectionJson} (t : Z) (m : list byte) : Prop :=
  ∃ b p r, m = b :: p ∧ from_slice p = Ok r ∧ t < resp_term r.
(** Besides, no leader takes in such an answer. *)
Definition leaders_keep_term `{ElectionJson} (e : ElectionManager) (m : list byte) : Prop :=
  later_announcements e m ∧ (status e = Leader → ¬ answers_later (term e) m).

(** ** Why a term has one leader *)

Section Safety.
Context `{Sha256Crate} `{ElectionJson} `{!ElectionJsonOk}.
(** Whether no leader takes in an answer of a later term. *)
Variable strict : Prop.
Implicit Types c : Cluster.
Implicit Types ms : list (list byte).

Lemma frame_type {T} `{SerdeJson T} t (x : T) :
  ∃ b p, frame t x = b :: p ∧ ElectionMessageType.from_u8 (Z_of_byte b) = Some t ∧ p = to_vec x.
Proof.
  exists (byte_of_Z (ElectionMessageType.to_u8 t)), (to_vec x). split_and!; [done| |done].
  rewrite Z_of_byte_of_Z. by destruct t.
Qed.
Lemma frame_inj {T U} `{SerdeJson T} `{SerdeJson U} t u (x : T) (y : U) :
  frame t x = frame u y → t = u ∧ to_vec x = to_vec y.
Proof.
  destruct (frame_type t x) as (b & p & -> & Hb & ->).
  destruct (frame_type u y) as (b' & p' & -> & Hb' & ->). intros [= -> ->].
  split; [congruence|done].
Qed.
Lemma frame_eq {T} `{SerdeJson T} `{!SerdeJsonOk T} t (x y : T) : frame t x = frame t y → x = y.
Proof.
  intros [_ E]%frame_inj. apply (f_equal from_slice) in E.
  rewrite !from_slice_to_vec in E. by injection E.
Qed.

(** [v] voted for [l] in the term [t]: it said so, or it stood itself. *)
Definition cast ms (v l : NodeID) (t : Z) : Prop :=
  frame ElectionVote (mkVote v l t true) ∈ ms
  ∨ (v = l ∧ ∃ name, frame ElectionRequest (mkRequest v name t) ∈ ms).
(** [l] was announced as the leader of the term [t]. *)
Definition announced ms (l : NodeID) (t : Z) : Prop :=
  ∃ name, frame ElectionResult (mkResult l name t) ∈ ms.

(** The messages this model of the cluster can hold. *)
Definition known_form (m : list byte) : Prop :=
  (∃ x : ElectionRequestPayload, m = frame ElectionRequest x)
  ∨ (∃ x : ElectionVotePayload, m = frame ElectionVote x)
  ∨ (∃ x : ElectionResultPayload, m = frame ElectionResult x)
  ∨ (∃ x : RegistryChangePayload, m = frame RegistryChange x)
  ∨ (∃ x : RegistrySyncPayload, m = frame RegistrySync x)
  ∨ (∃ x : RegistrySyncResponsePayload, m = frame RegistrySync x).

Definition majority (size : nat) (votes : list NodeID) : Prop :=
  NoDup votes ∧ (size < 2 * length votes)%nat.

(** The votes that are counted are of the term in which the node last stood. *)
Definition stood ms (n : NodeID) (e : ElectionManager) : Prop :=
  ∃ s, s <= term e ∧ (∀ w, w ∈ votes_received e → cast ms w n s)
    ∧ (status e ≠ Follower → cast ms n n s ∧ (∀ l t, cast ms n l t → t <= s) ∧ voted_for e ≠ None)
    ∧ (status e = Leader → announced ms n s ∧ (strict → s = term e)).

Record node_ok (size : nat) ms (n : NodeID) (e : ElectionManager) : Prop := {
  node_id : local_id e = n;
  node_term : 0 <= term e;
  node_sends : send_fn (hooks e) = true;
  node_knows : S (length (known_nodes e)) = size ∧ known_nodes e ≠ [];
  node_votes : NoDup (votes_received e);
  node_stood : stood ms n e;
  node_cast l t : cast ms n l t → t <= term e ∧ (t = term e → voted_for e = Some l)
}.
Record cluster_ok c : Prop := {
  ok_form m : m ∈ msgs c → known_form m;
  ok_node n e : members c !! n = Some e → node_ok (size (members c)) (msgs c) n e;
  ok_voter v l t : cast (msgs c) v l t → is_Some (members c !! v);
  ok_unique v l l' t : cast (msgs c) v l t → cast (msgs c) v l' t → l = l';
  ok_stands v l t : cast (msgs c) v l t → cast (msgs c) l l t;
  ok_leader l t : announced (msgs c) l t →
    ∃ votes, majority (size (members c)) votes ∧ ∀ w, w ∈ votes → cast (msgs c) w l t
}.

(** Two majorities of voters share one. *)
Lemma majorities_meet c vs ws :
  majority (size (members c)) vs → majority (size (members c)) ws →
  (∀ v, v ∈ vs ++ ws → is_Some (members c !! v)) → ∃ v, v ∈ vs ∧ v ∈ ws.
Proof.
  intros [Hv Hlv] [Hw Hlw] Hin.
  destruct (decide (Exists (λ v, v ∈ ws) vs)) as [(v & ? & ?)%Exists_exists|Hno]; [by exists v|].
  exfalso. assert (Hd : NoDup (vs ++ ws)).
  { apply NoDup_app. split_and!; [done| |done]. intros x Hx Hx'. apply Hno, Exists_exists. eauto. }
  assert (Hs : list_to_set (vs ++ ws) ⊆@{gset NodeID} dom (members c)).
  { intros x Hx. apply elem_of_dom, Hin. by apply elem_of_list_to_set in Hx. }
  apply subseteq_size in Hs. rewrite size_list_to_set, size_dom, length_app in Hs by done. lia.
Qed.
Lemma one_leader c l l' t :
  cluster_ok c → announced (msgs c) l t → announced (msgs c) l' t → l = l'.
Proof.
  intros Hok (vs & Hvs & Hcv)%(ok_leader c Hok) (ws & Hws & Hcw)%(ok_leader c Hok).
  destruct (majorities_meet c vs ws Hvs Hws) as (v & Hv & Hw).
  - intros v [Hv|Hv]%elem_of_app; eapply (ok_voter c Hok); eauto.
  - eapply (ok_unique c Hok v); eauto.
Qed.

(** *** Adding messages *)

Lemma cast_app ms w v l t :
  cast (ms ++ w) v l t ↔ cast ms v l t ∨ cast w v l t.
Proof.
  unfold cast. setoid_rewrite elem_of_app. split.
  - intros [[?|?]|(-> & name & [?|?])]; eauto 10.
  - intros [[?|(-> & name & ?)]|[?|(-> & name & ?)]]; eauto 10.
Qed.
Lemma announced_app ms w l t : announced (ms ++ w) l t ↔ announced ms l t ∨ announced w l t.
Proof.
  unfold announced. setoid_rewrite elem_of_app. split.
  - intros (name & [?|?]); eauto.
  - intros [(name & ?)|(name & ?)]; eauto.
Qed.

(** What is sent changes nothing of this, as long as the node itself casts no other vote. *)
Lemma stood_app ms w n e : (∀ l t, cast w n l t → cast ms n l t) → stood ms n e → stood (ms ++ w) n e.
Proof.
  intros Hw (s & Hs & Hv & Hst & Hl). exists s. split_and!; [done| | |].
  - intros v Hin. apply cast_app. left. by apply Hv.
  - intros Hf. destruct (Hst Hf) as (Hc & Hm & Hn). split_and!; [apply cast_app; by left| |done].
    intros l t [Hc'|Hc']%cast_app; eauto.
  - intros Hle. destruct (Hl Hle). split; [apply announced_app; by left|done].
Qed.

(** The obligations of one step of the node [n] that sends [w]. *)
Lemma commit_ok c n e e' r w :
  cluster_ok c → members c !! n = Some e → wire e e' r = w →
  (∀ m, m ∈ w → known_form m) →
  node_ok (size (members c)) (msgs c ++ w) n e' →
  (∀ v l t, cast w v l t → v = n) →
  (∀ l l' t, cast (msgs c ++ w) n l t → cast (msgs c ++ w) n l' t → l = l') →
  (∀ v l t, cast w v l t → cast (msgs c ++ w) l l t) →
  (∀ l t, announced w l t →
    ∃ votes, majority (size (members c)) votes ∧ ∀ v, v ∈ votes → cast (msgs c) v l t) →
  cluster_ok (commit n e e' r c).
Proof.
  intros Hok He Hw Hform Hnode Hcast Huniq Hstands Hann. unfold commit. rewrite Hw.
  assert (Hsize : size (<[n:=e']> (members c)) = size (members c))
    by (apply map_size_insert_Some; by eexists).
  split; cbn [members msgs].
  - intros m [Hm|Hm]%elem_of_app; [by apply (ok_form c Hok)|by apply Hform].
  - intros n2 e2. rewrite Hsize. destruct (decide (n2 = n)) as [->|Hn].
    { rewrite lookup_insert_eq. by intros [= <-]. }
    rewrite lookup_insert_ne by done. intros He2.
    destruct (ok_node c Hok n2 e2 He2) as [? ? ? ? ? Hs Hc].
    split; try done.
    + apply stood_app; [|done]. by intros l t Hc'%Hcast.
    + intros l t [?|Hc']%cast_app; [by apply Hc|by apply Hcast in Hc'].
  - intros v l t [Hc|Hc]%cast_app.
    + apply (ok_voter c Hok) in Hc. rewrite lookup_insert_is_Some. destruct (decide (n = v)); auto.
    + apply Hcast in Hc as ->. by rewrite lookup_insert_eq.
  - intros v l l' t Hc Hc'. destruct (decide (v = n)) as [->|Hv]; [by eapply Huniq|].
    apply cast_app in Hc as [Hc|Hc]; [|by apply Hcast in Hc].
    apply cast_app in Hc' as [Hc'|Hc']; [|by apply Hcast in Hc'].
    by eapply (ok_unique c Hok).
  - intros v l t [Hc|Hc]%cast_app; [|by eapply Hstands]. apply cast_app. left. by eapply (ok_stands c Hok).
  - intros l t Ha. rewrite Hsize. apply announced_app in Ha as [Ha|Ha].
    + destruct (ok_leader c Hok l t Ha) as (votes & Hm & Hv). exists votes. split; [done|].
      intros v Hin. apply cast_app. left. by apply Hv.
    + destruct (Hann l t Ha) as (votes & Hm & Hv). exists votes. split; [done|].
      intros v Hin. apply cast_app. left. by apply Hv.
Qed.

(** Messages that are neither a vote in favour, nor a candidacy, nor a result. *)
Definition inert ms : Prop := (∀ v l t, ¬ cast ms v l t) ∧ (∀ l t, ¬ announced ms l t).
Lemma cast_inert ms w v l t : inert w → cast (ms ++ w) v l t ↔ cast ms v l t.
Proof. intros [Hc _]. rewrite cast_app. split; [intros [?|[]%Hc]; done|by left]. Qed.
Lemma announced_inert ms w l t : inert w → announced (ms ++ w) l t ↔ announced ms l t.
Proof. intros [_ Ha]. rewrite announced_app. split; [intros [?|[]%Ha]; done|by left]. Qed.

Lemma inert_nil : inert [].
Proof.
  split.
  - intros v l t [[]%not_elem_of_nil|(_ & name & []%not_elem_of_nil)].
  - intros l t (name & []%not_elem_of_nil).
Qed.
Lemma inert_one {T} `{SerdeJson T} u (x : T) k :
  u ≠ ElectionRequest → u ≠ ElectionVote → u ≠ ElectionResult → inert (replicate k (frame u x)).
Proof.
  intros ? ? ?. split.
  - intros v l t [Hin|(_ & name & Hin)]; apply elem_of_replicate in Hin as [Hin _];
      by apply frame_inj in Hin as [].
  - intros l t (name & Hin). apply elem_of_replicate in Hin as [Hin _].
    by apply frame_inj in Hin as [].
Qed.
Lemma inert_refusal v l t : inert [frame ElectionVote (mkVote v l t false)].
Proof.
  split.
  - intros v' l' t' [Hin|(_ & name & Hin)]; apply list_elem_of_singleton in Hin.
    + by apply frame_eq in Hin.
    + by apply frame_inj in Hin as [].
  - intros l' t' (name & Hin). apply list_elem_of_singleton in Hin. by apply frame_inj in Hin as [].
Qed.

(** A step that sends nothing of importance. *)
Lemma commit_inert c n e e' r w :
  cluster_ok c → members c !! n = Some e → wire e e' r = w → inert w →
  (∀ m, m ∈ w → known_form m) → node_ok (size (members c)) (msgs c) n e' →
  cluster_ok (commit n e e' r c).
Proof.
  intros Hok He Hw Hi Hform [? ? ? ? ? Hs Hc].
  apply (commit_ok c n e e' r w); try done.
  - split; try done.
    + apply stood_app; [|done]. by intros l t Hcs%Hi.
    + intros l t Hcs. apply cast_inert in Hcs; [|done]. by apply Hc.
  - intros v l t Hcs. by apply Hi in Hcs.
  - intros l l' t Hcs Hcs'. apply cast_inert in Hcs, Hcs'; [|done..].
    by eapply (ok_unique c Hok).
  - intros v l t Hcs. by apply Hi in Hcs.
  - intros l t Ha. by apply Hi in Ha.
Qed.

(** *** What each operation does to the votes and the wire *)

Lemma wire_log e e' r cs :
  log e' = log e ++ cs → wire e e' r = omap sent_msg cs ++ option_list r.
Proof. intros E. unfold wire. by rewrite E, drop_app_length. Qed.
Lemma broadcast_log msg e :
  send_fn (hooks e) = true →
  log (broadcast msg e) = log e ++ ((λ n, Send (known_addr n) msg) <$> known_nodes e).
Proof. intros Hs. unfold broadcast. by rewrite Hs. Qed.
Lemma broadcast_sent msg (l : list KnownNode) :
  omap sent_msg ((λ n, Send (known_addr n) msg) <$> l) = replicate (length l) msg.
Proof. induction l as [|k l IH]; [done|]. cbn. by rewrite IH. Qed.

Definition voting (e : ElectionManager) :=
  (local_id e, status e, term e, voted_for e, (send_fn (hooks e), known_nodes e, votes_received e)).
Lemma voting_parts e id s t v f k vs :
  voting e = (id, s, t, v, (f, k, vs)) →
  local_id e = id ∧ status e = s ∧ term e = t ∧ voted_for e = v ∧ send_fn (hooks e) = f
  ∧ known_nodes e = k ∧ votes_received e = vs.
Proof. unfold voting. by intros [= -> -> -> -> -> -> ->]. Qed.
Lemma node_ok_voting k ms n e e' : voting e' = voting e → node_ok k ms n e → node_ok k ms n e'.
Proof.
  intros (E1 & E2 & E3 & E4 & E5 & E6 & E7)%voting_parts [].
  split; unfold stood; rewrite ?E1, ?E2, ?E3, ?E4, ?E5, ?E6, ?E7; done.
Qed.
Lemma control_voting on e : voting (control on e) = voting e.
Proof. unfold control. by destruct (registry_control (hooks e)). Qed.
Lemma broadcast_voting msg e : voting (broadcast msg e) = voting e.
Proof. unfold broadcast. by destruct (send_fn (hooks e)). Qed.
Lemma control_log on e : ∃ cs, log (control on e) = log e ++ cs ∧ omap sent_msg cs = [].
Proof.
  unfold control. destruct (registry_control (hooks e)); cbn; [by exists [Control on]|].
  exists []. by rewrite app_nil_r.
Qed.

Lemma become_follower_voting now t id e :
  voting (become_follower now t id e)
  = (local_id e, Follower, Z.max (term e) t, None, (send_fn (hooks e), known_nodes e, [])).
Proof.
  unfold become_follower. destruct id as [id|]; [|done].
  case_decide; [done|]. unfold control. by case_match.
Qed.
Lemma become_follower_log now t id e :
  ∃ cs, log (become_follower now t id e) = log e ++ cs ∧ omap sent_msg cs = [].
Proof.
  unfold become_follower. destruct id as [id|]; cbn; [|exists []; by rewrite app_nil_r].
  case_decide; [exists []; by rewrite app_nil_r|].
  unfold control. case_match; [by exists [Control false]|exists []; by rewrite app_nil_r].
Qed.
(** A later term starts with a clean slate. *)
Lemma later_follower_ok k ms n e e' t :
  term e < t → node_ok k ms n e →
  voting e' = (local_id e, Follower, Z.max (term e) t, None, (send_fn (hooks e), known_nodes e, [])) →
  node_ok k ms n e'.
Proof.
  intros Ht [Hid Htm Hs Hk _ _ Hc] (E1 & E2 & E3 & E4 & E5 & E6 & E7)%voting_parts.
  split; rewrite ?E1, ?E2, ?E3, ?E4, ?E5, ?E6, ?E7; try done; try lia; [constructor| |].
  - exists 0. rewrite E2, E3, E7. split_and!; [lia| |done..]. by intros w Hw%not_elem_of_nil.
  - intros l t' Hcs. destruct (Hc l t' Hcs) as [Hle _]. split; lia.
Qed.

Lemma bookkeeping_ok c n e e' :
  cluster_ok c → members c !! n = Some e → voting e' = voting e → log e' = log e →
  cluster_ok (commit n e e' None c).
Proof.
  intros Hok He Hv Hl. apply (commit_inert c n e e' None []); try done.
  - rewrite (wire_log _ _ _ []); [done|by rewrite app_nil_r].
  - apply inert_nil.
  - by intros m Hm%not_elem_of_nil.
  - eapply node_ok_voting; [done|]. by apply (ok_node c Hok).
Qed.
(** Stepping down to a later term, with at most an inert reply. *)
Lemma step_down_ok c n e e' t cs r :
  cluster_ok c → members c !! n = Some e → term e < t →
  voting e' = (local_id e, Follower, Z.max (term e) t, None, (send_fn (hooks e), known_nodes e, [])) →
  log e' = log e ++ cs → omap sent_msg cs = [] → inert (option_list r) →
  (∀ m, m ∈ option_list r → known_form m) →
  cluster_ok (commit n e e' r c).
Proof.
  intros Hok He Ht Hv Hl Hcs Hi Hform. apply (commit_inert c n e e' r (option_list r)); try done.
  - by rewrite (wire_log _ _ _ cs), Hcs by done.
  - eapply later_follower_ok; [done|by apply (ok_node c Hok)|done].
Qed.

Lemma start_election_ok c n e :
  cluster_ok c → members c !! n = Some e → term e + 1 < 2 ^ 64 →
  cluster_ok (commit n e (start_election e).2 None c).
Proof.
  intros Hok He Ht. pose proof (ok_node c Hok n e He) as [Hid Htm Hs [Hk Hne] _ _ Hc].
  unfold start_election. destruct (is_candidate (status e)); [by apply bookkeeping_ok|].
  destruct (known_nodes e) as [|k ks] eqn:Ek; [done|]. rewrite <-Ek in *. cbn [snd].
  rewrite wrap_id by (unfold fits; lia).
  set (e1 := set_vote Candidate (term e + 1) (Some (local_id e)) [local_id e] e).
  set (m := frame ElectionRequest _).
  assert (Hm : m ∈ replicate (length (known_nodes e)) m)
    by (rewrite Ek; apply list_elem_of_here).
  assert (Hcw : ∀ v l t, cast (replicate (length (known_nodes e)) m) v l t →
    v = n ∧ l = n ∧ t = term e + 1).
  { intros v l t [Hin|(-> & name & Hin)]; apply elem_of_replicate in Hin as [Hin _].
    - by apply frame_inj in Hin as [].
    - apply frame_eq in Hin. injection Hin as -> _ ->. by rewrite Hid. }
  assert (Hcn : cast (msgs c ++ replicate (length (known_nodes e)) m) n n (term e + 1)).
  { apply cast_app. right. right. split; [done|]. exists (local_name e). by rewrite <-Hid at 1. }
  apply (commit_ok c n e _ None (replicate (length (known_nodes e)) m)); try done.
  - rewrite (wire_log e _ _ _ (broadcast_log m e1 Hs)). cbn [option_list].
    by rewrite app_nil_r, broadcast_sent.
  - intros m' [-> _]%elem_of_replicate. left. by eexists.
  - eapply node_ok_voting; [apply broadcast_voting|]. split; cbn; try done; try lia; [apply NoDup_singleton| |].
    + exists (term e + 1). cbn. split_and!; [lia| | |done].
      * intros w ->%list_elem_of_singleton. by rewrite Hid.
      * intros _. split_and!; [done| |done]. intros l t [Hcs|Hcs]%cast_app; [destruct (Hc l t Hcs); lia|].
        by apply Hcw in Hcs as (_ & _ & ->).
    + intros l t [Hcs|Hcs]%cast_app.
      * destruct (Hc l t Hcs). split; lia.
      * apply Hcw in Hcs as (_ & -> & ->). rewrite Hid. split; [lia|done].
  - by intros v l t []%Hcw.
  - intros l l' t [Hl|Hl]%cast_app [Hl'|Hl']%cast_app.
    + by eapply (ok_unique c Hok).
    + apply Hcw in Hl' as (_ & -> & ->). destruct (Hc l _ Hl). lia.
    + apply Hcw in Hl as (_ & -> & ->). destruct (Hc l' _ Hl'). lia.
    + apply Hcw in Hl as (_ & -> & _), Hl' as (_ & -> & _). done.
  - by intros v l t (_ & -> & ->)%Hcw.
  - intros l t (name & Hin). apply elem_of_replicate in Hin as [Hin _].
    by apply frame_inj in Hin as [].
Qed.

(** What is parsed from a message is what was sent. *)
Lemma msg_frame c b p u :
  cluster_ok c → b :: p ∈ msgs c → ElectionMessageType.from_u8 (Z_of_byte b) = Some u →
  match u with
  | ElectionRequest => ∃ x : ElectionRequestPayload, b :: p = frame u x ∧ p = to_vec x
  | ElectionVote => ∃ x : ElectionVotePayload, b :: p = frame u x ∧ p = to_vec x
  | _ => True
  end.
Proof.
  intros Hok Hin Hb. apply (ok_form c Hok) in Hin as Hf.
  assert (Hu : ∀ {T} `{SerdeJson T} v (y : T), b :: p = frame v y → v = u ∧ p = to_vec y).
  { intros T ? v y E. destruct (frame_type v y) as (b' & p' & E' & Hb' & ->).
    rewrite E' in E. injection E as -> ->. split; [congruence|done]. }
  destruct Hf as [[y E]|[[y E]|[[y E]|[[y E]|[[y E]|[y E]]]]]];
    apply Hu in E as E2; destruct E2 as [<- ->]; try done; by exists y.
Qed.
Lemma msg_request c b p (x : ElectionRequestPayload) :
  cluster_ok c → b :: p ∈ msgs c → ElectionMessageType.from_u8 (Z_of_byte b) = Some ElectionRequest →
  from_slice p = Ok x → frame ElectionRequest x ∈ msgs c.
Proof.
  intros Hok Hin Hb Hx. destruct (msg_frame c b p _ Hok Hin Hb) as (y & E & ->).
  rewrite from_slice_to_vec in Hx. injection Hx as ->. by rewrite <-E.
Qed.
Lemma msg_vote c b p (x : ElectionVotePayload) :
  cluster_ok c → b :: p ∈ msgs c → ElectionMessageType.from_u8 (Z_of_byte b) = Some ElectionVote →
  from_slice p = Ok x → frame ElectionVote x ∈ msgs c.
Proof.
  intros Hok Hin Hb Hx. destruct (msg_frame c b p _ Hok Hin Hb) as (y & E & ->).
  rewrite from_slice_to_vec in Hx. injection Hx as ->. by rewrite <-E.
Qed.

(** A vote in favour by a node that has none in its term. *)
Lemma grant_ok c n e e' r cd t :
  cluster_ok c → members c !! n = Some e → cast (msgs c) cd cd t →
  (∀ l, ¬ cast (msgs c) n l t) → term e <= t →
  (∃ vs, voting e' = (n, Follower, t, Some cd, (true, known_nodes e, vs)) ∧ vs = []
    ∨ term e = t ∧ voting e' = (n, status e, t, Some cd, (true, known_nodes e, vs))
      ∧ vs = votes_received e ∧ status e = Follower) →
  (∃ cs, log e' = log e ++ cs ∧ omap sent_msg cs = []) →
  r = Some (frame ElectionVote (mkVote n cd t true)) →
  cluster_ok (commit n e e' r c).
Proof.
  intros Hok He Hasked Hno Hle Hv (cs & Hl & Hcs) ->.
  pose proof (ok_node c Hok n e He) as [Hid Htm Hs [Hk Hne] Hnd (s & Hse & Hvs & _) Hc].
  set (m := frame ElectionVote _).
  assert (Hcw : ∀ v l t', cast [m] v l t' → v = n ∧ l = cd ∧ t' = t).
  { intros v l t' [Hin|(_ & name & Hin)]; apply list_elem_of_singleton in Hin.
    - apply frame_eq in Hin. by injection Hin as -> -> ->.
    - by apply frame_inj in Hin as []. }
  apply (commit_ok c n e e' (Some m) [m]); try done.
  - by rewrite (wire_log e e' _ cs), Hcs.
  - intros m' ->%list_elem_of_singleton. right. left. by eexists.
  - assert (Hcast : ∀ l t', cast (msgs c ++ [m]) n l t' → t' <= t ∧ (t' = t → Some cd = Some l)).
    { intros l t' [Hcs'|Hcs']%cast_app.
      - destruct (Hc l t' Hcs') as [? _]. split; [lia|]. intros ->. by apply Hno in Hcs'.
      - apply Hcw in Hcs' as (_ & -> & ->). split; [lia|done]. }
    destruct Hv as (vs & [[Hv ->]|(<- & Hv & -> & Hf)]);
      apply voting_parts in Hv as (E1 & E2 & E3 & E4 & E5 & E6 & E7);
      split; unfold stood; rewrite ?E1, ?E2, ?E3, ?E4, ?E5, ?E6, ?E7, ?Hf; try done; try lia.
    + constructor.
    + exists t. split_and!; [lia| |done..]. by intros w Hw%not_elem_of_nil.
    + exists s. split_and!; [lia| |done..]. intros w Hw. apply cast_app. left. by apply Hvs.
  - by intros v l t' []%Hcw.
  - intros l l' t' [H1'|H1']%cast_app [H2'|H2']%cast_app.
    + by eapply (ok_unique c Hok).
    + apply Hcw in H2' as (_ & _ & ->). by apply Hno in H1'.
    + apply Hcw in H1' as (_ & _ & ->). by apply Hno in H2'.
    + apply Hcw in H1' as (_ & -> & _), H2' as (_ & -> & _). done.
  - intros v l t' (_ & -> & ->)%Hcw. apply cast_app. by left.
  - intros l t' (name & Hin). apply list_elem_of_singleton in Hin. by apply frame_inj in Hin as [].
Qed.

(** A refusal: the manager stays as it is, or follows the later term of the request. *)
Lemma refusal_ok c n e e' v l t' :
  cluster_ok c → members c !! n = Some e → (∃ cs, log e' = log e ++ cs ∧ omap sent_msg cs = []) →
  voting e' = voting e ∨ term e < t' ∧ voting e'
    = (local_id e, Follower, Z.max (term e) t', None, (send_fn (hooks e), known_nodes e, [])) →
  cluster_ok (commit n e e' (Some (frame ElectionVote (mkVote v l t' false))) c).
Proof.
  intros Hok He (cs & Hl & Hcs) Hv.
  apply (commit_inert c n e e' _ [frame ElectionVote (mkVote v l t' false)]); try done.
  - by rewrite (wire_log e e' _ cs), Hcs.
  - apply inert_refusal.
  - intros m ->%list_elem_of_singleton. right. left. by eexists.
  - destruct Hv as [Hv|[Hlt Hv]].
    + eapply node_ok_voting; [done|]. by apply (ok_node c Hok).
    + eapply later_follower_ok; [done|by apply (ok_node c Hok)|done].
Qed.
Lemma request_ok c n e now b p :
  cluster_ok c → members c !! n = Some e → b :: p ∈ msgs c →
  ElectionMessageType.from_u8 (Z_of_byte b) = Some ElectionRequest →
  cluster_ok (commit n e (handle_election_request now p e).2
                (answer (handle_election_request now p e).1) c).
Proof.
  intros Hok He Hin Hb. pose proof (ok_node c Hok n e He) as [Hid Htm Hs [Hk Hne] Hnd (s & Hse & Hvs & Hst & _) Hc].
  unfold handle_election_request, parse. destruct (from_slice p) as [[cd name t]|err] eqn:Hp;
    cbn [map_err]; [cbn [candidate_id req_term]|by apply bookkeeping_ok].
  assert (Hasked : cast (msgs c) cd cd t).
  { right. split; [done|]. exists name. by eapply msg_request. }
  assert (Hsame : ∃ cs, log e = log e ++ cs ∧ omap sent_msg cs = []) by (exists []; by rewrite app_nil_r).
  destruct (Z.ltb_spec t (term e)); [by apply refusal_ok; [..|left]|].
  destruct (Z.ltb_spec (term e) t).
  - pose proof (become_follower_voting now t None e) as Hv.
    pose proof (become_follower_log now t None e) as Hl.
    set (e1 := become_follower now t None e) in *.
    destruct (should_vote_for cd t e1) eqn:Hg; cbn [fst snd answer]; [|by apply refusal_ok; [..|right]].
    unfold build_vote_message. cbn [local_id set_vote].
    eapply (grant_ok c n e _ _ cd t); [done|done|done| |lia| |done|by rewrite <-Hid].
    * intros l Hcs. destruct (Hc l t Hcs). lia.
    * exists []. left. split; [|done]. unfold voting. cbn. by rewrite Hid, Hs, Z.max_r by lia.
  - destruct (should_vote_for cd t e) eqn:Hg; cbn [fst snd answer]; [|by apply refusal_ok; [..|left]].
    assert (t = term e) as -> by lia.
    assert (Hnv : voted_for e = None) by (unfold should_vote_for in Hg; by destruct (voted_for e)).
    assert (Hnc : ∀ l, ¬ cast (msgs c) n l (term e)).
    { intros l Hcs. destruct (Hc l _ Hcs) as [_ Hvf]. by rewrite Hvf in Hnv. }
    unfold build_vote_message. cbn [local_id set_vote].
    eapply (grant_ok c n e _ _ cd (term e)); [done|done|done|done|lia| |done|by rewrite <-Hid].
    exists (votes_received e). right. split_and!; [done| |done|].
    + unfold voting. cbn. by rewrite Hid, Hs.
    + destruct (decide (status e = Follower)) as [|Hn]; [done|]. by apply Hst in Hn as (_ & _ & Hn).
Qed.

(** The messages of a new leader: results, and changes when its own address is known. *)
Lemma become_leader_spec e :
  send_fn (hooks e) = true →
  voting (become_leader e)
  = (local_id e, Leader, term e, voted_for e, (true, known_nodes e, votes_received e))
  ∧ ∃ cs k, log (become_leader e) = log e ++ cs
    ∧ omap sent_msg cs
      = replicate (length (known_nodes e)) (frame ElectionResult (mkResult (local_id e) (local_name e) (term e)))
        ++ match get_local_addr e with
           | Some a => replicate k (frame RegistryChange (mkChange (local_id e) (local_name e) a (term e)))
           | None => []
           end.
Proof.
  intros Hs. unfold become_leader.
  set (e1 := control true _). assert (Hv1 : voting e1
    = (local_id e, Leader, term e, voted_for e, (true, known_nodes e, votes_received e))).
  { subst e1. rewrite control_voting. unfold voting. cbn. by rewrite Hs. }
  assert (Hl1 : ∃ cs, log e1 = log e ++ cs ∧ omap sent_msg cs = []).
  { destruct (control_log true (put_registry (Some (local_id e)) (Some (local_name e))
      (get_local_addr e) (set_vote Leader (term e) (voted_for e) (votes_received e) e)))
      as (cs & Hl & Hcs). by exists cs. }
  destruct Hl1 as (cs & Hl1 & Hcs).
  apply voting_parts in Hv1 as Hp. destruct Hp as (Hi1 & _ & Ht1 & _ & Hs1 & Hk1 & _).
  assert (Hn1 : local_name e1 = local_name e).
  { subst e1. unfold control. by destruct (registry_control _). }
  rewrite Hi1, Hn1, Ht1. set (m := frame ElectionResult _).
  assert (Hb : local_id (broadcast m e1) = local_id e ∧ local_name (broadcast m e1) = local_name e
    ∧ term (broadcast m e1) = term e ∧ send_fn (hooks (broadcast m e1)) = true
    ∧ known_nodes (broadcast m e1) = known_nodes e) by (unfold broadcast; rewrite Hs1; done).
  destruct Hb as (Hi2 & Hn2 & Ht2 & Hs2 & Hk2). rewrite ?Hi2, ?Hn2, ?Ht2.
  destruct (get_local_addr e) as [a|].
  - rewrite !broadcast_voting. split; [done|].
    rewrite (broadcast_log _ (broadcast m e1)), (broadcast_log _ e1) by done. rewrite Hl1, Hk1, Hk2.
    set (m' := frame RegistryChange _).
    exists (cs ++ ((λ n, Send (known_addr n) m) <$> known_nodes e)
               ++ ((λ n, Send (known_addr n) m') <$> known_nodes e)), (length (known_nodes e)).
    split; [by rewrite <-!(assoc_L app)|]. by rewrite !omap_app, Hcs, !broadcast_sent.
  - rewrite broadcast_voting. split; [done|]. rewrite (broadcast_log _ e1) by done. rewrite Hl1, Hk1.
    exists (cs ++ ((λ n, Send (known_addr n) m) <$> known_nodes e)), 0%nat.
    split; [by rewrite <-!(assoc_L app)|]. by rewrite omap_app, Hcs, broadcast_sent, app_nil_r.
Qed.

(** One more vote for the candidate [n], and perhaps its election. *)
(** The vote of [v] is counted. *)
Abbreviation counted v e := (set_vote (status e) (term e) (voted_for e) (votes_received e ++ [v]) e).
(** A candidate that gets a vote of its term stood in that term. *)
Lemma stood_now c n e v :
  cluster_ok c → members c !! n = Some e → status e ≠ Follower → cast (msgs c) v n (term e) →
  (∀ w, w ∈ votes_received e → cast (msgs c) w n (term e)) ∧ cast (msgs c) n n (term e)
  ∧ (∀ l t, cast (msgs c) n l t → t <= term e) ∧ voted_for e ≠ None.
Proof.
  intros Hok He Hst Hcv. pose proof (ok_node c Hok n e He) as [_ _ _ _ _ (s & Hse & Hvs & Hs & _) _].
  destruct (Hs Hst) as (Hc & Hm & Hv). apply (ok_stands c Hok) in Hcv as Hcn.
  assert (s = term e) as -> by (pose proof (Hm _ _ Hcn); lia). by split_and!.
Qed.
Lemma votes_with_new c n e v :
  cluster_ok c → members c !! n = Some e → status e = Candidate → cast (msgs c) v n (term e) →
  v ∉ votes_received e →
  NoDup (votes_received (counted v e)) ∧ ∀ w, w ∈ votes_received (counted v e) → cast (msgs c) w n (term e).
Proof.
  intros Hok He Hst Hcv Hv. destruct (stood_now c n e v Hok He ltac:(by rewrite Hst) Hcv) as (Hvs & _).
  pose proof (node_votes _ _ _ _ (ok_node c Hok n e He)) as Hnd. cbn. split.
  - apply NoDup_app. split_and!; [done| |apply NoDup_singleton]. by intros x Hx ->%list_elem_of_singleton.
  - intros w [Hw| ->%list_elem_of_singleton]%elem_of_app; [by apply Hvs|done].
Qed.
Lemma vote_recorded_ok c n e v :
  cluster_ok c → members c !! n = Some e → status e = Candidate →
  cast (msgs c) v n (term e) → v ∉ votes_received e → cluster_ok (commit n e (counted v e) None c).
Proof.
  intros Hok He Hst Hcv Hv. pose proof (votes_with_new c n e v Hok He Hst Hcv Hv) as [Hnd1 Hvs1].
  destruct (stood_now c n e v Hok He ltac:(by rewrite Hst) Hcv) as (_ & Hs1 & Hs2 & Hs3).
  pose proof (ok_node c Hok n e He) as [Hid Htm Hs [Hk Hne] _ _ Hc].
  apply (commit_inert c n e _ None []); try done.
  - by rewrite (wire_log e _ _ []) by by rewrite app_nil_r.
  - apply inert_nil.
  - by intros m Hm%not_elem_of_nil.
  - split; try done. exists (term e). split_and!; [done|done|by intros _|]. cbn. by rewrite Hst.
Qed.
(** With a majority the candidate becomes the leader, and says so. *)
Lemma vote_elects_ok c n e v :
  cluster_ok c → members c !! n = Some e → status e = Candidate →
  cast (msgs c) v n (term e) → v ∉ votes_received e →
  (S (length (known_nodes e)) / 2 < length (votes_received (counted v e)))%nat →
  cluster_ok (commit n e (become_leader (counted v e)) None c).
Proof.
  intros Hok He Hst Hcv Hv Hmaj. set (e1 := counted v e) in *.
  pose proof (votes_with_new c n e v Hok He Hst Hcv Hv) as Hvs1.
  destruct (stood_now c n e v Hok He ltac:(by rewrite Hst) Hcv) as (_ & Hs1 & Hs2 & Hs3).
  pose proof (ok_node c Hok n e He) as [Hid Htm Hs [Hk Hne] Hnd _ Hc].
  destruct (become_leader_spec e1 Hs) as (Hvl & cs & k & Hl & Hcs).
  set (rs := replicate (length (known_nodes e1)) _) in Hcs.
  set (ch := match get_local_addr e1 with Some a => _ | None => _ end) in Hcs.
  assert (Hich : inert ch).
  { subst ch. destruct (get_local_addr e1); [by apply inert_one|apply inert_nil]. }
  assert (Hcrs : ∀ v l t, ¬ cast (rs ++ ch) v l t).
  { intros v' l t Hcst. apply cast_inert in Hcst; [|done].
    destruct Hcst as [Hin|(_ & name & Hin)]; apply elem_of_replicate in Hin as [Hin _];
      by apply frame_inj in Hin as []. }
  assert (Hars : ∀ l t, announced (rs ++ ch) l t → l = n ∧ t = term e).
  { intros l t Ha. apply announced_inert in Ha; [|done]. destruct Ha as (name & Hin).
    apply elem_of_replicate in Hin as [Hin _]. apply frame_eq in Hin.
    injection Hin as -> _ ->. cbn. by rewrite Hid. }
  assert (Hcast' : ∀ v' l t, cast (msgs c ++ rs ++ ch) v' l t ↔ cast (msgs c) v' l t).
  { intros v' l t. rewrite cast_app. split; [intros [?|[]%Hcrs]; done|by left]. }
  apply (commit_ok c n e _ None (rs ++ ch)); try done.
  + by rewrite (wire_log e _ _ cs), Hcs, app_nil_r by done.
  + intros m [[-> _]%elem_of_replicate|Hin]%elem_of_app; [right; right; left; by eexists|].
    subst ch. destruct (get_local_addr e1); [|by apply not_elem_of_nil in Hin].
    apply elem_of_replicate in Hin as [-> _]. right; right; right; left. by eexists.
  + apply voting_parts in Hvl as (E1 & E2 & E3 & E4 & E5 & E6 & E7).
    split; rewrite ?E1, ?E2, ?E3, ?E4, ?E5, ?E6, ?E7; try done; [apply Hvs1| |].
    * exists (term e). rewrite E2, E3, E4, E7. split_and!; [done| | |].
      { intros w Hw. apply Hcast'. by apply Hvs1. }
      { intros _. split_and!; [by apply Hcast'| |done]. intros l t Hcst%Hcast'. by eapply Hs2. }
      intros _. split; [|done]. apply announced_app. right. apply announced_inert; [done|].
      exists (local_name e). subst rs. cbn. rewrite Hid.
      destruct (known_nodes e); [done|]. apply list_elem_of_here.
    * intros l t Hcst%Hcast'. by apply Hc.
  + by intros v' l t Hcst%Hcrs.
  + intros l l' t Hl1%Hcast' Hl2%Hcast'. by eapply (ok_unique c Hok).
  + by intros v' l t Hcst%Hcrs.
  + intros l t [-> ->]%Hars. exists (votes_received e1). split; [|apply Hvs1].
    split; [apply Hvs1|]. rewrite Hk in Hmaj. pose proof (Nat.div_mod_eq (size (members c)) 2).
    pose proof (Nat.mod_upper_bound (size (members c)) 2). lia.
Qed.

Lemma vote_ok c n e b p :
  cluster_ok c → members c !! n = Some e → b :: p ∈ msgs c →
  ElectionMessageType.from_u8 (Z_of_byte b) = Some ElectionVote →
  cluster_ok (commit n e (handle_election_vote p e).2 (answer (handle_election_vote p e).1) c).
Proof.
  intros Hok He Hin Hb. unfold handle_election_vote, parse.
  destruct (from_slice p) as [vote|err] eqn:Hp; cbn [map_err]; [|by apply bookkeeping_ok].
  unfold is_candidate. destruct (decide (status e = Candidate)) as [Hst|];
    [rewrite bool_decide_true by done|rewrite bool_decide_false by done; by apply bookkeeping_ok].
  destruct (Z.eqb_spec (vote_term vote) (term e)) as [Ht|]; [|by apply bookkeeping_ok].
  destruct (decide (vote_candidate vote = local_id e)) as [Hcd|];
    [rewrite bool_decide_true by done|rewrite bool_decide_false by done; by apply bookkeeping_ok].
  destruct (granted vote) eqn:Hg; [|by apply bookkeeping_ok].
  destruct (decide (voter_id vote ∈ votes_received e)) as [|Hv];
    [rewrite bool_decide_true by done; by apply bookkeeping_ok|rewrite bool_decide_false by done].
  cbn [negb fst snd answer].
  assert (Hcast : cast (msgs c) (voter_id vote) n (term e)).
  { left. pose proof (msg_vote c b p vote Hok Hin Hb Hp) as Hm.
    rewrite (node_id _ _ _ _ (ok_node c Hok n e He)) in Hcd.
    destruct vote. cbn in *. by subst. }
  case_match eqn:Hlt; [|by apply vote_recorded_ok]. apply vote_elects_ok; try done. by apply Nat.ltb_lt in Hlt.
Qed.

(** Announcements of a later term, and the synchronisation messages. *)
Lemma result_ok c n e now p b :
  cluster_ok c → members c !! n = Some e → later_announcements e (b :: p) →
  ElectionMessageType.from_u8 (Z_of_byte b) = Some ElectionResult →
  cluster_ok (commit n e (handle_election_result now p e).2
                (answer (handle_election_result now p e).1) c).
Proof.
  intros Hok He Hlater Hb. unfold handle_election_result, parse.
  destruct (from_slice p) as [res|err] eqn:Hp; cbn [map_err]; [|by apply bookkeeping_ok].
  destruct (Z.ltb_spec (result_term res) (term e)); [by apply bookkeeping_ok|].
  case_decide; [by apply bookkeeping_ok|]. cbn [fst snd answer].
  assert (term e < result_term res).
  { destruct (Z.eq_dec (result_term res) (term e)) as [E|]; [|lia].
    exfalso. apply Hlater. exists b, p. split; [done|]. left. split; [done|]. eauto. }
  destruct (become_follower_log now (result_term res) (Some (leader_id res)) e) as (cs & Hl & Hcs).
  eapply step_down_ok; try done; [apply become_follower_voting|apply inert_nil|].
  by intros m Hm%not_elem_of_nil.
Qed.
Lemma change_ok c n e now p b :
  cluster_ok c → members c !! n = Some e → later_announcements e (b :: p) →
  ElectionMessageType.from_u8 (Z_of_byte b) = Some RegistryChange →
  cluster_ok (commit n e (handle_registry_change now p e).2
                (answer (handle_registry_change now p e).1) c).
Proof.
  intros Hok He Hlater Hb. unfold handle_registry_change, parse.
  destruct (from_slice p) as [ch|err] eqn:Hp; cbn [map_err]; [|by apply bookkeeping_ok].
  destruct (Z.ltb_spec (change_term ch) (term e)); [by apply bookkeeping_ok|].
  case_decide; [by apply bookkeeping_ok|]. cbn [fst snd answer].
  assert (term e < change_term ch).
  { destruct (Z.eq_dec (change_term ch) (term e)) as [E|]; [|lia].
    exfalso. apply Hlater. exists b, p. split; [done|]. right. split; [done|]. eauto. }
  set (e1 := put_registry _ _ _ e).
  set (e2 := if is_leader (status e1) then control false e1 else e1).
  assert (Hv : voting e2 = voting e).
  { subst e2. destruct (is_leader (status e1)); [by rewrite control_voting|done]. }
  assert (Hl2 : ∃ cs, log e2 = log e ++ cs ∧ omap sent_msg cs = []).
  { subst e2. destruct (is_leader (status e1)); [exact (control_log false e1)|].
    exists []. by rewrite app_nil_r. }
  destruct Hl2 as (cs & Hl2 & Hcs).
  destruct (become_follower_log now (change_term ch) (Some (change_id ch)) e2) as (cs' & Hl & Hcs').
  unfold voting in Hv. apply voting_parts in Hv as (E1 & E2 & E3 & E4 & E5 & E6 & E7).
  apply (step_down_ok c n e _ (change_term ch) (cs ++ cs') None); try done.
  - rewrite become_follower_voting. by rewrite E1, E3, E5, E6.
  - by rewrite Hl, Hl2, (assoc_L app).
  - by rewrite omap_app, Hcs, Hcs'.
  - apply inert_nil.
  - by intros m Hm%not_elem_of_nil.
Qed.
Lemma sync_ok c n e now p :
  cluster_ok c → members c !! n = Some e →
  cluster_ok (commit n e (handle_registry_sync now p e).2
                (answer (handle_registry_sync now p e).1) c).
Proof.
  intros Hok He. unfold handle_registry_sync, parse.
  destruct (from_slice p) as [sy|err] eqn:Hp; cbn [map_err]; [|by apply bookkeeping_ok].
  destruct (is_leader (status e)); [|by apply bookkeeping_ok].
  destruct (Z.ltb_spec (term e) (sync_term sy)); cbn [negb fst snd answer].
  - destruct (become_follower_log now (sync_term sy) (Some (requester_id sy)) e) as (cs & Hl & Hcs).
    eapply step_down_ok; try done; [apply become_follower_voting|apply inert_nil|].
    by intros m Hm%not_elem_of_nil.
  - set (m := frame RegistrySync _).
    apply (commit_inert c n e e (Some m) [m]); try done.
    + by rewrite (wire_log e e _ []) by by rewrite app_nil_r.
    + by apply (inert_one RegistrySync _ 1).
    + intros m' ->%list_elem_of_singleton. right; right; right; right; right. by eexists.
    + by apply (ok_node c Hok).
Qed.
Lemma request_sync_ok c n e sending addr :
  cluster_ok c → members c !! n = Some e →
  cluster_ok (commit n e (request_sync sending addr e).2 None c).
Proof.
  intros Hok He. unfold request_sync. destruct (send_fn (hooks e)) eqn:Hs; [|by apply bookkeeping_ok].
  cbn [snd]. set (m := frame RegistrySync _).
  apply (commit_inert c n e _ None [m]); try done.
  - by rewrite (wire_log e _ _ [Send addr m]).
  - by apply (inert_one RegistrySync _ 1).
  - intros m' ->%list_elem_of_singleton. right; right; right; right; left. by eexists.
  - eapply node_ok_voting; [|by apply (ok_node c Hok)]. unfold voting. cbn. by rewrite Hs.
Qed.

(** The answer of a leader: the state stays, and so do the votes. *)
Lemma sync_response_ok c n e b p :
  cluster_ok c → members c !! n = Some e → (strict → leaders_keep_term e (b :: p)) →
  cluster_ok (commit n e (handle_sync_response p e).2 None c).
Proof.
  intros Hok He Hkeep. unfold handle_sync_response, parse.
  destruct (from_slice p) as [resp|err] eqn:Hp; cbn [map_err snd]; [|by apply bookkeeping_ok].
  set (t := Z.max (term e) (resp_term resp)).
  match goal with |- cluster_ok (commit n e ?x None c) => set (e' := x) end.
  assert (Hv : voting e' = (local_id e, status e, t, voted_for e, (send_fn (hooks e), known_nodes e, votes_received e))
    ∧ ∃ cs, log e' = log e ++ cs ∧ omap sent_msg cs = []).
  { subst e'. case_match; [split; [done|]; exists []; by rewrite app_nil_r|]. unfold load. cbn.
    case_match; (split; [done|]); [by eexists|exists []; by rewrite app_nil_r]. }
  destruct Hv as [(E1 & E2 & E3 & E4 & E5 & E6 & E7)%voting_parts (cs & Hl & Hcs)].
  pose proof (ok_node c Hok n e He) as [Hid Htm Hs Hk Hnd (s & Hse & Hvs & Hst & Hle) Hc].
  apply (commit_inert c n e _ None []); try done.
  - by rewrite (wire_log e _ _ cs), Hcs.
  - apply inert_nil.
  - by intros m Hm%not_elem_of_nil.
  - split; unfold stood; rewrite ?E1, ?E2, ?E3, ?E4, ?E5, ?E6, ?E7; try done; [lia| |].
    + exists s. split_and!; [lia|done|done|]. intros Hlead. destruct (Hle Hlead) as [Ha Hstrict]. split; [done|].
      intros Hsx. rewrite (Hstrict Hsx). subst t. destruct (Hkeep Hsx) as [_ Hno].
      destruct (Z.lt_ge_cases (term e) (resp_term resp)); [|lia]. destruct (Hno Hlead). by exists b, p, resp.
    + intros l t' Hcst. destruct (Hc l t' Hcst) as [Hle1 Hv]. split; [lia|]. intros ->. apply Hv. subst t. lia.
Qed.

Lemma message_ok c n e now m :
  cluster_ok c → members c !! n = Some e → m ∈ msgs c → later_announcements e m →
  cluster_ok (commit n e (handle_message now m e).2 (answer (handle_message now m e).1) c).
Proof.
  intros Hok He Hm Hlater. destruct m as [|b p]; [by apply bookkeeping_ok|].
  unfold handle_message.
  destruct (ElectionMessageType.from_u8 (Z_of_byte b)) as [[]|] eqn:Hb; [..|by apply bookkeeping_ok].
  - by eapply request_ok.
  - by apply (vote_ok c n e b).
  - by apply (result_ok c n e now p b).
  - by apply (change_ok c n e now p b).
  - by apply sync_ok.
Qed.
Variable may_receive : ElectionManager → list byte → Prop.
Hypothesis may_announce : ∀ e m, may_receive e m → later_announcements e m.
Hypothesis may_keep : ∀ e m, strict → may_receive e m → leaders_keep_term e m.
Lemma cstep_ok c c' : cstep may_receive c c' → cluster_ok c → cluster_ok c'.
Proof.
  intros Hstep Hok. destruct Hstep; try by apply bookkeeping_ok.
  - by apply start_election_ok.
  - apply message_ok; auto.
  - by apply request_sync_ok.
  - eapply sync_response_ok; eauto.
Qed.
Lemma initial_ok c : initial c → cluster_ok c.
Proof.
  intros [Hm Hn].
  assert (Hnc : ∀ v l t, ¬ cast (msgs c) v l t) by (rewrite Hm; apply inert_nil).
  assert (Hna : ∀ l t, ¬ announced (msgs c) l t) by (rewrite Hm; apply inert_nil).
  split.
  - intros m. rewrite Hm. by intros []%not_elem_of_nil.
  - intros n e (Hid & Hst & Hv & Hvs & Ht & Hs & Hk & Hsz)%Hn.
    split; rewrite ?Hvs; try done; [constructor| |].
    + exists (term e). rewrite Hst, Hvs. split_and!; [done| |done..]. by intros w Hw%not_elem_of_nil.
    + by intros l t Hc%Hnc.
  - by intros v l t Hc%Hnc.
  - by intros v l l' t Hc%Hnc.
  - by intros v l t Hc%Hnc.
  - by intros l t Ha%Hna.
Qed.
Lemma reachable_ok c : cluster_reachable may_receive c → cluster_ok c.
Proof.
  intros (c0 & H0' & Hr). apply initial_ok in H0'.
  induction Hr as [|c1 c2 c3 Hs _ IH]; [done|]. apply IH. by eapply cstep_ok.
Qed.
End Safety.

(** ** Single steps, for building executions *)

Section Runs.
Context `{Sha256Crate} `{ElectionJson} `{!ElectionJsonOk}.
Variable may_receive : ElectionManager → list byte → Prop.
Implicit Types c : Cluster.

(** One step of [n] from [e] to [e'] that puts [m] on the wire. *)
Definition moves c (n : NodeID) (e' : ElectionManager) (m : option (list byte)) c' : Prop :=
  cstep may_receive c c' ∧ members c' = <[n := e']> (members c)
  ∧ (∀ x, x ∈ msgs c → x ∈ msgs c') ∧ ∀ x, m = Some x → x ∈ msgs c'.

Lemma moves_commit c n e e' r m :
  cstep may_receive c (commit n e e' r c) → (∀ x, m = Some x → x ∈ wire e e' r) →
  moves c n e' m (commit n e e' r c).
Proof.
  intros Hs Hm. split_and!; [done|done|..]; intros x Hx; apply elem_of_app; [by left|].
  right. by apply Hm.
Qed.
Lemma receive_frame {T} `{SerdeJson T} now u (x : T) e :
  handle_message now (frame u x) e
  = match u with
    | ElectionRequest => handle_election_request now (to_vec x) e
    | ElectionVote => handle_election_vote (to_vec x) e
    | ElectionResult => handle_election_result now (to_vec x) e
    | RegistryChange => handle_registry_change now (to_vec x) e
    | RegistrySync => handle_registry_sync now (to_vec x) e
    end.
Proof. destruct (frame_type u x) as (b & p & -> & Hb & ->). cbn [handle_message]. by rewrite Hb. Qed.

Lemma run_stand c n e t v k ks vs :
  members c !! n = Some e → 0 <= t → t + 1 < 2 ^ 64 →
  voting e = (n, Follower, t, v, (true, k :: ks, vs)) →
  ∃ e' c', moves c n e' (Some (frame ElectionRequest (mkRequest n (local_name e) (t + 1)))) c'
    ∧ voting e' = (n, Candidate, t + 1, Some n, (true, k :: ks, [n])).
Proof.
  intros He Ht0 Ht Hv. apply voting_parts in Hv as (E1 & E2 & E3 & E4 & E5 & E6 & E7).
  exists (start_election e).2. eexists. split.
  - apply moves_commit; [apply cstep_start; [done|by rewrite E3]|]. intros x [= <-].
    unfold start_election, is_candidate. rewrite E2, E6, E3, E1, bool_decide_false by done.
    rewrite wrap_id by (unfold fits; lia). cbn [snd].
    set (e1 := set_vote _ _ _ _ e).
    rewrite (wire_log e _ _ _ (broadcast_log _ e1 E5)). apply elem_of_app. left.
    rewrite broadcast_sent. cbn. rewrite E6, E1. apply list_elem_of_here.
  - unfold start_election, is_candidate. rewrite E2, E6, E3, E1, bool_decide_false by done.
    rewrite wrap_id by (unfold fits; lia). cbn [snd].
    rewrite broadcast_voting. unfold voting. cbn. by rewrite E1, E5, E6.
Qed.
Lemma run_start c n e k ks :
  members c !! n = Some e →
  voting e = (n, Follower, 0, None, (true, k :: ks, [])) →
  ∃ e' c', moves c n e' (Some (frame ElectionRequest (mkRequest n (local_name e) 1))) c'
    ∧ voting e' = (n, Candidate, 1, Some n, (true, k :: ks, [n])).
Proof. intros He Hv. by apply (run_stand c n e 0 None k ks []). Qed.

Lemma run_grant c n e r s v t0 ks vs :
  members c !! n = Some e → frame ElectionRequest r ∈ msgs c →
  may_receive e (frame ElectionRequest r) →
  voting e = (n, s, t0, v, (true, ks, vs)) → candidate_id r ≠ n →
  t0 < req_term r ∨ t0 = req_term r ∧ v = None →
  of_be (take 8 (arr_bytes n)) < compute_candidate_hash (candidate_id r) (req_term r) →
  ∃ e' c' s' vs', moves c n e'
      (Some (frame ElectionVote (mkVote n (candidate_id r) (req_term r) true))) c'
    ∧ voting e' = (n, s', req_term r, Some (candidate_id r), (true, ks, vs')).
Proof.
  intros He Hm Hmay Hv Hne Ht Hhash.
  apply voting_parts in Hv as (E1 & E2 & E3 & E4 & E5 & E6 & E7).
  set (e1 := if term e <? req_term r then become_follower 0 (req_term r) None e else e).
  assert (He1 : ∃ s1 vs1, voting e1 = (n, s1, req_term r, None, (true, ks, vs1))).
  { subst e1. destruct (Z.ltb_spec (term e) (req_term r)).
    - do 2 eexists. rewrite become_follower_voting, E1, E5, E6. by rewrite Z.max_r by lia.
    - destruct Ht as [?|[-> ->]]; [lia|]. exists s, vs. unfold voting.
      by rewrite E1, E2, E3, E4, E5, E6, E7. }
  destruct He1 as (s1 & vs1 & (F1 & F2 & F3 & F4 & F5 & F6 & F7)%voting_parts).
  assert (Hh : handle_message 0 (frame ElectionRequest r) e
    = (Ok (Some (frame ElectionVote (mkVote n (candidate_id r) (req_term r) true))),
       set_vote (status e1) (term e1) (Some (candidate_id r)) (votes_received e1) e1)).
  { rewrite receive_frame. unfold handle_election_request, parse. rewrite from_slice_to_vec.
    cbn [map_err]. rewrite (proj2 (Z.ltb_ge _ _)) by lia. fold e1.
    assert (Hg : should_vote_for (candidate_id r) (req_term r) e1 = true).
    { unfold should_vote_for. rewrite F4, F1, decide_False by done. by apply Z.ltb_lt. }
    rewrite Hg. unfold build_vote_message. cbn [local_id set_vote]. by rewrite F1. }
  exists (handle_message 0 (frame ElectionRequest r) e).2. eexists. exists s1, vs1. split.
  - apply moves_commit; [by apply cstep_message|]. intros x [= <-]. rewrite Hh. cbn [fst answer].
    apply elem_of_app. right. apply list_elem_of_here.
  - rewrite Hh. unfold voting. cbn. by rewrite F1, F2, F3, F5, F6, F7.
Qed.

Lemma run_elected c n e w t v k1 k2 :
  members c !! n = Some e → frame ElectionVote (mkVote w n t true) ∈ msgs c →
  may_receive e (frame ElectionVote (mkVote w n t true)) →
  voting e = (n, Candidate, t, v, (true, [k1; k2], [n])) → w ≠ n →
  ∃ e' c', moves c n e' (Some (frame ElectionResult (mkResult n (local_name e) t))) c'
    ∧ voting e' = (n, Leader, t, v, (true, [k1; k2], [n; w])).
Proof.
  intros He Hm Hmay Hv Hne. apply voting_parts in Hv as (E1 & E2 & E3 & E4 & E5 & E6 & E7).
  set (e1 := set_vote Candidate t v [n; w] e).
  assert (Hh : handle_message 0 (frame ElectionVote (mkVote w n t true)) e
    = (Ok None, become_leader e1)).
  { rewrite receive_frame. unfold handle_election_vote, parse. rewrite from_slice_to_vec.
    cbn [map_err vote_term vote_candidate granted voter_id].
    rewrite E2, E3, E1, E7, Z.eqb_refl, (bool_decide_true (n = n)) by done.
    rewrite bool_decide_false by (intros ?%list_elem_of_singleton; done).
    cbn. rewrite E6, E4. done. }
  destruct (become_leader_spec e1 E5) as (Hvl & cs & k & Hl & Hcs).
  exists (become_leader e1). eexists. split.
  - replace (become_leader e1) with (handle_message 0 (frame ElectionVote (mkVote w n t true)) e).2
      by by rewrite Hh.
    apply moves_commit; [by apply cstep_message|]. intros x [= <-].
    rewrite Hh. cbn [fst snd answer]. rewrite (wire_log e _ _ cs Hl), Hcs.
    apply elem_of_app. left. apply elem_of_app. left. cbn. rewrite E6, E1. apply list_elem_of_here.
  - rewrite Hvl. cbn. by rewrite E1, E6.
Qed.

Lemma run_told c n e r s t0 v ks vs :
  members c !! n = Some e → frame ElectionResult r ∈ msgs c →
  may_receive e (frame ElectionResult r) →
  voting e = (n, s, t0, v, (true, ks, vs)) → t0 <= result_term r → leader_id r ≠ n →
  ∃ e' c', moves c n e' None c'
    ∧ voting e' = (n, Follower, result_term r, None, (true, ks, [])).
Proof.
  intros He Hm Hmay Hv Ht Hne. apply voting_parts in Hv as (E1 & E2 & E3 & E4 & E5 & E6 & E7).
  assert (Hh : handle_message 0 (frame ElectionResult r) e
    = (Ok None, become_follower 0 (result_term r) (Some (leader_id r)) e)).
  { rewrite receive_frame. unfold handle_election_result, parse. rewrite from_slice_to_vec.
    cbn [map_err]. by rewrite E3, (proj2 (Z.ltb_ge _ _)), E1, decide_False by done. }
  exists (handle_message 0 (frame ElectionResult r) e).2. eexists. split.
  - apply moves_commit; [by apply cstep_message|done].
  - rewrite Hh. cbn [snd]. rewrite become_follower_voting, E1, E3, E5, E6. by rewrite Z.max_r.
Qed.

(** Synchronisation: a node asks, a leader answers, the node takes the answer. *)
Lemma run_asks c n e :
  members c !! n = Some e → send_fn (hooks e) = true →
  ∃ e' c', moves c n e' (Some (frame RegistrySync (mkSync (local_id e) (local_name e) (term e)))) c'
    ∧ voting e' = voting e.
Proof.
  intros He Hs. exists (request_sync (λ _, Ok tt) "" e).2. eexists. split.
  - apply moves_commit; [by apply cstep_request_sync|]. intros x [= <-].
    erewrite (wire_log e _ _ [Send "" (frame RegistrySync (mkSync (local_id e) (local_name e) (term e)))]).
    + apply list_elem_of_here.
    + unfold request_sync. by rewrite Hs.
  - unfold request_sync. by rewrite Hs.
Qed.
Lemma run_answers c n e sy :
  members c !! n = Some e → frame RegistrySync sy ∈ msgs c → may_receive e (frame RegistrySync sy) →
  status e = Leader → sync_term sy <= term e →
  ∃ data c', moves c n e (Some (frame RegistrySync (mkSyncResponse (local_id e) (local_name e) (term e) data))) c'.
Proof.
  intros He Hm Hmay Hl Ht. exists (default ""%string (sync_callback (hooks e))). eexists.
  assert (Hh : handle_message 0 (frame RegistrySync sy) e = (Ok (Some (frame RegistrySync
    (mkSyncResponse (local_id e) (local_name e) (term e) (default ""%string (sync_callback (hooks e)))))), e)).
  { rewrite receive_frame. unfold handle_registry_sync, parse. rewrite from_slice_to_vec. cbn [map_err].
    unfold is_leader. rewrite Hl, bool_decide_true by done. cbn [negb]. by rewrite (proj2 (Z.ltb_ge _ _)). }
  replace e with (handle_message 0 (frame RegistrySync sy) e).2 at 1 by by rewrite Hh.
  apply moves_commit; [by apply cstep_message|]. intros x [= <-]. rewrite Hh. cbn [fst snd answer].
  apply elem_of_app. right. apply list_elem_of_here.
Qed.
Lemma run_synced c n e r s t v ks vs :
  members c !! n = Some e → frame RegistrySync r ∈ msgs c → may_receive e (frame RegistrySync r) →
  voting e = (n, s, t, v, (true, ks, vs)) →
  ∃ e' c', moves c n e' None c' ∧ voting e' = (n, s, Z.max t (resp_term r), v, (true, ks, vs)).
Proof.
  intros He Hm Hmay Hv. apply voting_parts in Hv as (E1 & E2 & E3 & E4 & E5 & E6 & E7).
  exists (handle_sync_response (to_vec r) e).2. eexists. split.
  - apply moves_commit; [|done]. destruct (frame_type RegistrySync r) as (b & p & E & _ & ->).
    rewrite E in Hm, Hmay. by apply (cstep_sync_response _ _ _ _ b).
  - unfold handle_sync_response, parse. rewrite from_slice_to_vec. cbn [map_err snd]. unfold voting.
    case_match; [|unfold load; case_match]; cbn; by rewrite E1, E2, E3, E4, E5, E6, E7.
Qed.

(** What is no announcement of the term; a later result. *)
Lemma not_announced {T} `{SerdeJson T} e u (x : T) :
  u ≠ ElectionResult → u ≠ RegistryChange → later_announcements e (frame u x).
Proof.
  intros ? ? (b & p & E & Hb). destruct (frame_type u x) as (b' & p' & E' & Hb' & _).
  rewrite E' in E. injection E as -> ->. destruct Hb as [[Hb _]|[Hb _]]; congruence.
Qed.
Lemma later_result e r : term e < result_term r → later_announcements e (frame ElectionResult r).
Proof.
  intros Ht (b & p & E & Hb). destruct (frame_type ElectionResult r) as (b' & p' & E' & Hb' & ->).
  rewrite E' in E. injection E as -> <-. destruct Hb as [(_ & r' & Hr & E2)|[Hb2 _]]; [|congruence].
  rewrite from_slice_to_vec in Hr. injection Hr as <-. lia.
Qed.
End Runs.

Section Theorems.
Context `{Sha256Crate} `{ElectionJson} `{!ElectionJsonOk}.

(** What holds when no announcement of the current term is taken in; whether or not leaders keep theirs. *)
Lemma announcements_ok c : cluster_reachable later_announcements c → cluster_ok False c.
Proof. apply reachable_ok; [done|by intros ? ? []]. Qed.
Lemma leaders_ok c : cluster_reachable leaders_keep_term c → cluster_ok True c.
Proof. apply reachable_ok; [by intros e m []|done]. Qed.

(** C2: Election safety.  In a cluster of any size whose members know each other and do not restart, whatever
    messages are lost, delayed, reordered, duplicated or delivered to the wrong node, whoever
    stands for election when and asks whom to synchronise: as long as no node takes in an announcement of the term
    it is already in, one node at most is announced in any term, a node that is announced was voted
    for by more than half of the cluster, and a node in the state Leader was announced, in its
    term or an earlier one.  If besides no leader takes in the answer to a synchronisation of a later
    term, one node at most is in the state Leader in any term. *)
Theorem election_safety c :
  cluster_reachable later_announcements c →
  (∀ l l' t, announced (msgs c) l t → announced (msgs c) l' t → l = l')
  ∧ (∀ l t, announced (msgs c) l t → ∃ votes, NoDup votes
      ∧ (size (members c) < 2 * length votes)%nat ∧ ∀ v, v ∈ votes → cast (msgs c) v l t)
  ∧ (∀ n e, members c !! n = Some e → status e = Leader → ∃ t, t <= term e ∧ announced (msgs c) n t)
  ∧ (cluster_reachable leaders_keep_term c →
      ∀ a b ea eb, members c !! a = Some ea → members c !! b = Some eb →
        status ea = Leader → status eb = Leader → term ea = term eb → a = b).
Proof.
  intros Hok%announcements_ok. split_and!.
  - intros l l' t. by eapply one_leader.
  - intros l t (votes & [? ?] & ?)%(ok_leader _ c Hok). eauto.
  - intros n e He Hl. destruct (node_stood _ _ _ _ _ (ok_node _ c Hok n e He)) as (s & Hs & _ & _ & Ha).
    exists s. split; [done|]. by apply Ha.
  - intros Hk%leaders_ok a b ea eb Ha Hb La Lb Ht.
    destruct (node_stood _ _ _ _ _ (ok_node _ c Hk a ea Ha)) as (s & _ & _ & _ & Hsa).
    destruct (node_stood _ _ _ _ _ (ok_node _ c Hk b eb Hb)) as (s' & _ & _ & _ & Hsb).
    destruct (Hsa La) as [Ha' Hs], (Hsb Lb) as [Hb' Hs']. rewrite Hs in Ha' by done. rewrite Hs' in Hb' by done.
    rewrite Ht in Ha'. by eapply one_leader.
Qed.
End Theorems.

(** ** An announcement of the current term *)

Section TwoLeaders.
Context `{Sha256Crate} `{ElectionJson} `{!ElectionJsonOk}.

(** Three nodes that know each other. *)
Definition peer (id a b : NodeID) : ElectionManager :=
  set_hooks (mkHooks true true None true)
    (add_known_node b "" "b:9880" (add_known_node a "" "a:9880" (new 0 id "n" None))).
Definition trio (l a c : NodeID) : Cluster :=
  mkCluster (<[l := peer l a c]> (<[a := peer a l c]> (<[c := peer c l a]> ∅))) [].

Lemma peer_voting id a b :
  a ≠ b →
  voting (peer id a b)
  = (id, Follower, 0, None, (true, [mkKnown a "" "a:9880"; mkKnown b "" "b:9880"], [])).
Proof.
  intros Hab. unfold peer. unfold add_known_node at 1. cbn -[bool_decide].
  by rewrite bool_decide_false.
Qed.
Lemma trio_initial l a c : NoDup [l; a; c] → initial (trio l a c).
Proof.
  intros Hd. rewrite !NoDup_cons, !not_elem_of_cons in Hd. destruct Hd as ((? & ? & _) & (? & _) & _).
  split; [done|]. unfold trio. cbn [members].
  assert (Hsz : size (<[l := peer l a c]> (<[a := peer a l c]> (<[c := peer c l a]> ∅))
    : gmap NodeID ElectionManager) = 3%nat).
  { rewrite !map_size_insert_None by by rewrite ?lookup_insert_ne, ?lookup_empty by done.
    by rewrite map_size_empty. }
  intros n e He. rewrite Hsz.
  assert (Hp : ∃ x y, x ≠ y ∧ e = peer n x y).
  { apply lookup_insert_Some in He as [[<- <-]|[_ He]]; [by exists a, c|].
    apply lookup_insert_Some in He as [[<- <-]|[_ He]]; [by exists l, c|].
    apply lookup_insert_Some in He as [[<- <-]|[_ He]]; [by exists l, a|].
    by rewrite lookup_empty in He. }
  destruct Hp as (x & y & Hxy & ->).
  destruct (voting_parts _ _ _ _ _ _ _ _ (peer_voting n x y Hxy)) as (-> & -> & -> & -> & -> & -> & ->).
  split_and!; done.
Qed.

Lemma trio_lookup l a c :
  l ≠ a → l ≠ c → a ≠ c →
  members (trio l a c) !! l = Some (peer l a c)
  ∧ members (trio l a c) !! a = Some (peer a l c)
  ∧ members (trio l a c) !! c = Some (peer c l a).
Proof.
  intros. unfold trio. cbn [members].
  split_and!; [by rewrite lookup_insert_eq| |];
    by rewrite !lookup_insert_ne, lookup_insert_eq by done.
Qed.

(** C40: The guard of election safety is needed.  Taking in an [ElectionResult] clears the
    receiver's vote even when it is of the receiver's own term, so it can vote again in that
    term: three nodes, of which [a] would support both candidates, elect two leaders of
    term 1, each of them announced, without any message being lost or forged. *)
Theorem equal_term_result_elects_two l a c :
  NoDup [l; a; c] →
  of_be (take 8 (arr_bytes a)) < compute_candidate_hash l 1 →
  of_be (take 8 (arr_bytes a)) < compute_candidate_hash c 1 →
  initial (trio l a c)
  ∧ ∃ cl el ec, rtc (cstep (λ _ _, True)) (trio l a c) cl
    ∧ members cl !! l = Some el ∧ status el = Leader ∧ term el = 1
    ∧ members cl !! c = Some ec ∧ status ec = Leader ∧ term ec = 1
    ∧ announced (msgs cl) l 1 ∧ announced (msgs cl) c 1.
Proof.
  intros Hd Hhl Hhc. split; [by apply trio_initial|].
  rewrite !NoDup_cons, !not_elem_of_cons in Hd.
  destruct Hd as ((Hla & Hlc & _) & (Hac & _) & _).
  pose (P := λ (_ : ElectionManager) (_ : list byte), True).
  destruct (trio_lookup l a c Hla Hlc Hac) as (Tl & Ta & Tc).
  destruct (run_start P (trio l a c) l (peer l a c) _ _ Tl
    (peer_voting l a c Hac)) as (l1 & c1 & (S1 & M1 & K1 & R1) & V1).
  destruct (run_start P c1 c (peer c l a) _ _
    ltac:(by rewrite M1, lookup_insert_ne by done)
    (peer_voting c l a Hla)) as (x1 & c2 & (S2 & M2 & K2 & R2) & V2).
  destruct (run_grant P c2 a (peer a l c) (mkRequest l (local_name (peer l a c)) 1) _ _ _ _ _
    ltac:(by rewrite M2, M1, !lookup_insert_ne by done)
    ltac:(by apply K2, R1) I (peer_voting a l c Hlc) Hla ltac:(by left) Hhl)
    as (a1 & c3 & s1 & vs1 & (S3 & M3 & K3 & R3) & V3). cbn [candidate_id req_term] in *.
  destruct (run_elected P c3 l l1 a 1 _ _ _
    ltac:(by rewrite M3, M2, !lookup_insert_ne, M1, lookup_insert_eq by done)
    ltac:(by apply R3) I V1 ltac:(congruence)) as (l2 & c4 & (S4 & M4 & K4 & R4) & V4).
  destruct (run_told P c4 a a1 (mkResult l (local_name l1) 1) _ _ _ _ _
    ltac:(by rewrite M4, lookup_insert_ne, M3, lookup_insert_eq by done)
    ltac:(by apply R4) I V3 ltac:(done) Hla) as (a2 & c5 & (S5 & M5 & K5 & R5) & V5).
  destruct (run_grant P c5 a a2 (mkRequest c (local_name (peer c l a)) 1) _ _ _ _ _
    ltac:(by rewrite M5, lookup_insert_eq)
    ltac:(by apply K5, K4, K3, R2) I V5 ltac:(cbn; congruence) ltac:(by right) Hhc)
    as (a3 & c6 & s3 & vs3 & (S6 & M6 & K6 & R6) & V6). cbn [candidate_id req_term] in *.
  destruct (run_elected P c6 c x1 a 1 _ _ _
    ltac:(by rewrite M6, M5, M4, M3, !lookup_insert_ne, M2, lookup_insert_eq by done)
    ltac:(by apply R6) I V2 Hac) as (x2 & c7 & (S7 & M7 & K7 & R7) & V7).
  apply voting_parts in V4 as (_ & V4s & V4t & _), V7 as (_ & V7s & V7t & _).
  exists c7, l2, x2. split_and!; try done.
  - do 7 (eapply rtc_l; [eassumption|]). apply rtc_refl.
  - by rewrite M7, M6, M5, !lookup_insert_ne, M4, lookup_insert_eq by done.
  - by rewrite M7, lookup_insert_eq.
  - exists (local_name l1). by apply K7, K6, K5, R4.
  - exists (local_name x1). by apply R7.
Qed.

(** [l] is elected in term 1, hears no more of elections, and [c] in term 2. *)
Lemma two_terms l a c :
  NoDup [l; a; c] →
  of_be (take 8 (arr_bytes a)) < compute_candidate_hash l 1 →
  of_be (take 8 (arr_bytes a)) < compute_candidate_hash c 2 →
  ∃ cl el ec vl vc, rtc (cstep later_announcements) (trio l a c) cl
    ∧ members cl !! l = Some el ∧ voting el = (l, Leader, 1, vl, (true, known_nodes el, votes_received el))
    ∧ members cl !! c = Some ec ∧ voting ec = (c, Leader, 2, vc, (true, known_nodes ec, votes_received ec))
    ∧ announced (msgs cl) l 1 ∧ announced (msgs cl) c 2.
Proof.
  intros Hd Hhl Hhc. rewrite !NoDup_cons, !not_elem_of_cons in Hd.
  destruct Hd as ((Hla & Hlc & _) & (Hac & _) & _).
  destruct (trio_lookup l a c Hla Hlc Hac) as (Tl & Ta & Tc). pose (P := later_announcements).
  pose proof (peer_voting c l a Hla) as Vc0.
  destruct (run_start P (trio l a c) l (peer l a c) _ _ Tl
    (peer_voting l a c Hac)) as (l1 & c1 & (S1 & M1 & K1 & R1) & V1).
  destruct (run_grant P c1 a (peer a l c) (mkRequest l (local_name (peer l a c)) 1) _ _ _ _ _
    ltac:(by rewrite M1, lookup_insert_ne by done)
    ltac:(by apply R1) ltac:(by apply not_announced) (peer_voting a l c Hlc) Hla ltac:(by left) Hhl)
    as (a1 & c2 & s1 & vs1 & (S2 & M2 & K2 & R2) & V2). cbn [candidate_id req_term] in *.
  destruct (run_elected P c2 l l1 a 1 _ _ _
    ltac:(by rewrite M2, lookup_insert_ne, M1, lookup_insert_eq by done)
    ltac:(by apply R2) ltac:(by apply not_announced) V1 ltac:(congruence)) as (l2 & c3 & (S3 & M3 & K3 & R3) & V3).
  destruct (run_told P c3 c (peer c l a) (mkResult l (local_name l1) 1) _ _ _ _ _
    ltac:(by rewrite M3, M2, M1, !lookup_insert_ne by done)
    ltac:(by apply R3) ltac:(apply later_result; apply (voting_parts (peer c l a)) in Vc0 as (_ & _ & -> & _); done) (peer_voting c l a Hla) ltac:(done) Hlc)
    as (x1 & c4 & (S4 & M4 & K4 & R4) & V4). cbn [result_term] in V4.
  destruct (run_stand P c4 c x1 1 _ _ _ _ ltac:(by rewrite M4, lookup_insert_eq) ltac:(done) ltac:(done) V4)
    as (x2 & c5 & (S5 & M5 & K5 & R5) & V5).
  destruct (run_grant P c5 a a1 (mkRequest c (local_name x1) 2) _ _ _ _ _
    ltac:(by rewrite M5, M4, M3, !lookup_insert_ne, M2, lookup_insert_eq by done)
    ltac:(by apply R5) ltac:(by apply not_announced) V2 ltac:(cbn; congruence) ltac:(by left) Hhc)
    as (a2 & c6 & s3 & vs3 & (S6 & M6 & K6 & R6) & V6). cbn [candidate_id req_term] in *.
  destruct (run_elected P c6 c x2 a 2 _ _ _
    ltac:(by rewrite M6, !lookup_insert_ne, M5, lookup_insert_eq by done)
    ltac:(by apply R6) ltac:(by apply not_announced) V5 Hac) as (x3 & c7 & (S7 & M7 & K7 & R7) & V7).
  apply voting_parts in V3 as W3. destruct W3 as (_ & _ & _ & _ & _ & Hk3 & Hv3).
  apply voting_parts in V7 as W7. destruct W7 as (_ & _ & _ & _ & _ & Hk7 & Hv7).
  exists c7, l2, x3, (Some l), (Some c). split_and!.
  - do 7 (eapply rtc_l; [eassumption|]). apply rtc_refl.
  - by rewrite M7, M6, M5, M4, !lookup_insert_ne, M3, lookup_insert_eq by done.
  - by rewrite Hk3, Hv3.
  - by rewrite M7, lookup_insert_eq.
  - by rewrite Hk7, Hv7.
  - exists (local_name l1). by apply K7, K6, K5, K4, R3.
  - exists (local_name x2). by apply R7.
Qed.

(** The answer to a synchronisation makes a second leader.  A leader that takes in the answer of a leader of a
    later term adopts the term and goes on leading: three nodes elect [l] in term 1 and [c] in term
    2, [l] asks [c] to synchronise it, and then both lead in term 2 - although each term has one
    announced leader, and no announcement of a current term was taken in. *)
Theorem sync_answer_makes_two_leaders l a c :
  NoDup [l; a; c] →
  of_be (take 8 (arr_bytes a)) < compute_candidate_hash l 1 →
  of_be (take 8 (arr_bytes a)) < compute_candidate_hash c 2 →
  initial (trio l a c)
  ∧ ∃ cl el ec, rtc (cstep later_announcements) (trio l a c) cl
    ∧ members cl !! l = Some el ∧ status el = Leader ∧ term el = 2
    ∧ members cl !! c = Some ec ∧ status ec = Leader ∧ term ec = 2
    ∧ announced (msgs cl) l 1 ∧ announced (msgs cl) c 2.
Proof.
  intros Hd Hhl Hhc. split; [by apply trio_initial|].
  destruct (two_terms l a c Hd Hhl Hhc) as (c7 & el & ec & vl & vc & Hr & El & Vl & Ec & Vc & Al & Ac).
  assert (Hlc : l ≠ c) by (apply NoDup_cons in Hd as [Hd _]; set_solver). pose (P := later_announcements).
  apply voting_parts in Vl as (L1 & L2 & L3 & L4 & L5 & _), Vc as (C1 & C2 & C3 & _).
  destruct (run_asks P c7 l el El L5) as (el1 & c8 & (S8 & M8 & K8 & R8) & V8).
  destruct (run_answers P c8 c ec (mkSync (local_id el) (local_name el) (term el))
    ltac:(by rewrite M8, lookup_insert_ne by done) ltac:(by apply R8) ltac:(by apply not_announced) C2
    ltac:(cbn; rewrite L3, C3; done)) as (data & c9 & (S9 & M9 & K9 & R9)).
  rewrite C1, C3 in R9.
  destruct (run_synced P c9 l el1 (mkSyncResponse c (local_name ec) 2 data) Leader 1 vl (known_nodes el) (votes_received el)
    ltac:(by rewrite M9, lookup_insert_ne, M8, lookup_insert_eq by done) ltac:(by apply R9)
    ltac:(by apply not_announced)) as (el2 & c10 & (S10 & M10 & K10 & R10) & V10).
  { rewrite V8. unfold voting. by rewrite L1, L2, L3, L4, L5. }
  apply voting_parts in V10 as (_ & D2 & D3 & _). exists c10, el2, ec. split_and!; try done.
  - etrans; [exact Hr|]. do 3 (eapply rtc_l; [eassumption|]). apply rtc_refl.
  - by rewrite M10, lookup_insert_eq.
  - by rewrite M10, lookup_insert_ne, M9, lookup_insert_eq by done.
  - destruct Al as [name Al]. exists name. by apply K10, K9, K8.
  - destruct Ac as [name Ac]. exists name. by apply K10, K9, K8.
Qed.

(** A leader that steps down because another node stands in a later term becomes a
    follower but is not told to stop its registry: none of its hooks is called, so the old
    registration center goes on serving (stepping down on an announcement does call
    [registry_control(false)]). *)
Theorem deposed_leader_keeps_serving now e r :
  status e = Leader → term e < req_term r →
  let e' := (handle_message now (frame ElectionRequest r) e).2 in
  status e' = Follower ∧ term e' = req_term r ∧ log e' = log e ∧ registry_id e' = registry_id e.
Proof.
  intros _ Ht. cbv zeta. rewrite receive_frame. unfold handle_election_request, parse.
  rewrite from_slice_to_vec. cbn [map_err]. rewrite (proj2 (Z.ltb_ge _ _)) by lia.
  rewrite (proj2 (Z.ltb_lt _ _)) by lia.
  destruct (should_vote_for _ _ _); cbn; rewrite Z.max_r by lia; done.
Qed.
End TwoLeaders.

(** ** Witnesses *)

#[export] Instance request_eq_dec : EqDecision ElectionRequestPayload.
Proof. solve_decision. Defined.
#[export] Program Instance request_countable : Countable ElectionRequestPayload :=
  inj_countable' (λ x, (candidate_id x, candidate_name x, req_term x))
    (λ '(a, b, c), mkRequest a b c) _.
Next Obligation. by intros []. Qed.
#[export] Instance vote_eq_dec : EqDecision ElectionVotePayload.
Proof. solve_decision. Defined.
#[export] Program Instance vote_countable : Countable ElectionVotePayload :=
  inj_countable' (λ x, (voter_id x, vote_candidate x, vote_term x, granted x))
    (λ '(a, b, c, d), mkVote a b c d) _.
Next Obligation. by intros []. Qed.
#[export] Instance result_eq_dec : EqDecision ElectionResultPayload.
Proof. solve_decision. Defined.
#[export] Program Instance result_countable : Countable ElectionResultPayload :=
  inj_countable' (λ x, (leader_id x, leader_name x, result_term x))
    (λ '(a, b, c), mkResult a b c) _.
Next Obligation. by intros []. Qed.
#[export] Instance change_eq_dec : EqDecision RegistryChangePayload.
Proof. solve_decision. Defined.
#[export] Program Instance change_countable : Countable RegistryChangePayload :=
  inj_countable' (λ x, (change_id x, change_name x, change_addr x, change_term x))
    (λ '(a, b, c, d), mkChange a b c d) _.
Next Obligation. by intros []. Qed.
#[export] Instance sync_eq_dec : EqDecision RegistrySyncPayload.
Proof. solve_decision. Defined.
#[export] Program Instance sync_countable : Countable RegistrySyncPayload :=
  inj_countable' (λ x, (requester_id x, requester_name x, sync_term x))
    (λ '(a, b, c), mkSync a b c) _.
Next Obligation. by intros []. Qed.
#[export] Instance sync_response_eq_dec : EqDecision RegistrySyncResponsePayload.
Proof. solve_decision. Defined.
#[export] Program Instance sync_response_countable : Countable RegistrySyncResponsePayload :=
  inj_countable' (λ x, (resp_leader_id x, resp_leader_name x, resp_term x, registry_data x))
    (λ '(a, b, c, d), mkSyncResponse a b c d) _.
Next Obligation. by intros []. Qed.

#[export] Instance bits_election_json : ElectionJson := {|
  request_json := bits_json _; vote_json := bits_json _; result_json := bits_json _;
  change_json := bits_json _; sync_json := bits_json _; sync_response_json := bits_json _
|}.
#[export] Instance bits_election_json_ok : ElectionJsonOk.
Proof. split; apply bits_json_ok. Qed.

Definition id_all (b : byte) : NodeID := default zero32 (to_arr32 (replicate 32 b)).
Definition id_l : NodeID := id_all Byte.xff.
Definition id_a : NodeID := id_all Byte.x00.
Definition id_c : NodeID := id_all Byte.xee.

Lemma ids_distinct : NoDup [id_l; id_a; id_c].
Proof. apply (bool_decide_unpack _). vm_compute. exact I. Qed.
(** [id_l] stands, [id_a] votes for it. *)
Lemma sample_election :
  ∃ cl el, cluster_reachable later_announcements cl ∧ members cl !! id_l = Some el
    ∧ status el = Leader ∧ term el = 1 ∧ announced (msgs cl) id_l 1 ∧ size (members cl) = 3%nat.
Proof.
  pose proof (trio_initial id_l id_a id_c ids_distinct) as Hi.
  assert (Hd := ids_distinct). rewrite !NoDup_cons, !not_elem_of_cons in Hd.
  destruct Hd as ((Hla & Hlc & _) & (Hac & _) & _).
  destruct (trio_lookup id_l id_a id_c Hla Hlc Hac) as (Tl & Ta & Tc).
  destruct (run_start later_announcements (trio id_l id_a id_c) id_l _ _ _ Tl
    (peer_voting id_l id_a id_c Hac)) as (l1 & c1 & (S1 & M1 & K1 & R1) & V1).
  destruct (run_grant later_announcements c1 id_a (peer id_a id_l id_c)
    (mkRequest id_l (local_name (peer id_l id_a id_c)) 1) _ _ _ _ _
    ltac:(by rewrite M1, lookup_insert_ne by done) ltac:(by apply R1)
    ltac:(by apply not_announced) (peer_voting id_a id_l id_c Hlc) Hla ltac:(by left)
    ltac:(vm_compute; reflexivity)) as (a1 & c2 & s1 & vs1 & (S2 & M2 & K2 & R2) & V2).
  cbn [candidate_id req_term] in *.
  destruct (run_elected later_announcements c2 id_l l1 id_a 1 _ _ _
    ltac:(by rewrite M2, lookup_insert_ne, M1, lookup_insert_eq by done)
    ltac:(by apply R2) ltac:(by apply not_announced) V1 ltac:(congruence))
    as (l2 & c3 & (S3 & M3 & K3 & R3) & V3).
  apply voting_parts in V3 as (_ & V3s & V3t & _ & _ & V3k & _).
  assert (Hl2 : members c3 !! id_l = Some l2) by by rewrite M3, lookup_insert_eq.
  assert (Hr : cluster_reachable later_announcements c3).
  { exists (trio id_l id_a id_c). split; [done|].
    do 3 (eapply rtc_l; [eassumption|]). apply rtc_refl. }
  exists c3, l2. split_and!; try done.
  - exists (local_name l1). by apply R3.
  - destruct (node_knows _ _ _ _ _ (ok_node _ c3 (announcements_ok c3 Hr) id_l l2 Hl2)) as [Hk _].
    rewrite V3k in Hk. by symmetry.
Qed.

Lemma election_safety_witness :
  ∃ cl, cluster_reachable later_announcements cl ∧ announced (msgs cl) id_l 1
    ∧ ∃ votes, NoDup votes ∧ (3 < 2 * length votes)%nat ∧ ∀ v, v ∈ votes → cast (msgs cl) v id_l 1.
Proof.
  destruct sample_election as (cl & el & Hr & _ & _ & _ & Ha & Hsz). exists cl.
  destruct (election_safety cl Hr) as (_ & Hm & _). split; [exact Hr|]. split; [exact Ha|].
  rewrite <-Hsz. exact (Hm id_l 1 Ha).
Defined.

Lemma equal_term_result_elects_two_witness :
  ∃ cl el ec, rtc (cstep (λ _ _, True)) (trio id_l id_a id_c) cl
    ∧ members cl !! id_l = Some el ∧ status el = Leader
    ∧ members cl !! id_c = Some ec ∧ status ec = Leader ∧ term el = term ec.
Proof.
  destruct (equal_term_result_elects_two id_l id_a id_c ids_distinct) as
    (_ & cl & el & ec & Hr & Hl & Sl & Tl & Hc & Sc & Tc & _).
  - vm_compute. reflexivity.
  - vm_compute. reflexivity.
  - exists cl, el, ec. split; [exact Hr|]. split; [exact Hl|]. split; [exact Sl|].
    split; [exact Hc|]. split; [exact Sc|]. rewrite Tl, Tc. reflexivity.
Defined.

Definition leading : ElectionManager :=
  set_vote Leader 4 (Some id_l) [id_l; id_a] (peer id_l id_a id_c).
Lemma deposed_leader_keeps_serving_witness :
  status leading = Leader
  ∧ status (handle_message 0 (frame ElectionRequest (mkRequest id_c "c" 5)) leading).2 = Follower
  ∧ log (handle_message 0 (frame ElectionRequest (mkRequest id_c "c" 5)) leading).2 = log leading.
Proof.
  destruct (deposed_leader_keeps_serving 0 leading (mkRequest id_c "c" 5)) as (Hs & _ & Hl & _).
  - reflexivity.
  - vm_compute. reflexivity.
  - split; [reflexivity|]. split; [exact Hs|exact Hl].
Defined.
Lemma sync_answer_makes_two_leaders_witness :
  ∃ cl el ec, rtc (cstep later_announcements) (trio id_l id_a id_c) cl
    ∧ members cl !! id_l = Some el ∧ status el = Leader
    ∧ members cl !! id_c = Some ec ∧ status ec = Leader ∧ term el = term ec.
Proof.
  destruct (sync_answer_makes_two_leaders id_l id_a id_c ids_distinct) as
    (_ & cl & el & ec & Hr & Hl & Sl & Tl & Hc & Sc & Tc & _).
  - vm_compute. reflexivity.
  - vm_compute. reflexivity.
  - exists cl, el, ec. split; [exact Hr|]. split; [exact Hl|]. split; [exact Sl|].
    split; [exact Hc|]. split; [exact Sc|]. rewrite Tl, Tc. reflexivity.
Defined.
