(* ===== verification/ElectionThreads.v ===== *)
(** * ElectionThreads: vote requests that overlap

    Models [handle_election_request] of crates/vpn/src/registry/election.rs, with
    the [become_follower] and [should_vote_for] it calls, when several threads
    handle requests: the term is an atomic, and the status, the vote and the votes
    received are each under a lock of their own.  A step is one access; resetting the monitor, which
    no handler reads, is one step too.  Election has a handler as one step ([undisturbed_request]). *)
From S2P Require Import Prelude Identity Json Election ElectionProofs.
Import ElectionManager.

(** Where a handler is: before the first load of the term; in [become_follower] before its load of the
    term, its store, the status, the vote, the votes received and the monitor; before it looks at
    the vote; before it records one; answered. *)
Inductive Pc :=
| AtTerm | AtLoad | AtStore | AtStatus | AtClearVote | AtClearVotes | AtMonitor
| AtLook | AtRecord | Answered (granted : bool).

Section Threads.
Context `{Sha256Crate} `{ElectionJson}.
Implicit Types e : ElectionManager.

(** A step for the request [c] at the time [now]; [None]: it has answered. *)
Definition request_step (now : Instant) (r : ElectionRequestPayload) (p : Pc) e
    : option (ElectionManager * Pc) :=
  let c := candidate_id r in
  let t := req_term r in
  match p with
  | AtTerm =>
      Some (e, if t <? term e then Answered false else if term e <? t then AtLoad else AtLook)
  | AtLoad => Some (e, if term e <? t then AtStore else AtStatus)
  | AtStore => Some (set_vote (status e) t (voted_for e) (votes_received e) e, AtStatus)
  | AtStatus => Some (set_vote Follower (term e) (voted_for e) (votes_received e) e, AtClearVote)
  | AtClearVote => Some (set_vote (status e) (term e) None (votes_received e) e, AtClearVotes)
  | AtClearVotes => Some (set_vote (status e) (term e) (voted_for e) [] e, AtMonitor)
  | AtMonitor => Some (reset_heartbeat_monitor now e, AtLook)
  | AtLook => Some (e, if should_vote_for c t e then AtRecord else Answered false)
  | AtRecord => Some (set_vote (status e) (term e) (Some c) (votes_received e) e, Answered true)
  | Answered _ => None
  end.

(** The manager and the requests that its threads handle; what a handler sends when it has answered. *)
Record Sys := mkSys { manager : ElectionManager; requests : list (ElectionRequestPayload * Pc) }.
Definition reply (r : ElectionRequestPayload) (p : Pc) e : option (list byte) :=
  match p with
  | Answered g => Some (build_vote_message (candidate_id r) (req_term r) g e)
  | _ => None
  end.

Definition step (now : Instant) (j : nat) (y : Sys) : option Sys :=
  '(r, p) ← requests y !! j;
  '(e, p) ← request_step now r p (manager y);
  Some (mkSys e (<[j := (r, p)]> (requests y))).
Fixpoint run (now : Instant) (js : list nat) (y : Sys) : option Sys :=
  match js with [] => Some y | j :: js => y ← step now j y; run now js y end.

(** A handler alone. *)
Fixpoint finish (fuel : nat) (now : Instant) (r : ElectionRequestPayload) (p : Pc) e
    : option (ElectionManager * bool) :=
  match p, fuel with
  | Answered g, _ => Some (e, g)
  | _, O => None
  | _, S fuel => '(e, p) ← request_step now r p e; finish fuel now r p e
  end.

Lemma finish_step n now r p e e' p' :
  request_step now r p e = Some (e', p') → finish (S n) now r p e = finish n now r p' e'.
Proof. intros E. destruct p; [..|done]; cbn [finish]; by rewrite E. Qed.
Lemma finish_answered n now r g e : finish n now r (Answered g) e = Some (e, g).
Proof. by destruct n. Qed.

(** The look at the vote, and the answer. *)
Lemma finish_look n now r e :
  ∃ e' g, finish (S (S n)) now r AtLook e = Some (e', g)
    ∧ g = should_vote_for (candidate_id r) (req_term r) e
    ∧ e' = (if g then set_vote (status e) (term e) (Some (candidate_id r)) (votes_received e) e else e).
Proof.
  erewrite finish_step by reflexivity. destruct (should_vote_for (candidate_id r) (req_term r) e).
  - erewrite finish_step by reflexivity. rewrite finish_answered. by eexists _, true.
  - rewrite finish_answered. by eexists _, false.
Qed.
(** [become_follower], from its load to its end. *)
Lemma finish_follow n now r e :
  term e < req_term r →
  finish (6 + n) now r AtLoad e = finish n now r AtLook (become_follower now (req_term r) None e).
Proof.
  intros Ht. change (6 + n)%nat with (S (S (S (S (S (S n)))))).
  erewrite finish_step; [|cbn [request_step]; by rewrite (proj2 (Z.ltb_lt _ _))].
  do 5 (erewrite finish_step by reflexivity). f_equal.
  unfold become_follower. by rewrite Z.max_r by lia.
Qed.

(** A handler that nothing disturbs has answered after nine steps, with the vote and the state of
    [Election.handle_election_request]. *)
Theorem undisturbed_request now r e payload :
  parse payload = Ok r →
  ∃ e' g, finish 9 now r AtTerm e = Some (e', g)
    ∧ handle_election_request now payload e = (Ok (reply r (Answered g) e'), e').
Proof.
  intros Hp. unfold handle_election_request. rewrite Hp.
  erewrite finish_step by reflexivity.
  destruct (Z.ltb_spec (req_term r) (term e)) as [|Hge].
  { rewrite finish_answered. exists e, false. split; reflexivity. }
  destruct (Z.ltb_spec (term e) (req_term r)) as [Hlt|Hle].
  - change 8%nat with (6 + 2)%nat. rewrite finish_follow by done.
    destruct (finish_look 0 now r (become_follower now (req_term r) None e)) as (e' & g & -> & -> & ->).
    eexists _, _. split; [reflexivity|]. by destruct (should_vote_for _ _ _).
  - destruct (finish_look 6 now r e) as (e' & g & -> & -> & ->).
    eexists _, _. split; [reflexivity|]. by destruct (should_vote_for _ _ _).
Qed.

Lemma step_here now j e rs r p e' p' :
  rs !! j = Some (r, p) → request_step now r p e = Some (e', p') →
  step now j (mkSys e rs) = Some (mkSys e' (<[j := (r, p')]> rs)).
Proof. intros Hj Hp. unfold step. cbn [requests manager]. rewrite Hj. cbn [mbind option_bind]. by rewrite Hp. Qed.

(** Two requests of the current term that overlap can both be granted: both handlers find that no vote
    was cast, and both send a vote in favour, for different candidates, in one term. *)
Theorem overlapping_requests_vote_twice now e ra rb :
  voted_for e = None → req_term ra = term e → req_term rb = term e →
  should_vote_for (candidate_id ra) (term e) e = true →
  should_vote_for (candidate_id rb) (term e) e = true →
  ∃ js y, run now js (mkSys e [(ra, AtTerm); (rb, AtTerm)]) = Some y
    ∧ requests y = [(ra, Answered true); (rb, Answered true)] ∧ term (manager y) = term e.
Proof.
  intros Hv Ha Hb Sa Sb. exists [0; 1; 0; 1; 0; 1]%nat. eexists. cbn [run].
  erewrite step_here; [|reflexivity|cbn [request_step]; rewrite Ha, Z.ltb_irrefl; reflexivity].
  cbn [mbind option_bind]. erewrite step_here; [|reflexivity|cbn [request_step]; rewrite Hb, Z.ltb_irrefl; reflexivity].
  cbn [mbind option_bind]. erewrite step_here; [|reflexivity|cbn [request_step]; rewrite Ha, Sa; reflexivity].
  cbn [mbind option_bind]. erewrite step_here; [|reflexivity|cbn [request_step]; rewrite Hb, Sb; reflexivity].
  cbn [mbind option_bind]. erewrite step_here; [|reflexivity|reflexivity].
  cbn [mbind option_bind]. erewrite step_here; [|reflexivity|reflexivity].
  split; [reflexivity|]. by split.
Qed.

(** The term can fall: a handler that has found its request later than the term, and is overtaken by
    one of a still later request, puts the term back when it stores its own. *)
Theorem overlapping_requests_lower_term now e ra rb :
  term e < req_term ra < req_term rb →
  ∃ js y, run now js (mkSys e [(ra, AtTerm); (rb, AtTerm)]) = Some y
    ∧ term (manager y) = req_term ra ∧ status (manager y) = Follower.
Proof.
  intros [Ha Hb]. exists [0; 0; 1; 1; 1; 0; 0]%nat. eexists. cbn [run].
  erewrite step_here; [|reflexivity|cbn [request_step];
    rewrite (proj2 (Z.ltb_ge _ _)), (proj2 (Z.ltb_lt _ _)) by lia; reflexivity].
  cbn [mbind option_bind]. erewrite step_here; [|reflexivity|cbn [request_step]; rewrite (proj2 (Z.ltb_lt _ _)) by lia; reflexivity].
  cbn [mbind option_bind]. erewrite step_here; [|reflexivity|cbn [request_step];
    rewrite (proj2 (Z.ltb_ge _ _)), (proj2 (Z.ltb_lt _ _)) by lia; reflexivity].
  cbn [mbind option_bind]. erewrite step_here; [|reflexivity|cbn [request_step]; rewrite (proj2 (Z.ltb_lt _ _)) by lia; reflexivity].
  cbn [mbind option_bind]. erewrite step_here; [|reflexivity|reflexivity].
  cbn [mbind option_bind]. erewrite step_here; [|reflexivity|reflexivity].
  cbn [mbind option_bind]. erewrite step_here; [|reflexivity|reflexivity].
  split; [reflexivity|]. by split.
Qed.
End Threads.

(** [id_a] votes for each of two candidates in term 1. *)
Definition voter : ElectionManager := set_vote Follower 1 None [] (peer id_a id_l id_c).
Lemma overlapping_requests_vote_twice_witness :
  ∃ js y, run 0 js (mkSys voter [(mkRequest id_l "l" 1, AtTerm); (mkRequest id_c "c" 1, AtTerm)]) = Some y
    ∧ requests y = [(mkRequest id_l "l" 1, Answered true); (mkRequest id_c "c" 1, Answered true)]
    ∧ term (manager y) = 1.
Proof.
  refine (overlapping_requests_vote_twice 0 voter (mkRequest id_l "l" 1) (mkRequest id_c "c" 1)
    _ _ _ _ _); vm_compute; reflexivity.
Defined.
Lemma overlapping_requests_lower_term_witness :
  ∃ js y, run 0 js (mkSys voter [(mkRequest id_l "l" 5, AtTerm); (mkRequest id_c "c" 6, AtTerm)]) = Some y
    ∧ term (manager y) = 5 ∧ status (manager y) = Follower.
Proof.
  apply (overlapping_requests_lower_term 0 voter (mkRequest id_l "l" 5) (mkRequest id_c "c" 6)).
  vm_compute. split; reflexivity.
Defined.
