(* ===== verification/Chunk.v ===== *)
(** * Chunk: files cut into blocks with a manifest

    Models crates/vpn/src/storage/chunk.rs: [Chunker] and [FileManifest].
    Sizes and offsets are [Z]; SHA-256 is the class [Sha256Crate].  Memory is not modelled:
    [reassemble] reserves the size that the manifest states, which may be a peer's word, before it
    copies, and a size beyond the memory ends the program there. *)
From S2P Require Import Prelude Identity.

Definition DEFAULT_CHUNK_SIZE : Z := 4 * 1024 * 1024.
Abbreviation Hash := bytes32.

Record ChunkMeta := mkMeta { meta_hash : Hash; index : Z; offset : Z; meta_size : Z }.
Record FileManifest := mkManifest {
  file_hash : Hash; file_size : Z; chunks : list ChunkMeta; manifest_chunk_size : Z }.
#[export] Instance ChunkMeta_eq_dec : EqDecision ChunkMeta.
Proof. solve_decision. Defined.
#[export] Instance FileManifest_eq_dec : EqDecision FileManifest.
Proof. solve_decision. Defined.

#[export] Instance ChunkMeta_countable : Countable ChunkMeta.
Proof.
  refine (inj_countable' (λ m, (meta_hash m, index m, offset m, meta_size m))
    (λ '(h, i, o, n), mkMeta h i o n) _). by intros [].
Defined.
#[export] Instance FileManifest_countable : Countable FileManifest.
Proof.
  refine (inj_countable' (λ m, (file_hash m, file_size m, chunks m, manifest_chunk_size m))
    (λ '(h, n, cs, k), mkManifest h n cs k) _). by intros [].
Defined.

Record Chunker := mkChunker { chunk_size : Z }.

(** [(data.len() + chunk_size - 1) / chunk_size] in [usize], whose sum wraps, and no chunk for no
    data. *)
Definition num_chunks (cs : Z) (data : list byte) : nat :=
  match data with [] => 0%nat | _ => Z.to_nat (wrap 64 (len data + cs - 1) / cs) end.
(** [&data[start..end]] of the [i]-th round. *)
Definition block (cs : Z) (data : list byte) (i : nat) : list byte :=
  let start := Z.of_nat i * cs in
  let end_ := Z.min (start + cs) (len data) in
  slice (Z.to_nat start) (Z.to_nat end_) data.

Module Chunker.
Section Chunker.
Context `{Sha256Crate}.

Definition new : Chunker := mkChunker DEFAULT_CHUNK_SIZE.
Definition with_chunk_size (cs : Z) : Chunker :=
  mkChunker (if cs =? 0 then DEFAULT_CHUNK_SIZE else cs).

Definition chunk_meta (cs : Z) (data : list byte) (i : nat) : ChunkMeta :=
  let b := block cs data i in
  mkMeta (sha256 b) (wrap 32 (Z.of_nat i)) (Z.of_nat i * cs) (len b).
Definition chunk_data (data : list byte) (c : Chunker) : FileManifest * list (list byte) :=
  let cs := chunk_size c in
  let is_ := seq 0 (num_chunks cs data) in
  (mkManifest (sha256 data) (len data) (chunk_meta cs data <$> is_) cs, block cs data <$> is_).

(** The first chunk of another size than its metadata says. *)
Fixpoint size_mismatch (ms : list ChunkMeta) (cs : list (list byte)) : option (ChunkMeta * Z) :=
  match ms, cs with
  | m :: ms, d :: cs => if len d =? meta_size m then size_mismatch ms cs else Some (m, len d)
  | _, _ => None
  end.
Definition reassemble (m : FileManifest) (cs : list (list byte)) : result (list byte) string :=
  if negb (length cs =? length (chunks m))%nat
  then Err ("chunk count mismatch: expected " +:+ pretty (len (chunks m)) +:+ " chunks, got "
              +:+ pretty (len cs))%string
  else
    match size_mismatch (chunks m) cs with
    | Some (meta, n) =>
        Err ("chunk " +:+ pretty (index meta) +:+ " size mismatch: expected "
               +:+ pretty (meta_size meta) +:+ ", got " +:+ pretty n)%string
    | None =>
        let data := mjoin cs in
        if decide (sha256 data = file_hash m) then Ok data
        else Err "file hash mismatch: data integrity check failed"%string
    end.
Definition verify_chunk (m : ChunkMeta) (data : list byte) : bool :=
  bool_decide (sha256 data = meta_hash m).
Definition verify_file (m : FileManifest) (data : list byte) : bool :=
  bool_decide (sha256 data = file_hash m).
End Chunker.
End Chunker.
Import Chunker.

(** ** Blocks *)

(** A chunk size with which the sum of [num_chunks] does not wrap. *)
Definition chunkable (cs : Z) (data : list byte) : Prop := 0 < cs ∧ len data + cs <= 2 ^ 64.

Section Blocks.
Variable cs : Z.
Hypothesis Hcs : 0 < cs.

Lemma block_take data i :
  block cs data i = take (Z.to_nat cs) (drop (Z.to_nat (Z.of_nat i * cs)) data).
Proof.
  unfold block, slice. set (s := Z.of_nat i * cs). assert (0 <= s) by (subst s; lia).
  rewrite <-(firstn_all (drop (Z.to_nat s) data)) at 2. rewrite take_take, length_drop.
  f_equal. lia.
Qed.
Lemma blocks_take data n :
  mjoin (block cs data <$> seq 0 n) = take (Z.to_nat (Z.of_nat n * cs)) data.
Proof.
  induction n as [|n IH]; [done|].
  rewrite seq_S, fmap_app, join_app, IH. cbn [fmap list_fmap mjoin list_join Nat.add].
  rewrite block_take, app_nil_r.
  replace (Z.to_nat (Z.of_nat (S n) * cs))
    with (Z.to_nat (Z.of_nat n * cs) + Z.to_nat cs)%nat by lia.
  apply take_take_drop.
Qed.
Lemma length_block data i :
  len (block cs data i) = Z.max 0 (Z.min cs (len data - Z.of_nat i * cs)).
Proof. rewrite block_take, length_take, length_drop. nia. Qed.
End Blocks.

Lemma num_chunks_eq cs data :
  chunkable cs data → 0 < len data → Z.of_nat (num_chunks cs data) = (len data + cs - 1) / cs.
Proof.
  intros [Hcs Hw] Hl. unfold num_chunks. destruct data as [|b l]; [by cbn in Hl|].
  rewrite wrap_id, Z2Nat.id by (unfold fits; try apply Z.div_pos; lia). done.
Qed.

Section Cut.
Variables (cs : Z) (data : list byte).
Hypothesis Hfit : chunkable cs data.
Let Hcs : 0 < cs := proj1 Hfit.

Lemma num_chunks_ceil : (Z.of_nat (num_chunks cs data) - 1) * cs < len data ∨ len data = 0.
Proof.
  destruct (Z.lt_ge_cases 0 (len data)); [left|right; lia]. rewrite num_chunks_eq by done.
  pose proof (Z.mul_div_le (len data + cs - 1) cs Hcs). nia.
Qed.
Lemma num_chunks_enough : len data <= Z.of_nat (num_chunks cs data) * cs.
Proof.
  destruct (Z.lt_ge_cases 0 (len data)); [|lia]. rewrite num_chunks_eq by done.
  pose proof (Z.mul_succ_div_gt (len data + cs - 1) cs Hcs). nia.
Qed.
Lemma num_chunks_lt i : (i < num_chunks cs data)%nat ↔ Z.of_nat i * cs < len data.
Proof.
  pose proof num_chunks_enough as He. split.
  - intros Hi. destruct num_chunks_ceil as [?|Hnil]; [nia|].
    assert (length data = 0%nat) as Hnil2 by lia. clear Hnil. rename Hnil2 into Hnil.
    apply length_zero_iff_nil in Hnil. rewrite Hnil in Hi. cbn in Hi. lia.
  - intros Hi. destruct (Nat.lt_ge_cases i (num_chunks cs data)); [done|nia].
Qed.
Lemma blocks_join : mjoin (block cs data <$> seq 0 (num_chunks cs data)) = data.
Proof. rewrite (blocks_take cs Hcs). apply take_ge. pose proof num_chunks_enough. lia. Qed.
Lemma block_nonempty i : (i < num_chunks cs data)%nat → block cs data i ≠ [].
Proof.
  rewrite num_chunks_lt. intros Hi E. pose proof (length_block cs Hcs data i) as Hl. rewrite E in Hl.
  cbn in Hl. lia.
Qed.
Lemma block_beyond i : (num_chunks cs data ≤ i)%nat → block cs data i = [].
Proof.
  intros Hi. rewrite (block_take cs Hcs), drop_ge; [by rewrite take_nil|].
  pose proof num_chunks_enough. nia.
Qed.
End Cut.

(** Beyond that there are no chunks at all. *)
Lemma num_chunks_wrapped cs data :
  0 < cs < 2 ^ 64 → len data <= 2 ^ 63 → ¬ chunkable cs data → num_chunks cs data = 0%nat.
Proof.
  intros Hcs Hl Hn. destruct data as [|b l]; [done|]. unfold num_chunks. set (d := b :: l) in *.
  assert (2 ^ 64 <= len d + cs - 1) by (unfold chunkable in Hn; lia).
  replace (wrap 64 (len d + cs - 1)) with (len d + cs - 1 - 2 ^ 64); [by rewrite Z.div_small by lia|].
  unfold wrap. replace (len d + cs - 1) with (len d + cs - 1 - 2 ^ 64 + 1 * 2 ^ 64) at 2 by lia.
  rewrite Z.mod_add, Z.mod_small; lia.
Qed.

Lemma size_mismatch_None ms cs :
  length ms = length cs →
  size_mismatch ms cs = None ↔ meta_size <$> ms = (λ d, len d) <$> cs.
Proof.
  revert cs. induction ms as [|m ms IH]; intros [|d cs] Hl; try done.
  injection Hl as Hl. cbn. destruct (Z.eqb_spec (len d) (meta_size m)) as [E|E].
  - rewrite IH by done. split; [by intros ->; rewrite E|by intros [= _ ->]].
  - split; [done|]. intros [= E' _]. congruence.
Qed.

Lemma same_lengths_join (xs ys : list (list byte)) :
  (λ d, len d) <$> xs = (λ d, len d) <$> ys → length (mjoin ys) = length (mjoin xs).
Proof.
  revert ys. induction xs as [|x xs IH]; intros [|y ys] E; try done.
  injection E as E1 E2. specialize (IH ys E2).
  change (length (y ++ mjoin ys) = length (x ++ mjoin xs)). rewrite !length_app, IH. lia.
Qed.

Section Properties.
Context `{Sha256Crate}.

(** Reassembling succeeds exactly on chunks of the recorded sizes whose
    concatenation has the recorded hash. *)
Lemma reassemble_Ok m cs data :
  reassemble m cs = Ok data ↔
  meta_size <$> chunks m = (λ d, len d) <$> cs ∧ data = mjoin cs ∧ sha256 data = file_hash m.
Proof.
  unfold reassemble. destruct (Nat.eqb_spec (length cs) (length (chunks m))) as [E|E]; cbn [negb].
  2:{ split; [done|]. intros [Hs _]. apply (f_equal length) in Hs. rewrite !length_fmap in Hs. lia. }
  pose proof (size_mismatch_None (chunks m) cs (eq_sym E)) as Hn.
  destruct (size_mismatch (chunks m) cs) as [[meta n]|].
  { split; [done|]. intros [Hs _]. by apply Hn in Hs. }
  case_decide as Hh.
  - split; [by intros [= <-]; split_and!; [apply Hn| |]|by intros (_ & -> & _)].
  - split; [done|]. by intros (_ & -> & ?).
Qed.

Lemma chunk_sizes cs data n :
  meta_size <$> (chunk_meta cs data <$> seq 0 n) = (λ d, len d) <$> (block cs data <$> seq 0 n).
Proof. by rewrite <-!list_fmap_compose. Qed.
Lemma reassemble_chunks c data :
  chunkable (chunk_size c) data → reassemble (chunk_data data c).1 (chunk_data data c).2 = Ok data.
Proof.
  intros Hc. apply reassemble_Ok. cbn [chunk_data fst snd chunks file_hash].
  by rewrite blocks_join, chunk_sizes.
Qed.

(** Cutting and reassembling.  For every chunk size that does not wrap the sum, the chunks of a file have exactly the
    chunk size, but for a shorter, non-empty last one, lie end to end from offset 0, each
    verifies against its entry, and together with the manifest they reassemble to the file;
    and whatever chunks reassemble under that manifest, the result has the file's hash and
    length. *)
Theorem chunk_reassemble c data :
  chunkable (chunk_size c) data → fits 32 (Z.of_nat (num_chunks (chunk_size c) data)) →
  let '(m, cs) := chunk_data data c in
  reassemble m cs = Ok data
  ∧ length cs = num_chunks (chunk_size c) data
  ∧ (∀ i meta d, chunks m !! i = Some meta → cs !! i = Some d →
      verify_chunk meta d = true ∧ index meta = Z.of_nat i ∧ offset meta = Z.of_nat i * chunk_size c
      ∧ meta_size meta = Z.min (chunk_size c) (len data - offset meta) ∧ 0 < meta_size meta)
  ∧ (∀ cs' data', reassemble m cs' = Ok data' →
      sha256 data' = sha256 data ∧ length data' = length data).
Proof.
  intros Hc Hn. pose proof (proj1 Hc) as Hcs. unfold chunk_data. set (n := num_chunks (chunk_size c) data).
  pose proof (chunk_sizes (chunk_size c) data n) as Hsz.
  split_and!.
  - by apply (reassemble_chunks c data).
  - by rewrite length_fmap, length_seq.
  - intros i meta d. cbn [chunks]. rewrite !list_lookup_fmap.
    destruct (seq 0 n !! i) as [j|] eqn:Ej; [|done]. apply lookup_seq in Ej as [-> Hi].
    intros [= <-] [= <-]. pose proof (length_block (chunk_size c) Hcs data i) as Hl.
    assert (Hlt : Z.of_nat i * chunk_size c < len data) by by apply num_chunks_lt.
    unfold verify_chunk, chunk_meta. cbn -[Z.mul Z.add].
    rewrite bool_decide_true, wrap_id by (done || unfold fits in *; lia).
    split_and!; [done..| |]; rewrite Hl; lia.
  - intros cs' data' (Hs & -> & Hh)%reassemble_Ok. split; [done|].
    cbn [chunks] in Hs. rewrite Hsz in Hs. rewrite <-(blocks_join (chunk_size c) data Hc) at 1.
    by apply same_lengths_join.
Qed.
End Properties.

(** ** Witnesses *)

Definition small_file : list byte := [Byte.x61; Byte.x62; Byte.x63; Byte.x64; Byte.x65].
Lemma chunk_reassemble_witness :
  chunkable (chunk_size (mkChunker 2)) small_file
  ∧ reassemble (chunk_data small_file (mkChunker 2)).1 (chunk_data small_file (mkChunker 2)).2
    = Ok small_file
  ∧ (chunk_data small_file (mkChunker 2)).2
    = [[Byte.x61; Byte.x62]; [Byte.x63; Byte.x64]; [Byte.x65]].
Proof.
  assert (H1 : chunkable (chunk_size (mkChunker 2)) small_file) by (split; vm_compute; congruence).
  assert (H2 : fits 32 (Z.of_nat (num_chunks 2 small_file))) by (split; vm_compute; congruence).
  pose proof (chunk_reassemble (mkChunker 2) small_file H1 H2) as Hr.
  split; [exact H1|].
  destruct (chunk_data small_file (mkChunker 2)) as [m cs] eqn:E.
  split; [exact (proj1 Hr)|]. apply (f_equal snd) in E. cbn [snd] in *. rewrite <-E.
  vm_compute. reflexivity.
Defined.
