(* ===== verification/Diff.v ===== *)
(** * Diff: which blocks of a file changed

    Models crates/vpn/src/storage/diff.rs: [BlockDiffEngine] compares a file
    with the manifest of another version, and reports what has to be sent. *)
From S2P Require Import Prelude Text Lines Identity Chunk.
Import Chunker.

Definition MIN_DIFF_CHUNK_SIZE : Z := 4096.

Inductive BlockDiffStatus := Unchanged | Modified | Added | Deleted.
#[export] Instance BlockDiffStatus_eq_dec : EqDecision BlockDiffStatus.
Proof. solve_decision. Defined.

Record BlockDiff := mkDiff {
  diff_index : Z; diff_offset : Z; diff_size : Z; diff_status : BlockDiffStatus;
  new_hash : Hash; old_hash : Hash }.
Record FileDiff := mkFileDiff {
  diff_name : string; old_size : Z; new_size : Z; changed_blocks : list BlockDiff;
  unchanged_count : Z; files_match : bool }.
Record DiffReport := mkReport {
  diff : FileDiff; blocks_to_transfer : Z; bytes_to_transfer : Z; estimated_secs : Z }.

Record BlockDiffEngine := mkEngine { engine_size : Z }.

Module BlockDiffEngine.
Section BlockDiffEngine.
Context `{Sha256Crate}.

Definition new (cs : Z) : BlockDiffEngine := mkEngine (Z.max cs MIN_DIFF_CHUNK_SIZE).
Definition default : BlockDiffEngine := mkEngine DEFAULT_CHUNK_SIZE.

(** One round of the loop; [None]: the block is unchanged.  The case of a
    block that neither side has is unreachable. *)
Definition diff_block (cs : Z) (remote : list ChunkMeta) (local : list byte) (i : nat)
    : option BlockDiff :=
  let has_local := (i <? num_chunks cs local)%nat in
  let local_slice := block cs local i in
  let local_hash := sha256 local_slice in
  match remote !! i with
  | Some r =>
      if has_local then
        if decide (local_hash = meta_hash r) then None
        else Some (mkDiff (Z.of_nat i) (offset r) (len local_slice) Modified local_hash (meta_hash r))
      else Some (mkDiff (Z.of_nat i) (offset r) 0 Deleted zero32 (meta_hash r))
  | None =>
      if has_local
      then Some (mkDiff (Z.of_nat i) (Z.of_nat i * cs) (len local_slice) Added local_hash zero32)
      else None
  end.

Definition diff_files (m : FileManifest) (local : list byte) (e : BlockDiffEngine)
    : result FileDiff string :=
  let cs := engine_size e in
  if negb (manifest_chunk_size m =? cs)
  then Err ("chunk size mismatch: manifest has " +:+ pretty (manifest_chunk_size m)
              +:+ " bytes, engine has " +:+ pretty cs +:+ " bytes")%string
  else if decide (sha256 local = file_hash m)
  then Ok (mkFileDiff "" (file_size m) (len local) [] (wrap 32 (len (chunks m))) true)
  else
    let max_index := Z.max (wrap 32 (len (chunks m))) (wrap 32 (Z.of_nat (num_chunks cs local))) in
    let rounds := diff_block cs (chunks m) local <$> seq 0 (Z.to_nat max_index) in
    Ok (mkFileDiff "" (file_size m) (len local) (omap id rounds)
          (Z.of_nat (length (filter (λ r, r = None) rounds))) false).

Definition diff_file (read : string → result (list byte) string) (m : FileManifest)
    (local_path : string) (e : BlockDiffEngine) : result FileDiff string :=
  match read local_path with
  | Err err => Err ("failed to read '" +:+ local_path +:+ "': " +:+ err)%string
  | Ok data => diff_files m data e
  end.

(** The blocks that have to be sent. *)
Definition to_transfer (b : BlockDiff) : bool :=
  bool_decide (diff_status b = Added) || bool_decide (diff_status b = Modified).
Definition generate_report (d : FileDiff) (file_name : string) : DiffReport :=
  let sent := filter (λ b, to_transfer b = true) (changed_blocks d) in
  let bytes := foldl (λ n b, wrap 64 (n + diff_size b)) 0 sent in
  mkReport (mkFileDiff file_name (old_size d) (new_size d) (changed_blocks d) (unchanged_count d)
              (files_match d))
    (foldl (λ n _, wrap 32 (n + 1)) 0 sent) bytes
    (if 0 <? bytes then Z.max 1 (bytes / 1000000) else 0).
Definition status_str (s : BlockDiffStatus) : string :=
  match s with Unchanged => "=" | Modified => "M" | Added => "+" | Deleted => "-" end.
Definition block_row (index offset size status : string) : string :=
  "  " +:+ pad_right 6 index +:+ " " +:+ pad_right 10 offset +:+ " " +:+ pad_right 8 size +:+ " " +:+ status +:+ nl.
Definition format_report (r : DiffReport) : string :=
  let d := diff r in
  "File: " +:+ diff_name d +:+ nl
  +:+ "Size: " +:+ pretty (old_size d) +:+ " → " +:+ pretty (new_size d)
  +:+ " (" +:+ pretty (Z.abs (new_size d - old_size d)) +:+ " "
  +:+ (if old_size d <=? new_size d then "added" else "removed") +:+ ")" +:+ nl
  +:+ if files_match d then "Status: UNCHANGED (files are identical)" +:+ nl else
      "Blocks: " +:+ pretty (unchanged_count d) +:+ " unchanged, " +:+ pretty (len (changed_blocks d)) +:+ " changed" +:+ nl
      +:+ "To transfer: " +:+ pretty (blocks_to_transfer r) +:+ " blocks, " +:+ pretty (bytes_to_transfer r)
      +:+ " bytes (~" +:+ pretty (estimated_secs r) +:+ "s at 1 MB/s)" +:+ nl
      +:+ nl +:+ "Block details:" +:+ nl +:+ block_row "Index" "Offset" "Size" "Status"
      +:+ join "" ((λ b, block_row (pretty (diff_index b)) (pretty (diff_offset b)) (pretty (diff_size b))
                         (status_str (diff_status b))) <$> changed_blocks d).
End BlockDiffEngine.
End BlockDiffEngine.
Import BlockDiffEngine.

(** ** The changes of a file, by content *)

Section Changes.
Context `{Sha256Crate}.

Definition change_at (cs : Z) (old new : list byte) (i : nat) : option BlockDiff :=
  let o := block cs old i in
  let n := block cs new i in
  if (i <? num_chunks cs new)%nat then
    if (i <? num_chunks cs old)%nat then
      if decide (n = o) then None
      else Some (mkDiff (Z.of_nat i) (Z.of_nat i * cs) (len n) Modified (sha256 n) (sha256 o))
    else Some (mkDiff (Z.of_nat i) (Z.of_nat i * cs) (len n) Added (sha256 n) zero32)
  else if (i <? num_chunks cs old)%nat
  then Some (mkDiff (Z.of_nat i) (Z.of_nat i * cs) 0 Deleted zero32 (sha256 o))
  else None.
Definition rounds (cs : Z) (old new : list byte) : list nat :=
  seq 0 (Nat.max (num_chunks cs old) (num_chunks cs new)).

(** What a holder of [old] has after the transfer of the blocks [bs]. *)
Definition patch (cs : Z) (old new : list byte) (bs : list BlockDiff) : list byte :=
  mjoin ((λ i, if existsb (λ b, to_transfer b && (diff_index b =? Z.of_nat i)) bs
               then block cs new i else block cs old i) <$> seq 0 (num_chunks cs new)).

(** SHA-256 tells the two versions, and their blocks, apart. *)
Definition no_collision (cs : Z) (old new : list byte) : Prop :=
  (sha256 new = sha256 old → new = old)
  ∧ ∀ i, sha256 (block cs new i) = sha256 (block cs old i) → block cs new i = block cs old i.

Lemma diff_block_change c old new i :
  no_collision (chunk_size c) old new →
  diff_block (chunk_size c) (chunks (chunk_data old c).1) new i = change_at (chunk_size c) old new i.
Proof.
  intros [_ Hnc]. unfold diff_block, change_at, chunk_data. cbn [fst chunks].
  rewrite list_lookup_fmap. destruct (Nat.ltb_spec i (num_chunks (chunk_size c) old)) as [Hi|Hi].
  - rewrite lookup_seq_lt by done. cbn -[Nat.ltb block num_chunks]. destruct (i <? num_chunks (chunk_size c) new)%nat; [|done].
    destruct (decide (block _ new i = block _ old i)) as [->|Hne]; [by rewrite decide_True|].
    rewrite decide_False; [done|]. intros E. by apply Hnc in E.
  - rewrite lookup_seq_ge by done. cbn -[Nat.ltb block num_chunks]. by destruct (i <? num_chunks (chunk_size c) new)%nat.
Qed.
Lemma change_at_same cs data i : change_at cs data data i = None.
Proof. unfold change_at. destruct (i <? num_chunks cs data)%nat; [by rewrite decide_True|done]. Qed.

Lemma patch_changes cs old new :
  chunkable cs new → patch cs old new (omap (change_at cs old new) (rounds cs old new)) = new.
Proof.
  intros Hcs. unfold patch.
  trans (mjoin (block cs new <$> seq 0 (num_chunks cs new))); [|by apply blocks_join]. f_equal.
  apply list_fmap_ext. intros k i Hk. apply lookup_seq in Hk as [-> Hi]. cbn [Nat.add].
  destruct (existsb _ _) eqn:E; [done|].
  destruct (decide (block cs new k = block cs old k)) as [?|Hne]; [done|]. exfalso.
  assert (Hc : ∃ b, change_at cs old new k = Some b ∧ to_transfer b = true ∧ diff_index b = Z.of_nat k).
  { unfold change_at. rewrite (proj2 (Nat.ltb_lt _ _)) by done.
    destruct (k <? num_chunks cs old)%nat; [rewrite decide_False by done|]; by eexists. }
  destruct Hc as (b & Hc & Ht & Hb).
  apply not_true_iff_false in E. apply E, existsb_exists. exists b. split.
  - apply list_elem_of_In, list_elem_of_omap. exists k. split; [|done].
    apply elem_of_seq. lia.
  - by rewrite Ht, Hb, Z.eqb_refl.
Qed.
End Changes.

Section Exactness.
Context `{Sha256Crate}.

(** Against the manifest of [old], when the engine has its block size. *)
Lemma diff_files_spec c old new e :
  engine_size e = chunk_size c →
  fits 32 (Z.of_nat (num_chunks (chunk_size c) old)) →
  fits 32 (Z.of_nat (num_chunks (chunk_size c) new)) → no_collision (chunk_size c) old new →
  let cs := chunk_size c in
  let m := (chunk_data old c).1 in
  ∃ d, diff_files m new e = Ok d ∧ files_match d = bool_decide (new = old)
    ∧ changed_blocks d = omap (change_at cs old new) (rounds cs old new)
    ∧ unchanged_count d
      = Z.of_nat (length (filter (λ i, change_at cs old new i = None) (rounds cs old new))).
Proof.
  intros He Ho Hn Hnc cs m.
  unfold diff_files. rewrite He. fold cs. change (manifest_chunk_size m) with cs.
  rewrite Z.eqb_refl.
  cbn [negb]. change (file_hash m) with (sha256 old).
  assert (Hlen : len (chunks m) = Z.of_nat (num_chunks cs old))
    by (subst m; unfold chunk_data; cbn [fst chunks]; by rewrite length_fmap, length_seq).
  rewrite Hlen, !wrap_id by done. case_decide as Hs.
  - apply Hnc in Hs as ->. eexists. split; [done|]. cbn [files_match changed_blocks unchanged_count].
    rewrite bool_decide_true by done. unfold rounds. rewrite Nat.max_id.
    split_and!; [done| |].
    + symmetry. induction (seq 0 (num_chunks cs old)) as [|i is_ IH]; [done|].
      cbn. by rewrite change_at_same, IH.
    + f_equal. rewrite <-(length_seq (num_chunks cs old) 0) at 1.
      induction (seq 0 (num_chunks cs old)) as [|i is_ IH]; [done|].
      rewrite filter_cons, decide_True by apply change_at_same. cbn [length]. by rewrite IH at 1.
  - eexists. split; [done|]. cbn [files_match changed_blocks unchanged_count].
    rewrite bool_decide_false by (by intros ->).
    replace (Z.to_nat _) with (Nat.max (num_chunks cs old) (num_chunks cs new)) by lia.
    fold (rounds cs old new).
    assert (Hr : diff_block cs (chunks m) new <$> rounds cs old new
      = change_at cs old new <$> rounds cs old new).
    { apply list_fmap_ext. intros k i _. by apply diff_block_change. }
    rewrite Hr. clear. split_and!; [done|..];
      induction (rounds cs old new) as [|i is_ IH]; try done.
    + cbn. destruct (change_at cs old new i); cbn; by rewrite IH.
    + rewrite fmap_cons, !filter_cons. destruct (change_at cs old new i) eqn:E.
      * by rewrite !decide_False by done.
      * rewrite !decide_True by done. cbn [length]. lia.
Qed.

(** The diff is exact.  Against the manifest of [old], cut with the engine's block size, and
    when SHA-256 tells the versions and their blocks apart, the changed blocks of [new] are
    exactly, in order, the blocks whose content differs (Modified), that only [new] has (Added)
    or that only [old] had (Deleted), with their offsets, sizes and hashes; the other blocks
    are counted; the versions match exactly when they are equal; and sending the Modified and
    Added blocks turns [old] into [new].  A manifest of another block size is refused. *)
Theorem diff_exact c old new e :
  chunkable (chunk_size c) new → fits 32 (Z.of_nat (num_chunks (chunk_size c) old)) →
  fits 32 (Z.of_nat (num_chunks (chunk_size c) new)) → no_collision (chunk_size c) old new →
  let cs := chunk_size c in
  let m := (chunk_data old c).1 in
  if decide (engine_size e = cs) then
    ∃ d, diff_files m new e = Ok d
      ∧ files_match d = bool_decide (new = old)
      ∧ changed_blocks d = omap (change_at cs old new) (rounds cs old new)
      ∧ unchanged_count d
        = Z.of_nat (length (filter (λ i, change_at cs old new i = None) (rounds cs old new)))
      ∧ patch cs old new (changed_blocks d) = new
  else is_ok (diff_files m new e) = false.
Proof.
  intros Hcs Ho Hn Hnc cs m. case_decide as He.
  - destruct (diff_files_spec c old new e He Ho Hn Hnc) as (d & ? & ? & Hd & ?).
    exists d. split_and!; try done. rewrite Hd. by apply patch_changes.
  - unfold diff_files. rewrite (proj2 (Z.eqb_neq _ _)); [done|].
    intros E. apply He. by rewrite <-E.
Qed.
End Exactness.

(** ** Witness *)

Definition version_1 : list byte := [Byte.x61; Byte.x62; Byte.x63; Byte.x64; Byte.x65].
Definition version_2 : list byte := [Byte.x61; Byte.x62; Byte.x78; Byte.x64].
Lemma versions_no_collision : no_collision 2 version_1 version_2.
Proof.
  split; [vm_compute; intros E; discriminate E|].
  intros [|[|[|i]]]; [vm_compute; done|vm_compute; intros E; discriminate E
    |vm_compute; intros E; discriminate E|].
  intros _. rewrite !block_beyond; [done|by split; vm_compute|vm_compute; lia|by split; vm_compute|vm_compute; lia].
Qed.
Lemma diff_exact_witness :
  chunkable (chunk_size (mkChunker 2)) version_2
  ∧ ∃ d, diff_files (chunk_data version_1 (mkChunker 2)).1 version_2 (mkEngine 2) = Ok d
    ∧ (diff_status <$> changed_blocks d) = [Modified; Deleted]
    ∧ patch 2 version_1 version_2 (changed_blocks d) = version_2.
Proof.
  assert (H1 : chunkable (chunk_size (mkChunker 2)) version_2) by (split; vm_compute; congruence).
  split; [exact H1|].
  assert (H2 : fits 32 (Z.of_nat (num_chunks 2 version_1))) by (split; vm_compute; congruence).
  assert (H3 : fits 32 (Z.of_nat (num_chunks 2 version_2))) by (split; vm_compute; congruence).
  destruct (diff_exact (mkChunker 2) version_1 version_2 (mkEngine 2) H1 H2 H3
    versions_no_collision) as (d & Hd & _ & Hc & _ & Hp).
  exists d. split; [exact Hd|]. split; [rewrite Hc; vm_compute; reflexivity|exact Hp].
Defined.
