(* ===== verification/Incremental.v ===== *)
(** * Incremental: sending and fetching only the blocks that differ

    Models crates/vpn/src/storage/incremental.rs.  The peer is [Peer]: the
    result of each send and the answer that the listener of a request forwards
    before its timeout.  Listeners are counted, as none is ever removed; what
    is sent is logged in [sent].  The answers are JSON texts ([SyncJson]). *)
From S2P Require Import Prelude Text Disk Identity Json Chunk Diff.
Import Chunker.

Class SyncJson := {
  manifest_to_string : FileManifest → string;
  manifest_from_str : string → result FileManifest string;
  (** The object of [send_block], printed. *)
  block_to_string : string → Z → string → string;
  (** [from_str::<Value>(s)], and the string under ["data_hex"]. *)
  data_hex_of : string → result (option string) string
}.

Record SyncResult := mkSyncResult {
  total_blocks : Z; transferred_blocks : Z; bytes_transferred : Z; already_in_sync : bool;
  elapsed_secs : Z }.
Record SyncStateEntry := mkEntry {
  entry_name : string; last_synced_hash : Hash; last_synced_at : Z; last_size : Z }.
Abbreviation SyncStateStore := (gmap string SyncStateEntry).

Record Peer := mkPeer {
  vpn_send : string → list byte → result unit string;
  manifest_reply : string → string → option string;
  block_reply : string → string → Z → option string;
  random : nat → Z
}.
Record IncrementalSync := mkIncr {
  chunker : Chunker;
  diff_engine : BlockDiffEngine;
  state : SyncStateStore;
  listeners : nat;
  sent : list (string * list byte)
}.
Module SyncStateStore.
Definition upsert (now : Z) (name : string) (hash : Hash) (size : Z) (s : SyncStateStore)
    : SyncStateStore := <[name := mkEntry name hash now size]> s.
Definition remove (name : string) (s : SyncStateStore) : SyncStateStore := delete name s.
End SyncStateStore.

(** [.unwrap_or_else(|| local_path.to_string())] *)
Definition name_of (p : string) : string := default p (file_name p).

Definition sync_result_display (r : SyncResult) : string :=
  if already_in_sync r
  then "Already in sync (" +:+ pretty (total_blocks r) +:+ " blocks, 0 transferred)"
  else "Transferred " +:+ pretty (transferred_blocks r) +:+ " of " +:+ pretty (total_blocks r)
         +:+ " blocks (" +:+ pretty (bytes_transferred r) +:+ " bytes) in "
         +:+ pretty (elapsed_secs r) +:+ "s".

Module IncrementalSync.
Section IncrementalSync.
Context `{Sha256Crate} `{HexCrate} `{SyncJson}.
Implicit Types s : IncrementalSync.

Definition new : IncrementalSync := mkIncr Chunker.new BlockDiffEngine.default ∅ 0 [].
Definition with_chunk_size (chunk_size : Z) : IncrementalSync :=
  let cs := Z.max chunk_size 4096 in
  mkIncr (Chunker.with_chunk_size cs) (BlockDiffEngine.new cs) ∅ 0 [].

Definition set_state (st : SyncStateStore) s : IncrementalSync :=
  mkIncr (chunker s) (diff_engine s) st (listeners s) (sent s).
(** [self.vpn.send(target, msg)] *)
Definition send (p : Peer) (target msg : string) s : result unit string * IncrementalSync :=
  (vpn_send p target (as_bytes msg),
   mkIncr (chunker s) (diff_engine s) (state s) (listeners s) (sent s ++ [(target, as_bytes msg)])).
(** [self.vpn.register_listener(..)], with the random number of its tag. *)
Definition listen (p : Peer) s : Z * IncrementalSync :=
  (random p (listeners s),
   mkIncr (chunker s) (diff_engine s) (state s) (S (listeners s)) (sent s)).

Definition request_remote_manifest (p : Peer) (file target : string) s
    : result FileManifest string * IncrementalSync :=
  let '(tag, s) := listen p s in
  let '(res, s) := send p target
    ("INCR_GET_MANIFEST:incr-manifest-" +:+ pretty tag +:+ ":" +:+ file) s in
  (match res with
   | Err e => Err ("failed to request manifest: " +:+ e)
   | Ok _ =>
       match manifest_reply p target file with
       | None => Err ("timeout waiting for manifest of '" +:+ file +:+ "'")
       | Some resp =>
           if String.eqb resp ""
           then Ok (mkManifest zero32 0 [] (chunk_size (chunker s)))
           else map_err (λ e, "failed to parse manifest: " +:+ e) (manifest_from_str resp)
       end
   end, s)%string.

Definition send_block (p : Peer) (target file : string) (i : Z) (data : list byte) s
    : result unit string * IncrementalSync :=
  let '(res, s) := send p target ("INCR_BLOCK:" +:+ block_to_string file i (hex_encode data)) s in
  (map_err (λ e, "failed to send block " +:+ pretty i +:+ ": " +:+ e)%string res, s).

Definition request_block (p : Peer) (target file : string) (i : Z) s
    : result (list byte) string * IncrementalSync :=
  let '(tag, s) := listen p s in
  let '(res, s) := send p target
    ("INCR_GET_BLOCK:incr-block-" +:+ pretty i +:+ "-" +:+ pretty tag +:+ ":" +:+ file +:+ ":"
       +:+ pretty i) s in
  (match res with
   | Err e => Err ("failed to request block " +:+ pretty i +:+ ": " +:+ e)
   | Ok _ =>
       match block_reply p target file i with
       | None => Err ("timeout waiting for block " +:+ pretty i +:+ " of '" +:+ file +:+ "'")
       | Some resp =>
           match data_hex_of resp with
           | Err e => Err ("invalid block response: " +:+ e)
           | Ok None => Err "missing data_hex in block response"
           | Ok (Some data_hex) =>
               ok_or (hex_decode data_hex) "invalid hex data in block response"
           end
       end
   end, s)%string.

Definition send_manifest (p : Peer) (target file : string) (m : FileManifest) s
    : result unit string * IncrementalSync :=
  let '(res, s) := send p target ("INCR_MANIFEST:" +:+ file +:+ ":" +:+ manifest_to_string m) s in
  (map_err (λ e, "failed to send manifest: " +:+ e)%string res, s).

(** ** Upload *)

(** The blocks sent and their bytes, up to the first failure. *)
Fixpoint send_blocks (p : Peer) (target file : string) (local_chunks : list (list byte))
    (bs : list BlockDiff) (n bytes : Z) s : result (Z * Z) string * IncrementalSync :=
  match bs with
  | [] => (Ok (n, bytes), s)
  | b :: bs =>
      if BlockDiffEngine.to_transfer b then
        let data := nth (Z.to_nat (diff_index b)) local_chunks [] in
        match send_block p target file (diff_index b) data s with
        | (Err e, s) => (Err e, s)
        | (Ok _, s) =>
            send_blocks p target file local_chunks bs (wrap 32 (n + 1)) (wrap 64 (bytes + len data)) s
        end
      else send_blocks p target file local_chunks bs n bytes s
  end.

Definition read (d : Disk) (what path : string) : result (list byte) string :=
  ok_or (files d !! path)
    ("failed to read " +:+ what +:+ "'" +:+ path +:+ "': No such file or directory (os error 2)").

(** [t0] and [t1] are the clock at the start and at the end. *)
Definition sync_file (p : Peer) (t0 t1 : Z) (d : Disk) (local_path target : string) s
    : result SyncResult string * IncrementalSync :=
  let name := name_of local_path in
  match read d "" local_path with
  | Err e => (Err e, s)
  | Ok data =>
      let '(m, local_chunks) := chunk_data data (chunker s) in
      let total := wrap 32 (len (chunks m)) in
      let elapsed := saturating_sub t1 t0 in
      let in_sync :=
        match state s !! name with
        | Some entry => bool_decide (last_synced_hash entry = file_hash m)
        | None => false
        end in
      if in_sync then (Ok (mkSyncResult total 0 0 true elapsed), s) else
      match request_remote_manifest p name target s with
      | (Err e, s) => (Err e, s)
      | (Ok remote, s) =>
          match BlockDiffEngine.diff_files remote data (diff_engine s) with
          | Err e => (Err ("diff computation failed: " +:+ e)%string, s)
          | Ok df =>
              match send_blocks p target name local_chunks (changed_blocks df) 0 0 s with
              | (Err e, s) => (Err e, s)
              | (Ok (n, bytes), s) =>
                  match send_manifest p target name m s with
                  | (Err e, s) => (Err e, s)
                  | (Ok _, s) =>
                      (Ok (mkSyncResult total n bytes false elapsed),
                       set_state (SyncStateStore.upsert t1 name (file_hash m) (file_size m) (state s)) s)
                  end
              end
          end
      end
  end.

(** ** Download *)

(** The local blocks that the remote manifest has at the same place. *)
Fixpoint have (i : nat) (local_chunks : list (list byte)) (metas : list ChunkMeta)
    : gmap Z (list byte) :=
  match local_chunks, metas with
  | c :: local_chunks, meta :: metas =>
      let rest := have (S i) local_chunks metas in
      if decide (meta_hash meta = sha256 c) then <[Z.of_nat i := c]> rest else rest
  | _, _ => ∅
  end.

(** The blocks fetched, and their bytes, up to the first failure. *)
Fixpoint request_blocks (p : Peer) (target path : string) (need : list Z)
    (blocks : gmap Z (list byte)) (bytes : Z) s
    : result (gmap Z (list byte) * Z) string * IncrementalSync :=
  match need with
  | [] => (Ok (blocks, bytes), s)
  | i :: need =>
      match request_block p target path i s with
      | (Err e, s) => (Err e, s)
      | (Ok data, s) =>
          request_blocks p target path need (<[i := data]> blocks) (wrap 64 (bytes + len data)) s
      end
  end.
(** [local_blocks.remove(&i)] for each index in order. *)
Fixpoint ordered (is_ : list Z) (blocks : gmap Z (list byte)) : result (list (list byte)) string :=
  match is_ with
  | [] => Ok []
  | i :: is_ =>
      match blocks !! i with
      | None => Err ("missing block " +:+ pretty i +:+ " after download — this should not happen")%string
      | Some data => let? rest := ordered is_ (delete i blocks) in Ok (data :: rest)
      end
  end.
Definition indices (n : Z) : list Z := Z.of_nat <$> seq 0 (Z.to_nat n).

Definition download_file (p : Peer) (t0 t1 : Z) (d : Disk) (target remote_path local_path : string) s
    : result SyncResult string * Disk * IncrementalSync :=
  let name := name_of remote_path in
  match request_remote_manifest p remote_path target s with
  | (Err e, s) => (Err e, d, s)
  | (Ok m, s) =>
      let total := wrap 32 (len (chunks m)) in
      let local :=
        match files d !! local_path with
        | None => Ok ∅
        | Some data =>
            match BlockDiffEngine.diff_files m data (diff_engine s) with
            | Err e => Err ("diff computation failed: " +:+ e)%string
            | Ok _ => Ok (have 0 (chunk_data data (chunker s)).2 (chunks m))
            end
        end in
      match local with
      | Err e => (Err e, d, s)
      | Ok blocks =>
          let need := filter (λ i, blocks !! i = None) (indices total) in
          match request_blocks p target remote_path need blocks 0 s with
          | (Err e, s) => (Err e, d, s)
          | (Ok (blocks, bytes), s) =>
              match ordered (indices total) blocks with
              | Err e => (Err e, d, s)
              | Ok cs =>
                  match reassemble m cs with
                  | Err e => (Err ("reassembly failed: " +:+ e)%string, d, s)
                  | Ok restored =>
                      match write local_path restored d with
                      | (Err e, d) => (Err ("failed to write '" +:+ local_path +:+ "': " +:+ e)%string, d, s)
                      | (Ok _, d) =>
                          (Ok (mkSyncResult total (wrap 32 (len need)) bytes (bool_decide (need = []))
                                 (saturating_sub t1 t0)), d,
                           set_state (SyncStateStore.upsert t1 name (file_hash m) (file_size m)
                                        (state s)) s)
                      end
                  end
              end
          end
      end
  end.

Definition needs_sync (d : Disk) (local_path : string) s : result bool string :=
  let? data := read d "" local_path in
  Ok (match state s !! name_of local_path with
      | Some entry => bool_decide (last_synced_hash entry ≠ sha256 data)
      | None => true
      end).
End IncrementalSync.
End IncrementalSync.
Import IncrementalSync.

(** ** Properties *)

Section Properties.
Context `{Sha256Crate} `{HexCrate} `{!HexCrateOk} `{SyncJson}.
Implicit Types s : IncrementalSync.

Lemma have_below k l ms i : (i < k)%nat → have k l ms !! Z.of_nat i = None.
Proof.
  revert k ms. induction l as [|c l IH]; intros k [|m ms] Hi; try done. cbn [have].
  assert (have (S k) l ms !! Z.of_nat i = None) by (apply IH; lia).
  case_decide; [rewrite lookup_insert_ne by lia|]; done.
Qed.
Lemma have_lookup k l ms i :
  have k l ms !! Z.of_nat (k + i)
  = (c ← l !! i; m ← ms !! i; if decide (meta_hash m = sha256 c) then Some c else None).
Proof.
  revert k ms i. induction l as [|c l IH]; intros k [|m ms] i; try done.
  { cbn. by destruct ((c :: l) !! i). }
  cbn [have]. destruct i as [|i].
  - rewrite Nat.add_0_r. cbn. case_decide; [by rewrite lookup_insert_eq|]. apply have_below. lia.
  - rewrite Nat.add_succ_r, <-Nat.add_succ_l. cbn [lookup list_lookup].
    case_decide; [rewrite lookup_insert_ne by lia|]; apply IH.
Qed.

Lemma request_blocks_ok p target path (f : Z → list byte) need blocks bytes s :
  (∀ i s, i ∈ need → (request_block p target path i s).1 = Ok (f i)) →
  ∃ blocks' bytes', (request_blocks p target path need blocks bytes s).1 = Ok (blocks', bytes')
    ∧ ∀ i, blocks' !! i = if decide (i ∈ need) then Some (f i) else blocks !! i.
Proof.
  revert blocks bytes s. induction need as [|j need IH]; intros blocks bytes s Hok.
  { exists blocks, bytes. split; [done|]. intros i. by rewrite decide_False by apply not_elem_of_nil. }
  cbn [request_blocks]. pose proof (Hok j s ltac:(by left)) as Hj.
  destruct (request_block p target path j s) as [[data|e] s1]; [|done]. injection Hj as ->.
  destruct (IH (<[j := f j]> blocks) (wrap 64 (bytes + len (f j))) s1) as (bs & by_ & E & Hbs).
  { intros i s' Hi. apply Hok. by right. }
  exists bs, by_. split; [done|]. intros i. rewrite Hbs. destruct (decide (i ∈ need)).
  - by rewrite decide_True by by right.
  - destruct (decide (i = j)) as [->|Hij].
    + by rewrite lookup_insert_eq, decide_True by left.
    + rewrite lookup_insert_ne, decide_False; [done| |done]. by intros [?|?]%elem_of_cons.
Qed.
Lemma ordered_ok (f : Z → list byte) is_ blocks :
  NoDup is_ → (∀ i, i ∈ is_ → blocks !! i = Some (f i)) → ordered is_ blocks = Ok (f <$> is_).
Proof.
  revert blocks. induction is_ as [|i is_ IH]; intros blocks Hd Hok; [done|].
  apply NoDup_cons in Hd as [Hi Hd]. cbn [ordered]. rewrite (Hok i) by by left.
  rewrite IH; [done|done|]. intros j Hj. rewrite lookup_delete_ne by (intros ->; done).
  apply Hok. by right.
Qed.

(** A peer that holds [data] at [path] and answers every request. *)
Record serves (p : Peer) (target path : string) (cs : Z) (data : list byte) : Prop := {
  serves_send msg : vpn_send p target msg = Ok tt;
  serves_manifest : ∃ text, manifest_reply p target path = Some text ∧ text ≠ ""%string
    ∧ manifest_from_str text = Ok (chunk_data data (mkChunker cs)).1;
  serves_block i : (i < num_chunks cs data)%nat →
    ∃ resp, block_reply p target path (Z.of_nat i) = Some resp
      ∧ data_hex_of resp = Ok (Some (hex_encode (block cs data i)))
}.

Lemma serves_request_manifest p target path cs data s :
  serves p target path cs data →
  (request_remote_manifest p path target s).1 = Ok (chunk_data data (mkChunker cs)).1
  ∧ chunker (request_remote_manifest p path target s).2 = chunker s
  ∧ diff_engine (request_remote_manifest p path target s).2 = diff_engine s
  ∧ state (request_remote_manifest p path target s).2 = state s.
Proof.
  intros [Hsend (text & Ht & Hne & Hm) _]. unfold request_remote_manifest, listen, send.
  cbn [fst snd chunker diff_engine state]. rewrite Hsend, Ht, Hm.
  by rewrite (proj2 (String.eqb_neq _ _)) by done.
Qed.
Lemma serves_request_block p target path cs data i s :
  serves p target path cs data → (i < num_chunks cs data)%nat →
  (request_block p target path (Z.of_nat i) s).1 = Ok (block cs data i).
Proof.
  intros [Hsend _ Hb] Hi. unfold request_block, listen, send. cbn [fst snd].
  destruct (Hb i Hi) as (resp & Hr & Hx). by rewrite Hsend, Hr, Hx, hex_decode_encode.
Qed.

(** C14: A download never yields a wrong file.  Whatever the peer answers, a download that
    succeeds leaves at the local path a file with the hash that the peer's manifest names and
    no other file touched; one that fails leaves every file as it was, but for a failed write
    of the reassembled file itself. *)
Theorem download_integrity p t0 t1 d target remote_path local_path s :
  let '(res, d', s') := download_file p t0 t1 d target remote_path local_path s in
  let manifest := (request_remote_manifest p remote_path target s).1 in
  match res with
  | Ok _ => ∃ m data, manifest = Ok m ∧ sha256 data = file_hash m
      ∧ files d' = <[local_path := data]> (files d)
      ∧ last_synced_hash <$> state s' !! name_of remote_path = Some (file_hash m)
  | Err _ => d' = d ∨ ∃ m data e n, manifest = Ok m ∧ sha256 data = file_hash m
      ∧ write_fault d local_path = Some (e, Some n)
      ∧ files d' = <[local_path := take n data]> (files d)
  end.
Proof.
  unfold download_file. destruct (request_remote_manifest p remote_path target s) as [[m|e] s1];
    [|by left]. cbn [fst].
  destruct (match files d !! local_path with None => _ | Some _ => _ end) as [blocks|e]; [|by left].
  destruct (request_blocks _ _ _ _ _ _ _) as [[[bs bytes]|e] s2]; [|by left].
  destruct (ordered _ bs) as [cs|e]; [|by left].
  destruct (reassemble m cs) as [data|e] eqn:Hr; [|by left].
  apply reassemble_Ok in Hr as (_ & _ & Hh). unfold write.
  destruct (write_fault d local_path) as [[e [n|]]|] eqn:Hw; [|by left|].
  - right. exists m, data, e, n. split_and!; done.
  - exists m, data. split_and!; try done. unfold set_state, SyncStateStore.upsert. cbn [state].
    by rewrite lookup_insert_eq.
Qed.

(** The blocks of [data] that the local file, if any, does not have in place. *)
Definition lacks (cs : Z) (local : option (list byte)) (data : list byte) (i : nat) : bool :=
  match local with
  | Some old => negb (i <? num_chunks cs old)%nat || negb (bool_decide (block cs old i = block cs data i))
  | None => true
  end.

Lemma filter_fmap_indices (f : nat → Z) (P : Z → Prop) `{!∀ x, Decision (P x)} (Q : nat → bool) (l : list nat) :
  (∀ x, x ∈ l → P (f x) ↔ Q x = true) → filter P (f <$> l) = f <$> filter (λ x, Q x = true) l.
Proof.
  induction l as [|x l IH]; intros Hpq; [done|]. rewrite fmap_cons, !filter_cons.
  specialize (IH ltac:(intros y Hy; apply Hpq; by right)).
  assert (Hx : P (f x) ↔ Q x = true) by (apply Hpq; by left).
  destruct (decide (P (f x))), (decide (Q x = true)); try tauto; rewrite IH; done.
Qed.

(** The local blocks that are kept. *)
Lemma have_blocks cs data old i :
  no_collision cs data old → (i < num_chunks cs data)%nat →
  have 0 (chunk_data old (mkChunker cs)).2 (chunks (chunk_data data (mkChunker cs)).1) !! Z.of_nat i
  = if lacks cs (Some old) data i then None else Some (block cs data i).
Proof.
  intros [_ Hnc] Hi. change i with (0 + i)%nat at 1. rewrite have_lookup. unfold chunk_data. cbn [fst snd chunks chunk_size].
  rewrite !list_lookup_fmap, (lookup_seq_lt _ _ _ Hi). unfold lacks.
  destruct (Nat.ltb_spec i (num_chunks cs old)) as [Ho|Ho].
  - rewrite lookup_seq_lt by done. cbn [fmap option_fmap option_map mbind option_bind Nat.add negb orb].
    unfold chunk_meta. cbn [meta_hash].
    destruct (decide (block cs old i = block cs data i)) as [E|E].
    + rewrite E, decide_True, bool_decide_true by done. done.
    + rewrite bool_decide_false by done. rewrite decide_False; [done|]. intros E'. by apply E, Hnc.
  - by rewrite lookup_seq_ge.
Qed.

(** Fetching what is missing completes the blocks. *)
Lemma fetch_missing p target path cs data blocks (missing : nat → bool) s :
  let n := num_chunks cs data in
  let need := filter (λ i, blocks !! i = None) (Z.of_nat <$> seq 0 n) in
  serves p target path cs data →
  (∀ i, (i < n)%nat → blocks !! Z.of_nat i = if missing i then None else Some (block cs data i)) →
  need = Z.of_nat <$> filter (λ i, missing i = true) (seq 0 n)
  ∧ ∃ bs bytes, (request_blocks p target path need blocks 0 s).1 = Ok (bs, bytes)
    ∧ ordered (Z.of_nat <$> seq 0 n) bs = Ok (block cs data <$> seq 0 n).
Proof.
  intros n need Hserves Hblocks. split.
  { apply filter_fmap_indices. intros i Hi. apply elem_of_seq in Hi. rewrite Hblocks by lia.
    by destruct (missing i). }
  destruct (request_blocks_ok p target path (λ i, block cs data (Z.to_nat i)) need blocks 0 s)
    as (bs & bytes & E & Hbs).
  { intros i s' [_ Hi]%list_elem_of_filter. apply list_elem_of_fmap in Hi as (k & -> & Hk).
    apply elem_of_seq in Hk. rewrite Nat2Z.id.
    apply (serves_request_block p target path cs data); [done|lia]. }
  exists bs, bytes. split; [done|]. rewrite (ordered_ok (λ i, block cs data (Z.to_nat i))).
  - f_equal. rewrite <-list_fmap_compose. apply list_fmap_ext. intros k i _. cbn. by rewrite Nat2Z.id.
  - apply NoDup_fmap; [apply _|apply NoDup_seq].
  - intros i Hi. rewrite Hbs. case_decide as Hin; [done|].
    apply list_elem_of_fmap in Hi as (k & -> & Hk). assert (k < n)%nat by (apply elem_of_seq in Hk; lia).
    rewrite Nat2Z.id. specialize (Hblocks k ltac:(done)).
    destruct (missing k); [|done]. destruct Hin. apply list_elem_of_filter. split; [done|].
    apply list_elem_of_fmap. by exists k.
Qed.

(** The requests of a download: the manifest, and the block [i]; the tags are the next random numbers. *)
Definition get_manifest (p : Peer) (path : string) (k : nat) : list byte :=
  as_bytes ("INCR_GET_MANIFEST:incr-manifest-" +:+ pretty (random p k) +:+ ":" +:+ path).
Definition get_block (p : Peer) (path : string) (k : nat) (i : Z) : list byte :=
  as_bytes ("INCR_GET_BLOCK:incr-block-" +:+ pretty i +:+ "-" +:+ pretty (random p k) +:+ ":" +:+ path +:+ ":"
              +:+ pretty i).
Fixpoint block_requests (p : Peer) (target path : string) (k : nat) (need : list Z) : list (string * list byte) :=
  match need with [] => [] | i :: need => (target, get_block p path k i) :: block_requests p target path (S k) need end.

Lemma request_blocks_sent p target path need blocks bytes s r s' :
  request_blocks p target path need blocks bytes s = (Ok r, s') →
  sent s' = sent s ++ block_requests p target path (listeners s) need.
Proof.
  revert blocks bytes s. induction need as [|i need IH]; intros blocks bytes s; cbn [request_blocks].
  { intros [= <- <-]. cbn. by rewrite app_nil_r. }
  destruct (request_block p target path i s) as [[data|e] s1] eqn:E; [|done]. intros ->%IH.
  unfold request_block, listen, send in E. injection E as _ <-. cbn [sent listeners block_requests].
  by rewrite <-(assoc_L app).
Qed.
(** The blocks that the local file already has. *)
Lemma local_blocks cs old_file data c e :
  chunkable cs data → engine_size e = cs → chunk_size c = cs →
  (∀ old, old_file = Some old → no_collision cs data old) →
  let m := (chunk_data data (mkChunker cs)).1 in
  ∃ blocks,
    match old_file with
    | None => Ok ∅
    | Some old =>
        match BlockDiffEngine.diff_files m old e with
        | Err e => Err ("diff computation failed: " +:+ e)%string
        | Ok _ => Ok (have 0 (chunk_data old c).2 (chunks m))
        end
    end = Ok blocks
    ∧ ∀ i, (i < num_chunks cs data)%nat → blocks !! Z.of_nat i
        = if lacks cs old_file data i then None else Some (block cs data i).
Proof.
  intros Hcs He Hc Hnc m. destruct old_file as [old|]; [|by exists ∅].
  exists (have 0 (chunk_data old (mkChunker cs)).2 (chunks m)). split.
  - unfold BlockDiffEngine.diff_files. rewrite He.
    change (manifest_chunk_size m) with cs. rewrite Z.eqb_refl. cbn [negb].
    destruct c as [cs0]. cbn in Hc. subst cs0. by case_decide.
  - intros i Hi. apply have_blocks; auto.
Qed.

(** C15: A download delivers.  When the peer serves a file and answers, SHA-256 tells its blocks apart
    from the local ones, chunker and diff engine have one block size, for which the blocks of the file
    are counted without overflow and fewer than 2^32, and the local file can be written, then the download
    succeeds whatever file, if any, was at the local path, and ends with exactly the peer's file there.  What it
    sends are one request for the manifest and then, in order, one request for each block that the
    local file does not have at the same place, and nothing else. *)
Theorem download_delivers p t0 t1 d target remote_path local_path s data :
  let cs := chunk_size (chunker s) in
  chunkable cs data → engine_size (diff_engine s) = cs → fits 32 (Z.of_nat (num_chunks cs data)) →
  serves p target remote_path cs data → write_fault d local_path = None →
  (∀ old, files d !! local_path = Some old → no_collision cs data old) →
  let '(res, d', s') := download_file p t0 t1 d target remote_path local_path s in
  let lacking := filter (λ i, lacks cs (files d !! local_path) data i = true) (seq 0 (num_chunks cs data)) in
  files d' = <[local_path := data]> (files d)
  ∧ sent s' = sent s ++ (target, get_manifest p remote_path (listeners s))
      :: block_requests p target remote_path (S (listeners s)) (Z.of_nat <$> lacking)
  ∧ ∃ r, res = Ok r ∧ total_blocks r = Z.of_nat (num_chunks cs data)
    ∧ transferred_blocks r = Z.of_nat (length lacking).
Proof.
  intros cs Hcs He Hn Hserves Hw Hnc. set (n := num_chunks cs data) in *.
  assert (Hreq : sent (request_remote_manifest p remote_path target s).2
      = sent s ++ [(target, get_manifest p remote_path (listeners s))]
    ∧ listeners (request_remote_manifest p remote_path target s).2 = S (listeners s)) by done.
  destruct (serves_request_manifest _ _ _ _ _ s Hserves) as (Hm & Hc1 & He1 & _).
  unfold download_file. destruct (request_remote_manifest p remote_path target s) as [rm s1].
  cbn [fst snd] in *. subst rm. destruct Hreq as [Hsent Hlis]. set (m := (chunk_data data (mkChunker cs)).1) in *.
  assert (Hlen : len (chunks m) = Z.of_nat n)
    by (subst m; unfold chunk_data; cbn [fst chunks]; by rewrite length_fmap, length_seq).
  rewrite Hlen, wrap_id by done. unfold indices. rewrite Nat2Z.id.
  destruct (local_blocks cs (files d !! local_path) data (chunker s1) (diff_engine s1)) as (blocks & Hb & Hblocks);
    [done|by rewrite He1|by rewrite Hc1|done|]. fold m in Hb. rewrite Hb.
  set (need := filter (λ i, blocks !! i = None) (Z.of_nat <$> seq 0 n)).
  destruct (fetch_missing p target remote_path cs data blocks
    (lacks cs (files d !! local_path) data) s1 Hserves Hblocks) as (Hl & bs & bytes & E & Ho).
  fold n in Hl, E, Ho. fold need in Hl, E.
  destruct (request_blocks p target remote_path need blocks 0 s1) as [r s2] eqn:Er. cbn [fst] in E. subst r.
  apply request_blocks_sent in Er. rewrite Ho.
  rewrite (proj2 (reassemble_Ok m _ data)).
  2:{ subst m. unfold chunk_data. cbn [fst chunks file_hash chunk_size].
      split_and!; [by rewrite <-!list_fmap_compose|by rewrite blocks_join|done]. }
  unfold write. rewrite Hw. split; [done|]. split.
  { unfold set_state. cbn [sent]. by rewrite Er, Hsent, Hlis, Hl, <-(assoc_L app). }
  eexists. split; [done|]. cbn [total_blocks transferred_blocks]. split; [done|].
  rewrite Hl, length_fmap, wrap_id; [done|]. pose proof (length_filter (λ i,
    lacks cs (files d !! local_path) data i = true) (seq 0 n)) as Hle. rewrite length_seq in Hle.
  unfold fits in *. lia.
Qed.
(** The messages of the changed blocks. *)
Definition block_message (name : string) (new : list byte) (cs : Z) (b : BlockDiff) : list byte :=
  as_bytes ("INCR_BLOCK:" +:+ block_to_string name (diff_index b)
              (hex_encode (block cs new (Z.to_nat (diff_index b))))).

Lemma send_blocks_ok p target name new cs bs n bytes s :
  (∀ msg, vpn_send p target msg = Ok tt) →
  (∀ b, b ∈ bs → BlockDiffEngine.to_transfer b = true → (Z.to_nat (diff_index b) < num_chunks cs new)%nat) →
  fits 32 (n + len bs) → 0 <= n →
  let tr := filter (λ b, BlockDiffEngine.to_transfer b = true) bs in
  ∃ bytes' s',
    send_blocks p target name (block cs new <$> seq 0 (num_chunks cs new)) bs n bytes s
    = (Ok (n + len tr, bytes'), s')
    ∧ chunker s' = chunker s ∧ diff_engine s' = diff_engine s ∧ state s' = state s
    ∧ listeners s' = listeners s
    ∧ sent s' = sent s ++ ((λ b, (target, block_message name new cs b)) <$> tr).
Proof.
  intros Hsend. revert n bytes s. induction bs as [|b bs IH]; intros n bytes s Hidx Hf Hn tr.
  { exists bytes, s. subst tr. cbn. by rewrite Z.add_0_r, app_nil_r. }
  subst tr. rewrite filter_cons. cbn [send_blocks length] in *.
  destruct (BlockDiffEngine.to_transfer b) eqn:Ht.
  - rewrite decide_True by done. unfold send_block, send. rewrite Hsend. cbn [map_err].
    assert (Hb : nth (Z.to_nat (diff_index b)) (block cs new <$> seq 0 (num_chunks cs new)) []
      = block cs new (Z.to_nat (diff_index b))).
    { apply nth_lookup_Some. rewrite list_lookup_fmap, lookup_seq_lt; [done|].
      apply Hidx; [by left|done]. }
    rewrite Hb, wrap_id by (unfold fits in *; lia).
    edestruct IH as (bytes' & s' & E & H1' & H2' & H3' & H4' & H5'); [| | |rewrite E].
    + intros b' Hb'. apply Hidx. by right.
    + unfold fits in *. lia.
    + lia.
    + exists bytes', s'. cbn [length fmap list_fmap]. split_and!; try done.
      * do 3 f_equal. lia.
      * rewrite H5'. cbn [sent]. by rewrite <-(assoc_L app).
  - rewrite decide_False by done.
    edestruct IH as (bytes' & s' & E & H1' & H2' & H3' & H4' & H5'); [| | |rewrite E].
    + intros b' Hb'. apply Hidx. by right.
    + unfold fits in *. lia.
    + done.
    + exists bytes', s'. by split_and!.
Qed.

Lemma change_at_transfer cs old new i b :
  change_at cs old new i = Some b → BlockDiffEngine.to_transfer b = true →
  diff_index b = Z.of_nat i ∧ (i < num_chunks cs new)%nat.
Proof.
  unfold change_at. destruct (Nat.ltb_spec i (num_chunks cs new)).
  - destruct (i <? num_chunks cs old)%nat; [case_decide; [done|]|]; by intros [= <-] _.
  - destruct (i <? num_chunks cs old)%nat; [|done]. by intros [= <-].
Qed.

Lemma patch_filter cs old new bs :
  patch cs old new (filter (λ b, BlockDiffEngine.to_transfer b = true) bs) = patch cs old new bs.
Proof.
  unfold patch. f_equal. apply list_fmap_ext. intros k i _. f_equal.
  enough (E : existsb (λ b, BlockDiffEngine.to_transfer b && (diff_index b =? Z.of_nat i))
      (filter (λ b, BlockDiffEngine.to_transfer b = true) bs)
    = existsb (λ b, BlockDiffEngine.to_transfer b && (diff_index b =? Z.of_nat i)) bs) by by rewrite E.
  induction bs as [|b bs IH]; [done|]. rewrite filter_cons. cbn [existsb].
  destruct (BlockDiffEngine.to_transfer b) eqn:E.
  - rewrite decide_True by done. cbn [existsb]. by rewrite E, IH.
  - by rewrite decide_False by done.
Qed.
Lemma length_omap_le {A B} (f : A → option B) l : (length (omap f l) ≤ length l)%nat.
Proof. induction l as [|x l IH]; cbn; [done|]. destruct (f x); cbn; lia. Qed.

(** C33: An upload sends what changed.  When the recorded state of the file's name, if any, does not have the hash of
    [new] already, the peer holds [old] under that name and every send succeeds, SHA-256 tells the two versions and
    their blocks apart, chunker and diff engine have one block size, for which the blocks of [new] are counted
    without overflow, and each version has fewer than 2^31 blocks, then uploading [new] sends one request,
    then exactly the Modified and Added blocks in order with their content, then the new manifest; those
    blocks turn [old] into [new]; and the file is recorded as in sync. *)
Theorem sync_sends_changes p t0 t1 d local_path target s old new :
  let cs := chunk_size (chunker s) in
  let name := name_of local_path in
  chunkable cs new → engine_size (diff_engine s) = cs →
  fits 31 (Z.of_nat (num_chunks cs old)) → fits 31 (Z.of_nat (num_chunks cs new)) →
  no_collision cs old new → serves p target name cs old → files d !! local_path = Some new →
  last_synced_hash <$> state s !! name ≠ Some (sha256 new) →
  let bs := filter (λ b, BlockDiffEngine.to_transfer b = true)
              (omap (change_at cs old new) (rounds cs old new)) in
  ∃ r s', sync_file p t0 t1 d local_path target s = (Ok r, s')
    ∧ already_in_sync r = false ∧ transferred_blocks r = len bs
    ∧ sent s' = sent s ++ [(target, get_manifest p name (listeners s))]
        ++ ((λ b, (target, block_message name new cs b)) <$> bs)
        ++ [(target, as_bytes ("INCR_MANIFEST:" +:+ name +:+ ":"
                                 +:+ manifest_to_string (chunk_data new (chunker s)).1))]
    ∧ patch cs old new bs = new
    ∧ last_synced_hash <$> state s' !! name = Some (sha256 new).
Proof.
  intros cs name Hcs He Ho Hn Hnc Hserves Hd Hst bs.
  assert (Hf32 : ∀ z, fits 31 z → fits 32 z) by (intros z; unfold fits; lia).
  destruct (serves_request_manifest _ _ _ _ _ s Hserves) as (Hm & Hc1 & He1 & Hs1).
  assert (Hsent : sent (request_remote_manifest p name target s).2
    = sent s ++ [(target, get_manifest p name (listeners s))]) by done.
  assert (Hin : match state s !! name with
    | Some en => bool_decide (last_synced_hash en = sha256 new) | None => false end = false).
  { destruct (state s !! name) as [en|]; [|done]. apply bool_decide_false. intros E.
    apply Hst. cbn. by rewrite E. }
  destruct (diff_files_spec (mkChunker cs) old new (diff_engine s) He (Hf32 _ Ho) (Hf32 _ Hn) Hnc)
    as (df & Hdf & _ & Hch & _). cbn [chunk_size] in Hch. fold (rounds cs old new) in Hch.
  destruct (request_remote_manifest p name target s) as [rm s1] eqn:Er; cbn [fst snd] in *; subst rm.
  destruct (send_blocks_ok p target name new cs (changed_blocks df) 0 0 s1)
    as (bytes & s2 & E2 & Hc2 & He2 & Hs2 & Hl2 & Hsent2).
  { apply Hserves. }
  { intros b Hb Htr. rewrite Hch in Hb. apply list_elem_of_omap in Hb as (i & _ & Hb).
    destruct (change_at_transfer _ _ _ _ _ Hb Htr) as [-> ?]. by rewrite Nat2Z.id. }
  { rewrite Hch. assert (Hl : (length (omap (change_at cs old new) (rounds cs old new))
      ≤ length (rounds cs old new))%nat) by apply length_omap_le.
    unfold rounds in Hl at 2. rewrite length_seq in Hl. unfold fits in *. lia. }
  { done. }
  rewrite Hch in Hsent2, E2. fold bs in Hsent2, E2.
  set (m := (chunk_data new (chunker s)).1).
  assert (Em : chunk_data new (chunker s) = (m, block cs new <$> seq 0 (num_chunks cs new))) by done.
  eexists _, _. split.
  { unfold sync_file, read. fold name. rewrite Hd. cbn [ok_or]. rewrite Em.
    change (file_hash m) with (sha256 new). rewrite Hin, Er, He1, Hdf, Hch. rewrite E2.
    unfold send_manifest, send. rewrite (serves_send _ _ _ _ _ Hserves). cbn [map_err]. done. }
  cbn [already_in_sync transferred_blocks]. split_and!; [done|lia| | |].
  - unfold set_state. cbn [sent]. rewrite Hsent2, Hsent. by rewrite <-!(assoc_L app).
  - subst bs. rewrite patch_filter. by apply patch_changes.
  - unfold set_state, SyncStateStore.upsert. cbn [state]. by rewrite lookup_insert_eq.
Qed.

Lemma sync_file_synced p t0 t1 d path target s r s1 data :
  files d !! path = Some data → sync_file p t0 t1 d path target s = (Ok r, s1) →
  last_synced_hash <$> state s1 !! name_of path = Some (sha256 data).
Proof.
  intros Hd. unfold sync_file, read. rewrite Hd. cbn [ok_or].
  destruct (chunk_data data (chunker s)) as [m cs] eqn:Em.
  assert (Hm : file_hash m = sha256 data) by by injection Em as <- _.
  destruct (match state s !! name_of path with Some _ => _ | None => _ end) eqn:Hin.
  { intros [= <- <-]. destruct (state s !! name_of path); [|done].
    apply bool_decide_eq_true in Hin. cbn. by rewrite Hin, Hm. }
  destruct (request_remote_manifest _ _ _ _) as [[remote|e] s2]; [|done].
  destruct (BlockDiffEngine.diff_files _ _ _) as [df|e]; [|done].
  destruct (send_blocks _ _ _ _ _ _ _ _) as [[[n bytes]|e] s3]; [|done].
  destruct (send_manifest _ _ _ _ _) as [[[]|e] s4]; [|done].
  intros [= <- <-]. unfold set_state, SyncStateStore.upsert. cbn [state].
  rewrite lookup_insert_eq. cbn. by rewrite Hm.
Qed.

(** The sync state knows files but not peers.  After a file was uploaded to one peer, the
    upload of the same file to any other peer, even one that was never contacted, sends nothing
    and reports that the file was already in sync. *)
Theorem sync_skips_other_targets p1 p2 t0 t1 t2 t3 d path target1 target2 s r1 s1 :
  sync_file p1 t0 t1 d path target1 s = (Ok r1, s1) →
  ∃ r2, sync_file p2 t2 t3 d path target2 s1 = (Ok r2, s1)
    ∧ already_in_sync r2 = true ∧ transferred_blocks r2 = 0.
Proof.
  intros Hs. destruct (files d !! path) as [data|] eqn:Hd.
  2:{ unfold sync_file, read in Hs. by rewrite Hd in Hs. }
  pose proof (sync_file_synced _ _ _ _ _ _ _ _ _ _ Hd Hs) as Hl.
  unfold sync_file, read. rewrite Hd. cbn [ok_or].
  destruct (chunk_data data (chunker s1)) as [m cs] eqn:Em.
  assert (Hm : file_hash m = sha256 data) by by injection Em as <- _.
  destruct (state s1 !! name_of path) as [en|]; [|done]. injection Hl as Hl.
  rewrite bool_decide_true by by rewrite Hm. by eexists.
Qed.
End Properties.

(** ** Witnesses *)

(** A text of the manifest, by its number. *)
#[export] Instance toy_sync_json : SyncJson := {
  manifest_to_string m := String.string_of_list_byte (Byte.x4a :: @to_vec _ (bits_json FileManifest) m);
  manifest_from_str s :=
    match String.list_byte_of_string s with
    | Byte.x4a :: bs => @from_slice _ (bits_json FileManifest) bs
    | _ => Err "invalid JSON"%string
    end;
  block_to_string name i hx := (name +:+ ":" +:+ pretty i +:+ ":" +:+ hx)%string;
  data_hex_of resp := Ok (Some resp)
}.

Definition copy_of (data : list byte) : Peer := mkPeer (λ _ _, Ok tt)
  (λ _ _, Some (manifest_to_string (chunk_data data (mkChunker 2)).1))
  (λ _ _ i, Some (hex_encode (block 2 data (Z.to_nat i)))) (λ _, 7).
Definition syncing : IncrementalSync := mkIncr (mkChunker 2) (mkEngine 2) ∅ 0 [].
Lemma toy_manifest_roundtrip m : manifest_from_str (manifest_to_string m) = Ok m.
Proof.
  cbv beta iota delta [manifest_from_str manifest_to_string toy_sync_json].
  rewrite String.list_byte_of_string_of_list_byte.
  apply bits_json_ok.
Qed.
Lemma copy_of_serves target path data : serves (copy_of data) target path 2 data.
Proof.
  split.
  - intros msg. reflexivity.
  - eexists. split; [reflexivity|]. split; [discriminate|]. apply toy_manifest_roundtrip.
  - intros i Hi. eexists. split; [reflexivity|]. cbn [data_hex_of toy_sync_json].
    by rewrite Nat2Z.id.
Qed.

Lemma download_delivers_witness :
  let d := disk_with "b.bin" version_2 in
  let '(res, d', _) := download_file (copy_of version_1) 10 11 d "peer" "dir/a.bin" "b.bin" syncing in
  files d' !! "b.bin"%string = Some version_1
  ∧ ∃ r, res = Ok r ∧ total_blocks r = 3 ∧ transferred_blocks r = 2.
Proof.
  intros d.
  assert (H1 : chunkable (chunk_size (chunker syncing)) version_1) by (split; vm_compute; congruence).
  assert (H2 : fits 32 (Z.of_nat (num_chunks 2 version_1))) by (split; vm_compute; congruence).
  pose proof (copy_of_serves "peer" "dir/a.bin" version_1) as H3.
  assert (H4 : ∀ old, files d !! "b.bin"%string = Some old → no_collision 2 version_1 old).
  { intros old Ho. cbn [files d disk_with] in Ho. rewrite lookup_singleton_eq in Ho.
    injection Ho as <-. exact versions_no_collision. }
  pose proof (download_delivers (copy_of version_1) 10 11 d "peer" "dir/a.bin" "b.bin" syncing version_1
    H1 eq_refl H2 H3 eq_refl H4) as Hd.
  destruct (download_file _ _ _ d _ _ _ _) as [[res d'] s'].
  destruct Hd as (-> & _ & r & -> & Ht & Hn). split; [by rewrite lookup_insert_eq|].
  exists r. split; [reflexivity|]. rewrite Ht, Hn. cbn [files d disk_with].
  rewrite lookup_singleton_eq. split; vm_compute; reflexivity.
Defined.

Lemma sync_sends_changes_witness :
  let d := disk_with "dir/a.bin" version_2 in
  let bs := filter (λ b, BlockDiffEngine.to_transfer b = true)
              (omap (change_at 2 version_1 version_2) (rounds 2 version_1 version_2)) in
  (diff_index <$> bs) = [1] ∧ patch 2 version_1 version_2 bs = version_2
  ∧ ∃ r s', sync_file (copy_of version_1) 10 12 d "dir/a.bin" "peer" syncing = (Ok r, s')
    ∧ transferred_blocks r = 1.
Proof.
  intros d bs. split; [vm_compute; reflexivity|].
  destruct (sync_sends_changes (copy_of version_1) 10 12 d "dir/a.bin" "peer" syncing
    version_1 version_2) as (r & s' & E & _ & Ht & _ & Hp & _).
  - split; vm_compute; congruence.
  - reflexivity.
  - split; vm_compute; congruence.
  - split; vm_compute; congruence.
  - exact versions_no_collision.
  - apply copy_of_serves.
  - reflexivity.
  - vm_compute. intros E. discriminate E.
  - split; [exact Hp|]. exists r, s'. split; [exact E|]. rewrite Ht. vm_compute. reflexivity.
Defined.

Lemma sync_skips_other_targets_witness :
  let d := disk_with "dir/a.bin" version_2 in
  let s' := (sync_file (copy_of version_1) 10 12 d "dir/a.bin" "peer" syncing).2 in
  ∃ r, sync_file (copy_of []) 20 21 d "dir/a.bin" "other" s' = (Ok r, s')
    ∧ already_in_sync r = true.
Proof.
  intros d s'.
  assert (E : ∃ r1, sync_file (copy_of version_1) 10 12 d "dir/a.bin" "peer" syncing = (Ok r1, s'))
    by (eexists; vm_compute; reflexivity).
  destruct E as (r1 & E).
  destruct (sync_skips_other_targets _ (copy_of []) _ _ 20 21 _ _ _ "other" _ _ _ E)
    as (r & Hr & Hin & _).
  exists r. split; [exact Hr|exact Hin].
Defined.
