(* ===== verification/Calendar.v ===== *)
(** * Calendar: the civil date of a Unix time

    Models [format_timestamp] and [civil_date_from_days] of
    crates/vpn/src/storage/version.rs.  Rust's [/] on i64 truncates: [Z.quot].
    The i64 arithmetic is that of [Z]: the one caller passes at most 2^64 / 86400 days, for which nothing
    overflows.  The reference is the Gregorian calendar as the step from a day to the next
    one ([tomorrow]). *)
From Stdlib Require Import Ascii.
From S2P Require Import Prelude Text.

Lemma pad_inj w n a b : fits n a → fits n b → pad w a = pad w b → a = b.
Proof.
  assert (Hz : ∀ k s, parse_digits n 0 (zeros k s) = parse_digits n 0 s ∨ 2 ^ n <= 0).
  { intros k s. induction k as [|k [IH|?]]; [by left| |by right]. cbn [zeros parse_digits].
    change (digit_value "0"%char) with (Some 0). cbn [mbind option_bind].
    destruct (Z.ltb_spec (0 * 10 + 0) (2 ^ n)); [by left|right; lia]. }
  intros Ha Hb E. apply (f_equal (parse_digits n 0)) in E. unfold pad in E.
  destruct (Hz (w - String.length (pretty a))%nat (pretty a)) as [E1|?];
    destruct (Hz (w - String.length (pretty b))%nat (pretty b)) as [E2|?];
    [|unfold fits in *; lia..].
  rewrite E1, E2, (proj1 (parse_digits_pretty _ _ Ha)), (proj1 (parse_digits_pretty _ _ Hb)) in E.
  congruence.
Qed.
Lemma free_of_pad c w z :
  c ≠ "0"%char → digit_value c = None → 0 <= z → free_of c (pad w z) = true.
Proof.
  intros H0 Hc Hz. unfold pad. induction (w - String.length (pretty z))%nat as [|k IH]; cbn [zeros free_of].
  - by apply free_of_pretty.
  - apply andb_true_iff. split; [|done]. apply negb_true_iff, Ascii.eqb_neq. congruence.
Qed.

Definition civil_date_from_days (days : Z) : Z * Z * Z :=
  let z := days + 719468 in
  let era := (if 0 <=? z then z else z - 146096) ÷ 146097 in
  let doe := z - era * 146097 in
  let yoe := (doe - doe ÷ 1460 + doe ÷ 36524 - doe ÷ 146096) ÷ 365 in
  let y := yoe + era * 400 in
  let doy := doe - (365 * yoe + yoe ÷ 4 - yoe ÷ 100) in
  let mp := (5 * doy + 2) ÷ 153 in
  let d := doy - (153 * mp + 2) ÷ 5 + 1 in
  let m := if mp <? 10 then mp + 3 else mp - 9 in
  let y := if m <=? 2 then y + 1 else y in
  (y, m, d).

Definition format_timestamp (unix_secs : Z) : string :=
  let time_in_day := unix_secs mod 86400 in
  let '(year, month, day) := civil_date_from_days (unix_secs / 86400) in
  pad 4 year +:+ pad 2 month +:+ pad 2 day +:+ pad 2 (time_in_day / 3600)
    +:+ pad 2 (time_in_day mod 3600 / 60) +:+ pad 2 (time_in_day mod 60).

(** ** The calendar *)

Definition is_leap (y : Z) : bool :=
  (y mod 4 =? 0) && negb (y mod 100 =? 0) || (y mod 400 =? 0).
Definition days_in_month (leap : bool) (m : Z) : Z :=
  if m =? 2 then (if leap then 29 else 28)
  else if (m =? 4) || (m =? 6) || (m =? 9) || (m =? 11) then 30 else 31.
Definition tomorrow (date : Z * Z * Z) : Z * Z * Z :=
  let '(y, m, d) := date in
  if d <? days_in_month (is_leap y) m then (y, m, d + 1)
  else if m <? 12 then (y, m + 1, 1) else (y + 1, 1, 1).

(** Month, day and whether the new year has begun, on the [doy]-th day of a
    year that starts in March. *)
Definition march (doy : Z) : Z * Z * Z :=
  let mp := (5 * doy + 2) / 153 in
  let m := if mp <? 10 then mp + 3 else mp - 9 in
  (m, doy - (153 * mp + 2) / 5 + 1, if m <=? 2 then 1 else 0).
Definition of_march (y doy : Z) : Z * Z * Z :=
  let '(m, d, dy) := march doy in (y + dy, m, d).

Definition march_step (leap : bool) (doy : Z) : bool :=
  let '(m, d, dy) := march doy in
  let next :=
    if d <? days_in_month leap m then (m, d + 1, dy)
    else if m <? 12 then (m + 1, 1, dy) else (1, 1, dy + 1) in
  bool_decide (next = if doy <? (if leap then 365 else 364) then march (doy + 1) else (3, 1, 1))
  && ((m =? 2) || bool_decide (days_in_month true m = days_in_month false m))
  && (if m =? 2 then dy =? 1 else true).

Lemma march_step_ok (leap : bool) doy :
  0 <= doy <= (if leap then 365 else 364) → march_step leap doy = true.
Proof.
  intros Hd.
  assert (Hall : ∀ (n : nat) (l : bool), forallb (march_step l) (Z.of_nat <$> List.seq 0 n) = true →
    ∀ z, 0 <= z < Z.of_nat n → march_step l z = true).
  { intros n l Hf z Hz. rewrite forallb_forall in Hf. apply Hf. apply list_elem_of_In.
    apply list_elem_of_fmap. exists (Z.to_nat z). rewrite elem_of_seq. lia. }
  destruct leap; [apply (Hall 366%nat)|apply (Hall 365%nat)];
    first [lia|vm_compute; reflexivity].
Qed.

Ltac same_date := apply (f_equal2 pair); [apply (f_equal2 pair)|]; lia.

Lemma tomorrow_of_march y doy :
  let last := if is_leap (y + 1) then 365 else 364 in
  0 <= doy <= last →
  tomorrow (of_march y doy) = if doy <? last then of_march y (doy + 1) else of_march (y + 1) 0.
Proof.
  intros last Hd. pose proof (march_step_ok (is_leap (y + 1)) doy Hd) as Hs.
  unfold march_step, of_march in *. fold last in Hs. destruct (march doy) as [[m d] dy] eqn:Em.
  apply andb_true_iff in Hs as [[Hs Hm]%andb_true_iff Hy]. apply bool_decide_eq_true in Hs.
  unfold tomorrow.
  assert (Hdim : days_in_month (is_leap (y + dy)) m = days_in_month (is_leap (y + 1)) m).
  { destruct (Z.eqb_spec m 2) as [->|]; [by apply Z.eqb_eq in Hy as ->|].
    apply orb_true_iff in Hm as [Hm|Hm]; [lia|]. apply bool_decide_eq_true in Hm.
    by destruct (is_leap (y + dy)), (is_leap (y + 1)). }
  rewrite Hdim. change (march 0) with (3, 1, 0).
  destruct (doy <? last).
  - rewrite <-Hs. destruct (d <? _), (m <? 12); same_date.
  - destruct (d <? _), (m <? 12); injection Hs; intros; same_date.
Qed.

(** The cycles of 400, 100, 4 and 1 years that lead to a day. *)
Record position (days era c q r doy : Z) : Prop := {
  position_c : 0 <= c <= 3;
  position_q : 0 <= q <= 24;
  position_r : 0 <= r <= 3;
  position_doy : 0 <= doy <= (if is_leap (400 * era + 100 * c + 4 * q + r + 1) then 365 else 364);
  position_days : days + 719468 = 146097 * era + 36524 * c + 1461 * q + 365 * r + doy
}.

Lemma is_leap_cycle era c q r :
  0 <= c <= 3 → 0 <= q <= 24 → 0 <= r <= 3 →
  is_leap (400 * era + 100 * c + 4 * q + r + 1) = true ↔ r = 3 ∧ (q < 24 ∨ c = 3).
Proof.
  intros Hc Hq Hr. unfold is_leap.
  rewrite orb_true_iff, andb_true_iff, negb_true_iff, !Z.eqb_eq, Z.eqb_neq.
  Z.to_euclidean_division_equations. lia.
Qed.
Lemma position_last days era c q r doy :
  position days era c q r doy → doy <= 364 ∨ doy = 365 ∧ r = 3 ∧ (q < 24 ∨ c = 3).
Proof.
  intros [Hc Hq Hr Hd _]. destruct (is_leap _) eqn:E; [|lia].
  apply is_leap_cycle in E; lia.
Qed.

Lemma position_exists days : ∃ era c q r doy, position days era c q r doy.
Proof.
  set (z := days + 719468). set (doe := z mod 146097).
  set (c := Z.min 3 (doe / 36524)). set (doc := doe - 36524 * c).
  set (q := doc / 1461). set (doq := doc - 1461 * q).
  set (r := Z.min 3 (doq / 365)). set (doy := doq - 365 * r).
  assert (Hdoe : 0 <= doe < 146097) by (apply Z.mod_pos_bound; lia).
  assert (Hc : 0 <= c <= 3 ∧ 0 <= doc ∧ (c < 3 → doc < 36524) ∧ doc <= 36524)
    by (subst c doc; Z.to_euclidean_division_equations; lia).
  assert (Hq : 0 <= q <= 24 ∧ 0 <= doq < 1461 ∧ (q = 24 → c < 3 → doq < 1460))
    by (subst q doq; Z.to_euclidean_division_equations; lia).
  assert (Hr : 0 <= r <= 3 ∧ 0 <= doy <= 365 ∧ (r < 3 → doy < 365) ∧ doq = 365 * r + doy)
    by (subst r doy; Z.to_euclidean_division_equations; lia).
  exists (z / 146097), c, q, r, doy. split; try lia.
  - destruct (is_leap _) eqn:E; [lia|].
    assert (¬ (r = 3 ∧ (q < 24 ∨ c = 3)))
      by (intros Hl; apply (is_leap_cycle (z / 146097)) in Hl; [congruence|lia..]).
    lia.
  - pose proof (Z.div_mod z 146097 ltac:(lia)) as Hz. fold doe in Hz. lia.
Qed.

Lemma position_next days era c q r doy :
  position days era c q r doy →
  let y := 400 * era + 100 * c + 4 * q + r in
  if doy <? (if is_leap (y + 1) then 365 else 364)
  then position (days + 1) era c q r (doy + 1)
  else ∃ era' c' q' r', position (days + 1) era' c' q' r' 0
    ∧ 400 * era' + 100 * c' + 4 * q' + r' = y + 1.
Proof.
  intros Hp y. pose proof Hp as [Hc Hq Hr Hd Hdays]. fold y in Hd.
  destruct (Z.ltb_spec doy (if is_leap (y + 1) then 365 else 364)) as [Hlt|Hge].
  { split; try done; fold y; lia. }
  assert (Hl : doy = (if is_leap (y + 1) then 365 else 364)) by lia.
  pose proof (is_leap_cycle era c q r Hc Hq Hr) as Hleap. fold y in Hleap.
  assert (Hdoy : doy = 365 ∧ r = 3 ∧ (q < 24 ∨ c = 3) ∨ doy = 364 ∧ ¬ (r = 3 ∧ (q < 24 ∨ c = 3))).
  { destruct (is_leap (y + 1)); [left; intuition|right]. split; [done|]. intros H. by apply Hleap in H. }
  assert (Hpos : ∀ era' c' q' r', 0 <= c' <= 3 → 0 <= q' <= 24 → 0 <= r' <= 3 →
    days + 1 + 719468 = 146097 * era' + 36524 * c' + 1461 * q' + 365 * r' →
    position (days + 1) era' c' q' r' 0).
  { intros era' c' q' r' ? ? ? E. split; try done.
    - clear. destruct (is_leap _); lia.
    - rewrite E. lia. }
  destruct (decide (r < 3)); [|destruct (decide (q < 24)); [|destruct (decide (c < 3))]].
  - exists era, c, q, (r + 1). split; [apply Hpos|]; lia.
  - exists era, c, (q + 1), 0. split; [apply Hpos|]; lia.
  - exists era, (c + 1), 0, 0. split; [apply Hpos|]; lia.
  - exists (era + 1), 0, 0, 0. split; [apply Hpos|]; lia.
Qed.

(** ** The algorithm *)

Lemma year_of_era c q r doy :
  0 <= c <= 3 → 0 <= q <= 24 → 0 <= r <= 3 → 0 <= doy <= 365 →
  (doy = 365 → r = 3 ∧ (q < 24 ∨ c = 3)) →
  let doe := 36524 * c + 1461 * q + 365 * r + doy in
  (doe - doe / 1460 + doe / 36524 - doe / 146096) / 365 = 100 * c + 4 * q + r.
Proof.
  intros Hc Hq Hr Hd Hl doe. set (end_ := if decide (c = 3 ∧ q = 24 ∧ r = 3 ∧ doy = 365) then 1 else 0).
  assert (E1 : doe / 1460 = 25 * c + q + (24 * c + q + 365 * r + doy) / 1460)
    by (subst doe; Z.to_euclidean_division_equations; lia).
  assert (E2 : doe / 36524 = c + end_)
    by (subst doe end_; case_decide; Z.to_euclidean_division_equations; lia).
  assert (E3 : doe / 146096 = end_)
    by (subst doe end_; case_decide; Z.to_euclidean_division_equations; lia).
  rewrite E1, E2, E3. set (k := (24 * c + q + 365 * r + doy) / 1460).
  assert (Hk : 0 <= k <= 1 ∧ (k = 1 → r = 3 ∧ 24 * c + q + doy >= 365) ∧ (doy = 365 → k = 1))
    by (subst k; Z.to_euclidean_division_equations; lia).
  symmetry. apply (Z.div_unique _ _ _ (doy - k)); [left|subst doe]; lia.
Qed.

Lemma civil_position days era c q r doy :
  position days era c q r doy →
  civil_date_from_days days = of_march (400 * era + 100 * c + 4 * q + r) doy.
Proof.
  intros Hp. pose proof (position_last _ _ _ _ _ _ Hp) as Hl. destruct Hp as [Hc Hq Hr Hd Hdays].
  assert (Hdoy : 0 <= doy <= 365) by lia. clear Hd.
  pose proof (year_of_era c q r doy Hc Hq Hr Hdoy ltac:(lia)) as Hy.
  set (doe := 36524 * c + 1461 * q + 365 * r + doy) in *.
  assert (Hdoe : 0 <= doe <= 146096) by (subst doe; lia).
  unfold civil_date_from_days.
  assert (Hera : (if 0 <=? days + 719468 then days + 719468 else days + 719468 - 146096) ÷ 146097 = era).
  { destruct (Z.leb_spec 0 (days + 719468)); Z.to_euclidean_division_equations; nia. }
  rewrite Hera. replace (days + 719468 - era * 146097) with doe by lia.
  rewrite !(Z.quot_div_nonneg doe) by lia.
  rewrite (Z.quot_div_nonneg _ 365) by (Z.to_euclidean_division_equations; lia).
  rewrite Hy. set (yoe := 100 * c + 4 * q + r).
  rewrite !(Z.quot_div_nonneg yoe) by lia.
  replace (doe - (365 * yoe + yoe / 4 - yoe / 100)) with doy
    by (subst doe yoe; Z.to_euclidean_division_equations; lia).
  rewrite (Z.quot_div_nonneg (5 * doy + 2)) by lia.
  rewrite Z.quot_div_nonneg by (Z.to_euclidean_division_equations; lia).
  unfold of_march, march. set (m := if _ <? 10 then _ else _).
  destruct (m <=? 2); same_date.
Qed.

(** C36: The calendar.  The date of day 0 is 1 January 1970, and the date of every other day,
    before or after, is the Gregorian date that follows the one of the day before it. *)
Theorem civil_calendar :
  civil_date_from_days 0 = (1970, 1, 1)
  ∧ ∀ days, civil_date_from_days (days + 1) = tomorrow (civil_date_from_days days).
Proof.
  split; [reflexivity|]. intros days.
  destruct (position_exists days) as (era & c & q & r & doy & Hp).
  rewrite (civil_position _ _ _ _ _ _ Hp), tomorrow_of_march by apply Hp.
  pose proof (position_next _ _ _ _ _ _ Hp) as Hn. cbn zeta in Hn.
  destruct (doy <? _); [by apply civil_position|].
  destruct Hn as (era' & c' & q' & r' & Hp' & <-). by apply civil_position.
Qed.
