(* ===== verification/Version.v ===== *)
(** * Version: snapshots of file manifests

    Models crates/vpn/src/storage/version.rs: [VersionManager] with its store,
    its counter and its JSON file.  The manager outside tests saves after
    every change ([save_if_dirty]); no lock is poisoned.  A call that waits for the
    lock of the dirty flag when a call that never returns has it does not return
    either ([None]); the manager stays, for other threads, as the call left it.  (Reading a lock that the
    thread itself has for writing is a deadlock with the locks of Linux; the standard library
    documents that it may also panic.)
    [now] is the clock in Unix seconds. *)
From S2P Require Import Prelude Text Json Disk JsonFile Identity Chunk Calendar.

Definition DEFAULT_VERSION_DB_PATH : string := "version_store.json".
Definition DEFAULT_MAX_VERSIONS : nat := 10.

Record VersionEntry := mkVersion {
  version_id : string; timestamp : string; unix_secs : Z; seq_no : Z;
  manifest : FileManifest; annotation : string }.
Record FileVersions := mkVersions { versioned_name : string; versions : list VersionEntry }.
Abbreviation VersionStore := (gmap string FileVersions).

Module FileVersions.
Definition new (name : string) : FileVersions := mkVersions name [].
Definition push (e : VersionEntry) (fv : FileVersions) : FileVersions :=
  mkVersions (versioned_name fv) (e :: versions fv).
Definition latest (fv : FileVersions) : option VersionEntry := head (versions fv).
Definition get (id : string) (fv : FileVersions) : option VersionEntry :=
  snd <$> list_find (λ v, version_id v = id) (versions fv).
(** The number pruned, and what is left. *)
Definition prune (max_versions : nat) (fv : FileVersions) : nat * FileVersions :=
  if (length (versions fv) <=? max_versions)%nat then (0%nat, fv)
  else ((length (versions fv) - max_versions)%nat,
        mkVersions (versioned_name fv) (take max_versions (versions fv))).
End FileVersions.

Module VersionStore.
Definition get_or_create (name : string) (s : VersionStore) : FileVersions :=
  default (FileVersions.new name) (s !! name).
Definition list_files (s : VersionStore) : list string := merge_sort String.le (map_to_list s).*1.
Definition total_versions (s : VersionStore) : nat :=
  map_fold (λ _ fv n, (length (versions fv) + n)%nat) 0%nat s.
Definition prune_all (max_versions : nat) (s : VersionStore) : nat * VersionStore :=
  (map_fold (λ _ fv n, ((FileVersions.prune max_versions fv).1 + n)%nat) 0%nat s,
   (λ fv, (FileVersions.prune max_versions fv).2) <$> s).
End VersionStore.

(** [dirty_held]: a call that never returns has the lock of [dirty]. *)
Record VersionManager := mkVersionManager {
  store : VersionStore; seq_counter : Z; db_path : string; dirty : bool; dirty_held : bool }.
(** What a call returns, if it does. *)
Abbreviation Call A := (option (result A string)).

Module VersionManager.
Section VersionManager.
Context `{JsonText VersionStore}.
Implicit Types m : VersionManager.

Definition new (path : string) : VersionManager := mkVersionManager ∅ 0 path false false.
Definition new_default : VersionManager := new DEFAULT_VERSION_DB_PATH.
Definition set_store (s : VersionStore) m : VersionManager :=
  mkVersionManager s (seq_counter m) (db_path m) (dirty m) (dirty_held m).
Definition set_dirty (v : bool) m : VersionManager :=
  mkVersionManager (store m) (seq_counter m) (db_path m) v (dirty_held m).
(** [self.dirty.write()], and the end of its guard. *)
Definition hold (v : bool) m : VersionManager :=
  mkVersionManager (store m) (seq_counter m) (db_path m) (dirty m) v.

Definition load_from_file (path : string) (d : Disk) : result VersionManager string :=
  match load_json ∅ path d with
  | Ok s => Ok (mkVersionManager s 0 path false false)
  | Err (ReadError e) => Err ("failed to read '" +:+ path +:+ "': " +:+ e)%string
  | Err (ParseError e) => Err ("failed to parse '" +:+ path +:+ "': " +:+ e)%string
  end.

(** The file is written before the lock is taken. *)
Definition save (d : Disk) m : Call unit * Disk * VersionManager :=
  match save_json (store m) (db_path m) d with
  | (Ok _, d) => if dirty_held m then (None, d, m) else (Some (Ok tt), d, set_dirty false m)
  | (Err (DirError e), d) => (Some (Err ("failed to create dir: " +:+ e)%string), d, m)
  | (Err (WriteError e), d) => (Some (Err ("failed to write '" +:+ db_path m +:+ "': " +:+ e)%string), d, m)
  end.
Definition save_if_dirty (d : Disk) m : option unit * Disk * VersionManager :=
  if dirty_held m then (None, d, m) else
  if dirty m then let '(r, d, m) := save d m in ((λ _, tt) <$> r, d, m) else (Some tt, d, m).
Definition flush (d : Disk) m : Call unit * Disk * VersionManager := save d m.

(** The flag is set in a block of its own, then the store saved. *)
Definition mark_and_save {A} (v : A) (d : Disk) m : Call A * Disk * VersionManager :=
  if dirty_held m then (None, d, m) else
  let '(r, d, m) := save_if_dirty d (set_dirty true m) in ((λ _, Ok v) <$> r, d, m).
(** The flag is set, and the store saved while the guard is alive. *)
Definition mark_holding_and_save {A} (v : A) (d : Disk) m : Call A * Disk * VersionManager :=
  if dirty_held m then (None, d, m) else
  match save_if_dirty d (set_dirty true (hold true m)) with
  | (None, d, m) => (None, d, m)
  | (Some _, d, m) => (Some (Ok v), d, hold false m)
  end.

Definition create_snapshot (now : Z) (name : string) (mf : FileManifest) (note : string)
    (d : Disk) m : Call string * Disk * VersionManager :=
  let ts := format_timestamp now in
  let seq := wrap 32 (seq_counter m) in
  let id := (ts +:+ "-" +:+ pad 4 seq)%string in
  let m := mkVersionManager (store m) (wrap 64 (seq_counter m + 1)) (db_path m) (dirty m) (dirty_held m) in
  let fv := VersionStore.get_or_create name (store m) in
  mark_and_save id d (set_store (<[name := FileVersions.push (mkVersion id ts now seq mf note) fv]> (store m)) m).

Definition list_versions (name : string) m : list VersionEntry :=
  match store m !! name with Some fv => versions fv | None => [] end.
Definition get_version (name id : string) m : option VersionEntry :=
  store m !! name ≫= FileVersions.get id.
Definition latest_version (name : string) m : option VersionEntry :=
  store m !! name ≫= FileVersions.latest.
Definition restore_version (name id : string) m : result FileManifest string :=
  ok_or (manifest <$> get_version name id m)
    ("version '" +:+ id +:+ "' not found for file '" +:+ name +:+ "'")%string.

Definition prune_versions (name : string) (max_versions : nat) (d : Disk) m
    : Call nat * Disk * VersionManager :=
  match store m !! name with
  | None => (Some (Err ("no versions found for '" +:+ name +:+ "'")%string), d, m)
  | Some fv =>
      let '(n, fv) := FileVersions.prune max_versions fv in
      let m := set_store (<[name := fv]> (store m)) m in
      if (0 <? n)%nat then mark_holding_and_save n d m else (Some (Ok n), d, m)
  end.
Definition prune_all_versions (max_versions : nat) (d : Disk) m
    : Call nat * Disk * VersionManager :=
  let '(n, s) := VersionStore.prune_all max_versions (store m) in
  let m := set_store s m in
  if (0 <? n)%nat then mark_holding_and_save n d m else (Some (Ok n), d, m).
Definition remove_file (name : string) (d : Disk) m : Call unit * Disk * VersionManager :=
  match store m !! name with
  | None => (Some (Err ("no versions found for '" +:+ name +:+ "'")%string), d, m)
  | Some _ => mark_and_save tt d (set_store (delete name (store m)) m)
  end.
Definition has_versions (name : string) m : bool :=
  match store m !! name with Some fv => negb (bool_decide (versions fv = [])) | None => false end.
Definition list_files m : list string := VersionStore.list_files (store m).
Definition total_versions m : nat := VersionStore.total_versions (store m).
End VersionManager.
End VersionManager.
Import VersionManager.

(** ** Operations and the histories they stand for *)

Inductive Op :=
| Snapshot (now : Z) (name : string) (mf : FileManifest) (note : string)
| PruneFile (name : string) (keep : nat)
| PruneAll (keep : nat)
| RemoveFile (name : string)
| Flush.
Definition is_snapshot (op : Op) : bool := match op with Snapshot _ _ _ _ => true | _ => false end.

(** The snapshots of each file that are kept, newest first. *)
Abbreviation History := (gmap string (list (Z * FileManifest * string))).
Definition spec_op (h : History) (op : Op) : History :=
  match op with
  | Snapshot now name mf note => <[name := (now, mf, note) :: default [] (h !! name)]> h
  | PruneFile name keep => alter (take keep) name h
  | PruneAll keep => take keep <$> h
  | RemoveFile name => delete name h
  | Flush => h
  end.
(** A pruning that has something to prune. *)
Definition removes (h : History) (op : Op) : bool :=
  match op with
  | PruneFile name keep => match h !! name with Some l => (keep <? length l)%nat | None => false end
  | PruneAll keep => bool_decide (¬ map_Forall (λ _ l, (length l ≤ keep)%nat) h)
  | _ => false
  end.
(** A history, and whether a call has got stuck. *)
Definition spec_step (hs : History * bool) (op : Op) : History * bool :=
  (spec_op hs.1 op, hs.2 || removes hs.1 op).
(** The calls that return, a flush apart: those that leave the history, and before one got stuck those that
    change it in another way than by pruning. *)
Definition spec_returns (hs : History * bool) (op : Op) : bool :=
  match op with
  | Snapshot _ _ _ _ => negb hs.2
  | RemoveFile name => bool_decide (hs.1 !! name = None) || negb hs.2
  | _ => negb (removes hs.1 op)
  end.
Definition content (v : VersionEntry) : Z * FileManifest * string :=
  (unix_secs v, manifest v, annotation v).
Definition history (m : VersionManager) : History := (λ fv, content <$> versions fv) <$> store m.

Section Operations.
Context `{JsonText VersionStore}.

Definition is_some {A} (o : option A) : bool := match o with Some _ => true | None => false end.
(** Whether the call returns, and what it leaves. *)
Definition call_op (op : Op) (d : Disk) (m : VersionManager) : bool * Disk * VersionManager :=
  match op with
  | Snapshot now name mf note => let '(r, d, m) := create_snapshot now name mf note d m in (is_some r, d, m)
  | PruneFile name keep => let '(r, d, m) := prune_versions name keep d m in (is_some r, d, m)
  | PruneAll keep => let '(r, d, m) := prune_all_versions keep d m in (is_some r, d, m)
  | RemoveFile name => let '(r, d, m) := remove_file name d m in (is_some r, d, m)
  | Flush => let '(r, d, m) := flush d m in (is_some r, d, m)
  end.
Definition apply_op (s : Disk * VersionManager) (op : Op) : Disk * VersionManager :=
  let '(_, d, m) := call_op op s.1 s.2 in (d, m).

(** The same manager but for the flag of [dirty]. *)
Definition same_store (m m' : VersionManager) : Prop :=
  store m' = store m ∧ seq_counter m' = seq_counter m ∧ db_path m' = db_path m.
Lemma save_same d m : same_store m (save d m).2 ∧ dirty_held (save d m).2 = dirty_held m.
Proof. unfold save. destruct (save_json _ _ _) as [[|[]] ?]; [by case_match|done..]. Qed.
Lemma save_if_dirty_returns d m : dirty_held m = false →
  ∃ d' m', save_if_dirty d m = (Some tt, d', m') ∧ same_store m m' ∧ dirty_held m' = false.
Proof.
  intros Hh. unfold save_if_dirty. rewrite Hh. destruct (dirty m); [|by eexists _, _].
  pose proof (save_same d m) as [Hs Hd]. unfold save in *. rewrite Hh in *.
  destruct (save_json _ _ _) as [[|[]] ?]; by eexists _, _.
Qed.
Lemma mark_and_save_spec {A} (v : A) d m :
  ∃ d' m', mark_and_save v d m = (if dirty_held m then None else Some (Ok v), d', m')
    ∧ same_store m m' ∧ dirty_held m' = dirty_held m.
Proof.
  unfold mark_and_save. destruct (dirty_held m) eqn:Hh; [by eexists _, _|].
  destruct (save_if_dirty_returns d (set_dirty true m) Hh) as (d' & m' & -> & ? & ?). by eexists _, _.
Qed.
(** The guard that the call itself has makes it wait for ever. *)
Lemma mark_holding_spec {A} (v : A) d m :
  ∃ m', mark_holding_and_save v d m = (None, d, m') ∧ same_store m m' ∧ dirty_held m' = true.
Proof. unfold mark_holding_and_save. destruct (dirty_held m) eqn:Hh; by eexists. Qed.

(** Pruning keeps the newest. *)
Lemma prune_versions_take k fv : versions (FileVersions.prune k fv).2 = take k (versions fv).
Proof.
  unfold FileVersions.prune. destruct (Nat.leb_spec (length (versions fv)) k); [|done].
  by rewrite take_ge.
Qed.
Lemma prune_none k fv : (FileVersions.prune k fv).1 = 0%nat → take k (versions fv) = versions fv.
Proof.
  unfold FileVersions.prune. destruct (Nat.leb_spec (length (versions fv)) k); cbn; intros ?;
    apply take_ge; lia.
Qed.
Lemma prune_count k fv : (0 <? (FileVersions.prune k fv).1)%nat = (k <? length (versions fv))%nat.
Proof.
  unfold FileVersions.prune. destruct (Nat.leb_spec (length (versions fv)) k); cbn [fst].
  - by rewrite (proj2 (Nat.ltb_ge k _)).
  - by rewrite !(proj2 (Nat.ltb_lt _ _)) by lia.
Qed.
Lemma prune_all_count k (s : VersionStore) :
  (VersionStore.prune_all k s).1 = 0%nat ↔ map_Forall (λ _ fv, (length (versions fv) ≤ k)%nat) s.
Proof.
  unfold VersionStore.prune_all. cbn [fst].
  induction s as [|name fv s Hname Hfold IH] using map_first_key_ind; [done|].
  rewrite map_fold_insert_first_key, map_Forall_insert by done. pose proof (prune_count k fv) as Hc.
  destruct (Nat.ltb_spec 0 (FileVersions.prune k fv).1) as [|Hz], (Nat.ltb_spec k (length (versions fv))); try done.
  - split; [lia|]. intros [? _]. lia.
  - rewrite <-IH. split; [intros; split; lia|intros [_ E]; rewrite E; lia].
Qed.

(** The store after an operation, whatever becomes of the file. *)
Definition store_op (now_id : string) (op : Op) (s : VersionStore) (n : Z) : VersionStore :=
  match op with
  | Snapshot now name mf note =>
      <[name := FileVersions.push (mkVersion now_id (format_timestamp now) now n mf note)
                  (VersionStore.get_or_create name s)]> s
  | PruneFile name keep => alter (λ fv, (FileVersions.prune keep fv).2) name s
  | PruneAll keep => (λ fv, (FileVersions.prune keep fv).2) <$> s
  | RemoveFile name => delete name s
  | Flush => s
  end.
Definition id_of (op : Op) (n : Z) : string :=
  match op with Snapshot now _ _ _ => format_timestamp now +:+ "-" +:+ pad 4 n | _ => "" end.

Lemma prune_id k fv : (FileVersions.prune k fv).1 = 0%nat → (FileVersions.prune k fv).2 = fv.
Proof.
  unfold FileVersions.prune. destruct (Nat.leb_spec (length (versions fv)) k); cbn; [done|lia].
Qed.

Lemma prune_all_id k (s : VersionStore) :
  map_Forall (λ _ fv, (length (versions fv) ≤ k)%nat) s → VersionStore.prune_all k s = (0%nat, s).
Proof.
  intros Hk. pose proof (proj2 (prune_all_count k s) Hk) as Hz.
  rewrite (surjective_pairing (VersionStore.prune_all k s)), Hz. f_equal. cbn.
  rewrite <-(map_fmap_id s) at 2. apply map_fmap_ext. intros name fv Hfv. apply prune_id.
  unfold FileVersions.prune. by rewrite (proj2 (Nat.leb_le _ _)) by (by apply (Hk name fv)).
Qed.
Definition hist (s : VersionStore) : History := (λ fv, content <$> versions fv) <$> s.

Lemma removes_file name k (s : VersionStore) fv :
  s !! name = Some fv → removes (hist s) (PruneFile name k) = (0 <? (FileVersions.prune k fv).1)%nat.
Proof. intros E. rewrite prune_count. cbn [removes]. unfold hist. rewrite lookup_fmap, E. cbn -[Nat.ltb]. by rewrite length_fmap. Qed.
Lemma removes_all k (s : VersionStore) :
  removes (hist s) (PruneAll k) = (0 <? (VersionStore.prune_all k s).1)%nat.
Proof.
  cbn [removes]. pose proof (prune_all_count k s) as Hc.
  assert (Hf : map_Forall (λ _ l, (length l ≤ k)%nat) (hist s) ↔ (VersionStore.prune_all k s).1 = 0%nat).
  { rewrite Hc. unfold hist. rewrite map_Forall_fmap. unfold compose.
    split; intros Hall i x Hx; specialize (Hall i x Hx); cbn in *; by rewrite length_fmap in *. }
  destruct (Nat.ltb_spec 0 (VersionStore.prune_all k s).1) as [Hn|Hn];
    [apply bool_decide_true|apply bool_decide_false]; rewrite Hf; lia.
Qed.

(** What a call does: to the store, to the counter and to the lock; and whether it returns. *)
Definition op_spec (op : Op) (m : VersionManager) (r : bool * Disk * VersionManager) : Prop :=
  let n := wrap 32 (seq_counter m) in
  store r.2 = store_op (id_of op n) op (store m) n
  ∧ seq_counter r.2 = (if is_snapshot op then wrap 64 (seq_counter m + 1) else seq_counter m)
  ∧ dirty_held r.2 = dirty_held m || removes (hist (store m)) op
  ∧ (op ≠ Flush → r.1.1 = spec_returns (hist (store m), dirty_held m) op).

Lemma create_op now name mf note d m : op_spec (Snapshot now name mf note) m (call_op (Snapshot now name mf note) d m).
Proof.
  cbn [call_op]. unfold create_snapshot.
  match goal with |- context [mark_and_save ?v d ?m'] =>
    destruct (mark_and_save_spec v d m') as (d' & m1 & -> & (Es & Ec & _) & Eh) end.
  unfold op_spec. cbn [snd fst]. rewrite Es, Ec, Eh. cbn [set_store store seq_counter dirty_held is_snapshot removes spec_returns snd].
  split_and!; [done|done|by rewrite orb_false_r|]. intros _. by destruct (dirty_held m).
Qed.
Lemma prune_op name k d m : op_spec (PruneFile name k) m (call_op (PruneFile name k) d m).
Proof.
  cbn [call_op]. unfold prune_versions. destruct (store m !! name) as [fv|] eqn:E.
  2:{ unfold op_spec. cbn. assert (hist (store m) !! name = None) as -> by (unfold hist; by rewrite lookup_fmap, E).
      split_and!; [|done|by rewrite orb_false_r|done]. by rewrite alter_id' by done. }
  pose proof (removes_file name k (store m) fv E) as Hr.
  destruct (FileVersions.prune k fv) as [n fv'] eqn:Ep. cbn [fst] in Hr.
  assert (Hs : <[name := fv']> (store m) = alter (λ fv, (FileVersions.prune k fv).2) name (store m)).
  { apply map_eq. intros i. rewrite lookup_alter, lookup_insert. case_decide; [subst i; by rewrite E; cbn; rewrite Ep|done]. }
  unfold op_spec. cbn [spec_returns is_snapshot store_op fst]. rewrite Hr. destruct (0 <? n)%nat.
  - match goal with |- context [mark_holding_and_save ?v d ?m'] =>
      destruct (mark_holding_spec v d m') as (m1 & -> & (Es & Ec & _) & Eh) end.
    cbn [snd fst]. rewrite Es, Ec, Eh. cbn [set_store store seq_counter].
    split_and!; [done|done|by rewrite orb_true_r|done].
  - cbn. split_and!; [done|done|by rewrite orb_false_r|done].
Qed.
Lemma prune_all_op k d m : op_spec (PruneAll k) m (call_op (PruneAll k) d m).
Proof.
  cbn [call_op]. unfold prune_all_versions. pose proof (removes_all k (store m)) as Hr.
  destruct (VersionStore.prune_all k (store m)) as [n s] eqn:Ep. cbn [fst] in Hr.
  assert (s = (λ fv, (FileVersions.prune k fv).2) <$> store m) as -> by by injection Ep as _ <-.
  unfold op_spec. cbn [spec_returns is_snapshot store_op fst]. rewrite Hr. destruct (0 <? n)%nat.
  - match goal with |- context [mark_holding_and_save ?v d ?m'] =>
      destruct (mark_holding_spec v d m') as (m1 & -> & (Es & Ec & _) & Eh) end.
    cbn [snd fst]. rewrite Es, Ec, Eh. cbn [set_store store seq_counter].
    split_and!; [done|done|by rewrite orb_true_r|done].
  - cbn. split_and!; [done|done|by rewrite orb_false_r|done].
Qed.
Lemma remove_op name d m : op_spec (RemoveFile name) m (call_op (RemoveFile name) d m).
Proof.
  cbn [call_op]. unfold remove_file.
  assert (Hn : bool_decide (hist (store m) !! name = None) = bool_decide (store m !! name = None)).
  { apply bool_decide_ext. unfold hist. rewrite lookup_fmap. by destruct (store m !! name). }
  unfold op_spec. cbn [spec_returns is_snapshot store_op fst removes snd]. rewrite Hn.
  destruct (store m !! name) as [fv|] eqn:E.
  - match goal with |- context [mark_and_save ?v d ?m'] =>
      destruct (mark_and_save_spec v d m') as (d' & m1 & -> & (Es & Ec & _) & Eh) end.
    cbn [snd fst]. rewrite Es, Ec, Eh. cbn [set_store store seq_counter dirty_held].
    split_and!; [done|done|by rewrite orb_false_r|]. intros _. by destruct (dirty_held m).
  - cbn. split_and!; [|done|by rewrite orb_false_r|done]. by rewrite delete_id.
Qed.
Lemma call_op_spec op d m : op_spec op m (call_op op d m).
Proof.
  destruct op as [now name mf note|name k|k|name|].
  - apply create_op.
  - apply prune_op.
  - apply prune_all_op.
  - apply remove_op.
  - cbn [call_op]. unfold flush. pose proof (save_same d m) as [(Es & Ec & _) Eh].
    destruct (save d m) as [[]]. unfold op_spec. cbn [snd] in *. rewrite Es, Ec, Eh.
    by split_and!; try rewrite orb_false_r.
Qed.
Lemma apply_op_store op d m :
  let n := wrap 32 (seq_counter m) in
  store (apply_op (d, m) op).2 = store_op (id_of op n) op (store m) n
  ∧ seq_counter (apply_op (d, m) op).2
    = (if is_snapshot op then wrap 64 (seq_counter m + 1) else seq_counter m)
  ∧ dirty_held (apply_op (d, m) op).2 = dirty_held m || removes (hist (store m)) op.
Proof.
  pose proof (call_op_spec op d m) as (Hs & Hc & Hh & _). unfold apply_op. cbn [fst snd].
  by destruct (call_op op d m) as [[] m'].
Qed.
End Operations.

(** ** Histories and identifiers *)

Definition numbered (n : Z) (s : VersionStore) : Prop := ∀ name fv, s !! name = Some fv →
  StronglySorted (λ a b, seq_no b < seq_no a) (versions fv)
  ∧ Forall (λ v, 0 <= seq_no v < n ∧ ∃ ts, version_id v = ts +:+ "-" +:+ pad 4 (seq_no v))%string
      (versions fv).

Lemma StronglySorted_take {A} (R : A → A → Prop) k l :
  StronglySorted R l → StronglySorted R (take k l).
Proof.
  revert k. induction l as [|x l IH]; intros [|k] Hl; cbn; try constructor.
  - apply IH. by inversion Hl.
  - apply Forall_take. by inversion Hl.
Qed.

Lemma store_op_hist id op s n : hist (store_op id op s n) = spec_op (hist s) op.
Proof.
  unfold hist. destruct op as [now name mf note|name k|k|name|]; cbn [store_op spec_op].
  - rewrite fmap_insert. f_equal. rewrite lookup_fmap. unfold VersionStore.get_or_create.
    by destruct (s !! name).
  - apply map_eq. intros i. rewrite lookup_fmap, !lookup_alter, !lookup_fmap. case_decide; [subst i|done].
    destruct (s !! name) as [fv|]; [|done].
    change (Some (content <$> versions (FileVersions.prune k fv).2)
      = Some (take k (content <$> versions fv))). by rewrite prune_versions_take, fmap_take.
  - rewrite <-!map_fmap_compose. apply map_fmap_ext. intros i fv _. unfold compose.
    by rewrite prune_versions_take, fmap_take.
  - by rewrite fmap_delete.
  - done.
Qed.
Lemma numbered_take n s k name fv :
  numbered n s → s !! name = Some fv →
  StronglySorted (λ a b, seq_no b < seq_no a) (versions (FileVersions.prune k fv).2)
  ∧ Forall (λ v, 0 <= seq_no v < n ∧ ∃ ts, version_id v = ts +:+ "-" +:+ pad 4 (seq_no v))%string
      (versions (FileVersions.prune k fv).2).
Proof.
  intros Hs E. destruct (Hs _ _ E) as [Hl Hf]. rewrite prune_versions_take.
  split; [by apply StronglySorted_take|by apply Forall_take].
Qed.

Lemma store_op_numbered op s n :
  0 <= n → numbered n s →
  numbered (if is_snapshot op then n + 1 else n) (store_op (id_of op n) op s n).
Proof.
  intros Hn Hs. destruct op as [now name mf note|name k|k|name|]; cbn [store_op is_snapshot id_of].
  - intros name' fv. rewrite lookup_insert. case_decide as E.
    + intros [= <-]. unfold VersionStore.get_or_create. subst name'.
      assert (Hold : ∀ fv, default (FileVersions.new name) (s !! name) = fv →
        StronglySorted (λ a b, seq_no b < seq_no a) (versions fv)
        ∧ Forall (λ v, 0 <= seq_no v < n
            ∧ ∃ ts, version_id v = ts +:+ "-" +:+ pad 4 (seq_no v))%string (versions fv)).
      { intros fv <-. destruct (s !! name) as [fv|] eqn:E; [by eapply Hs|]. split; constructor. }
      destruct (Hold _ eq_refl) as [Hl Hf]. unfold FileVersions.push. cbn [versions]. split.
      * constructor; [done|]. eapply Forall_impl; [exact Hf|]. cbn. intros v [? _]. lia.
      * constructor; [split; [cbn; lia|by eexists]|].
        eapply Forall_impl; [exact Hf|]. cbn. intros v [? ?]. split; [lia|done].
    + intros Hfv. destruct (Hs _ _ Hfv) as [Hl Hf]. split; [done|].
      eapply Forall_impl; [exact Hf|]. cbn. intros v [? ?]. split; [lia|done].
  - intros name' fv. rewrite lookup_alter. case_decide; [|apply Hs].
    intros (fv' & E & ->)%fmap_Some. by eapply numbered_take.
  - intros name' fv. rewrite lookup_fmap. intros (fv' & E & ->)%fmap_Some.
    by eapply numbered_take.
  - intros name' fv [_ E]%lookup_delete_Some. by eapply Hs.
  - exact Hs.
Qed.

Lemma numbered_get n s name fv v :
  n <= 2 ^ 32 → numbered n s → s !! name = Some fv → v ∈ versions fv →
  FileVersions.get (version_id v) fv = Some v.
Proof.
  intros Hn Hs Hfv Hv. destruct (Hs _ _ Hfv) as [Hl Hf]. unfold FileVersions.get.
  induction (versions fv) as [|w l IH]; [by apply not_elem_of_nil in Hv|].
  apply StronglySorted_inv in Hl as [Hl Hw]. apply Forall_cons in Hf as [(Hr & ts & Hts) Hf].
  cbn [list_find]. destruct (decide (version_id w = version_id v)) as [E|E].
  - cbn. apply elem_of_cons in Hv as [->|Hv]; [done|]. exfalso.
    rewrite Forall_forall in Hw, Hf. specialize (Hw _ Hv). destruct (Hf _ Hv) as (Hr' & ts' & Hts').
    rewrite Hts, Hts' in E. cbn in E. apply last_part_inj in E;
      [|by apply free_of_pad; [done..|lia]|by apply free_of_pad; [done..|lia]].
    apply (pad_inj _ 32) in E; unfold fits; lia.
  - apply elem_of_cons in Hv as [->|Hv]; [done|]. specialize (IH Hv Hl Hf).
    destruct (list_find _ l) as [[i x]|]; [|done]. exact IH.
Qed.

Section Properties.
Context `{JsonText VersionStore}.

Definition snapshots (ops : list Op) : Z := len (filter (λ op, is_snapshot op = true) ops).

Lemma run_ops ops d m :
  0 <= seq_counter m → seq_counter m + snapshots ops < 2 ^ 32 → numbered (seq_counter m) (store m) →
  let m' := (foldl apply_op (d, m) ops).2 in
  (hist (store m'), dirty_held m') = foldl spec_step (hist (store m), dirty_held m) ops
  ∧ numbered (seq_counter m') (store m') ∧ seq_counter m' = seq_counter m + snapshots ops.
Proof.
  revert d m. induction ops as [|op ops IH]; intros d m Hn Hlt Hs; cbn [foldl].
  { unfold snapshots. cbn. split_and!; [done..|lia]. }
  assert (Hc : snapshots (op :: ops) = (if is_snapshot op then 1 else 0) + snapshots ops).
  { unfold snapshots. rewrite filter_cons. destruct (is_snapshot op);
      [rewrite decide_True by done; cbn [length]; lia|by rewrite decide_False by done]. }
  assert (0 <= snapshots ops) by (unfold snapshots; lia). rewrite Hc in *.
  assert (seq_counter m < 2 ^ 32) by (destruct (is_snapshot op); lia).
  destruct (apply_op_store op d m) as (Hst & Hct & Hh). destruct (apply_op (d, m) op) as [d1 m1].
  cbn [snd] in *. rewrite wrap_id in Hst by (unfold fits; lia).
  assert (Hct' : seq_counter m1 = seq_counter m + if is_snapshot op then 1 else 0).
  { rewrite Hct. destruct (is_snapshot op); [rewrite wrap_id by (unfold fits; lia)|]; lia. }
  destruct (IH d1 m1) as (Hi & Hnum & Hseq); [destruct (is_snapshot op); lia..| |].
  - rewrite Hst, Hct'. pose proof (store_op_numbered op _ _ Hn Hs) as Hs'.
    destruct (is_snapshot op); [done|by rewrite Z.add_0_r].
  - split_and!; [|done|destruct (is_snapshot op); lia]. by rewrite Hi, Hst, Hh, store_op_hist.
Qed.

(** C10: Version histories.  A manager implements the map from files to snapshots, newest
    first: whatever sequence of snapshots, prunings, removals and flushes is called on a new manager,
    by whatever threads one after the other, and whether or not its file can be written, the versions of
    every file are those of the abstract history, and each listed version is restored, by its
    identifier, to exactly the manifest it was taken of (up to 2^32 snapshots, where the sequence
    number wraps).  But a pruning that removes a version never returns - it waits for the lock that it holds
    itself - and after one every call that changes the history leaves its change in memory and
    never returns either; every other call but a flush returns. *)
Theorem version_history path d ops :
  snapshots ops < 2 ^ 32 →
  let '(d', m) := foldl apply_op (d, new path) ops in
  let hs := foldl spec_step (∅, false) ops in
  history m = hs.1
  ∧ (∀ name v, v ∈ list_versions name m → restore_version name (version_id v) m = Ok (manifest v))
  ∧ (∀ op, op ≠ Flush → (call_op op d' m).1.1 = spec_returns hs op).
Proof.
  intros Hlt. destruct (run_ops ops d (new path)) as (Hh & Hnum & Hseq); [cbn; lia|cbn; lia| |].
  { intros name fv E. cbn in E. by rewrite lookup_empty in E. }
  destruct (foldl apply_op (d, new path) ops) as [d' m]. cbn [snd] in *. cbv zeta.
  assert (Hi : (hist (store m), dirty_held m) = foldl spec_step (∅, false) ops)
    by (rewrite Hh; cbn [store new dirty_held]; unfold hist; by rewrite fmap_empty).
  rewrite <-Hi. split_and!.
  - done.
  - intros name v Hv. unfold list_versions in Hv. unfold restore_version, get_version.
    destruct (store m !! name) as [fv|] eqn:E; [|by apply not_elem_of_nil in Hv].
    cbn [mbind option_bind]. cbn [seq_counter new] in Hseq.
    assert (Hle : seq_counter m <= 2 ^ 32) by lia.
    by rewrite (numbered_get _ _ _ _ _ Hle Hnum E Hv).
  - intros op Hop. by apply call_op_spec.
Qed.

(** Saving after a change of a manager whose file can be written. *)
Lemma mark_writable {A} (v : A) d m :
  dirty_held m = false → dir_fault d (db_path m) = None → write_fault d (db_path m) = None →
  ∃ d', mark_and_save v d m = (Some (Ok v), d', set_dirty false m)
    ∧ stored (store m) (db_path m) d'
    ∧ dir_fault d' (db_path m) = None ∧ write_fault d' (db_path m) = None.
Proof.
  intros Hm Hd Hw. destruct (JsonFile.save_writable (store m) (db_path m) d Hd Hw) as (d' & E & ? & ? & _).
  exists d'. unfold mark_and_save, save_if_dirty, save. cbn [set_dirty dirty dirty_held store db_path].
  rewrite Hm, E. split_and!; try done. by eapply save_stored.
Qed.

(** The store after a snapshot. *)
Definition with_snapshot (now : Z) (name : string) (mf : FileManifest) (note : string)
    (m : VersionManager) : VersionStore :=
  let n := wrap 32 (seq_counter m) in
  let op := Snapshot now name mf note in store_op (id_of op n) op (store m) n.
Lemma create_writable now name mf note d m :
  dirty_held m = false → dir_fault d (db_path m) = None → write_fault d (db_path m) = None →
  ∃ d', create_snapshot now name mf note d m
      = (Some (Ok (id_of (Snapshot now name mf note) (wrap 32 (seq_counter m)))), d',
         mkVersionManager (with_snapshot now name mf note m) (wrap 64 (seq_counter m + 1))
           (db_path m) false false)
    ∧ stored (with_snapshot now name mf note m) (db_path m) d'
    ∧ dir_fault d' (db_path m) = None ∧ write_fault d' (db_path m) = None.
Proof.
  intros Hm Hd Hw. unfold create_snapshot.
  match goal with |- context [mark_and_save ?v d ?m'] =>
    destruct (mark_writable v d m' Hm Hd Hw) as (d' & E & Hs) end.
  exists d'. rewrite E. unfold set_dirty. cbn. by rewrite Hm.
Qed.

(** Nothing of a pruning that removes a version reaches the file. *)
Lemma prune_all_stuck k d m :
  ¬ map_Forall (λ _ fv, (length (versions fv) ≤ k)%nat) (store m) →
  ∃ m', prune_all_versions k d m = (None, d, m').
Proof.
  intros Hk. unfold prune_all_versions. pose proof (prune_all_count k (store m)) as Hc.
  destruct (VersionStore.prune_all k (store m)) as [n s]. cbn [fst] in Hc.
  destruct (Nat.ltb_spec 0 n); [|by destruct Hk; apply Hc; lia].
  destruct (mark_holding_spec n d (set_store s m)) as (m' & -> & _). by exists m'.
Qed.

(** Version identifiers repeat after a restart.  The sequence number is not saved: two
    processes that each load the store and take a snapshot of a file within the same second
    give both snapshots the same identifier; both are listed, but the identifier restores the
    later one, and the earlier snapshot cannot be restored. *)
Theorem restart_repeats_id `{!JsonTextOk VersionStore} path d now name mf1 note1 mf2 note2 m1 :
  dir_fault d path = None → write_fault d path = None → load_from_file path d = Ok m1 →
  ∃ id d1 m1' m2 d2 m2',
    create_snapshot now name mf1 note1 d m1 = (Some (Ok id), d1, m1')
    ∧ load_from_file path d1 = Ok m2
    ∧ create_snapshot now name mf2 note2 d1 m2 = (Some (Ok id), d2, m2')
    ∧ (λ v, (version_id v, manifest v)) <$> list_versions name m2'
      = (id, mf2) :: (id, mf1) :: ((λ v, (version_id v, manifest v)) <$> list_versions name m1)
    ∧ restore_version name id m2' = Ok mf2.
Proof.
  intros Hd Hw Hl.
  assert (Hm1 : seq_counter m1 = 0 ∧ db_path m1 = path ∧ dirty_held m1 = false).
  { unfold load_from_file in Hl. destruct (load_json _ _ _) as [s|[]]; [by injection Hl as <-|done..]. }
  destruct m1 as [s c p dty hld]. cbn in Hm1. destruct Hm1 as (-> & -> & ->).
  destruct (create_writable now name mf1 note1 d (mkVersionManager s 0 path dty false) eq_refl Hd Hw)
    as (d1 & E1 & Hst & Hd1 & Hw1).
  destruct (create_writable now name mf2 note2 d1 (mkVersionManager
    (with_snapshot now name mf1 note1 (mkVersionManager s 0 path dty false)) 0 path false false) eq_refl Hd1 Hw1)
    as (d2 & E2 & _).
  eexists _, d1, _, _, d2, _. split; [exact E1|].
  split. { unfold load_from_file. by rewrite (load_stored _ _ _ _ Hst). }
  split; [exact E2|]. unfold with_snapshot.
  unfold list_versions, restore_version, get_version.
  cbn [store seq_counter store_op id_of]. unfold VersionStore.get_or_create.
  rewrite !lookup_insert_eq. cbn [default mbind option_bind versions FileVersions.push fmap list_fmap].
  split; [by destruct (s !! name)|]. unfold FileVersions.get. cbn [versions FileVersions.push list_find].
  by rewrite decide_True.
Qed.
End Properties.

(** ** Witnesses *)

#[export] Instance VersionEntry_eq_dec : EqDecision VersionEntry.
Proof. solve_decision. Defined.
#[export] Instance VersionEntry_countable : Countable VersionEntry.
Proof.
  refine (inj_countable' (λ v, (version_id v, timestamp v, unix_secs v, seq_no v, manifest v, annotation v))
    (λ '(i, t, u, n, mf, a), mkVersion i t u n mf a) _). by intros [].
Defined.
#[export] Instance FileVersions_eq_dec : EqDecision FileVersions.
Proof. solve_decision. Defined.
#[export] Instance FileVersions_countable : Countable FileVersions.
Proof.
  refine (inj_countable' (λ fv, (versioned_name fv, versions fv)) (λ '(n, l), mkVersions n l) _).
  by intros [].
Defined.
#[export] Instance version_text : JsonText VersionStore := bits_text VersionStore.
#[export] Instance version_text_ok : JsonTextOk VersionStore := bits_text_ok VersionStore.

Definition manifest_of_size (n : Z) : FileManifest := mkManifest zero32 n [] 4096.
Definition day_ops : list Op :=
  [Snapshot 0 "a" (manifest_of_size 1) "x"; Snapshot 1 "b" (manifest_of_size 2) "";
   Snapshot 86400 "a" (manifest_of_size 3) "y"; PruneFile "a" 1; RemoveFile "b"].

(** The last call, after the pruning, has removed the file and does not return. *)
Lemma version_history_witness :
  snapshots day_ops < 2 ^ 32
  ∧ let '(d, m) := foldl apply_op (empty_disk, new "db") day_ops in
    history m = {[ "a"%string := [(86400, manifest_of_size 3, "y"%string)] ]}
    ∧ (call_op (Snapshot 86401 "a" (manifest_of_size 4) "") d m).1.1 = false.
Proof.
  assert (Hn : snapshots day_ops < 2 ^ 32) by (vm_compute; reflexivity).
  split; [exact Hn|]. pose proof (version_history "db" empty_disk day_ops Hn) as Hv.
  destruct (foldl apply_op (empty_disk, new "db") day_ops) as [d m]. destruct Hv as (Hh & _ & Hr). split.
  - rewrite Hh. vm_compute. reflexivity.
  - rewrite Hr by discriminate. vm_compute. reflexivity.
Defined.

Lemma restart_repeats_id_witness :
  ∃ d1 d2 m2 m2',
    create_snapshot 86400 "a" (manifest_of_size 2) "" d1 m2
      = (Some (Ok "19700102000000-0000"%string), d2, m2')
    ∧ (version_id <$> list_versions "a" m2') = ["19700102000000-0000"; "19700102000000-0000"]%string.
Proof.
  destruct (restart_repeats_id "db" empty_disk 86400 "a" (manifest_of_size 1) "" (manifest_of_size 2) ""
    (new "db") eq_refl eq_refl eq_refl) as (id & d1 & m1' & m2 & d2 & m2' & E1 & _ & E2 & Hl & _).
  exists d1, d2, m2, m2'.
  assert (id = "19700102000000-0000"%string) as ->.
  { apply (f_equal (λ x, x.1.1)) in E1. vm_compute in E1. injection E1 as <-. reflexivity. }
  split; [exact E2|].
  apply (f_equal (fmap fst)) in Hl. rewrite <-list_fmap_compose in Hl. exact Hl.
Defined.
