(* ===== verification/Metadata.v ===== *)
(** * Metadata: the catalogue of backed-up files

    Models crates/vpn/src/storage/metadata.rs: [MetadataStore], its JSON file
    and the merging of remote catalogues.  [now] is the clock in Unix seconds;
    the hash of the standard library that breaks ties between entries is the
    class [EntryHash]; no lock is poisoned.  The order in which a HashMap is
    listed is that of [map_to_list]. *)
From S2P Require Import Prelude Text Json Disk JsonFile Identity Chunk.

Definition DEFAULT_METADATA_PATH : string := "metadata_store.json".
Definition CONFLICT_WINDOW_SECS : Z := 5.

Record BlockLocation := mkBlock {
  block_hash : Hash; block_index : Z; block_nodes : list string; block_synced : Z }.
Record FileMetadata := mkMetadata {
  meta_name : string; meta_file_hash : Hash; meta_file_size : Z; blocks : list BlockLocation;
  created_at : Z; updated_at : Z; source_node : string; encrypted : bool }.
Record MetadataEntry := mkMetaEntry { meta : FileMetadata; entry_manifest : option FileManifest }.

Inductive MetadataError :=
| AlreadyExists (name : string)
| NotFound (name : string)
| IoError (e : string)
| SerializeError (msg : string)
| LockPoisoned.
Definition MetadataError_display (e : MetadataError) : string :=
  match e with
  | AlreadyExists name => "metadata for '" +:+ name +:+ "' already exists"
  | NotFound name => "metadata for '" +:+ name +:+ "' not found"
  | IoError e => "io error: " +:+ e
  | SerializeError msg => "serialize error: " +:+ msg
  | LockPoisoned => "lock poisoned"
  end.

Class EntryHash := entry_hash : string → Hash → Z.
Definition hash_entry `{EntryHash} (e : MetadataEntry) : Z :=
  entry_hash (meta_name (meta e)) (meta_file_hash (meta e)).

Abbreviation Entries := (gmap string MetadataEntry).
Record MetadataStore := mkStore { entries : Entries; meta_path : string; meta_dirty : bool }.

(** The entry with other blocks, another time of change, the encryption mark. *)
Definition set_blocks (bs : list BlockLocation) (e : MetadataEntry) : MetadataEntry :=
  let m := meta e in
  mkMetaEntry (mkMetadata (meta_name m) (meta_file_hash m) (meta_file_size m) bs (created_at m)
                 (updated_at m) (source_node m) (encrypted m)) (entry_manifest e).
Definition set_updated (now : Z) (e : MetadataEntry) : MetadataEntry :=
  let m := meta e in
  mkMetaEntry (mkMetadata (meta_name m) (meta_file_hash m) (meta_file_size m) (blocks m)
                 (created_at m) now (source_node m) (encrypted m)) (entry_manifest e).
Definition set_encrypted (e : MetadataEntry) : MetadataEntry :=
  let m := meta e in
  mkMetaEntry (mkMetadata (meta_name m) (meta_file_hash m) (meta_file_size m) (blocks m)
                 (created_at m) (updated_at m) (source_node m) true) (entry_manifest e).

Definition push_node (nodes : list string) (node : string) : list string :=
  if decide (node ∈ nodes) then nodes else nodes ++ [node].
(** [iter_mut().find(|b| b.index == i)], updated when it is there. *)
Fixpoint update_block (f : BlockLocation → BlockLocation) (i : Z) (bs : list BlockLocation)
    : option (list BlockLocation) :=
  match bs with
  | [] => None
  | b :: bs =>
      if block_index b =? i then Some (f b :: bs) else (b ::.) <$> update_block f i bs
  end.
Definition add_nodes (now : Z) (nodes : list string) (b : BlockLocation) : BlockLocation :=
  mkBlock (block_hash b) (block_index b) (foldl push_node (block_nodes b) nodes) now.

Module MetadataStore.
Section MetadataStore.
Context `{EntryHash} `{JsonText Entries}.
Implicit Types s : MetadataStore.

Definition new (path : string) : MetadataStore := mkStore ∅ path false.
Definition new_default : MetadataStore := new DEFAULT_METADATA_PATH.
Definition load_from_file (path : string) (d : Disk) : result MetadataStore MetadataError :=
  match load_json ∅ path d with
  | Ok es => Ok (mkStore es path false)
  | Err (ReadError e) => Err (IoError e)
  | Err (ParseError e) => Err (SerializeError e)
  end.

Definition save_to_file (d : Disk) s : result unit MetadataError * Disk * MetadataStore :=
  match save_json (entries s) (meta_path s) d with
  | (Ok _, d) => (Ok tt, d, mkStore (entries s) (meta_path s) false)
  | (Err (DirError e), d) => (Err (IoError e), d, s)
  | (Err (WriteError e), d) => (Err (IoError e), d, s)
  end.
(** A failure is only logged. *)
Definition save_if_dirty (d : Disk) s : Disk * MetadataStore :=
  if meta_dirty s then let '(_, d, s) := save_to_file d s in (d, s) else (d, s).
(** The end of every change: mark, save. *)
Definition changed (es : Entries) (d : Disk) s : Disk * MetadataStore :=
  save_if_dirty d (mkStore es (meta_path s) true).

Definition fresh_entry (now : Z) (name : string) (hash : Hash) (size : Z)
    (mf : option FileManifest) (bs : list BlockLocation) (source : string) : MetadataEntry :=
  mkMetaEntry (mkMetadata name hash size bs now now source false) mf.
Definition upsert (now : Z) (name : string) (hash : Hash) (size : Z) (mf : option FileManifest)
    (bs : list BlockLocation) (source : string) (d : Disk) s
    : result unit MetadataError * Disk * MetadataStore :=
  let '(d, s) := changed (<[name := fresh_entry now name hash size mf bs source]> (entries s)) d s in
  (Ok tt, d, s).
Definition register (now : Z) (name : string) (hash : Hash) (size : Z) (mf : option FileManifest)
    (bs : list BlockLocation) (source : string) (d : Disk) s
    : result unit MetadataError * Disk * MetadataStore :=
  match entries s !! name with
  | Some _ => (Err (AlreadyExists name), d, s)
  | None => upsert now name hash size mf bs source d s
  end.

Definition query (name : string) s : option MetadataEntry := entries s !! name.
Definition contains (name : string) s : bool := bool_decide (is_Some (entries s !! name)).
Definition list_files s : list string := (map_to_list (entries s)).*1.
Definition all_entries s : list MetadataEntry := (map_to_list (entries s)).*2.
Definition get_block_nodes (name : string) (i : Z) s : list string :=
  match entries s !! name with
  | Some e =>
      match list_find (λ b, block_index b = i) (blocks (meta e)) with
      | Some (_, b) => block_nodes b
      | None => []
      end
  | None => []
  end.
(** Collecting into a map: a later block of the same index wins. *)
Definition get_block_distribution (name : string) s : gmap Z (list string) :=
  match entries s !! name with
  | Some e => foldl (λ m b, <[block_index b := block_nodes b]> m) ∅ (blocks (meta e))
  | None => ∅
  end.

(** The change [f] of an entry that must be there. *)
Definition modify (f : MetadataEntry → MetadataEntry) (name : string) (d : Disk) s
    : result unit MetadataError * Disk * MetadataStore :=
  match entries s !! name with
  | None => (Err (NotFound name), d, s)
  | Some e => let '(d, s) := changed (<[name := f e]> (entries s)) d s in (Ok tt, d, s)
  end.
Definition with_node (now i : Z) (node : string) (e : MetadataEntry) : MetadataEntry :=
  let bs := blocks (meta e) in
  set_updated now (set_blocks
    (default (bs ++ [mkBlock zero32 i [node] now]) (update_block (add_nodes now [node]) i bs)) e).
Definition add_block_node (now : Z) (name : string) (i : Z) (node : string) :=
  modify (with_node now i node) name.
Definition with_nodes (now : Z) (nodes_by_index : list (Z * list string)) (e : MetadataEntry)
    : MetadataEntry :=
  set_updated now (set_blocks
    (foldl (λ bs '(i, nodes), default bs (update_block (add_nodes now nodes) i bs))
       (blocks (meta e)) nodes_by_index) e).
Definition add_block_nodes (now : Z) (name : string) (nodes_by_index : gmap Z (list string)) :=
  modify (with_nodes now (map_to_list nodes_by_index)) name.
Definition mark_encrypted (now : Z) := modify (λ e, set_updated now (set_encrypted e)).
Definition remove_file (name : string) (d : Disk) s
    : result unit MetadataError * Disk * MetadataStore :=
  match entries s !! name with
  | None => (Err (NotFound name), d, s)
  | Some _ => let '(d, s) := changed (delete name (entries s)) d s in (Ok tt, d, s)
  end.
Definition flush (d : Disk) s : result unit MetadataError * Disk * MetadataStore :=
  save_to_file d s.

(** ** Merging *)

Definition should_merge (local : option MetadataEntry) (remote : MetadataEntry) : bool :=
  match local with
  | None => true
  | Some local =>
      let local_time := updated_at (meta local) in
      let remote_time := updated_at (meta remote) in
      if wrap 64 (local_time + CONFLICT_WINDOW_SECS) <? remote_time then true
      else if wrap 64 (remote_time + CONFLICT_WINDOW_SECS) <? local_time then false
      else hash_entry local <? hash_entry remote
  end.
Definition merge_entry (now : Z) (es : Entries) (remote : MetadataEntry) : Entries :=
  let name := meta_name (meta remote) in
  if should_merge (es !! name) remote then <[name := set_updated now remote]> es else es.
Fixpoint merged_count (now : Z) (es : Entries) (remotes : list MetadataEntry) : nat :=
  match remotes with
  | [] => 0
  | r :: remotes =>
      ((if should_merge (es !! meta_name (meta r)) r then 1 else 0)
       + merged_count now (merge_entry now es r) remotes)%nat
  end.
Definition sync_from (now : Z) (remotes : list MetadataEntry) (d : Disk) s
    : nat * Disk * MetadataStore :=
  let n := merged_count now (entries s) remotes in
  if (0 <? n)%nat
  then let '(d, s) := changed (foldl (merge_entry now) (entries s) remotes) d s in (n, d, s)
  else (n, d, s).
End MetadataStore.
End MetadataStore.
Import MetadataStore.

(** ** Operations *)

Inductive Op :=
| Register (now : Z) (name : string) (hash : Hash) (size : Z) (mf : option FileManifest)
    (bs : list BlockLocation) (source : string)
| Upsert (now : Z) (name : string) (hash : Hash) (size : Z) (mf : option FileManifest)
    (bs : list BlockLocation) (source : string)
| AddNode (now : Z) (name : string) (i : Z) (node : string)
| AddNodes (now : Z) (name : string) (nodes_by_index : gmap Z (list string))
| MarkEncrypted (now : Z) (name : string)
| Remove (name : string)
| SyncFrom (now : Z) (remotes : list MetadataEntry)
| Flush.

(** Every entry is stored under its own name. *)
Definition keyed (es : Entries) : Prop :=
  map_Forall (λ name e, meta_name (meta e) = name) es.

Section Properties.
Context `{EntryHash} `{JsonText Entries}.
Implicit Types s : MetadataStore.

Definition apply_op (st : Disk * MetadataStore) (op : Op) : Disk * MetadataStore :=
  let '(d, s) := st in
  match op with
  | Register now name hash size mf bs source =>
      let '(_, d, s) := register now name hash size mf bs source d s in (d, s)
  | Upsert now name hash size mf bs source =>
      let '(_, d, s) := upsert now name hash size mf bs source d s in (d, s)
  | AddNode now name i node => let '(_, d, s) := add_block_node now name i node d s in (d, s)
  | AddNodes now name nodes => let '(_, d, s) := add_block_nodes now name nodes d s in (d, s)
  | MarkEncrypted now name => let '(_, d, s) := mark_encrypted now name d s in (d, s)
  | Remove name => let '(_, d, s) := remove_file name d s in (d, s)
  | SyncFrom now remotes => let '(_, d, s) := sync_from now remotes d s in (d, s)
  | Flush => let '(_, d, s) := flush d s in (d, s)
  end.

Lemma merge_entry_keyed now es r : keyed es → keyed (merge_entry now es r).
Proof.
  intros Hk. unfold merge_entry. destruct (should_merge _ r); [|done].
  by apply map_Forall_insert_2.
Qed.
Lemma merge_keyed now es rs : keyed es → keyed (foldl (merge_entry now) es rs).
Proof. revert es. induction rs as [|r rs IH]; intros es Hk; [done|]. by apply IH, merge_entry_keyed. Qed.

(** What an operation does: nothing, or one saved change, which keeps the keys. *)
Lemma apply_op_change op d s :
  apply_op (d, s) op = (d, s)
  ∨ (∃ es, apply_op (d, s) op = changed es d s ∧ (keyed (entries s) → keyed es))
  ∨ ∃ r, save_to_file d s = (r, (apply_op (d, s) op).1, (apply_op (d, s) op).2).
Proof.
  assert (Hc : ∀ es, (keyed (entries s) → keyed es) →
    ∃ es', (let '(d, s) := changed es d s in (d, s)) = changed es' d s
      ∧ (keyed (entries s) → keyed es')) by (intros es ?; exists es; by destruct (changed es d s)).
  assert (Hm : ∀ f name, (∀ e, meta_name (meta (f e)) = meta_name (meta e)) →
    (let '(_, d, s) := modify f name d s in (d, s)) = (d, s)
    ∨ ∃ es, (let '(_, d, s) := modify f name d s in (d, s)) = changed es d s
        ∧ (keyed (entries s) → keyed es)).
  { intros f name Hf. unfold modify. destruct (entries s !! name) as [e|] eqn:E; [right|by left].
    destruct (Hc (<[name := f e]> (entries s))) as (es & Hes & ?).
    - intros Hk. apply map_Forall_insert_2; [|done]. rewrite Hf. exact (Hk _ _ E).
    - exists es. split; [|done]. by destruct (changed _ d s). }
  assert (Hu : ∀ now name hash size mf bs source, ∃ es,
    (let '(_, d, s) := upsert now name hash size mf bs source d s in (d, s)) = changed es d s
    ∧ (keyed (entries s) → keyed es)).
  { intros. unfold upsert. match goal with |- context [changed ?es d s] => exists es end.
    split; [by destruct (changed _ d s)|]. intros Hk. by apply map_Forall_insert_2. }
  destruct op as [now name hash size mf bs src|now name hash size mf bs src|now name i node
    |now name nodes|now name|name|now rs|]; cbn [apply_op].
  - unfold register. destruct (entries s !! name); [by left|right; left; apply Hu].
  - right; left; apply Hu.
  - destruct (Hm (with_node now i node) name) as [?|?]; [done|by left|by right; left].
  - destruct (Hm (with_nodes now (map_to_list nodes)) name) as [?|?]; [done|by left|by right; left].
  - destruct (Hm (λ e, set_updated now (set_encrypted e)) name) as [?|?]; [done|by left|by right; left].
  - unfold remove_file. destruct (entries s !! name); [right; left|by left].
    destruct (Hc (delete name (entries s))) as (es & Hes & ?); [by apply map_Forall_delete|].
    exists es. split; [|done]. by destruct (changed _ d s).
  - unfold sync_from. destruct (0 <? _)%nat; [right; left|by left].
    destruct (Hc (foldl (merge_entry now) (entries s) rs)) as (es & Hes & ?); [by apply merge_keyed|].
    exists es. split; [|done]. by destruct (changed _ d s).
  - right; right. unfold flush. destruct (save_to_file d s) as [[r d'] s']. by exists r.
Qed.

(** The file is the store, and can be written. *)
Definition on_disk (path : string) (d : Disk) s : Prop :=
  meta_path s = path ∧ dir_fault d path = None ∧ write_fault d path = None
  ∧ load_json ∅ path d = Ok (entries s).

Lemma save_on_disk `{!JsonTextOk Entries} path d s :
  meta_path s = path → dir_fault d path = None → write_fault d path = None →
  ∃ d', save_to_file d s = (Ok tt, d', mkStore (entries s) path false)
    ∧ on_disk path d' (mkStore (entries s) path false).
Proof.
  intros <- Hd Hw. destruct (save_writable (entries s) (meta_path s) d Hd Hw) as (d' & E & Hd' & Hw' & _).
  exists d'. unfold save_to_file. rewrite E. split; [done|]. split_and!; try done.
  cbn [entries]. eapply load_stored, save_stored. exact E.
Qed.
Lemma apply_op_on_disk `{!JsonTextOk Entries} path op d s :
  on_disk path d s → on_disk path (apply_op (d, s) op).1 (apply_op (d, s) op).2
    ∧ (keyed (entries s) → keyed (entries (apply_op (d, s) op).2)).
Proof.
  intros Hs. pose proof Hs as (Hp & Hd & Hw & _).
  pose proof (apply_op_change op d s) as Hop. destruct (apply_op (d, s) op) as [d1 s1].
  cbn [fst snd] in *. destruct Hop as [[= -> ->]|[(es & Ec & Hk)|(r & E)]]; [done| |].
  - unfold changed, save_if_dirty in Ec. cbn [meta_dirty] in Ec.
    destruct (save_on_disk path d (mkStore es (meta_path s) true)) as (d' & E & Hs'); [done..|].
    rewrite E in Ec. by injection Ec as -> ->.
  - destruct (save_on_disk path d s) as (d' & E' & Hs'); [done..|]. rewrite E' in E.
    injection E as _ <- <-. done.
Qed.

Lemma run_on_disk `{!JsonTextOk Entries} path ops d s :
  on_disk path d s →
  on_disk path (foldl apply_op (d, s) ops).1 (foldl apply_op (d, s) ops).2
  ∧ (keyed (entries s) → keyed (entries (foldl apply_op (d, s) ops).2)).
Proof.
  revert d s. induction ops as [|op ops IH]; intros d s Hs; [done|]. cbn [foldl].
  destruct (apply_op_on_disk path op d s Hs) as [Hs' Hk].
  destruct (apply_op (d, s) op) as [d1 s1]. destruct (IH d1 s1 Hs') as [? Hk']. auto.
Qed.

(** C11: The catalogue is durable.  After any sequence of operations on a store that was loaded
    from a file that can be written, loading the file again gives exactly the entries of the
    store; and if every entry was stored under its own name, so is every entry now. *)
Theorem metadata_durable `{!JsonTextOk Entries} path d s ops :
  load_from_file path d = Ok s → dir_fault d path = None → write_fault d path = None →
  let '(d', s') := foldl apply_op (d, s) ops in
  (∃ s'', load_from_file path d' = Ok s'' ∧ entries s'' = entries s')
  ∧ (keyed (entries s) → keyed (entries s')).
Proof.
  intros Hl Hd Hw.
  assert (Hs : on_disk path d s).
  { unfold load_from_file in Hl. destruct (load_json ∅ path d) as [es|[]] eqn:E; [|done..].
    injection Hl as <-. by split_and!. }
  destruct (run_on_disk path ops d s Hs) as [(_ & _ & _ & Hl') Hk]. destruct (foldl apply_op (d, s) ops) as [d' s'].
  split; [|done]. unfold load_from_file. cbn [fst snd] in Hl'. rewrite Hl'. by eexists.
Qed.

(** ** Merging *)

Lemma merge_entry_lookup now es r name :
  merge_entry now es r !! name
  = if decide (meta_name (meta r) = name)
    then (if should_merge (es !! name) r then Some (set_updated now r) else es !! name)
    else es !! name.
Proof.
  unfold merge_entry. case_decide as E.
  - rewrite E. destruct (should_merge _ r); [by rewrite lookup_insert_eq|done].
  - destruct (should_merge _ r); [by rewrite lookup_insert_ne|done].
Qed.
Lemma merge_absent now es rs name :
  name ∉ (meta_name ∘ meta <$> rs) → foldl (merge_entry now) es rs !! name = es !! name.
Proof.
  revert es. induction rs as [|r rs IH]; intros es Hn; [done|]. cbn [foldl].
  apply not_elem_of_cons in Hn as [Hne Hn]. rewrite IH, merge_entry_lookup by done.
  by rewrite decide_False.
Qed.
Lemma merge_lookup now es rs r :
  NoDup (meta_name ∘ meta <$> rs) → r ∈ rs →
  foldl (merge_entry now) es rs !! meta_name (meta r)
  = if should_merge (es !! meta_name (meta r)) r then Some (set_updated now r)
    else es !! meta_name (meta r).
Proof.
  revert es. induction rs as [|r' rs IH]; intros es Hd Hr; [by apply not_elem_of_nil in Hr|].
  cbn [foldl]. apply NoDup_cons in Hd as [Hn Hd]. apply elem_of_cons in Hr as [->|Hr].
  - rewrite merge_absent by done. rewrite merge_entry_lookup. by rewrite decide_True.
  - rewrite IH by done. rewrite merge_entry_lookup, decide_False; [done|].
    intros E. apply Hn, list_elem_of_fmap. by exists r.
Qed.
Lemma merged_count_pos now es rs :
  merged_count now es rs = 0%nat → foldl (merge_entry now) es rs = es.
Proof.
  revert es. induction rs as [|r rs IH]; intros es; [done|]. cbn [merged_count foldl].
  unfold merge_entry at 1 3. destruct (should_merge _ r); [done|]. apply IH.
Qed.
Lemma sync_entries now rs d s :
  entries (sync_from now rs d s).2 = foldl (merge_entry now) (entries s) rs.
Proof.
  unfold sync_from. destruct (Nat.ltb_spec 0 (merged_count now (entries s) rs)).
  - unfold changed, save_if_dirty, save_to_file. cbn [meta_dirty].
    by destruct (save_json _ _ _) as [[|[]] ?].
  - cbn. rewrite merged_count_pos; [done|lia].
Qed.
Lemma all_entries_names s :
  keyed (entries s) → NoDup (meta_name ∘ meta <$> all_entries s)
  ∧ ∀ name e, entries s !! name = Some e → e ∈ all_entries s ∧ meta_name (meta e) = name.
Proof.
  intros Hk. unfold all_entries. split.
  - replace (meta_name ∘ meta <$> (map_to_list (entries s)).*2) with (map_to_list (entries s)).*1.
    { apply NoDup_fst_map_to_list. }
    rewrite <-list_fmap_compose. apply list_fmap_ext. intros i [name e] He. cbn.
    apply list_elem_of_lookup_2, elem_of_map_to_list in He. by rewrite (Hk _ _ He).
  - intros name e E. split; [|by apply Hk].
    apply list_elem_of_fmap. exists (name, e). split; [done|]. by apply elem_of_map_to_list.
Qed.

(** Merging a catalogue.  From a remote catalogue, exactly the entries are taken that are
    new here, or changed more than five seconds after the local ones, or within five seconds
    and with the larger hash; they get the time of the merge, and every other entry stays.  Of
    two entries of one name at most one replaces the other. *)
Theorem sync_from_exact now d s remote name :
  keyed (entries remote) →
  entries (sync_from now (all_entries remote) d s).2 !! name
  = match entries remote !! name with
    | Some r => if should_merge (entries s !! name) r then Some (set_updated now r)
                else entries s !! name
    | None => entries s !! name
    end
  ∧ ∀ l r, entries s !! name = Some l → entries remote !! name = Some r →
      fits 63 (updated_at (meta l)) → fits 63 (updated_at (meta r)) →
      should_merge (Some l) r = true → should_merge (Some r) l = false.
Proof.
  intros Hk. split.
  - rewrite sync_entries. destruct (all_entries_names remote Hk) as [Hd Hin].
    destruct (entries remote !! name) as [r|] eqn:E.
    + destruct (Hin _ _ E) as [Hr <-]. by apply merge_lookup.
    + apply merge_absent. intros (r & -> & Hr)%list_elem_of_fmap.
      unfold all_entries in Hr. apply list_elem_of_fmap in Hr as ([name r'] & -> & Hr).
      apply elem_of_map_to_list in Hr. cbn in E. by rewrite (Hk _ _ Hr), Hr in E.
  - intros l r _ _ Hl Hr. unfold fits in *. cbn [should_merge].
    rewrite !wrap_id by (unfold fits, CONFLICT_WINDOW_SECS; lia).
    destruct (Z.ltb_spec (updated_at (meta l) + CONFLICT_WINDOW_SECS) (updated_at (meta r)));
      destruct (Z.ltb_spec (updated_at (meta r) + CONFLICT_WINDOW_SECS) (updated_at (meta l)));
      unfold CONFLICT_WINDOW_SECS in *; try done; try lia.
Qed.

(** A merge can undo a newer change.  The time of the merge replaces the time of the change:
    when a third store that does not know a file merges an old entry of it, its copy counts as
    changed at that moment, and a store whose own entry is newer than the old one, but older
    than that merge by more than five seconds, takes the old entry from it. *)
Theorem relayed_copy_undoes_change t1 t2 d1 d2 old relay local name o l :
  keyed (entries old) → keyed (entries relay) →
  entries old !! name = Some o → entries relay !! name = None → entries local !! name = Some l →
  updated_at (meta o) < updated_at (meta l) → fits 63 (updated_at (meta l)) →
  updated_at (meta l) + CONFLICT_WINDOW_SECS < t1 →
  let relay' := (sync_from t1 (all_entries old) d1 relay).2 in
  entries (sync_from t2 (all_entries relay') d2 local).2 !! name = Some (set_updated t2 o).
Proof.
  intros Ho Hr Eo Er El Hlt Hf Ht relay'.
  assert (Hrel : entries relay' !! name = Some (set_updated t1 o)).
  { subst relay'. rewrite sync_entries. destruct (all_entries_names old Ho) as [Hd Hin].
    destruct (Hin _ _ Eo) as [Hin' Hn]. rewrite <-Hn in Er |- *. rewrite merge_lookup by done.
    by rewrite Er. }
  assert (Hk : keyed (entries relay')) by (subst relay'; rewrite sync_entries; by apply merge_keyed).
  rewrite sync_entries. destruct (all_entries_names relay' Hk) as [Hd Hin].
  destruct (Hin _ _ Hrel) as [Hin' Hn]. rewrite <-Hn in El |- *. rewrite merge_lookup by done.
  rewrite El. unfold should_merge. cbn [updated_at meta set_updated].
  rewrite wrap_id by (unfold fits, CONFLICT_WINDOW_SECS in *; lia).
  by rewrite (proj2 (Z.ltb_lt _ _)) by done.
Qed.
End Properties.

(** ** Witnesses *)

#[export] Instance toy_entry_hash : EntryHash := λ _ h, of_le (arr_bytes h).
#[export] Instance BlockLocation_eq_dec : EqDecision BlockLocation.
Proof. solve_decision. Defined.
#[export] Instance BlockLocation_countable : Countable BlockLocation.
Proof.
  refine (inj_countable' (λ b, (block_hash b, block_index b, block_nodes b, block_synced b))
    (λ '(h, i, n, t), mkBlock h i n t) _). by intros [].
Defined.
#[export] Instance FileMetadata_eq_dec : EqDecision FileMetadata.
Proof. solve_decision. Defined.
#[export] Instance FileMetadata_countable : Countable FileMetadata.
Proof.
  refine (inj_countable' (λ m, (meta_name m, meta_file_hash m, meta_file_size m, blocks m,
      created_at m, updated_at m, source_node m, encrypted m))
    (λ '(n, h, z, bs, c, u, src, e), mkMetadata n h z bs c u src e) _). by intros [].
Defined.
#[export] Instance MetadataEntry_eq_dec : EqDecision MetadataEntry.
Proof. solve_decision. Defined.
#[export] Instance MetadataEntry_countable : Countable MetadataEntry.
Proof.
  refine (inj_countable' (λ e, (meta e, entry_manifest e)) (λ '(m, f), mkMetaEntry m f) _).
  by intros [].
Defined.
#[export] Instance entries_text : JsonText Entries := bits_text Entries.
#[export] Instance entries_text_ok : JsonTextOk Entries := bits_text_ok Entries.

(** An entry of [n] bytes, changed at [t]. *)
Definition entry_of (n t : Z) : MetadataEntry := fresh_entry t "f" zero32 n None [] "pika".
Definition catalogue (n t : Z) : MetadataStore := mkStore {[ "f"%string := entry_of n t ]} "db" false.

Lemma metadata_durable_witness :
  let ops := [Register 5 "f" zero32 1 None [] "pika"; AddNode 6 "f" 0 "raichu"; MarkEncrypted 7 "f"] in
  let '(d', s') := foldl apply_op (empty_disk, new "db") ops in
  (∃ s'', load_from_file "db" d' = Ok s'' ∧ entries s'' = entries s')
  ∧ encrypted ∘ meta <$> entries s' !! "f"%string = Some true.
Proof.
  intros ops.
  pose proof (metadata_durable "db" empty_disk (new "db") ops eq_refl eq_refl eq_refl) as Hd.
  assert (He : encrypted ∘ meta
    <$> entries (foldl apply_op (empty_disk, new "db") ops).2 !! "f"%string = Some true)
    by (vm_compute; reflexivity).
  destruct (foldl apply_op (empty_disk, new "db") ops) as [d' s'].
  split; [exact (proj1 Hd)|exact He].
Defined.

Lemma catalogue_keyed n t : keyed (entries (catalogue n t)).
Proof. by apply map_Forall_singleton. Qed.

Lemma sync_from_exact_witness :
  entries (sync_from 100 (all_entries (catalogue 2 50)) empty_disk (catalogue 1 40)).2 !! "f"%string
  = Some (set_updated 100 (entry_of 2 50)).
Proof.
  pose proof (sync_from_exact 100 empty_disk (catalogue 1 40) (catalogue 2 50) "f"
    (catalogue_keyed 2 50)) as [Hs _].
  rewrite Hs. vm_compute. reflexivity.
Defined.

Lemma relayed_copy_undoes_change_witness :
  let relay := (sync_from 100 (all_entries (catalogue 1 40)) empty_disk (new "db")).2 in
  entries (sync_from 101 (all_entries relay) empty_disk (catalogue 2 50)).2 !! "f"%string
  = Some (set_updated 101 (entry_of 1 40)).
Proof.
  cbv zeta. rewrite (relayed_copy_undoes_change 100 101 empty_disk empty_disk (catalogue 1 40) (new "db")
    (catalogue 2 50) "f" (entry_of 1 40) (entry_of 2 50)).
  - reflexivity.
  - apply catalogue_keyed.
  - intros name e E. vm_compute in E. discriminate E.
  - vm_compute. reflexivity.
  - vm_compute. reflexivity.
  - vm_compute. reflexivity.
  - vm_compute. reflexivity.
  - split; vm_compute; congruence.
  - vm_compute. reflexivity.
Defined.
