(* ===== verification/Gc.v ===== *)
(** * Gc: blocks that no version refers to

    Models crates/vpn/src/storage/gc.rs over [VersionManager] (Version.v) and
    [MetadataStore] (Metadata.v).  A HashSet is a [gset]; the order of the
    hashes it returns is that of [elements].  Sizes are u64 with wrap-around. *)
From S2P Require Import Prelude Identity Disk Json Chunk.
From S2P Require Import Version Metadata.

Record StorageStats := mkStats {
  total_files : Z; total_blocks : Z; total_bytes : Z; versioned_files : Z; total_versions : Z;
  referenced_blocks : Z; unreferenced_blocks : Z; stats_reclaimable : Z }.
Record CollectResult := mkCollect {
  unreferenced_count : Z; reclaimable_bytes : Z; unreferenced_hashes : list Hash }.

Definition line (label value : string) : string := label +:+ value +:+ String (Ascii.ascii_of_nat 10) "".
Definition StorageStats_display (s : StorageStats) : string :=
  line "=== Storage Statistics ===" ""
  +:+ line "Registered files:    " (pretty (total_files s))
  +:+ line "Total blocks:        " (pretty (total_blocks s))
  +:+ line "Total size:          " (pretty (total_bytes s) +:+ " bytes")
  +:+ line "Versioned files:     " (pretty (versioned_files s))
  +:+ line "Total versions:      " (pretty (total_versions s))
  +:+ line "Referenced blocks:   " (pretty (referenced_blocks s))
  +:+ line "Unreferenced blocks: " (pretty (unreferenced_blocks s))
  +:+ line "Reclaimable space:  " (pretty (stats_reclaimable s) +:+ " bytes").
Definition CollectResult_display (r : CollectResult) : string :=
  line "=== Garbage Collection Result ===" ""
  +:+ line "Unreferenced blocks: " (pretty (unreferenced_count r))
  +:+ line "Reclaimable bytes:   " (pretty (reclaimable_bytes r))
  +:+ match unreferenced_hashes r with
      | [] => line "Status: Nothing to clean — all blocks are referenced." ""
      | _ => line "Status: " (pretty (unreferenced_count r) +:+ " blocks can be safely removed.")
      end.

Module GarbageCollector.
Section GarbageCollector.
Context `{JsonText VersionStore}.

(** The hashes of a version. *)
Definition chunk_hashes (v : VersionEntry) : list Hash := meta_hash <$> chunks (manifest v).
Definition collect_referenced_blocks (m : VersionManager) : gset Hash :=
  list_to_set (VersionManager.list_files m ≫= λ name,
    VersionManager.list_versions name m ≫= chunk_hashes).

(** The entries that the listed names have. *)
Definition listed (s : MetadataStore) : list MetadataEntry :=
  omap (λ name, MetadataStore.query name s) (MetadataStore.list_files s).
Definition collect_all_metadata_blocks (s : MetadataStore) : gset Hash :=
  list_to_set (listed s ≫= λ e, block_hash <$> blocks (meta e)).

Definition estimate_average_block_size (s : MetadataStore) : Z :=
  let '(size, n) := foldl (λ '(size, n) e,
    let count := len (blocks (meta e)) in
    if 0 <? count then (wrap 64 (size + meta_file_size (meta e)), wrap 64 (n + count)) else (size, n))
    (0, 0) (listed s) in
  if n =? 0 then 4 * 1024 * 1024 else size / n.

Definition collect (m : VersionManager) (s : MetadataStore) : result CollectResult string :=
  let referenced := collect_referenced_blocks m in
  let all_blocks := collect_all_metadata_blocks s in
  let unreferenced := elements (all_blocks ∖ referenced) in
  let avg := if decide (all_blocks = ∅) then 4 * 1024 * 1024 else estimate_average_block_size s in
  Ok (mkCollect (len unreferenced) (wrap 64 (len unreferenced * avg)) unreferenced).

Definition prune_old_versions (keep_count : nat) (d : Disk) (m : VersionManager)
    : Call nat * Disk * VersionManager :=
  VersionManager.prune_all_versions keep_count d m.

Definition storage_stats (m : VersionManager) (s : MetadataStore) : result StorageStats string :=
  let '(nblocks, bytes) := foldl (λ '(nblocks, bytes) e,
    (wrap 64 (nblocks + len (blocks (meta e))), wrap 64 (bytes + meta_file_size (meta e))))
    (0, 0) (listed s) in
  let referenced := collect_referenced_blocks m in
  let all_blocks := collect_all_metadata_blocks s in
  let unreferenced := saturating_sub (Z.of_nat (size all_blocks)) (Z.of_nat (size referenced)) in
  let avg := if decide (all_blocks = ∅) then 0 else estimate_average_block_size s in
  Ok (mkStats (len (MetadataStore.list_files s)) nblocks bytes
        (len (VersionManager.list_files m)) (Z.of_nat (VersionManager.total_versions m))
        (Z.of_nat (size referenced)) unreferenced (wrap 64 (unreferenced * avg))).
End GarbageCollector.
End GarbageCollector.
Import GarbageCollector.

(** ** Which blocks are listed *)

Section Properties.
Context `{JsonText VersionStore}.

(** [h] is a block of a catalogued file; of a version. *)
Definition catalogued (s : MetadataStore) (h : Hash) : Prop :=
  ∃ name e b, entries s !! name = Some e ∧ b ∈ blocks (meta e) ∧ block_hash b = h.
Definition referenced_by (vs : string → list VersionEntry) (h : Hash) : Prop :=
  ∃ name v, v ∈ vs name ∧ h ∈ chunk_hashes v.

Lemma elem_of_listed s e : e ∈ listed s ↔ ∃ name, entries s !! name = Some e.
Proof.
  unfold listed, MetadataStore.list_files, MetadataStore.query. rewrite list_elem_of_omap. split.
  - intros (name & _ & E). by exists name.
  - intros (name & E). exists name. split; [|done]. apply list_elem_of_fmap.
    exists (name, e). split; [done|]. by apply elem_of_map_to_list.
Qed.
Lemma elem_of_catalogued s h : h ∈ collect_all_metadata_blocks s ↔ catalogued s h.
Proof.
  unfold collect_all_metadata_blocks, catalogued. rewrite elem_of_list_to_set, list_elem_of_bind.
  split.
  - intros (e & Hh & (name & He)%elem_of_listed). apply list_elem_of_fmap in Hh as (b & -> & Hb).
    by exists name, e, b.
  - intros (name & e & b & He & Hb & <-). exists e. split; [|apply elem_of_listed; by exists name].
    apply list_elem_of_fmap. by exists b.
Qed.
Lemma elem_of_referenced m h :
  h ∈ collect_referenced_blocks m ↔ referenced_by (λ name, VersionManager.list_versions name m) h.
Proof.
  unfold collect_referenced_blocks, referenced_by. rewrite elem_of_list_to_set, list_elem_of_bind.
  split.
  - intros (name & (v & Hh & Hv)%list_elem_of_bind & _). by exists name, v.
  - intros (name & v & Hv & Hh). exists name. split; [apply list_elem_of_bind; by exists v|].
    unfold VersionManager.list_versions in Hv. destruct (store m !! name) as [fv|] eqn:E;
      [|by apply not_elem_of_nil in Hv].
    unfold VersionManager.list_files, VersionStore.list_files. rewrite merge_sort_Permutation.
    apply list_elem_of_fmap. exists (name, fv). split; [done|]. by apply elem_of_map_to_list.
Qed.

Lemma collect_list m s :
  ∃ r, collect m s = Ok r ∧ NoDup (unreferenced_hashes r)
    ∧ unreferenced_count r = len (unreferenced_hashes r)
    ∧ ∀ h, h ∈ unreferenced_hashes r ↔ h ∈ collect_all_metadata_blocks s ∧ h ∉ collect_referenced_blocks m.
Proof.
  eexists. split; [done|]. cbn [unreferenced_hashes unreferenced_count].
  split_and!; [apply NoDup_elements|done|]. intros h. by rewrite elem_of_elements, elem_of_difference.
Qed.

(** What the collector lists.  The hashes are listed once each and are exactly those of the
    catalogued blocks that no version refers to: never one that a version needs, but every
    block of a catalogued file of which no version was taken. *)
Theorem gc_collect_exact m s :
  ∃ r, collect m s = Ok r ∧ NoDup (unreferenced_hashes r)
    ∧ unreferenced_count r = len (unreferenced_hashes r)
    ∧ ∀ h, h ∈ unreferenced_hashes r ↔ catalogued s h
        ∧ ¬ referenced_by (λ name, VersionManager.list_versions name m) h.
Proof.
  destruct (collect_list m s) as (r & E & Hd & Hc & Hh). exists r. split_and!; try done.
  intros h. by rewrite Hh, elem_of_catalogued, elem_of_referenced.
Qed.

Lemma prune_all_versions_list keep d m name :
  VersionManager.list_versions name (VersionManager.prune_all_versions keep d m).2
  = take keep (VersionManager.list_versions name m).
Proof.
  pose proof (Version.apply_op_store (PruneAll keep) d m) as [Hs _].
  unfold Version.apply_op in Hs. cbn [Version.call_op fst snd] in Hs.
  destruct (VersionManager.prune_all_versions keep d m) as [[r d'] m'].
  unfold VersionManager.list_versions. cbn [snd store_op] in *. rewrite Hs, lookup_fmap.
  destruct (store m !! name) as [fv|]; cbn [fmap option_fmap option_map];
    [apply prune_versions_take|by rewrite take_nil].
Qed.

(** Pruning, then collecting.  After the versions of every file are pruned to the newest
    [keep] - in memory, and by a call that does not return when a version is removed - the collector lists exactly the catalogued blocks that none of those versions
    refers to; so whatever it listed before, it still lists. *)
Theorem gc_after_prune keep d m s :
  let m' := (prune_old_versions keep d m).2 in
  ∃ r r', collect m s = Ok r ∧ collect m' s = Ok r'
    ∧ (∀ h, h ∈ unreferenced_hashes r' ↔ catalogued s h
        ∧ ¬ referenced_by (λ name, take keep (VersionManager.list_versions name m)) h)
    ∧ unreferenced_hashes r ⊆ unreferenced_hashes r'.
Proof.
  intros m'. destruct (collect_list m s) as (r & E & _ & _ & Hh).
  destruct (collect_list m' s) as (r' & E' & _ & _ & Hh'). exists r, r'.
  assert (Href : ∀ h, h ∈ collect_referenced_blocks m'
    ↔ referenced_by (λ name, take keep (VersionManager.list_versions name m)) h).
  { intros h. rewrite elem_of_referenced. unfold referenced_by. subst m'. unfold prune_old_versions.
    by setoid_rewrite prune_all_versions_list. }
  split_and!; try done.
  - intros h. by rewrite Hh', elem_of_catalogued, Href.
  - intros h. rewrite Hh, Hh'. intros [Hc Hn]. split; [done|]. intros Hr. apply Hn.
    apply Href in Hr as (name & v & Hv & Hv'). apply elem_of_referenced. exists name, v.
    split; [|done]. by apply elem_of_take in Hv as (? & ?%list_elem_of_lookup_2 & _).
Qed.

(** The statistics undercount.  The number of unreferenced blocks that the statistics report
    is never larger than what the collector finds, equal when every referenced block is
    catalogued, and smaller as soon as a version refers to a block outside the catalogue while
    there is something to collect. *)
Theorem gc_stats_undercount m s :
  ∃ st r, storage_stats m s = Ok st ∧ collect m s = Ok r
    ∧ unreferenced_blocks st <= unreferenced_count r
    ∧ ((∀ h, referenced_by (λ name, VersionManager.list_versions name m) h → catalogued s h) →
        unreferenced_blocks st = unreferenced_count r)
    ∧ (∀ h, referenced_by (λ name, VersionManager.list_versions name m) h → ¬ catalogued s h →
        0 < unreferenced_count r → unreferenced_blocks st < unreferenced_count r).
Proof.
  unfold storage_stats, collect. destruct (foldl _ (0, 0) (listed s)) as [nblocks bytes].
  eexists _, _. split; [done|]. split; [done|]. cbn [unreferenced_blocks unreferenced_count].
  set (all := collect_all_metadata_blocks s). set (ref := collect_referenced_blocks m).
  assert (Hlen : len (elements (all ∖ ref)) = Z.of_nat (size (all ∖ ref))) by done.
  rewrite Hlen. pose proof (size_difference_alt all ref) as Hsz.
  assert (Hin : (size (all ∩ ref) <= size ref)%nat) by (apply subseteq_size; set_solver).
  assert (Hin' : (size (all ∩ ref) <= size all)%nat) by (apply subseteq_size; set_solver).
  unfold saturating_sub. split_and!; [lia| |].
  - intros Hsub. assert (E : all ∩ ref = ref).
    { apply leibniz_equiv. intros h. rewrite elem_of_intersection. split; [by intros []|].
      intros Hh. split; [|done]. by apply elem_of_catalogued, Hsub, elem_of_referenced. }
    rewrite E in Hsz, Hin'. lia.
  - intros h Hr Hc Hpos. assert (size (all ∩ ref) < size ref)%nat; [|lia].
    apply subset_size. split; [set_solver|]. intros Hsub. apply Hc, elem_of_catalogued.
    apply elem_of_referenced in Hr. apply Hsub in Hr. set_solver.
Qed.
End Properties.
