(* ===== verification/Float.v ===== *)
(** * Float: the f64 arithmetic of the language

    IEEE 754 binary64 by the Standard Library's executable specification
    ([spec_float] at 53 bits of precision), with rounding to nearest, ties to
    even.  [lit n d] is the literal n/d: both are exact, so the division rounds
    the decimal as the compiler does. *)
From Stdlib Require Import Floats.SpecFloat Ascii.
From S2P Require Import Prelude Text.

Abbreviation f64 := spec_float.
Definition f64_of_Z (z : Z) : f64 := binary_normalize 53 1024 z 0 false.
Definition fadd : f64 → f64 → f64 := SFadd 53 1024.
Definition fmul : f64 → f64 → f64 := SFmul 53 1024.
Definition fdiv : f64 → f64 → f64 := SFdiv 53 1024.
Definition flt (x y : f64) : bool :=
  match SFcompare x y with Some Lt => true | _ => false end.
Definition is_nan (x : f64) : bool := match x with S754_nan => true | _ => false end.
(** [f64::max], [f64::min]: the other operand when one is NaN. *)
Definition fmax (x y : f64) : f64 := if is_nan x then y else if is_nan y then x else if flt x y then y else x.
Definition fmin (x y : f64) : f64 := if is_nan x then y else if is_nan y then x else if flt y x then y else x.
Definition lit (n d : Z) : f64 := fdiv (f64_of_Z n) (f64_of_Z d).
Definition fsub : f64 → f64 → f64 := SFsub 53 1024.

(** [x as u64]: towards zero, saturating. *)
Definition f64_to_u64 (x : f64) : Z :=
  match x with
  | S754_finite false m e => Z.min (2 ^ 64 - 1) (if 0 <=? e then Z.pos m * 2 ^ e else Z.pos m / 2 ^ (- e))
  | S754_infinity false => 2 ^ 64 - 1
  | _ => 0
  end.
(** [x % y] for an integer [y] above zero; the remainder has the sign of [x] and is exact. *)
Definition frem (x : f64) (y : Z) : f64 :=
  match x with
  | S754_finite neg m e =>
      let sign z := if neg then - z else z in
      if 0 <=? e then binary_normalize 53 1024 (sign ((Z.pos m * 2 ^ e) mod y)) 0 neg
      else binary_normalize 53 1024 (sign (Z.pos m mod (y * 2 ^ (- e)))) e neg
  | S754_zero _ => x
  | _ => S754_nan
  end.

(** [s.parse::<f64>().ok()]: a sign; then [inf], [infinity] or [nan] in any case, or digits with a
    point among or around them and an exponent; the value rounds once. *)
Fixpoint read_digits (acc : Z) (n : nat) (s : string) : Z * nat * string :=
  match s with
  | EmptyString => (acc, n, s)
  | String a s' => match digit_value a with Some d => read_digits (acc * 10 + d) (S n) s' | None => (acc, n, s) end
  end.
Definition to_lower_ascii (a : Ascii.ascii) : Ascii.ascii :=
  let n := Ascii.nat_of_ascii a in
  if (65 <=? n)%nat && (n <=? 90)%nat then Ascii.ascii_of_nat (n + 32) else a.
Fixpoint lower_ascii (s : string) : string :=
  match s with EmptyString => EmptyString | String a s => String (to_lower_ascii a) (lower_ascii s) end.
Definition read_sign (s : string) : bool * string :=
  match s with
  | String a s' => if Ascii.eqb a "-" then (true, s') else if Ascii.eqb a "+" then (false, s') else (false, s)
  | EmptyString => (false, s)
  end%char.
Definition decimal_f64 (neg : bool) (digits exp10 : Z) : f64 :=
  match digits with
  | Z.pos p =>
      if 0 <=? exp10 then binary_normalize 53 1024 ((if neg then -1 else 1) * digits * 10 ^ exp10) 0 neg
      else SFdiv 53 1024 (S754_finite neg p 0) (S754_finite false (Z.to_pos (10 ^ (- exp10))) 0)
  | _ => S754_zero neg
  end.
Definition parse_f64 (s : string) : option f64 :=
  let '(neg, s) := read_sign s in
  let word := lower_ascii s in
  if bool_decide (word = "inf"%string) || bool_decide (word = "infinity"%string) then Some (S754_infinity neg)
  else if bool_decide (word = "nan"%string) then Some S754_nan else
  let '(int, ni, s) := read_digits 0 0 s in
  let '(all, nf, s) :=
    match s with
    | String a s' => if Ascii.eqb a "." then let '(v, n, r) := read_digits int 0 s' in (v, n, r) else (int, 0%nat, s)
    | EmptyString => (int, 0%nat, s)
    end%char in
  if (ni + nf =? 0)%nat then None else
  match s with
  | EmptyString => Some (decimal_f64 neg all (- Z.of_nat nf))
  | String a s =>
      if bool_decide (to_lower_ascii a = "e"%char) then
        let '(eneg, s) := read_sign s in
        match read_digits 0 0 s with
        | (e, S _, EmptyString) => Some (decimal_f64 neg all ((if eneg then - e else e) - Z.of_nat nf))
        | _ => None
        end
      else None
  end.

(** [n * 2^e], rounded to an integer, ties to even. *)
Definition round_scaled (n e : Z) : Z :=
  if 0 <=? e then n * 2 ^ e else
  let den := 2 ^ (- e) in
  let q := n / den in
  match Z.compare (2 * (n mod den)) den with
  | Lt => q
  | Eq => if Z.even q then q else q + 1
  | Gt => q + 1
  end.
(** [format!("{:.d$}", x)], for [d] positive *)
Definition format_fixed (d : nat) (x : f64) : string :=
  let show (neg : bool) (n : Z) :=
    ((if neg then "-" else "") +:+ pretty (n / 10 ^ Z.of_nat d) +:+ "." +:+ pad d (n mod 10 ^ Z.of_nat d))%string in
  match x with
  | S754_nan => "NaN"%string
  | S754_infinity neg => if neg then "-inf"%string else "inf"%string
  | S754_zero neg => show neg 0
  | S754_finite neg m e => show neg (round_scaled (Zpos m * 10 ^ Z.of_nat d) e)
  end.
(** [Duration::as_secs_f64] *)
Definition as_secs_f64 (d : Duration) : f64 :=
  fadd (f64_of_Z (d / 1000000000)) (fdiv (f64_of_Z (d mod 1000000000)) (f64_of_Z 1000000000)).

Example parse_f64_values :
  (parse_f64 "350735.47", parse_f64 "-.5e1", parse_f64 "1e", parse_f64 ".", match parse_f64 "350735.47" with Some x => Some (frem x 86400) | None => None end) =
  (Some (lit 35073547 100), Some (f64_of_Z (-5)), None, None, Some (fsub (lit 35073547 100) (f64_of_Z 345600))).
Proof. vm_compute. reflexivity. Qed.
Example format_fixed_ties :
  (format_fixed 1 (lit 1 4), format_fixed 1 (lit 3 4), format_fixed 2 (fmul (lit 1 10) (f64_of_Z (-5))),
   format_fixed 1 (fmul (as_secs_f64 12345678) (f64_of_Z 1000)))
  = ("0.2", "0.8", "-0.50", "12.3")%string.
Proof. vm_compute. reflexivity. Qed.

(** ** Integers below 2^53 are exact *)

(** [p * 2^n] *)
Definition dbl (n : nat) (p : positive) : positive := Nat.iter n xO p.
Lemma dbl_dbl m n p : dbl m (dbl n p) = dbl (m + n) p.
Proof. unfold dbl. by rewrite Nat.iter_add. Qed.
Lemma dbl_value n p : Z.pos (dbl n p) = Z.pos p * 2 ^ Z.of_nat n.
Proof.
  induction n as [|n IH]; [cbn; lia|]. unfold dbl in *. rewrite Nat.iter_succ, Pos2Z.inj_xO, IH.
  rewrite Nat2Z.inj_succ, Z.pow_succ_r by lia. lia.
Qed.
Abbreviation digits p := (Z.pos (digits2_pos p)).
Lemma digits_dbl n p : digits (dbl n p) = digits p + Z.of_nat n.
Proof.
  induction n as [|n IH]; [cbn; lia|]. unfold dbl in *. rewrite Nat.iter_succ. cbn [digits2_pos].
  rewrite Pos2Z.inj_succ, IH. lia.
Qed.
Lemma digits_spec p : 2 ^ (digits p - 1) <= Z.pos p < 2 ^ digits p.
Proof.
  induction p as [p IH|p IH|]; cbn [digits2_pos]; [| |by cbn].
  all: rewrite Pos2Z.inj_succ, Z.pow_succ_r by lia;
    replace (Z.succ (digits p) - 1) with (Z.succ (digits p - 1)) by lia; rewrite Z.pow_succ_r by lia; lia.
Qed.
Lemma digits_mono p q : Z.pos p <= Z.pos q → digits p <= digits q.
Proof.
  intros Hpq. pose proof (digits_spec p). pose proof (digits_spec q).
  assert (digits p - 1 < digits q) by (apply (Z.pow_lt_mono_r_iff 2); lia). lia.
Qed.
Lemma digits_le_53 p : Z.pos p < 2 ^ 53 → digits p <= 53.
Proof.
  intros Hp. pose proof (digits_spec p).
  assert (digits p - 1 < 53) by (apply (Z.pow_lt_mono_r_iff 2); lia). lia.
Qed.

Lemma iter_pos_nat {A} (f : A → A) n x : SpecFloat.iter_pos f n x = Nat.iter (Pos.to_nat n) f x.
Proof.
  trans (Pos.iter f x n); [|by rewrite Pos2Nat.inj_iter]. revert x. induction n as [n IH|n IH|]; intros x; cbn [SpecFloat.iter_pos Pos.iter]; [| |done].
  - by rewrite !IH, <-!Pos.iter_swap.
  - by rewrite !IH.
Qed.
Lemma shr_exact n m :
  Nat.iter n shr_1 (Build_shr_record (Z.pos (dbl n m)) false false) = Build_shr_record (Z.pos m) false false.
Proof. induction n as [|n IH]; [done|]. rewrite Nat.iter_succ_r. exact IH. Qed.
Lemma shr_fexp_exact n m e :
  digits m = 53 → -1074 <= e →
  shr_fexp 53 1024 (Z.pos (dbl n m)) (e - Z.of_nat n) loc_Exact = (Build_shr_record (Z.pos m) false false, e).
Proof.
  intros Hm He. unfold shr_fexp, fexp, emin. cbn [Zdigits2 shr_record_of_loc]. rewrite digits_dbl, Hm.
  replace (Z.max (53 + Z.of_nat n + (e - Z.of_nat n) - 53) (3 - 1024 - 53) - (e - Z.of_nat n)) with (Z.of_nat n) by lia.
  unfold shr. destruct n as [|n]; [cbn [Z.of_nat dbl Nat.iter]; f_equal; lia|].
  change (Z.of_nat (S n)) with (Z.pos (Pos.of_succ_nat n)). cbv beta iota. rewrite iter_pos_nat, SuccNat2Pos.id_succ, shr_exact.
  f_equal. lia.
Qed.
(** A mantissa of 53 digits is kept by rounding, after any exact shift. *)
Lemma round_aux_exact n m e :
  digits m = 53 → -1074 <= e <= 971 →
  binary_round_aux 53 1024 false (Z.pos (dbl n m)) (e - Z.of_nat n) loc_Exact = S754_finite false m e.
Proof.
  intros Hm He. unfold binary_round_aux. rewrite shr_fexp_exact by (done || lia).
  cbn [shr_m loc_of_shr_record round_nearest_even].
  pose proof (shr_fexp_exact 0 m e Hm) as H0. change (dbl 0 m) with m in H0. rewrite Z.sub_0_r in H0.
  rewrite H0 by lia. cbn [shr_m]. rewrite (proj2 (Z.leb_le e (1024 - 53))) by lia. done.
Qed.

(** The number [p], for [p] below 2^53, with any exact scaling. *)
Definition f64_pos (p : positive) : f64 :=
  S754_finite false (dbl (Z.to_nat (53 - digits p)) p) (digits p - 53).
Lemma round_scaled_exact k p :
  digits p <= 53 → (k ≤ 1000)%nat →
  binary_round 53 1024 false (dbl k p) (- Z.of_nat k) = f64_pos p.
Proof.
  intros Hp Hk. unfold binary_round, f64_pos. set (d := digits p) in *. assert (1 <= d) by (unfold d; lia).
  set (m := dbl (Z.to_nat (53 - d)) p).
  assert (Hm : digits m = 53) by (unfold m; rewrite digits_dbl; fold d; lia).
  rewrite digits_dbl. fold d. unfold fexp, emin.
  replace (Z.max (d + Z.of_nat k + - Z.of_nat k - 53) (3 - 1024 - 53)) with (d - 53) by lia.
  unfold shl_align. destruct (decide (53 - d <= Z.of_nat k)) as [Hle|Hgt].
  - assert (Hs : match d - 53 - - Z.of_nat k with Z.neg _ => false | _ => true end = true)
      by (destruct (d - 53 - - Z.of_nat k) eqn:E; [done|done|lia]).
    destruct (d - 53 - - Z.of_nat k); [| |done].
    all: replace (dbl k p) with (dbl (k - Z.to_nat (53 - d)) m)
      by (unfold m; rewrite dbl_dbl; f_equal; lia);
      replace (- Z.of_nat k) with (d - 53 - Z.of_nat (k - Z.to_nat (53 - d))) by lia; by apply round_aux_exact; [|lia].
  - destruct (d - 53 - - Z.of_nat k) as [| |j] eqn:E; [lia..|].
    replace (Pos.iter xO (dbl k p) j) with (dbl (Pos.to_nat j) (dbl k p)) by by rewrite Pos2Nat.inj_iter.
    rewrite dbl_dbl.
    replace (Pos.to_nat j + k)%nat with (Z.to_nat (53 - d)) by lia. fold m.
    pose proof (round_aux_exact 0 m (d - 53) Hm) as Hr. change (dbl 0 m) with m in Hr.
    rewrite Z.sub_0_r in Hr. apply Hr. lia.
Qed.

Lemma f64_of_pos p : Z.pos p < 2 ^ 53 → f64_of_Z (Z.pos p) = f64_pos p.
Proof. intros Hp. apply (round_scaled_exact 0); [by apply digits_le_53|lia]. Qed.

(** [p] scaled to the exponent of a smaller number. *)
Lemma align_exact k p :
  digits p <= 53 → (Z.to_nat (53 - digits p) ≤ k)%nat →
  fst (shl_align (dbl (Z.to_nat (53 - digits p)) p) (digits p - 53) (- Z.of_nat k)) = dbl k p.
Proof.
  intros Hp Hk. unfold shl_align. destruct (- Z.of_nat k - (digits p - 53)) as [|j|j] eqn:E; cbn [fst].
  - f_equal. lia.
  - lia.
  - replace (Pos.iter xO (dbl (Z.to_nat (53 - digits p)) p) j)
      with (dbl (Pos.to_nat j) (dbl (Z.to_nat (53 - digits p)) p)) by by rewrite Pos2Nat.inj_iter.
    rewrite dbl_dbl. f_equal. lia.
Qed.
Lemma f64_sub_exact a b :
  0 <= b <= a → a < 2 ^ 53 → fsub (f64_of_Z a) (f64_of_Z b) = f64_of_Z (a - b).
Proof.
  intros Hb Ha. destruct b as [|q|]; [| |lia].
  { rewrite Z.sub_0_r. destruct a as [|p|]; [done| |lia]. by rewrite f64_of_pos. }
  destruct a as [|p|]; [lia| |lia]. rewrite !f64_of_pos by lia.
  pose proof (digits_le_53 p ltac:(lia)) as Hp. pose proof (digits_mono q p ltac:(lia)) as Hqp.
  pose proof (digits_spec q).
  set (k := Z.to_nat (53 - digits q)).
  assert (Hk : Z.min (digits p - 53) (digits q - 53) = - Z.of_nat k) by lia.
  unfold fsub, f64_pos, SFsub. cbn [cond_Zopp]. cbv zeta. rewrite Hk.
  rewrite align_exact by lia. rewrite align_exact by lia. rewrite !dbl_value.
  destruct (Z.pos p - Z.pos q) as [|r|] eqn:E; [| |lia].
  - replace (Z.pos p * _ - _) with 0 by nia. done.
  - replace (Z.pos p * 2 ^ Z.of_nat k - Z.pos q * 2 ^ Z.of_nat k) with (Z.pos (dbl k r)) by (rewrite dbl_value; nia).
    unfold binary_normalize. pose proof (digits_mono r p ltac:(lia)).
    rewrite round_scaled_exact by lia. by rewrite f64_of_pos by lia.
Qed.
Lemma f64_compare_exact a b :
  0 <= a < 2 ^ 53 → 0 <= b < 2 ^ 53 → SFcompare (f64_of_Z a) (f64_of_Z b) = Some (Z.compare a b).
Proof.
  intros Ha Hb. destruct a as [|p|], b as [|q|]; try lia; rewrite ?f64_of_pos by lia; try done.
  unfold f64_pos. cbn [SFcompare]. pose proof (digits_le_53 p ltac:(lia)). pose proof (digits_le_53 q ltac:(lia)).
  f_equal. destruct (Z.compare_spec (digits p - 53) (digits q - 53)) as [E|E|E].
  - change (Pos.compare_cont Eq ?x ?y) with (Z.compare (Z.pos x) (Z.pos y)).
    rewrite !dbl_value. replace (digits q) with (digits p) by lia.
    symmetry. apply Zmult_compare_compat_r. apply Z.lt_gt. apply Z.pow_pos_nonneg; lia.
  - symmetry. apply Z.compare_lt_iff. destruct (Z.lt_ge_cases (Z.pos p) (Z.pos q)) as [|Hle]; [done|].
    apply digits_mono in Hle. lia.
  - symmetry. apply Z.compare_gt_iff. destruct (Z.lt_ge_cases (Z.pos q) (Z.pos p)) as [|Hle]; [done|].
    apply digits_mono in Hle. lia.
Qed.
Lemma f64_add_zero a : 0 <= a < 2 ^ 53 → fadd (f64_of_Z a) (S754_zero false) = f64_of_Z a.
Proof. intros Ha. destruct a as [|p|]; [done| |lia]. by rewrite f64_of_pos by lia. Qed.

(** ** The order *)

(** [x >= y], [x > y] *)
Definition fge (x y : f64) : bool :=
  match SFcompare x y with Some (Gt | Eq) => true | _ => false end.
(** Whatever lies above [y] is above what is not above it. *)
Lemma fge_flt_trans x y z : fge x y = true → flt z y = true → flt z x = true.
Proof.
  unfold fge, flt. destruct x as [sx|sx| |sx mx ex], y as [sy|sy| |sy my ey], z as [sz|sz| |sz mz ez];
    cbn [SFcompare]; repeat match goal with b : bool |- _ => destruct b end; try done;
    change (Pos.compare_cont Eq ?a ?b) with (Pos.compare a b) in *;
    destruct (Z.compare_spec ex ey), (Z.compare_spec ez ey), (Z.compare_spec ez ex); try done; try lia;
    try (destruct (Pos.compare_spec mx my); done || lia);
    destruct (Pos.compare_spec mx my), (Pos.compare_spec mz my), (Pos.compare_spec mz mx); cbn; try done; lia.
Qed.
