(* ===== verification/Multipath.v ===== *)
(** * Multipath: fragments over several paths

    Models crates/vpn/src/vpn/multipath.rs: the paths and their quality, the
    splitting of data into fragments and their distribution, and the receiver's
    [ReorderBuffer].  The order in which a HashMap is listed is that of
    [map_to_list]; [now] is the monotonic clock. *)
From Stdlib Require Import Floats.SpecFloat.
From S2P Require Import Prelude Identity Float.

Definition DEFAULT_FRAGMENT_SIZE : Z := 1400.
Definition DEFAULT_ACK_TIMEOUT_MS : Z := 3000.
Definition DEFAULT_MAX_RETRANSMITS : Z := 3.
Definition LATENCY_WEIGHT : f64 := lit 7 10.
Definition HOP_WEIGHT : f64 := lit 3 10.
Definition HOP_PENALTY : f64 := f64_of_Z 100.

Abbreviation PathId := Z.
Abbreviation SeqNumber := Z.
Record Fragment := mkFragment {
  frag_seq : SeqNumber; frag_stream : Z; frag_data : list byte; total_fragments : Z }.
Inductive PathState := Active | Degraded | Dead.
#[export] Instance PathState_eq_dec : EqDecision PathState.
Proof. solve_decision. Defined.
Record PathInfo := mkPath {
  path_id : PathId; path_target : NodeID; path_addr : string; hop_count : Z;
  latency_ms : f64; score : f64; weight : f64; path_state : PathState;
  bytes_sent : Z; bytes_acked : Z; lost_packets : Z;
  last_updated : Instant; last_active : Instant }.

Module PathInfo.
Definition calculate_score (latency : f64) (hops : Z) : f64 :=
  fadd (fmul latency LATENCY_WEIGHT) (fmul (fmul (f64_of_Z hops) HOP_PENALTY) HOP_WEIGHT).
Definition update_metrics (p : PathInfo) : PathInfo :=
  let s := calculate_score (latency_ms p) (hop_count p) in
  let w := fmax (fmin (fdiv (f64_of_Z 1) (fmax s (f64_of_Z 1))) (f64_of_Z 1)) (lit 1 10) in
  mkPath (path_id p) (path_target p) (path_addr p) (hop_count p) (latency_ms p) s w (path_state p)
    (bytes_sent p) (bytes_acked p) (lost_packets p) (last_updated p) (last_active p).
Definition update_latency (now : Instant) (latency : f64) (p : PathInfo) : PathInfo :=
  update_metrics (mkPath (path_id p) (path_target p) (path_addr p) (hop_count p)
    (fadd (fmul (latency_ms p) (lit 7 10)) (fmul latency (lit 3 10))) (score p) (weight p)
    (path_state p) (bytes_sent p) (bytes_acked p) (lost_packets p) (last_updated p) now).
Definition record_loss (p : PathInfo) : PathInfo :=
  let lost := wrap 32 (lost_packets p + 1) in
  let st := if 5 <? lost then Degraded else path_state p in
  let st := if 20 <? lost then Dead else st in
  mkPath (path_id p) (path_target p) (path_addr p) (hop_count p) (latency_ms p) (score p) (weight p)
    st (bytes_sent p) (bytes_acked p) lost (last_updated p) (last_active p).
Definition record_ack (now : Instant) (bytes : Z) (p : PathInfo) : PathInfo :=
  mkPath (path_id p) (path_target p) (path_addr p) (hop_count p) (latency_ms p) (score p) (weight p)
    Active (bytes_sent p) (wrap 64 (bytes_acked p + bytes)) (lost_packets p) (last_updated p) now.
End PathInfo.

(** ** The receiver *)

Record ReorderBuffer := mkReorder {
  buffer : gmap SeqNumber (list byte); expected_seq : SeqNumber; max_size : nat; timeout : Duration }.

Module ReorderBuffer.
Implicit Types b : ReorderBuffer.
Definition new (max_size : nat) : ReorderBuffer :=
  mkReorder ∅ 0 max_size (from_millis DEFAULT_ACK_TIMEOUT_MS).
(** The loop: every round but the last takes an entry from the buffer. *)
Fixpoint drain (fuel : nat) (buf : gmap SeqNumber (list byte)) (expected : SeqNumber)
    : list (list byte) * gmap SeqNumber (list byte) * SeqNumber :=
  match fuel with
  | O => ([], buf, expected)
  | S fuel =>
      match buf !! expected with
      | Some next_data =>
          let '(out, buf, expected') := drain fuel (delete expected buf) (wrap 64 (expected + 1)) in
          (next_data :: out, buf, expected')
      | None => ([], buf, expected)
      end
  end.
Definition insert (seq : SeqNumber) (data : list byte) b : option (list (list byte)) * ReorderBuffer :=
  if seq <? expected_seq b then (None, b)
  else if seq =? expected_seq b then
    let '(out, buf, expected) := drain (size (buffer b)) (buffer b) (wrap 64 (expected_seq b + 1)) in
    (Some (data :: out), mkReorder buf expected (max_size b) (timeout b))
  else if (size (buffer b) <? max_size b)%nat
  then (None, mkReorder (<[seq := data]> (buffer b)) (expected_seq b) (max_size b) (timeout b))
  else (None, b).
Definition buffered_count b : nat := size (buffer b).
Definition buffered_sequences b : list SeqNumber := merge_sort Z.le (map_to_list (buffer b)).*1.
(** [self.buffer.keys().min()] *)
Definition min_seq b : option SeqNumber := head (buffered_sequences b).
Definition has_timeout b : bool :=
  match min_seq b with Some m => wrap 64 (expected_seq b + 10) <? m | None => false end.
Definition skip_lost b : Z * ReorderBuffer :=
  match min_seq b with
  | Some m =>
      if expected_seq b <? m
      then (m - expected_seq b, mkReorder (buffer b) m (max_size b) (timeout b))
      else (0, b)
  | None => (0, b)
  end.
Definition clear b : ReorderBuffer := mkReorder ∅ 0 (max_size b) (timeout b).
Definition set_timeout (t : Duration) b : ReorderBuffer :=
  mkReorder (buffer b) (expected_seq b) (max_size b) t.
End ReorderBuffer.

(** ** The sender *)

Record MultiPathManager := mkMultiPath {
  mp_local_id : NodeID; paths : gmap PathId PathInfo; reorder_buffer : ReorderBuffer;
  next_path_id : Z; next_seq : Z; fragment_size : Z; ack_timeout : Duration; max_retransmits : Z }.

Module MultiPathManager.
Implicit Types m : MultiPathManager.
Definition new (local_id : NodeID) : MultiPathManager :=
  mkMultiPath local_id ∅ (ReorderBuffer.new 1024) 1 0 DEFAULT_FRAGMENT_SIZE
    (from_millis DEFAULT_ACK_TIMEOUT_MS) DEFAULT_MAX_RETRANSMITS.
Definition set_paths (ps : gmap PathId PathInfo) m : MultiPathManager :=
  mkMultiPath (mp_local_id m) ps (reorder_buffer m) (next_path_id m) (next_seq m) (fragment_size m)
    (ack_timeout m) (max_retransmits m).
Definition set_next_seq (n : Z) m : MultiPathManager :=
  mkMultiPath (mp_local_id m) (paths m) (reorder_buffer m) (next_path_id m) n (fragment_size m)
    (ack_timeout m) (max_retransmits m).
Definition set_fragment_size (n : Z) m : MultiPathManager :=
  mkMultiPath (mp_local_id m) (paths m) (reorder_buffer m) (next_path_id m) (next_seq m) n
    (ack_timeout m) (max_retransmits m).

Definition add_path (now : Instant) (target : NodeID) (addr : string) (hops : Z) m
    : PathId * MultiPathManager :=
  let id := next_path_id m in
  let info := mkPath id target addr hops (f64_of_Z 50) (PathInfo.calculate_score (f64_of_Z 50) hops)
                (f64_of_Z 1) Active 0 0 0 now now in
  (id, mkMultiPath (mp_local_id m) (<[id := info]> (paths m)) (reorder_buffer m) (wrap 64 (id + 1))
         (next_seq m) (fragment_size m) (ack_timeout m) (max_retransmits m)).
Definition remove_path (id : PathId) m : option PathInfo * MultiPathManager :=
  (paths m !! id, set_paths (delete id (paths m)) m).
Definition path_count m : nat := size (paths m).
Definition all_paths m : list PathInfo := (map_to_list (paths m)).*2.
Definition active_paths m : list PathInfo := filter (λ p, path_state p ≠ Dead) (all_paths m).
Definition active_path_count m : nat := length (active_paths m).
Definition path_score (id : PathId) m : option f64 := score <$> paths m !! id.
Definition update_path_latency (now : Instant) (id : PathId) (latency : f64) m : MultiPathManager :=
  set_paths (alter (PathInfo.update_latency now latency) id (paths m)) m.
Definition record_ack (now : Instant) (id : PathId) (bytes : Z) m : MultiPathManager :=
  set_paths (alter (PathInfo.record_ack now bytes) id (paths m)) m.
Definition record_loss (id : PathId) m : MultiPathManager :=
  set_paths (alter PathInfo.record_loss id (paths m)) m.

(** The pieces of [n] bytes; the fuel is the length of the data. *)
Fixpoint pieces (fuel : nat) (n : nat) (data : list byte) : list (list byte) :=
  match fuel, data with
  | S fuel, _ :: _ => take n data :: pieces fuel n (drop n data)
  | _, _ => []
  end.
Fixpoint number (seq : SeqNumber) (ps : list (list byte)) : list (SeqNumber * list byte) :=
  match ps with [] => [] | p :: ps => (seq, p) :: number (wrap 64 (seq + 1)) ps end.
(** [None]: a fragment size of 0 divides by zero.  The sum that rounds the number of fragments up wraps. *)
Definition fragment_data (data : list byte) m : option (list (SeqNumber * list byte) * MultiPathManager) :=
  let n := fragment_size m in
  if n =? 0 then None else
  Some (number (next_seq m) (pieces (length data) (Z.to_nat n) data),
        set_next_seq (wrap 64 (next_seq m + wrap 64 (len data + n - 1) / n)) m).

(** The path of a fragment: [p] with the accumulated weight, or one after it. *)
Fixpoint choose (seq : SeqNumber) (p : PathInfo) (accum : f64) (rest : list PathInfo)
    : PathInfo * f64 * list PathInfo :=
  match rest with
  | q :: rest' =>
      if flt accum (f64_of_Z seq) then choose seq q (fadd accum (weight q)) rest' else (p, accum, rest)
  | [] => (p, accum, [])
  end.
Fixpoint assign (stream_id total : Z) (p : PathInfo) (accum : f64) (rest : list PathInfo)
    (fs : list (SeqNumber * list byte)) : list (PathId * Fragment) :=
  match fs with
  | [] => []
  | (seq, data) :: fs =>
      let '(p, accum, rest) := choose seq p accum rest in
      (path_id p, mkFragment seq stream_id data total) :: assign stream_id total p accum rest fs
  end.
Definition send_via_paths (data : list byte) (stream_id : Z) m
    : option (list (PathId * Fragment) * MultiPathManager) :=
  match active_paths m with
  | [] => Some ([], m)
  | p :: rest =>
      '(fs, m) ← fragment_data data m;
      Some (assign stream_id (wrap 32 (len fs)) p (weight p) rest fs, m)
  end.
End MultiPathManager.
Import MultiPathManager.

(** ** Reassembly *)

(** What a buffer hands out for a sequence of arrivals. *)
Fixpoint receive (l : list Fragment) (b : ReorderBuffer) : list byte * ReorderBuffer :=
  match l with
  | [] => ([], b)
  | f :: l =>
      let '(out, b) := ReorderBuffer.insert (frag_seq f) (frag_data f) b in
      let '(bytes, b) := receive l b in
      (mjoin (default [] out) ++ bytes, b)
  end.

Section Reassembly.
(** The stream: pieces numbered from [s], without wrap-around. *)
Context (s : Z) (ps : list (list byte)).
Context (Hs : 0 <= s) (Hfit : s + len ps < 2 ^ 64).

(** The entries of [buf] are pieces from the [k]-th on. *)
Definition holds (k : nat) (buf : gmap SeqNumber (list byte)) : Prop :=
  ∀ q d, buf !! q = Some d → ∃ i, q = s + Z.of_nat i ∧ (k <= i)%nat ∧ ps !! i = Some d.
(** Piece [i] was handed out or is in the buffer. *)
Definition has (k : nat) (buf : gmap SeqNumber (list byte)) (i : nat) : Prop :=
  (i < k)%nat ∨ is_Some (buf !! (s + Z.of_nat i)).

Lemma holds_size k buf : holds k buf → (size buf <= length ps - k)%nat.
Proof.
  intros Hb. rewrite <-size_dom.
  etransitivity; [apply (subseteq_size _ (list_to_set ((λ i, s + Z.of_nat i) <$> seq k (length ps - k))))|].
  - intros q Hq. apply elem_of_dom in Hq as [d Hd]. destruct (Hb _ _ Hd) as (i & -> & Hk & Hi).
    apply elem_of_list_to_set, list_elem_of_fmap. exists i. split; [done|]. apply elem_of_seq.
    apply lookup_lt_Some in Hi. lia.
  - rewrite size_list_to_set; [by rewrite length_fmap, length_seq|].
    apply NoDup_fmap_2; [intros i j; lia|apply NoDup_seq].
Qed.

Lemma reorder_drain_spec fuel buf k :
  holds k buf → (k <= length ps)%nat → (size buf <= fuel)%nat →
  ∃ k' buf', ReorderBuffer.drain fuel buf (s + Z.of_nat k)
      = (take (k' - k) (drop k ps), buf', s + Z.of_nat k')
    ∧ (k <= k' <= length ps)%nat ∧ holds (S k') buf'
    ∧ ∀ i, has k' buf' i ↔ has k buf i.
Proof.
  revert buf k. induction fuel as [|fuel IH]; intros buf k Hb Hk Hf.
  - assert (buf = ∅) as -> by (apply map_size_empty_inv; lia).
    exists k, ∅. rewrite Nat.sub_diag. split_and!; try done.
  - cbn [ReorderBuffer.drain]. destruct (buf !! (s + Z.of_nat k)) as [d|] eqn:E.
    + destruct (Hb _ _ E) as (i & Hi & _ & Hd). assert (i = k) as -> by lia.
      pose proof (lookup_lt_Some _ _ _ Hd) as Hlt.
      rewrite wrap_id by (unfold fits; lia).
      replace (s + Z.of_nat k + 1) with (s + Z.of_nat (S k)) by lia.
      destruct (IH (delete (s + Z.of_nat k) buf) (S k)) as (k' & buf' & Ed & Hk' & Hb' & Hh).
      * intros q d' [Hne Hq]%lookup_delete_Some. destruct (Hb _ _ Hq) as (i & -> & Hi' & Hd').
        exists i. split_and!; [done| |done]. assert (i ≠ k) by (intros ->; done). lia.
      * lia.
      * pose proof (map_size_delete_Some (s + Z.of_nat k) buf (mk_is_Some _ _ E)). lia.
      * rewrite Ed. exists k', buf'. split_and!; try done; try lia.
        -- f_equal. f_equal. rewrite (drop_S _ _ _ Hd).
           by replace (k' - k)%nat with (S (k' - S k)) by lia.
        -- intros i. rewrite Hh. unfold has. rewrite lookup_delete. case_decide as Hi'.
           ++ assert (i = k) as -> by lia. rewrite E. split; [right; by eexists|]. left. lia.
           ++ assert (i ≠ k) by (intros ->; done). intuition lia.
    + exists k, buf. rewrite Nat.sub_diag. split_and!; try done.
      intros q d Hq. destruct (Hb _ _ Hq) as (i & -> & Hi & Hd). exists i. split_and!; [done| |done].
      assert (i ≠ k) by (intros ->; congruence). lia.
Qed.

(** A buffer that has handed out the first [k] pieces. *)
Definition delivered (k : nat) (b : ReorderBuffer) : Prop :=
  expected_seq b = s + Z.of_nat k ∧ (k <= length ps)%nat ∧ (length ps <= max_size b)%nat
  ∧ holds (S k) (buffer b).

Lemma insert_spec k b i d :
  delivered k b → ps !! i = Some d →
  ∃ k' out b', ReorderBuffer.insert (s + Z.of_nat i) d b = (out, b') ∧ delivered k' b'
    ∧ (k <= k')%nat ∧ default [] out = take (k' - k) (drop k ps)
    ∧ ∀ j, has k' (buffer b') j ↔ has k (buffer b) j ∨ j = i.
Proof.
  intros (He & Hk & Hm & Hb) Hd. pose proof (lookup_lt_Some _ _ _ Hd) as Hi.
  unfold ReorderBuffer.insert. rewrite He.
  destruct (Z.ltb_spec (s + Z.of_nat i) (s + Z.of_nat k)).
  { exists k, None, b. rewrite Nat.sub_diag. split_and!; try done.
    intros j. unfold has. split; [by left|]. intros [?| ->]; [done|]. left. lia. }
  destruct (Z.eqb_spec (s + Z.of_nat i) (s + Z.of_nat k)) as [E|E].
  - assert (i = k) as -> by lia. rewrite wrap_id by (unfold fits; lia).
    replace (s + Z.of_nat k + 1) with (s + Z.of_nat (S k)) by lia.
    destruct (reorder_drain_spec (size (buffer b)) (buffer b) (S k) Hb ltac:(lia) ltac:(lia))
      as (k' & buf' & -> & Hk' & Hb' & Hh).
    eexists k', _, _. split; [done|]. split_and!; try done; try lia.
    + by split_and!; [|lia|..].
    + cbn [default]. rewrite (drop_S _ _ _ Hd). by replace (k' - k)%nat with (S (k' - S k)) by lia.
    + intros j. cbn [buffer]. rewrite Hh. unfold has. intuition lia.
  - rewrite (proj2 (Nat.ltb_lt _ _)) by (pose proof (holds_size _ _ Hb); lia).
    exists k, None, (mkReorder (<[s + Z.of_nat i := d]> (buffer b)) (s + Z.of_nat k) (max_size b) (timeout b)).
    rewrite Nat.sub_diag. split_and!; try done.
    + split_and!; try done. cbn [buffer]. intros q d'. rewrite lookup_insert_Some.
      intros [[<- <-]|[_ Hq]]; [|by apply Hb]. exists i. split_and!; [done|lia|done].
    + intros j. cbn [buffer]. unfold has. rewrite lookup_insert. case_decide as Ej.
      * assert (j = i) as -> by lia. intuition.
      * assert (j ≠ i) by (intros ->; done). intuition.
Qed.

Lemma receive_spec l k b :
  delivered k b →
  (∀ f, f ∈ l → ∃ i, frag_seq f = s + Z.of_nat i ∧ ps !! i = Some (frag_data f)) →
  ∃ k' b', receive l b = (mjoin (take (k' - k) (drop k ps)), b') ∧ delivered k' b' ∧ (k <= k')%nat
    ∧ ∀ j, has k' (buffer b') j ↔ has k (buffer b) j ∨ ∃ f, f ∈ l ∧ frag_seq f = s + Z.of_nat j.
Proof.
  revert k b. induction l as [|f l IH]; intros k b Hd Hl.
  - exists k, b. rewrite Nat.sub_diag. split_and!; try done. intros j. split; [by left|].
    intros [?|(f & Hf & _)]; [done|by apply not_elem_of_nil in Hf].
  - cbn [receive]. destruct (Hl f ltac:(by left)) as (i & Ei & Hi). rewrite Ei.
    destruct (insert_spec k b i _ Hd Hi) as (k1 & out & b1 & -> & Hd1 & Hk1 & Hout & Hh1).
    destruct (IH k1 b1 Hd1 ltac:(intros f' Hf'; apply Hl; by right)) as (k2 & b2 & -> & Hd2 & Hk2 & Hh2).
    exists k2, b2. split_and!; [|done|lia|].
    + rewrite Hout, <-join_app. do 2 f_equal.
      replace (drop k1 ps) with (drop (k1 - k) (drop k ps)) by (rewrite drop_drop; f_equal; lia).
      rewrite take_take_drop. f_equal. lia.
    + intros j. rewrite Hh2, Hh1. split.
      * intros [[?| ->]|(f' & ? & ?)]; [by left|right; exists f; split; [by left|done]|].
        right. exists f'. split; [by right|done].
      * intros [?|(f' & [->|Hf']%elem_of_cons & E)]; [by left; left|left; right; lia|].
        right. by exists f'.
Qed.

(** Once every piece has arrived, everything was handed out. *)
Lemma all_delivered k b :
  delivered k b → (∀ i, (i < length ps)%nat → has k (buffer b) i) →
  k = length ps ∧ buffer b = ∅.
Proof.
  intros (_ & Hk & _ & Hb) Hall. assert (k = length ps) as ->.
  { destruct (decide (k = length ps)) as [|Hne]; [done|]. exfalso.
    destruct (Hall k ltac:(lia)) as [?|[d Hd]]; [lia|].
    destruct (Hb _ _ Hd) as (i & ? & ? & _). lia. }
  split; [done|]. apply map_eq. intros q. rewrite lookup_empty.
  destruct (buffer b !! q) as [d|] eqn:E; [|done].
  destruct (Hb _ _ E) as (i & _ & Hi & Hd%lookup_lt_Some). lia.
Qed.
End Reassembly.

(** ** Splitting *)

Lemma pieces_join fuel n data :
  (0 < n)%nat → (length data <= fuel)%nat → mjoin (pieces fuel n data) = data.
Proof.
  intros Hn. revert data. induction fuel as [|fuel IH]; intros [|b data] Hf; try done; [cbn in Hf; lia|].
  change (take n (b :: data) ++ mjoin (pieces fuel n (drop n (b :: data))) = b :: data).
  rewrite IH by (rewrite length_drop; cbn in *; lia). apply take_drop.
Qed.
Lemma length_pieces fuel n data :
  (0 < n)%nat → (length data <= fuel)%nat →
  len (pieces fuel n data) = (len data + Z.of_nat n - 1) / Z.of_nat n.
Proof.
  intros Hn. revert data. induction fuel as [|fuel IH]; intros [|b data] Hf; [| |  |].
  1,3: cbn [pieces length]; symmetry; apply Z.div_small; lia.
  { cbn in Hf. lia. }
  cbn [pieces]. set (d := b :: data). cbn [length]. rewrite Nat2Z.inj_succ, IH by (subst d; rewrite length_drop; cbn in *; lia).
  rewrite length_drop. destruct (Nat.le_gt_cases n (length d)).
  - rewrite Nat2Z.inj_sub by done.
    replace (len d + Z.of_nat n - 1) with (len d - Z.of_nat n + Z.of_nat n - 1 + 1 * Z.of_nat n) by lia.
    rewrite Z.div_add by lia. lia.
  - replace (length d - n)%nat with 0%nat by lia. rewrite Z.div_small by lia. symmetry.
    assert (0 < length d)%nat by (subst d; cbn; lia).
    rewrite <-(Z.div_unique (len d + Z.of_nat n - 1) (Z.of_nat n) 1 (len d - 1)); [done|left|]; lia.
Qed.
Lemma number_lookup s l i :
  0 <= s → s + len l < 2 ^ 64 → number s l !! i = (s + Z.of_nat i,.) <$> l !! i.
Proof.
  revert s i. induction l as [|p l IH]; intros s i Hs Hf; [done|]. cbn [number length] in *.
  rewrite wrap_id by (unfold fits; lia). destruct i as [|i]; cbn [lookup list_lookup].
  - cbn. by rewrite Z.add_0_r.
  - rewrite IH by lia. destruct (l !! i); cbn; [|done]. do 2 f_equal. lia.
Qed.
Lemma length_number s l : length (number s l) = length l.
Proof. revert s. induction l as [|p l IH]; intros s; cbn; [done|]. by rewrite IH. Qed.
Lemma assign_fragments stream total p accum rest fs :
  (assign stream total p accum rest fs).*2 = (λ '(q, d), mkFragment q stream d total) <$> fs.
Proof.
  revert p accum rest. induction fs as [|[q d] fs IH]; intros p accum rest; [done|]. cbn [assign].
  destruct (choose q p accum rest) as [[p' accum'] rest']. rewrite !fmap_cons. by rewrite IH.
Qed.

(** C18: Fragments reassemble.  With a fragment size for which the number of fragments is counted without
    overflow, and sequence numbers that do not wrap, data sent over the paths that are not dead, whichever path each
    fragment takes, is handed out exactly by an empty reorder buffer that expects the first
    fragment and has room for all of them, in whatever order the fragments arrive and however
    often each is repeated; the buffer then expects the next message.  As long as fragments are
    missing, what was handed out is a prefix of the data. *)
Theorem multipath_reassembly m data stream_id :
  active_paths m ≠ [] → 0 < fragment_size m → len data + fragment_size m <= 2 ^ 64 →
  0 <= next_seq m → next_seq m + (len data + fragment_size m - 1) / fragment_size m < 2 ^ 64 →
  ∃ sent m', send_via_paths data stream_id m = Some (sent, m')
    ∧ ∀ b l, buffer b = ∅ → expected_seq b = next_seq m → (length sent <= max_size b)%nat →
      (∀ f, f ∈ l → f ∈ sent.*2) →
      (receive l b).1 `prefix_of` data
      ∧ ((∀ f, f ∈ sent.*2 → f ∈ l) →
          (receive l b).1 = data ∧ buffer (receive l b).2 = ∅
          ∧ expected_seq (receive l b).2 = next_seq m').
Proof.
  intros Ha Hn Hw Hs Hf. unfold send_via_paths. destruct (active_paths m) as [|p rest]; [done|].
  unfold fragment_data. rewrite (proj2 (Z.eqb_neq _ _)) by lia. cbn [mbind option_bind].
  set (n := Z.to_nat (fragment_size m)). set (ps := pieces (length data) n data).
  assert (Hlen : len ps = (len data + fragment_size m - 1) / fragment_size m).
  { subst ps. rewrite length_pieces by (subst n; lia). subst n. by rewrite Z2Nat.id by lia. }
  eexists _, _. split; [done|]. intros b l Hb He Hm Hl.
  assert (Hfr : ∀ f, f ∈ (assign stream_id (wrap 32 (len (number (next_seq m) ps))) p (weight p) rest
      (number (next_seq m) ps)).*2 ↔ ∃ i d, ps !! i = Some d
      ∧ f = mkFragment (next_seq m + Z.of_nat i) stream_id d (wrap 32 (len (number (next_seq m) ps)))).
  { intros f. rewrite assign_fragments, list_elem_of_fmap. split.
    - intros ([q d] & -> & (i & E)%list_elem_of_lookup_1).
      rewrite number_lookup in E by lia. apply fmap_Some in E as (d' & Hd & [= -> ->]).
      exists i, d'. split; [done|]. by f_equal.
    - intros (i & d & Hd & ->). exists (next_seq m + Z.of_nat i, d). split; [done|].
      apply (list_elem_of_lookup_2 _ i). rewrite number_lookup by lia. by rewrite Hd. }
  assert (Hd : delivered (next_seq m) ps 0 b).
  { split_and!; [lia|lia| |].
    - etransitivity; [|exact Hm]. rewrite <-(length_fmap snd), assign_fragments.
      by rewrite length_fmap, length_number.
    - intros q d. by rewrite Hb, lookup_empty. }
  destruct (receive_spec (next_seq m) ps Hs ltac:(lia) l 0 b Hd) as (k & b' & -> & Hd' & _ & Hh).
  { intros f Hin. apply Hl, Hfr in Hin as (i & d & Hi & ->). by exists i. }
  assert (Hj : mjoin ps = data) by (apply pieces_join; subst n; lia).
  rewrite drop_0, Nat.sub_0_r. cbn [fst snd]. split.
  - exists (mjoin (drop k ps)). by rewrite <-join_app, take_drop.
  - intros Hall. destruct (all_delivered _ _ _ _ Hd') as [-> Hb'].
    + intros i Hi. apply Hh. right. apply lookup_lt_is_Some in Hi as [d Hi].
      eexists. split; [apply Hall, Hfr; by exists i, d|done].
    + rewrite take_ge by done. split_and!; [done..|]. destruct Hd' as [-> _].
      cbn [next_seq set_next_seq]. rewrite (wrap_id 64 (len data + _ - 1)), wrap_id by (unfold fits; lia). lia.
Qed.

(** With a larger fragment size the sum wraps to less than one fragment: the next message gets the sequence
    number of this one. *)
Lemma oversized_fragment_repeats_seq m data stream_id p rest :
  active_paths m = p :: rest → data ≠ [] → len data < 2 ^ 63 → 0 <= next_seq m < 2 ^ 64 →
  fragment_size m < 2 ^ 64 < len data + fragment_size m →
  ∃ sent m', send_via_paths data stream_id m = Some (sent, m') ∧ sent ≠ [] ∧ next_seq m' = next_seq m.
Proof.
  intros Ha Hne Hl Hs [Hn Hw]. unfold send_via_paths. rewrite Ha. unfold fragment_data.
  rewrite (proj2 (Z.eqb_neq _ _)) by lia. cbn [mbind option_bind]. eexists _, _. split; [done|]. split.
  - destruct data as [|b l]; [done|]. cbn [length pieces number assign]. by destruct (choose _ _ _ _) as [[]].
  - cbn [next_seq set_next_seq]. assert (Hz : wrap 64 (len data + fragment_size m - 1) / fragment_size m = 0).
    { apply Z.div_small. unfold wrap.
      replace (len data + fragment_size m - 1) with (len data + fragment_size m - 1 - 2 ^ 64 + 1 * 2 ^ 64) by lia.
      rewrite Z.mod_add, Z.mod_small; lia. }
    rewrite Hz, Z.add_0_r. by apply wrap_id.
Qed.

(** A skip loses the rest.  When fragments are given up ([skip_lost]), the buffer waits for
    the number of its earliest fragment while it keeps that fragment: unless that very fragment
    is sent again, nothing is handed out any more, whatever arrives. *)
Theorem skip_lost_stalls b lowest l :
  ReorderBuffer.min_seq b = Some lowest → expected_seq b < lowest →
  (∀ f, f ∈ l → frag_seq f ≠ lowest) →
  let b' := (ReorderBuffer.skip_lost b).2 in
  (receive l b').1 = [] ∧ expected_seq (receive l b').2 = lowest
  ∧ is_Some (buffer (receive l b').2 !! lowest).
Proof.
  intros Hm Hlt Hl b'.
  assert (Hb' : expected_seq b' = lowest ∧ is_Some (buffer b' !! lowest)).
  { subst b'. unfold ReorderBuffer.skip_lost. rewrite Hm, (proj2 (Z.ltb_lt _ _)) by done.
    split; [done|]. cbn [snd buffer]. unfold ReorderBuffer.min_seq, ReorderBuffer.buffered_sequences in Hm.
    apply elem_of_dom. apply head_Some_elem_of in Hm. rewrite merge_sort_Permutation in Hm.
    apply list_elem_of_fmap in Hm as ([q d] & -> & Hq%elem_of_map_to_list). apply elem_of_dom.
    by eexists. }
  clearbody b'. clear Hm Hlt. revert b' Hb'. induction l as [|f l IH]; intros b' [He Hs]; [done|].
  cbn [receive]. assert (Hne : frag_seq f ≠ lowest) by (apply Hl; by left).
  assert (Hins : ∃ b1, ReorderBuffer.insert (frag_seq f) (frag_data f) b' = (None, b1)
    ∧ expected_seq b1 = lowest ∧ is_Some (buffer b1 !! lowest)).
  { unfold ReorderBuffer.insert. rewrite He. destruct (frag_seq f <? lowest); [by eexists|].
    rewrite (proj2 (Z.eqb_neq _ _)) by done. destruct (_ <? _)%nat; [|by eexists].
    eexists. split; [done|]. split; [done|]. cbn [buffer]. by rewrite lookup_insert_ne. }
  destruct Hins as (b1 & -> & H1 & H2).
  destruct (IH ltac:(intros f' Hf'; apply Hl; by right) b1 (conj H1 H2)) as (E & ? & ?).
  destruct (receive l b1) as [out b2]. cbn [fst snd] in *. by subst out.
Qed.

(** ** Witnesses *)

Definition two_paths : MultiPathManager :=
  let m := set_fragment_size 2 (new zero32) in
  (add_path 0 zero32 "b" 2 (add_path 0 zero32 "a" 1 m).2).2.
Definition five_bytes : list byte := [Byte.x61; Byte.x62; Byte.x63; Byte.x64; Byte.x65].

Lemma multipath_reassembly_witness :
  ∃ sent m', send_via_paths five_bytes 7 two_paths = Some (sent, m') ∧ length sent = 3%nat
    ∧ (receive (rev (sent.*2)) (reorder_buffer two_paths)).1 = five_bytes
    ∧ expected_seq (receive (rev (sent.*2)) (reorder_buffer two_paths)).2 = next_seq m'.
Proof.
  destruct (multipath_reassembly two_paths five_bytes 7) as (sent & m' & E & Hr).
  - vm_compute. discriminate.
  - vm_compute. reflexivity.
  - vm_compute. discriminate.
  - vm_compute. discriminate.
  - vm_compute. reflexivity.
  - assert (Hl : length sent = 3%nat).
    { assert (E3 : (λ x, length x.1) <$> send_via_paths five_bytes 7 two_paths = Some 3%nat)
        by (vm_compute; reflexivity).
      rewrite E in E3. injection E3 as E3. exact E3. }
    exists sent, m'. split; [exact E|]. split; [exact Hl|].
    destruct (Hr (reorder_buffer two_paths) (rev (sent.*2))) as [_ Hall].
    + reflexivity.
    + reflexivity.
    + rewrite Hl. cbn. lia.
    + intros f Hf. by rewrite list_elem_of_In, <-in_rev, <-list_elem_of_In in Hf.
    + destruct Hall as (H1 & _ & H2); [|split; [exact H1|exact H2]].
      intros f Hf. by rewrite list_elem_of_In, <-in_rev, <-list_elem_of_In.
Defined.

Lemma skip_lost_stalls_witness :
  let b := mkReorder {[ 3 := [Byte.x61] ]} 0 8 0 in
  let b' := (ReorderBuffer.skip_lost b).2 in
  (ReorderBuffer.skip_lost b).1 = 3
  ∧ (receive [mkFragment 4 0 [Byte.x62] 6; mkFragment 5 0 [Byte.x63] 6] b').1 = [].
Proof.
  intros b b'. split; [vm_compute; reflexivity|].
  apply (skip_lost_stalls b 3 [mkFragment 4 0 [Byte.x62] 6; mkFragment 5 0 [Byte.x63] 6]).
  - vm_compute. reflexivity.
  - vm_compute. reflexivity.
  - intros f [->|[->|Hf%not_elem_of_nil]%elem_of_cons]%elem_of_cons; [discriminate..|done].
Defined.
