(* ===== verification/Multihop.v ===== *)
(** * Multihop: routes over other nodes

    Models crates/vpn/src/vpn/multihop.rs: [MultihopManager], whose routes are
    discovered in the DHT.  The DHT is shared with its other users: the
    operations take its current state ([None]: not bound).  The relay manager
    is only kept.  [now] is the monotonic clock. *)
From S2P Require Import Prelude Identity Router.
From S2P Require Dht.

Definition MAX_ROUTE_ENTRIES : nat := 1000.
Definition DEFAULT_ROUTE_TIMEOUT_SECS : Z := 300.
Definition METRIC_PER_HOP : Z := 100.
Definition METRIC_RELAY_PENALTY : Z := 50.
Definition METRIC_DIRECT_PENALTY : Z := 10.
Definition CLEANUP_INTERVAL_SECS : Z := 60.
Definition K_CANDIDATES_MAX : nat := 10.

Inductive RouteMessageType := RouteDiscovery | RouteReply | RouteError.
Module RouteMessageType.
Definition from_u8 (b : Z) : option RouteMessageType :=
  match b with 0x01 => Some RouteDiscovery | 0x02 => Some RouteReply | 0x03 => Some RouteError | _ => None end.
Definition to_u8 (t : RouteMessageType) : Z :=
  match t with RouteDiscovery => 0x01 | RouteReply => 0x02 | RouteError => 0x03 end.
End RouteMessageType.

Record MultiHopEntry := mkHop {
  hop_target : NodeID; via : NodeID; hop_count : Z; hop_metric : Z; hop_type : ConnectionType;
  hop_active : Instant; expires_at : Instant; candidates : list (NodeID * string) }.

Module MultiHopEntry.
Definition calculate_metric (hops : Z) (t : ConnectionType) : Z :=
  let base := hops * METRIC_PER_HOP in
  match t with
  | Relay => base + METRIC_RELAY_PENALTY
  | Lan | Vpn => base + METRIC_DIRECT_PENALTY
  | Unknown => base + 999
  end.
Definition new (now : Instant) (target next_hop : NodeID) (hops : Z) (t : ConnectionType)
    (cs : list (NodeID * string)) : MultiHopEntry :=
  mkHop target next_hop hops (calculate_metric hops t) t now
    (now + from_secs DEFAULT_ROUTE_TIMEOUT_SECS) cs.
Definition is_expired (now : Instant) (e : MultiHopEntry) : bool := expires_at e <=? now.
Definition set_expiry (t : Instant) (e : MultiHopEntry) : MultiHopEntry :=
  mkHop (hop_target e) (via e) (hop_count e) (hop_metric e) (hop_type e) (hop_active e) t (candidates e).
Definition refresh (now : Instant) (e : MultiHopEntry) : MultiHopEntry :=
  mkHop (hop_target e) (via e) (hop_count e) (hop_metric e) (hop_type e) now
    (now + from_secs DEFAULT_ROUTE_TIMEOUT_SECS) (candidates e).
Definition is_direct (e : MultiHopEntry) : bool := hop_count e =? 1.
End MultiHopEntry.
Import MultiHopEntry.

Record MultihopManager := mkMultihop {
  hop_local : NodeID; hops : gmap NodeID MultiHopEntry; max_entries : nat; last_cleanup : Instant }.

(** The first sixteen bytes of the XOR distance. *)
Definition xor_distance_u128 (a b : NodeID) : Z :=
  foldl (λ dist '(x, y), Z.lor (wrap 128 (Z.shiftl dist 8)) (Z.lxor (Z_of_byte x) (Z_of_byte y)))
    0 (take 16 (zip (arr_bytes a) (arr_bytes b))).

Module MultihopManager.
Implicit Types m : MultihopManager.
Definition new (now : Instant) (local_id : NodeID) : MultihopManager :=
  mkMultihop local_id ∅ MAX_ROUTE_ENTRIES now.
Definition set_hops (es : gmap NodeID MultiHopEntry) m : MultihopManager :=
  mkMultihop (hop_local m) es (max_entries m) (last_cleanup m).

(** The first entry of the least time of activity. *)
Definition by_activity (a b : NodeID * MultiHopEntry) : comparison :=
  Z.compare (hop_active a.2) (hop_active b.2).
Definition oldest m : option NodeID :=
  fst <$> head (sort_by by_activity (map_to_list (hops m))).
Definition insert_or_evict (e : MultiHopEntry) m : MultihopManager :=
  let es := hops m in
  if decide (is_Some (es !! hop_target e)) then set_hops (<[hop_target e := e]> es) m
  else if (size es <? max_entries m)%nat then set_hops (<[hop_target e := e]> es) m
  else
    let es := match oldest m with Some id => delete id es | None => es end in
    set_hops (<[hop_target e := e]> es) m.
Definition insert_route : MultiHopEntry → MultihopManager → MultihopManager := insert_or_evict.

Definition by_distance (target : NodeID) (a b : NodeID * string) : comparison :=
  Z.compare (xor_distance_u128 a.1 target) (xor_distance_u128 b.1 target).
Definition discover_route (now : Instant) (dht : option Dht.DhtManager) (target : NodeID) m
    : result unit RouterError * MultihopManager :=
  if decide (target = hop_local m) then (Err (InvalidData "cannot route to self"), m) else
  match dht with
  | None => (Err (SendFailed "DHT not bound"), m)
  | Some dht =>
      match sort_by (by_distance target) (Dht.DhtManager.find_node target dht) with
      | [] => (Err (NoRoute target), m)
      | (next_hop, _) :: others =>
          let '(count, t) := if decide (next_hop = target) then (1, Lan) else (2, Relay) in
          let fallback := take K_CANDIDATES_MAX (filter (λ c, c.1 ≠ next_hop) others) in
          (Ok tt, insert_or_evict (MultiHopEntry.new now target next_hop count t fallback) m)
      end
  end.

Definition add_direct_route (now : Instant) (target : NodeID) (addr : string) m : MultihopManager :=
  if decide (target = hop_local m) then m
  else insert_or_evict (MultiHopEntry.new now target target 1 Lan [(target, addr)]) m.
Definition find_route (now : Instant) (target : NodeID) m : option MultiHopEntry :=
  e ← hops m !! target; if is_expired now e then None else Some e.
Definition next_hop (now : Instant) (target : NodeID) m : result NodeID RouterError :=
  ok_or (via <$> find_route now target m) (NoRoute target).
Definition remove_route (target : NodeID) m : option MultiHopEntry * MultihopManager :=
  (hops m !! target, set_hops (delete target (hops m)) m).
Definition mark_invalid (now : Instant) (target : NodeID) m : MultihopManager :=
  set_hops (alter (set_expiry (now - from_secs 1)) target (hops m)) m.

Definition find_alternative (now : Instant) (target : NodeID) m
    : result unit RouterError * MultihopManager :=
  match hops m !! target with
  | None => (Err (NoRoute target), m)
  | Some e =>
      match list_find (λ c, c.1 ≠ via e ∧ c.1 ≠ hop_local m) (candidates e) with
      | None => (Err (NoRoute target), m)
      | Some (_, (next_best, _)) =>
          let e' := mkHop target next_best (hop_count e) (calculate_metric (hop_count e) Relay) Relay
                      now (now + from_secs DEFAULT_ROUTE_TIMEOUT_SECS) (candidates e) in
          (Ok tt, set_hops (<[target := e']> (hops m)) m)
      end
  end.

(** One round of the refreshing loop: rediscovered, or kept for another while. *)
Definition refresh_one (now : Instant) (dht : option Dht.DhtManager) (nm : nat * MultihopManager)
    (target : NodeID) : nat * MultihopManager :=
  let '(n, m) := nm in
  match discover_route now dht target m with
  | (Ok _, m) => (S n, m)
  | (Err _, m) =>
      (n, set_hops (alter (set_expiry (now + from_secs DEFAULT_ROUTE_TIMEOUT_SECS)) target (hops m)) m)
  end.
Definition stale_targets (now : Instant) m : list NodeID :=
  (filter (λ ie, is_expired now ie.2 = true) (map_to_list (hops m))).*1.
Definition refresh_stale_routes (now : Instant) (dht : option Dht.DhtManager) m : nat * MultihopManager :=
  foldl (refresh_one now dht) (0%nat, m) (stale_targets now m).

Definition route_count m : nat := size (hops m).
Definition find_routes_by_next_hop (id : NodeID) m : list NodeID :=
  (filter (λ ie, via ie.2 = id) (map_to_list (hops m))).*1.
Definition cleanup_expired (now : Instant) m : nat * MultihopManager :=
  if duration_since now (last_cleanup m) <? from_secs CLEANUP_INTERVAL_SECS then (0%nat, m)
  else
    let es := filter (λ ie, is_expired now ie.2 = false) (hops m) in
    ((size (hops m) - size es)%nat, mkMultihop (hop_local m) es (max_entries m) now).
End MultihopManager.
Import MultihopManager.

(** ** Discovery *)

(** The head of a stable sort: the first element, when nothing is before it. *)
Lemma sort_by_head {A} (cmp : A → A → comparison) x l :
  (∀ y, y ∈ l → cmp_le cmp x y) → head (sort_by cmp (x :: l)) = Some x.
Proof.
  intros Hx. cbn [sort_by foldr]. change (foldr (sort_insert cmp) [] l) with (sort_by cmp l).
  destruct (sort_by cmp l) as [|y l'] eqn:E; [done|]. cbn [sort_insert].
  assert (Hy : cmp_le cmp x y) by (apply Hx; rewrite <-(sort_by_perm cmp l), E; by left).
  unfold cmp_le in Hy. by destruct (cmp x y).
Qed.
Lemma sort_by_head_min {A} (f : A → Z) l x l' :
  sort_by (λ a b, Z.compare (f a) (f b)) l = x :: l' → ∀ y, y ∈ l → f x <= f y.
Proof.
  intros E y Hy. assert (Hs : StronglySorted (cmp_le (λ a b, Z.compare (f a) (f b)))
    (sort_by (λ a b, Z.compare (f a) (f b)) l)).
  { apply sort_by_sorted; unfold cmp_le; [intros a b c; rewrite !Z.compare_le_iff; lia|].
    intros a b Hab%Z.compare_gt_iff. apply Z.compare_le_iff. lia. }
  rewrite E in Hs. apply StronglySorted_inv in Hs as [_ Hall].
  rewrite <-(sort_by_perm (λ a b, Z.compare (f a) (f b)) l), E in Hy.
  apply elem_of_cons in Hy as [->|Hy]; [done|]. rewrite Forall_forall in Hall.
  specialize (Hall _ Hy). unfold cmp_le in Hall. by apply Z.compare_le_iff in Hall.
Qed.

Lemma u128_same a : xor_distance_u128 a a = 0.
Proof.
  unfold xor_distance_u128.
  assert (Hf : ∀ l : list (byte * byte), (∀ p, p ∈ l → p.1 = p.2) →
    foldl (λ dist '(x, y), Z.lor (wrap 128 (Z.shiftl dist 8)) (Z.lxor (Z_of_byte x) (Z_of_byte y))) 0 l = 0).
  { induction l as [|[x y] l IH]; intros Hl; [done|]. cbn [foldl].
    assert (x = y) as -> by (apply (Hl (x, y)); by left). rewrite Z.lxor_nilpotent.
    apply IH. intros p Hp. apply Hl. by right. }
  apply Hf. intros [x y] Hp%subseteq_take. apply list_elem_of_lookup_1 in Hp as [i Hp].
  apply lookup_zip_with_Some in Hp as (? & ? & [= <- <-] & H1 & H2). cbn. congruence.
Qed.
Lemma u128_nonneg a b : 0 <= xor_distance_u128 a b.
Proof.
  unfold xor_distance_u128. generalize (take 16 (zip (arr_bytes a) (arr_bytes b))). intros l.
  assert (Hf : ∀ acc, 0 <= acc → 0 <= foldl (λ dist '(x, y),
    Z.lor (wrap 128 (Z.shiftl dist 8)) (Z.lxor (Z_of_byte x) (Z_of_byte y))) acc l).
  { induction l as [|[x y] l IH]; intros acc Hacc; [done|]. cbn [foldl]. apply IH, Z.lor_nonneg. split.
    - unfold wrap. apply Z.mod_pos_bound. lia.
    - apply Z.lxor_nonneg. pose proof (Z_of_byte_range x). pose proof (Z_of_byte_range y). lia. }
  apply Hf. lia.
Qed.

(** A node that the DHT knows is the first of its answer. *)
Lemma find_node_known target d :
  target ∈ (Dht.DhtManager.all_nodes d).*1 →
  ∃ a others, Dht.DhtManager.find_node target d = (target, a) :: others.
Proof.
  intros ((id & a) & -> & Hin)%list_elem_of_fmap. cbn [fst].
  destruct (Dht.find_nearest_split id Dht.K_BUCKET_SIZE d) as (others & Hp & Hs).
  unfold Dht.DhtManager.find_node.
  destruct (Dht.DhtManager.find_nearest id Dht.K_BUCKET_SIZE d) as [|[id' a'] l] eqn:E.
  - exfalso. unfold Dht.DhtManager.find_nearest in E. rewrite <-(sort_by_perm (Dht.DhtManager.by_distance id)) in Hin.
    by destruct (sort_by _ _); [apply not_elem_of_nil in Hin|].
  - rewrite <-Hp in Hin. apply StronglySorted_inv in Hs as [_ Hall].
    assert (Hle : Dht.dist id id' <= Dht.dist id id).
    { apply elem_of_cons in Hin as [[= -> _]|Hin]; [done|]. rewrite Forall_forall in Hall.
      exact (Hall _ Hin). }
    assert (id' = id) as ->; [|by exists a', l].
    destruct (decide (id = id')) as [|Hne]; [done|]. apply Dht.dist_pos in Hne.
    unfold Dht.dist in Hle at 2. rewrite Z.lxor_nilpotent in Hle. lia.
Qed.

(** Route discovery.  With a DHT that knows any node, a route to another node is always
    found and stored.  It is direct exactly when the DHT knows the target; else it goes in two
    hops over a node of the DHT's answer that is nearest to the target by the first half of the
    distance.  The other candidates, at most ten, are nodes of the answer other than that one. *)
Theorem discover_route_exact now target d m :
  target ≠ hop_local m → Dht.DhtManager.all_nodes d ≠ [] →
  let answer := Dht.DhtManager.find_node target d in
  ∃ e, discover_route now (Some d) target m = (Ok tt, insert_or_evict e m)
    ∧ hop_target e = target ∧ is_expired now e = false
    ∧ (if decide (target ∈ (Dht.DhtManager.all_nodes d).*1)
       then via e = target ∧ hop_count e = 1 ∧ hop_type e = Lan
       else via e ∈ answer.*1 ∧ hop_count e = 2 ∧ hop_type e = Relay
         ∧ ∀ c, c ∈ answer → xor_distance_u128 (via e) target <= xor_distance_u128 c.1 target)
    ∧ (length (candidates e) <= 10)%nat
    ∧ ∀ c, c ∈ candidates e → c ∈ answer ∧ c.1 ≠ via e.
Proof.
  intros Hne Hd answer. unfold discover_route. rewrite decide_False by done. fold answer.
  assert (Hp : sort_by (by_distance target) answer ≡ₚ answer) by apply sort_by_perm.
  assert (Hsub : ∀ c, c ∈ answer → c ∈ Dht.DhtManager.all_nodes d).
  { intros c Hc. destruct (Dht.find_nearest_split target Dht.K_BUCKET_SIZE d) as (others & Hp' & _).
    rewrite <-Hp'. apply elem_of_app. by left. }
  assert (Hans : answer ≠ []).
  { subst answer. unfold Dht.DhtManager.find_node, Dht.DhtManager.find_nearest.
    pose proof (sort_by_perm (Dht.DhtManager.by_distance target) (Dht.DhtManager.all_nodes d)) as Hs.
    intros E. apply Hd. apply (f_equal length) in E. rewrite length_take, Hs in E.
    apply nil_length_inv. unfold Dht.K_BUCKET_SIZE in E. cbn [length] in E. lia. }
  destruct (sort_by (by_distance target) answer) as [|[v a] others] eqn:E.
  { by apply Permutation_nil_l in Hp. }
  pose proof (sort_by_head_min _ _ _ _ E) as Hmin. cbn [fst] in Hmin.
  assert (Hv : (v, a) ∈ answer) by (rewrite <-Hp; by left).
  assert (Hcs : ∀ c, c ∈ take K_CANDIDATES_MAX (filter (λ c, c.1 ≠ v) others) → c ∈ answer ∧ c.1 ≠ v).
  { intros c [Hcv Hc]%subseteq_take%list_elem_of_filter. split; [|done]. rewrite <-Hp. by right. }
  assert (Hvt : v = target ↔ target ∈ (Dht.DhtManager.all_nodes d).*1).
  { split.
    - intros <-. apply list_elem_of_fmap. exists (v, a). split; [done|]. by apply Hsub.
    - intros Hin. destruct (find_node_known _ _ Hin) as (a' & l & El). fold answer in El.
      assert (Hh : head (sort_by (by_distance target) answer) = Some (target, a')).
      { rewrite El. apply sort_by_head. intros y _. unfold cmp_le, by_distance. cbn [fst].
        rewrite u128_same. apply Z.compare_le_iff, u128_nonneg. }
      rewrite E in Hh. by injection Hh as -> _. }
  exists (MultiHopEntry.new now target v (if decide (v = target) then 1 else 2)
    (if decide (v = target) then Lan else Relay) (take K_CANDIDATES_MAX (filter (λ c, c.1 ≠ v) others))).
  split; [by destruct (decide (v = target))|]. split; [done|]. split.
  { unfold is_expired. cbn [expires_at MultiHopEntry.new]. apply Z.leb_gt.
    unfold from_secs, DEFAULT_ROUTE_TIMEOUT_SECS. lia. }
  split_and!; [|cbn [candidates MultiHopEntry.new]; rewrite length_take; unfold K_CANDIDATES_MAX; lia|exact Hcs].
  destruct (decide (target ∈ _)) as [Hin|Hin]; destruct (decide (v = target)) as [Hv'|Hv'];
    try (by tauto). cbn. split_and!; try done.
  apply list_elem_of_fmap. by exists (v, a).
Qed.

(** ** Failover *)

(** The next hop fails again and again, at the given times. *)
Fixpoint failover (nows : list Instant) (target : NodeID) (m : MultihopManager) : MultihopManager :=
  match nows with
  | [] => m
  | now :: nows => failover nows target (find_alternative now target m).2
  end.

Lemma find_alternative_step now target m e a cs :
  hops m !! target = Some e → candidates e = cs →
  list_find (λ c, c.1 ≠ via e ∧ c.1 ≠ hop_local m) cs = Some a →
  ∃ m', find_alternative now target m = (Ok tt, m') ∧ hop_local m' = hop_local m
    ∧ ∃ e', hops m' !! target = Some e' ∧ via e' = a.2.1 ∧ candidates e' = cs
        ∧ hop_count e' = hop_count e.
Proof.
  intros He Hc Hf. unfold find_alternative. rewrite He, Hc, Hf. destruct a as [i [v addr]].
  eexists. split; [done|]. split; [done|]. eexists. cbn. split; [apply lookup_insert_eq|done].
Qed.
Lemma find_first now_via local (a b : NodeID * string) rest :
  a.1 ≠ b.1 → a.1 ≠ local → b.1 ≠ local →
  ∃ i, list_find (λ c, c.1 ≠ now_via ∧ c.1 ≠ local) (a :: b :: rest)
    = Some (i, if decide (now_via = a.1) then b else a).
Proof.
  intros Hab Ha Hb. cbn [list_find]. case_decide as H1; [|case_decide as H2].
  - exists 0%nat. rewrite decide_False; [done|]. by intros ->; destruct H1.
  - exists 1%nat. rewrite decide_True; [done|]. destruct (decide (now_via = a.1)); [done|].
    exfalso. apply H1. split; [congruence|done].
  - exfalso. destruct (decide (now_via = a.1)) as [->|Hn]; [by apply H2|].
    apply H1. split; [congruence|done].
Qed.

(** Failover oscillates.  Of the candidates of a route only the first two are ever tried: as
    the next hop keeps failing, the route goes over the first candidate, the second, the first
    again and so on, although further candidates are known; and it keeps its hop count. *)
Theorem failover_alternates nows target m e a b rest :
  hops m !! target = Some e → candidates e = a :: b :: rest →
  a.1 ≠ b.1 → a.1 ≠ hop_local m → b.1 ≠ hop_local m → via e ≠ a.1 → nows ≠ [] →
  ∃ e', hops (failover nows target m) !! target = Some e'
    ∧ via e' = (if Nat.odd (length nows) then a.1 else b.1) ∧ hop_count e' = hop_count e.
Proof.
  intros He Hc Hab Ha Hb Hv Hn.
  assert (Hrun : ∀ nows m e first, hops m !! target = Some e → candidates e = a :: b :: rest →
    hop_local m ≠ a.1 → hop_local m ≠ b.1 → (via e = a.1 ↔ first = false) → nows ≠ [] →
    ∃ e', hops (failover nows target m) !! target = Some e'
      ∧ via e' = (if xorb first (Nat.odd (length nows)) then b.1 else a.1)
      ∧ hop_count e' = hop_count e).
  { clear nows m e He Hc Ha Hb Hv Hn.
    induction nows as [|now nows IH]; intros m e first He Hc Ha Hb Hv Hn; [done|]. cbn [failover].
    destruct (find_first (via e) (hop_local m) a b rest) as [i Hf]; [done|congruence..|].
    destruct (find_alternative_step now target m e _ _ He Hc Hf)
      as (m' & -> & Hl & e1 & He1 & Hv1 & Hc1 & Hn1).
    cbn [snd]. destruct nows as [|now' nows].
    - cbn [failover]. exists e1. split_and!; [done| |done]. rewrite Hv1. cbn.
      destruct first, (decide (via e = a.1)); cbn; intuition congruence.
    - destruct (IH m' e1 (negb first)) as (e' & E & Hv' & Hn'); try congruence.
      + rewrite Hv1. cbn. destruct first, (decide (via e = a.1)); cbn; intuition congruence.
      + exists e'. split_and!; [done| |congruence]. rewrite Hv'. cbn [length].
        rewrite (Nat.odd_succ (S _)), <-Nat.negb_odd. by destruct first, (Nat.odd _). }
  destruct (Hrun nows m e true He Hc) as (e' & E & Hv' & Hn'); [congruence..| |done|].
  - split; [done|discriminate].
  - exists e'. split_and!; [done| |done]. rewrite Hv'. by destruct (Nat.odd _).
Qed.

(** ** Refreshing *)

Definition unreachable (dht : option Dht.DhtManager) : Prop :=
  match dht with Some d => Dht.DhtManager.all_nodes d = [] | None => True end.
Lemma discover_unreachable now dht target m :
  unreachable dht → ∃ err, discover_route now dht target m = (Err err, m).
Proof.
  intros Hd. unfold discover_route. case_decide; [by eexists|]. destruct dht as [d|]; [|by eexists].
  cbn in Hd. unfold Dht.DhtManager.find_node, Dht.DhtManager.find_nearest. rewrite Hd. by eexists.
Qed.

Lemma refresh_lookup now dht ts n m target :
  unreachable dht →
  (foldl (refresh_one now dht) (n, m) ts).1 = n
  ∧ hops (foldl (refresh_one now dht) (n, m) ts).2 !! target
    = (if decide (target ∈ ts) then set_expiry (now + from_secs DEFAULT_ROUTE_TIMEOUT_SECS) else λ e, e)
        <$> hops m !! target.
Proof.
  intros Hd. revert m. induction ts as [|t ts IH]; intros m; cbn [foldl].
  { split; [done|]. cbn [snd]. rewrite decide_False by apply not_elem_of_nil. by destruct (hops m !! target). }
  unfold refresh_one at 2 4. destruct (discover_unreachable now dht t m Hd) as [err ->].
  destruct (IH (set_hops (alter (set_expiry (now + from_secs DEFAULT_ROUTE_TIMEOUT_SECS)) t (hops m)) m))
    as [-> ->]. split; [done|]. cbn [hops set_hops]. rewrite lookup_alter.
  destruct (decide (t = target)) as [->|Hne].
  - rewrite (decide_True (P := target ∈ target :: ts)) by by left.
    destruct (hops m !! target); [|by case_decide]. cbn. by case_decide.
  - destruct (decide (target ∈ ts)) as [Hin|Hin].
    + by rewrite decide_True by by right.
    + rewrite decide_False; [done|]. by intros [?|?]%elem_of_cons.
Qed.

(** Refreshing revives dead routes.  A route whose next hop was found unreachable is marked
    invalid and no longer returned; when the DHT cannot give another one, the next refresh
    makes it valid for five more minutes, over the same next hop. *)
Theorem refresh_revives_dead_route t0 now dht target m e :
  hops m !! target = Some e → t0 <= now → unreachable dht →
  let m1 := mark_invalid t0 target m in
  find_route t0 target m1 = None
  ∧ let '(n, m2) := refresh_stale_routes now dht m1 in
    n = 0%nat ∧ next_hop now target m2 = Ok (via e).
Proof.
  intros He Hle Hd m1.
  assert (H1 : hops m1 !! target = Some (set_expiry (t0 - from_secs 1) e))
    by (unfold m1, mark_invalid; cbn [hops set_hops]; by rewrite lookup_alter_eq, He).
  assert (Hexp : ∀ t, t0 <= t → is_expired t (set_expiry (t0 - from_secs 1) e) = true)
    by (intros t Ht; apply Z.leb_le; cbn; unfold from_secs; lia).
  split; [unfold find_route; rewrite H1; cbn [mbind option_bind]; by rewrite Hexp by lia|].
  unfold refresh_stale_routes.
  destruct (refresh_lookup now dht (stale_targets now m1) 0 m1 target Hd) as [Hn Hm].
  destruct (foldl _ _ _) as [n m2]. cbn [fst snd] in Hn, Hm. split; [done|].
  rewrite decide_True, H1 in Hm.
  - unfold next_hop, find_route. rewrite Hm. cbn [fmap option_fmap option_map mbind option_bind].
    unfold is_expired at 1. cbn [expires_at set_expiry].
    rewrite (proj2 (Z.leb_gt _ _)); [done|]. unfold from_secs, DEFAULT_ROUTE_TIMEOUT_SECS. lia.
  - unfold stale_targets. apply list_elem_of_fmap. exists (target, set_expiry (t0 - from_secs 1) e).
    split; [done|]. apply list_elem_of_filter. split; [by apply Hexp|]. by apply elem_of_map_to_list.
Qed.

(** ** Capacity *)

Inductive Op :=
| Discover (now : Instant) (dht : option Dht.DhtManager) (target : NodeID)
| AddDirect (now : Instant) (target : NodeID) (addr : string)
| InsertRoute (e : MultiHopEntry)
| RemoveRoute (target : NodeID)
| MarkInvalid (now : Instant) (target : NodeID)
| FindAlternative (now : Instant) (target : NodeID)
| RefreshStale (now : Instant) (dht : option Dht.DhtManager)
| Cleanup (now : Instant).
Definition apply_op (m : MultihopManager) (op : Op) : MultihopManager :=
  match op with
  | Discover now dht target => (discover_route now dht target m).2
  | AddDirect now target addr => add_direct_route now target addr m
  | InsertRoute e => insert_route e m
  | RemoveRoute target => (remove_route target m).2
  | MarkInvalid now target => mark_invalid now target m
  | FindAlternative now target => (find_alternative now target m).2
  | RefreshStale now dht => (refresh_stale_routes now dht m).2
  | Cleanup now => (cleanup_expired now m).2
  end.

(** At most [max_entries] routes, each under its target. *)
Record bounded (m : MultihopManager) : Prop := {
  bounded_max : max_entries m = MAX_ROUTE_ENTRIES;
  bounded_size : (size (hops m) <= MAX_ROUTE_ENTRIES)%nat;
  bounded_keys : map_Forall (λ target e, hop_target e = target) (hops m)
}.

Lemma oldest_in m : hops m ≠ ∅ → ∃ id, oldest m = Some id ∧ is_Some (hops m !! id).
Proof.
  intros Hne. unfold oldest. destruct (sort_by by_activity (map_to_list (hops m))) as [|[id e] l] eqn:E.
  - exfalso. pose proof (sort_by_perm by_activity (map_to_list (hops m))) as Hp. rewrite E in Hp.
    apply Permutation_nil_l in Hp. apply Hne. by apply map_to_list_empty_iff.
  - exists id. split; [done|]. exists e. apply elem_of_map_to_list.
    rewrite <-(sort_by_perm by_activity (map_to_list (hops m))), E. by left.
Qed.
Lemma insert_or_evict_bounded e m : bounded m → bounded (insert_or_evict e m).
Proof.
  intros [Hm Hs Hk]. unfold insert_or_evict. case_decide as Hin; [|case_match eqn:Hlt].
  - split; cbn [hops max_entries set_hops]; [done|by rewrite map_size_insert_Some|].
    by apply map_Forall_insert_2.
  - apply Nat.ltb_lt in Hlt. rewrite Hm in Hlt. apply eq_None_not_Some in Hin.
    split; cbn [hops max_entries set_hops]; [done|rewrite map_size_insert_None by done; lia|].
    by apply map_Forall_insert_2.
  - apply Nat.ltb_ge in Hlt. rewrite Hm in Hlt. apply eq_None_not_Some in Hin.
    destruct (oldest_in m) as (id & -> & Hid).
    { intros E. rewrite E, map_size_empty in Hlt. unfold MAX_ROUTE_ENTRIES in Hlt. lia. }
    split; cbn [hops max_entries set_hops]; [done| |].
    + rewrite map_size_insert_None by (rewrite lookup_delete_None; by right).
      pose proof (map_size_delete_Some id (hops m) Hid) as Hd. rewrite Hd.
      unfold MAX_ROUTE_ENTRIES in *. lia.
    + apply map_Forall_insert_2; [done|]. by apply map_Forall_delete.
Qed.
Lemma alter_bounded f target m :
  (∀ e, hop_target (f e) = hop_target e) → bounded m → bounded (set_hops (alter f target (hops m)) m).
Proof.
  intros Hf [Hm Hs Hk]. split; cbn [hops max_entries set_hops]; [done|by rewrite map_size_alter|].
  intros id e. rewrite lookup_alter. case_decide; [subst|apply Hk].
  intros (e' & Hin & ->)%fmap_Some. rewrite Hf. exact (Hk _ _ Hin).
Qed.
Lemma discover_bounded now dht target m : bounded m → bounded (discover_route now dht target m).2.
Proof.
  intros Hb. unfold discover_route. case_decide; [done|]. destruct dht as [d|]; [|done].
  destruct (sort_by _ _) as [|[v a] l]; [done|]. case_decide; by apply insert_or_evict_bounded.
Qed.
Lemma refresh_bounded now dht ts n m :
  bounded m → bounded (foldl (refresh_one now dht) (n, m) ts).2.
Proof.
  revert n m. induction ts as [|t ts IH]; intros n m Hb; [done|]. cbn [foldl]. unfold refresh_one at 2.
  pose proof (discover_bounded now dht t m Hb) as Hd.
  destruct (discover_route now dht t m) as [[|] m']; apply IH; [done|]. by apply alter_bounded.
Qed.
Lemma apply_op_bounded op m : bounded m → bounded (apply_op m op).
Proof.
  intros Hb. pose proof Hb as [Hm Hs Hk].
  destruct op as [now dht t|now t a|e|t|now t|now t|now dht|now]; cbn [apply_op].
  - by apply discover_bounded.
  - unfold add_direct_route. case_decide; [done|]. by apply insert_or_evict_bounded.
  - by apply insert_or_evict_bounded.
  - split; cbn [remove_route snd hops max_entries set_hops]; [done| |by apply map_Forall_delete].
    rewrite map_size_delete. destruct (hops m !! t); unfold Datatypes.id; lia.
  - by apply alter_bounded.
  - unfold find_alternative. destruct (hops m !! t) as [e|] eqn:E; [|done].
    destruct (list_find _ _) as [[i [v a]]|]; [|done].
    split; cbn [snd hops max_entries set_hops]; [done|by rewrite map_size_insert_Some|].
    by apply map_Forall_insert_2.
  - by apply refresh_bounded.
  - unfold cleanup_expired. destruct (_ <? _); [done|].
    split; cbn [snd hops max_entries]; [done| |].
    + pose proof (map_size_filter (λ ie, is_expired now ie.2 = false) (hops m)). lia.
    + intros id e [Hin _]%map_lookup_filter_Some. exact (Hk _ _ Hin).
Qed.

(** The route table stays small.  Whatever sequence of operations is applied to a new
    manager, it holds at most 1000 routes, each under its own target; and an insertion into a
    full table makes room by dropping only a route that was inactive for longest. *)
Theorem multihop_capacity now local ops e :
  let m := foldl apply_op (new now local) ops in
  (route_count m <= 1000)%nat
  ∧ map_Forall (λ target e, hop_target e = target) (hops m)
  ∧ hops (insert_route e m) !! hop_target e = Some e
  ∧ ∀ id r, hops m !! id = Some r → id ≠ hop_target e → hops (insert_route e m) !! id = None →
      route_count m = 1000%nat ∧ ∀ id' r', hops m !! id' = Some r' → hop_active r <= hop_active r'.
Proof.
  intros m. assert (Hb : bounded m).
  { subst m. assert (Hnew : bounded (new now local)).
    { split; [done|cbn; rewrite map_size_empty; lia|]. cbn. apply map_Forall_empty. }
    revert Hnew. generalize (new now local). induction ops as [|op ops IH]; intros m Hm; [done|].
    by apply IH, apply_op_bounded. }
  clearbody m. destruct Hb as [Hm Hs Hk]. split; [done|]. split; [done|].
  unfold insert_route, insert_or_evict. split.
  { case_decide; [|case_match]; cbn [hops set_hops]; apply lookup_insert_eq. }
  intros id r Hr Hne. case_decide as Hin; [|case_match eqn:Hlt]; cbn [hops set_hops].
  1,2: by rewrite lookup_insert_ne, Hr.
  destruct (oldest m) as [o|] eqn:Ho; rewrite lookup_insert_ne by done; [|by rewrite Hr].
  rewrite lookup_delete_None, Hr. intros [->|?]; [|done]. apply Nat.ltb_ge in Hlt.
  unfold route_count. split; [unfold MAX_ROUTE_ENTRIES in *; lia|]. intros id' r' Hr'.
  unfold oldest in Ho. destruct (sort_by by_activity (map_to_list (hops m))) as [|[o' ro] l] eqn:E; [done|].
  injection Ho as ->. assert (ro = r) as ->.
  { assert (Hin' : (id, ro) ∈ map_to_list (hops m))
      by (rewrite <-(sort_by_perm by_activity (map_to_list (hops m))), E; by left).
    apply elem_of_map_to_list in Hin'. congruence. }
  apply (sort_by_head_min (λ p, hop_active p.2) _ _ _ E (id', r')). by apply elem_of_map_to_list.
Qed.

(** ** Witnesses *)

Definition node_1 : NodeID := Dht.id_of Byte.x01.
Definition node_2 : NodeID := Dht.id_of Byte.x02.
Definition node_3 : NodeID := Dht.id_of Byte.x03.
Definition node_4 : NodeID := Dht.id_of Byte.x04.
Definition node_5 : NodeID := Dht.id_of Byte.x05.

Definition small_dht : Dht.DhtManager :=
  (Dht.DhtManager.insert_node 0 node_2 "b"
     (Dht.DhtManager.insert_node 0 node_4 "d" (Dht.DhtManager.new node_1)).2).2.

Lemma discover_route_exact_witness :
  ∃ e, discover_route 5 (Some small_dht) node_3 (new 0 node_1)
      = (Ok tt, insert_or_evict e (new 0 node_1))
    ∧ hop_count e = 2 ∧ hop_type e = Relay.
Proof.
  destruct (discover_route_exact 5 node_3 small_dht (new 0 node_1)) as (e & E & _ & _ & Hd & _).
  - intros E. apply (f_equal arr_bytes) in E. vm_compute in E. discriminate E.
  - vm_compute. discriminate.
  - exists e. split; [exact E|]. rewrite decide_False in Hd.
    + destruct Hd as (_ & H1 & H2 & _). split; [exact H1|exact H2].
    + vm_compute. intros Hin.
      repeat (apply elem_of_cons in Hin as [Hin|Hin];
        [apply (f_equal arr_bytes) in Hin; discriminate Hin|]).
      by apply not_elem_of_nil in Hin.
Defined.

Definition three_candidates : MultiHopEntry :=
  MultiHopEntry.new 0 node_5 node_5 1 Lan [(node_2, "b"); (node_3, "c"); (node_4, "d")]%string.
Definition one_route : MultihopManager := insert_route three_candidates (new 0 node_1).

Lemma failover_alternates_witness :
  ∃ e', hops (failover [10; 20; 30] node_5 one_route) !! node_5 = Some e' ∧ via e' = node_2.
Proof.
  assert (Hne : ∀ a b : NodeID, arr_bytes a ≠ arr_bytes b → a ≠ b) by (intros a b H ->; by apply H).
  destruct (failover_alternates [10; 20; 30] node_5 one_route three_candidates (node_2, "b"%string)
    (node_3, "c"%string) [(node_4, "d"%string)]) as (e' & E & Hv & _);
    try (apply Hne; vm_compute; discriminate).
  - apply lookup_insert_eq.
  - reflexivity.
  - discriminate.
  - exists e'. split; [exact E|exact Hv].
Defined.

Lemma refresh_revives_dead_route_witness :
  find_route 7 node_5 (mark_invalid 7 node_5 one_route) = None
  ∧ next_hop 9 node_5 (refresh_stale_routes 9 None (mark_invalid 7 node_5 one_route)).2 = Ok node_5.
Proof.
  destruct (refresh_revives_dead_route 7 9 None node_5 one_route three_candidates) as [H1 H2].
  - apply lookup_insert_eq.
  - lia.
  - exact I.
  - split; [exact H1|].
    destruct (refresh_stale_routes 9 None (mark_invalid 7 node_5 one_route)) as [n m2].
    exact (proj2 H2).
Defined.
