(* ===== verification/Selfheal.v ===== *)
(** * Selfheal: repairing routes when nodes fail and come back

    Models crates/vpn/src/vpn/selfheal.rs over the route table of Multihop.v.
    Every callback gets every event, so the events are one log.  The DHT that
    the route table is bound to is an argument ([dht]), as in Multihop.v;
    [heal_dht] says whether the healer itself has one.  [now] and [unix] are
    the two clocks, read once per operation.  The healing thread is its turns
    ([turn]). *)
From S2P Require Import Prelude Text Json Disk Identity Router.
From S2P Require Dht.
From S2P Require Import Multihop.
Import MultihopManager.

Definition DEFAULT_HEAL_INTERVAL_SECS : Z := 10.
Definition DEFAULT_MAX_FAILED_ATTEMPTS : Z := 5.
Definition DEFAULT_RECOVERY_CHECK_SECS : Z := 30.
Definition HEAL_MSG_HEADER_LEN : nat := 41.
Definition PERSIST_INTERVAL_SECS : Z := 30.

(** ** Messages *)

Inductive HealMsgType := HealPing | HealPong | PartitionSync.
Module HealMsgType.
Definition from_u8 (b : Z) : option HealMsgType :=
  match b with 0x01 => Some HealPing | 0x02 => Some HealPong | 0x03 => Some PartitionSync | _ => None end.
Definition to_u8 (t : HealMsgType) : Z :=
  match t with HealPing => 0x01 | HealPong => 0x02 | PartitionSync => 0x03 end.
End HealMsgType.

Record SelfHealMessage := mkHealMsg {
  heal_type : HealMsgType; heal_sender : NodeID; heal_time : Z; heal_payload : list byte }.
Module SelfHealMessage.
Definition with_payload (unix : Z) (t : HealMsgType) (sender : NodeID) (payload : list byte)
    : SelfHealMessage := mkHealMsg t sender unix payload.
Definition new (unix : Z) (t : HealMsgType) (sender : NodeID) : SelfHealMessage :=
  with_payload unix t sender [].
Definition to_bytes (m : SelfHealMessage) : list byte :=
  byte_of_Z (HealMsgType.to_u8 (heal_type m)) :: arr_bytes (heal_sender m)
    ++ be_bytes 8 (heal_time m) ++ heal_payload m.
Definition from_bytes (data : list byte) : option SelfHealMessage :=
  if (length data <? HEAL_MSG_HEADER_LEN)%nat then None else
  t ← HealMsgType.from_u8 (Z_of_byte (nth 0 data Byte.x00));
  id ← to_arr32 (slice 1 33 data);
  Some (mkHealMsg t id (of_be (slice 33 41 data)) (drop HEAL_MSG_HEADER_LEN data)).
End SelfHealMessage.

(** ** Node states and events *)

Record SelfHealNodeState := mkHeal {
  heal_node : NodeID; last_seen : Z; failed_attempts : Z; is_offline : bool;
  last_recovery_attempt : Z }.
Module SelfHealNodeState.
Definition new (unix : Z) (id : NodeID) : SelfHealNodeState := mkHeal id unix 0 false 0.
Definition mark_offline (s : SelfHealNodeState) : SelfHealNodeState :=
  mkHeal (heal_node s) (last_seen s) 0 true (last_recovery_attempt s).
Definition mark_online (unix : Z) (s : SelfHealNodeState) : SelfHealNodeState :=
  mkHeal (heal_node s) unix 0 false (last_recovery_attempt s).
Definition see (unix : Z) (s : SelfHealNodeState) : SelfHealNodeState :=
  mkHeal (heal_node s) unix (failed_attempts s) (is_offline s) (last_recovery_attempt s).
Definition record_failed_attempt (unix : Z) (s : SelfHealNodeState) : SelfHealNodeState :=
  mkHeal (heal_node s) (last_seen s) (wrap 32 (failed_attempts s + 1)) (is_offline s) unix.
Definition has_exceeded_max_attempts (max : Z) (s : SelfHealNodeState) : bool :=
  max <=? failed_attempts s.
End SelfHealNodeState.
Import SelfHealNodeState.

Inductive HealEvent :=
| NodeOffline (id : NodeID) (timestamp : Z)
| NodeRecovered (id : NodeID) (timestamp : Z)
| PathFailed (target next_hop : NodeID)
| PathRestored (target next_hop : NodeID)
| PartitionDetected (nodes : list NodeID)
| PartitionMerged
| StateRestored (node_count : nat).
Definition HealEvent_display `{HexCrate} (e : HealEvent) : string :=
  match e with
  | NodeOffline id t => "NodeOffline[node=" +:+ NodeID.to_hex id +:+ ", time=" +:+ pretty t +:+ "]"
  | NodeRecovered id t => "NodeRecovered[node=" +:+ NodeID.to_hex id +:+ ", time=" +:+ pretty t +:+ "]"
  | PathFailed target hop =>
      "PathFailed[target=" +:+ NodeID.to_hex target +:+ ", next_hop=" +:+ NodeID.to_hex hop +:+ "]"
  | PathRestored target hop =>
      "PathRestored[target=" +:+ NodeID.to_hex target +:+ ", next_hop=" +:+ NodeID.to_hex hop +:+ "]"
  | PartitionDetected nodes => "PartitionDetected[nodes_count=" +:+ pretty (length nodes) +:+ "]"
  | PartitionMerged => "PartitionMerged"
  | StateRestored n => "StateRestored[node_count=" +:+ pretty n +:+ "]"
  end.

(** ** The manager *)

Record SelfHealManager := mkHealer {
  heal_local : NodeID; heal_states : gmap NodeID SelfHealNodeState; events : list HealEvent;
  multihop : option MultihopManager; heal_dht : bool; persist_path : option string;
  heal_running : bool; heal_interval : Duration; max_failed_attempts : Z; recovery_check_interval : Duration;
  heal_pongs : list NodeID }.

(** The persisted state: hexadecimal identifiers to states, and the time. *)
Abbreviation PersistedHealState := (gmap string SelfHealNodeState * Z)%type.

Module SelfHealManager.
Section SelfHealManager.
Context `{HexCrate} `{JsonText PersistedHealState}.
Implicit Types h : SelfHealManager.

Definition new (local_id : NodeID) : SelfHealManager :=
  mkHealer local_id ∅ [] None false None false (from_secs DEFAULT_HEAL_INTERVAL_SECS)
    DEFAULT_MAX_FAILED_ATTEMPTS (from_secs DEFAULT_RECOVERY_CHECK_SECS) [].
Definition set_heal_interval (secs : Z) h : SelfHealManager :=
  mkHealer (heal_local h) (heal_states h) (events h) (multihop h) (heal_dht h) (persist_path h)
    (heal_running h) (from_secs secs) (max_failed_attempts h) (recovery_check_interval h) (heal_pongs h).
Definition set_multihop (m : MultihopManager) h : SelfHealManager :=
  mkHealer (heal_local h) (heal_states h) (events h) (Some m) (heal_dht h) (persist_path h)
    (heal_running h) (heal_interval h) (max_failed_attempts h) (recovery_check_interval h) (heal_pongs h).
Definition set_dht h : SelfHealManager :=
  mkHealer (heal_local h) (heal_states h) (events h) (multihop h) true (persist_path h)
    (heal_running h) (heal_interval h) (max_failed_attempts h) (recovery_check_interval h) (heal_pongs h).
Definition set_persist_path (p : string) h : SelfHealManager :=
  mkHealer (heal_local h) (heal_states h) (events h) (multihop h) (heal_dht h) (Some p)
    (heal_running h) (heal_interval h) (max_failed_attempts h) (recovery_check_interval h) (heal_pongs h).
Definition set_max_failed_attempts (n : Z) h : SelfHealManager :=
  mkHealer (heal_local h) (heal_states h) (events h) (multihop h) (heal_dht h) (persist_path h)
    (heal_running h) (heal_interval h) n (recovery_check_interval h) (heal_pongs h).
Definition set_states (ss : gmap NodeID SelfHealNodeState) h : SelfHealManager :=
  mkHealer (heal_local h) ss (events h) (multihop h) (heal_dht h) (persist_path h)
    (heal_running h) (heal_interval h) (max_failed_attempts h) (recovery_check_interval h) (heal_pongs h).
Definition emit_event (e : HealEvent) h : SelfHealManager :=
  mkHealer (heal_local h) (heal_states h) (events h ++ [e]) (multihop h) (heal_dht h) (persist_path h)
    (heal_running h) (heal_interval h) (max_failed_attempts h) (recovery_check_interval h) (heal_pongs h).
Definition set_pongs (l : list NodeID) h : SelfHealManager :=
  mkHealer (heal_local h) (heal_states h) (events h) (multihop h) (heal_dht h) (persist_path h)
    (heal_running h) (heal_interval h) (max_failed_attempts h) (recovery_check_interval h) l.
Definition set_running (b : bool) h : SelfHealManager :=
  mkHealer (heal_local h) (heal_states h) (events h) (multihop h) (heal_dht h) (persist_path h)
    b (heal_interval h) (max_failed_attempts h) (recovery_check_interval h) (heal_pongs h).

Definition get_state (id : NodeID) h : option SelfHealNodeState := heal_states h !! id.
Definition all_states h : list SelfHealNodeState := (map_to_list (heal_states h)).*2.
Definition offline_nodes h : list NodeID := heal_node <$> filter (λ s, is_offline s = true) (all_states h).
Definition online_nodes h : list NodeID := heal_node <$> filter (λ s, is_offline s = false) (all_states h).
Definition add_node (unix : Z) (id : NodeID) h : SelfHealManager :=
  match heal_states h !! id with
  | Some _ => h
  | None => set_states (<[id := SelfHealNodeState.new unix id]> (heal_states h)) h
  end.
Definition remove_node (id : NodeID) h : SelfHealManager := set_states (delete id (heal_states h)) h.
(** [entry(id).or_insert_with(..)], then [f]. *)
Definition update_state (unix : Z) (f : SelfHealNodeState → SelfHealNodeState) (id : NodeID) h
    : SelfHealManager :=
  set_states (<[id := f (default (SelfHealNodeState.new unix id) (heal_states h !! id))]> (heal_states h)) h.

(** A route that failed: its replacement from the candidates, or from the DHT;
    the event when it was replaced ([announce]: also from the DHT). *)
Definition reroute (now : Instant) (dht : option Dht.DhtManager) (announce : bool) (target : NodeID)
    (m : MultihopManager) h : MultihopManager * SelfHealManager :=
  let restored m h :=
    match find_route now target m with
    | Some e => emit_event (PathRestored target (via e)) h
    | None => h
    end in
  let m := mark_invalid now target m in
  match find_alternative now target m with
  | (Ok _, m) => (m, restored m h)
  | (Err _, m) =>
      if heal_dht h then
        match discover_route now dht target m with
        | (Ok _, m) => (m, if announce then restored m h else h)
        | (Err _, m) => (m, h)
        end
      else (m, h)
  end.

Definition on_node_offline (now : Instant) (unix : Z) (dht : option Dht.DhtManager) (id : NodeID) h
    : SelfHealManager :=
  let h := update_state unix mark_offline id h in
  let h :=
    match multihop h with
    | Some m =>
        let m := (remove_route id m).2 in
        let '(m, h) := foldl (λ '(m, h) target,
          reroute now dht false target m (emit_event (PathFailed target id) h))
          (m, h) (find_routes_by_next_hop id m) in
        set_multihop m h
    | None => h
    end in
  emit_event (NodeOffline id unix) h.

(** Rebuilding the route to a node that is back. *)
Definition rebuild (now : Instant) (dht : option Dht.DhtManager) (id : NodeID) h : SelfHealManager :=
  match multihop h with
  | Some m =>
      match find_route now id m with
      | None => if heal_dht h then set_multihop (discover_route now dht id m).2 h else h
      | Some _ => h
      end
  | None => h
  end.
Definition on_node_recovered (now : Instant) (unix : Z) (dht : option Dht.DhtManager) (id : NodeID) h
    : SelfHealManager :=
  emit_event (NodeRecovered id unix) (rebuild now dht id (update_state unix (mark_online unix) id h)).

Definition handle_path_failure (now : Instant) (dht : option Dht.DhtManager) (target : NodeID) h
    : SelfHealManager :=
  match multihop h with
  | Some m => let '(m, h) := reroute now dht true target m h in set_multihop m h
  | None => h
  end.

Definition handle_heal_pong (sender : NodeID) h : SelfHealManager :=
  set_pongs (heal_pongs h ++ [sender]) h.
Definition process_heal_message (now : Instant) (unix : Z) (dht : option Dht.DhtManager)
    (msg : SelfHealMessage) h : option SelfHealMessage * SelfHealManager :=
  let id := heal_sender msg in
  match heal_type msg with
  | HealPing => (Some (SelfHealMessage.with_payload unix HealPong (heal_local h) (arr_bytes id)), h)
  | HealPong => (None, handle_heal_pong id h)
  | PartitionSync =>
      let h := add_node unix id h in
      match get_state id h with
      | Some s => (None, if is_offline s then on_node_recovered now unix dht id h else h)
      | None => (None, h)
      end
  end.

(** ** The healing thread *)

Definition handle_pong (now : Instant) (unix : Z) (dht : option Dht.DhtManager) h (sender : NodeID)
    : SelfHealManager :=
  match heal_states h !! sender with
  | Some s => if is_offline s then on_node_recovered now unix dht sender h else h
  | None => h
  end.
Definition due (unix : Z) h (s : SelfHealNodeState) : bool :=
  is_offline s && negb (has_exceeded_max_attempts (max_failed_attempts h) s)
  && ((last_recovery_attempt s =? 0)
      || (recovery_check_interval h / 1000000000 <=? wrap 64 (unix - last_recovery_attempt s))).
Definition probe (now : Instant) (unix : Z) (dht : option Dht.DhtManager) h (id : NodeID)
    : SelfHealManager :=
  let h := set_states (alter (record_failed_attempt unix) id (heal_states h)) h in
  match multihop h with
  | Some m =>
      if heal_dht h then
        match discover_route now dht id m with
        | (Ok _, m) =>
            emit_event (NodeRecovered id unix)
              (set_states (alter (mark_online unix) id (heal_states h)) (set_multihop m h))
        | (Err _, _) => h
        end
      else h
  | None => h
  end.
Definition persisted (unix : Z) h : PersistedHealState :=
  (list_to_map ((λ '(id, s), (NodeID.to_hex id, s)) <$> map_to_list (heal_states h)), unix).

(** One turn: [last_recovery] and [last_persist] are the thread's own. *)
Definition turn (now : Instant) (unix : Z) (dht : option Dht.DhtManager) (d : Disk)
    (last_recovery last_persist : Instant) h
    : SelfHealManager * Disk * Instant * Instant :=
  let h := foldl (handle_pong now unix dht) (set_pongs [] h) (heal_pongs h) in
  let '(h, last_recovery) :=
    if recovery_check_interval h <=? duration_since now last_recovery
    then (foldl (probe now unix dht) h (heal_node <$> filter (λ s, due unix h s = true) (all_states h)), now)
    else (h, last_recovery) in
  if from_secs PERSIST_INTERVAL_SECS <=? duration_since now last_persist
  then
    let d := match persist_path h with
             | Some p => (write p (as_bytes (to_string (persisted unix h))) d).2
             | None => d
             end in
    (h, d, last_recovery, now)
  else (h, d, last_recovery, last_persist).

(** ** Persistence *)

Definition save_state (unix : Z) (path : string) (d : Disk) h : result unit string * Disk :=
  let '(res, d) := write path (as_bytes (to_string (persisted unix h))) d in
  (map_err (λ e, "write error: " +:+ e)%string res, d).
Definition load_state (path : string) (d : Disk) h : result nat string * SelfHealManager :=
  match files d !! path with
  | None => (Err ("file not found: " +:+ path)%string, h)
  | Some data =>
      match from_utf8 data with
      | None => (Err "read error: stream did not contain valid UTF-8"%string, h)
      | Some json =>
          match from_str json with
          | Err e => (Err ("deserialize error: " +:+ e)%string, h)
          | Ok (ss, _) =>
              let h := set_states (map_fold (λ _ s m, <[heal_node s := s]> m) (heal_states h) ss) h in
              (Ok (size ss), emit_event (StateRestored (size ss)) h)
          end
      end
  end.
Definition try_restore_state (d : Disk) h : result nat string * SelfHealManager :=
  match persist_path h with
  | Some path => match files d !! path with Some _ => load_state path d h | None => (Ok 0%nat, h) end
  | None => (Ok 0%nat, h)
  end.
End SelfHealManager.
End SelfHealManager.
Import SelfHealManager.

(** ** The callbacks of the heartbeat monitor *)

Class HeartbeatCallback (S : Type) := {
  cb_node_online : Instant → Z → NodeID → S → S;
  cb_node_offline : Instant → Z → NodeID → S → S;
  cb_heartbeat_sent : NodeID → Z → S → S;
  cb_heartbeat_received : Instant → Z → NodeID → Z → S → S
}.
Definition heal_callback (dht : option Dht.DhtManager) : HeartbeatCallback SelfHealManager := {|
  cb_node_online now unix id h :=
    let was_offline := match get_state id h with Some s => is_offline s | None => false end in
    let h := add_node unix id h in
    if was_offline then on_node_recovered now unix dht id h else h;
  cb_node_offline now unix id h := on_node_offline now unix dht id h;
  cb_heartbeat_sent id seq h := h;
  cb_heartbeat_received now unix id seq h :=
    let h := add_node unix id h in
    match heal_states h !! id with
    | Some s =>
        if is_offline s
        then on_node_recovered now unix dht id
               (set_states (<[id := mark_online unix s]> (heal_states h)) h)
        else set_states (<[id := see unix s]> (heal_states h)) h
    | None => h
    end
|}.

(** ** Rerouting *)

Section Reroute.
Context `{HexCrate} `{JsonText PersistedHealState}.

(** What becomes of a failed route without a DHT: the first other candidate,
    or an expired entry. *)
Definition alternative (dead local : NodeID) (cs : list (NodeID * string)) : option NodeID :=
  (λ ic, ic.2.1) <$> list_find (λ c, c.1 ≠ dead ∧ c.1 ≠ local) cs.
Definition redirect (now : Instant) (local target : NodeID) (e : MultiHopEntry) : MultiHopEntry :=
  match alternative (via e) local (candidates e) with
  | Some v =>
      mkHop target v (hop_count e) (MultiHopEntry.calculate_metric (hop_count e) Relay) Relay now
        (now + from_secs DEFAULT_ROUTE_TIMEOUT_SECS) (candidates e)
  | None => MultiHopEntry.set_expiry (now - from_secs 1) e
  end.

Lemma reroute_hops now dht announce target m h :
  heal_dht h = false →
  let '(m', h') := reroute now dht announce target m h in
  heal_dht h' = false ∧ heal_states h' = heal_states h ∧ hop_local m' = hop_local m
  ∧ ∀ t, hops m' !! t = if decide (t = target) then redirect now (hop_local m) target <$> hops m !! t
                        else hops m !! t.
Proof.
  intros Hd. unfold reroute, find_alternative, mark_invalid. cbn [hops set_hops hop_local].
  rewrite lookup_alter_eq. destruct (hops m !! target) as [e|] eqn:E; cbn [fmap option_fmap option_map].
  - change (candidates (MultiHopEntry.set_expiry _ e)) with (candidates e).
    change (via (MultiHopEntry.set_expiry _ e)) with (via e).
    change (hop_count (MultiHopEntry.set_expiry _ e)) with (hop_count e).
    destruct (list_find _ (candidates e)) as [[i [v a]]|] eqn:Ef.
    + destruct (find_route _ _ _); (split_and!; [done..|]); intros t; cbn [hops set_hops];
        rewrite lookup_insert, lookup_alter;
        (destruct (decide (target = t)) as [<-|]; [rewrite decide_True by done|by rewrite decide_False]);
        rewrite E; cbn [fmap option_fmap option_map]; f_equal; unfold redirect, alternative; by rewrite Ef.
    + rewrite Hd. split_and!; [done..|]. intros t. cbn [hops set_hops]. rewrite lookup_alter.
      destruct (decide (target = t)) as [<-|]; [rewrite decide_True by done|by rewrite decide_False].
      rewrite E. cbn [fmap option_fmap option_map]. f_equal. unfold redirect, alternative. by rewrite Ef.
  - rewrite Hd. split_and!; [done..|]. intros t. cbn [hops set_hops]. rewrite lookup_alter.
    destruct (decide (target = t)) as [<-|]; [rewrite decide_True by done; by rewrite E|by rewrite decide_False].
Qed.

Lemma reroutes_hops now dht id ts m h :
  heal_dht h = false → NoDup ts →
  let '(m', h') := foldl (λ '(m, h) target,
    reroute now dht false target m (emit_event (PathFailed target id) h)) (m, h) ts in
  heal_dht h' = false ∧ heal_states h' = heal_states h ∧ hop_local m' = hop_local m
  ∧ ∀ t, hops m' !! t = if decide (t ∈ ts) then redirect now (hop_local m) t <$> hops m !! t
                        else hops m !! t.
Proof.
  revert m h. induction ts as [|t0 ts IH]; intros m h Hd Hn; cbn [foldl].
  { split_and!; [done..|]. intros t. by rewrite decide_False by apply not_elem_of_nil. }
  apply NoDup_cons in Hn as [Ht0 Hn].
  pose proof (reroute_hops now dht false t0 m (emit_event (PathFailed t0 id) h) Hd) as Hr.
  destruct (reroute _ _ _ _ _ _) as [m1 h1]. destruct Hr as (Hd1 & Hs1 & Hl1 & Hh1).
  specialize (IH m1 h1 Hd1 Hn). destruct (foldl _ (m1, h1) ts) as [m2 h2].
  destruct IH as (Hd2 & Hs2 & Hl2 & Hh2). split_and!; [done|by rewrite Hs2, Hs1|congruence|].
  intros t. rewrite Hh2, Hh1, Hl1. destruct (decide (t = t0)) as [->|Hne].
  - by rewrite decide_False, decide_True by (done || by left).
  - destruct (decide (t ∈ ts)) as [Hin|Hin].
    + by rewrite decide_True by by right.
    + rewrite decide_False; [done|]. by intros [?|?]%elem_of_cons.
Qed.

Lemma find_routes_NoDup id m :
  NoDup (find_routes_by_next_hop id m)
  ∧ ∀ t, t ∈ find_routes_by_next_hop id m ↔ ∃ e, hops m !! t = Some e ∧ via e = id.
Proof.
  unfold find_routes_by_next_hop. split.
  - apply (sublist_NoDup _ (map_to_list (hops m)).*1); [apply NoDup_fst_map_to_list|].
    apply fmap_sublist, sublist_filter.
  - intros t. rewrite list_elem_of_fmap. split.
    + intros ([t' e] & -> & [Hv Hin]%list_elem_of_filter). apply elem_of_map_to_list in Hin. by exists e.
    + intros (e & He & Hv). exists (t, e). split; [done|]. apply list_elem_of_filter.
      split; [done|]. by apply elem_of_map_to_list.
Qed.

(** The routes after a node went offline, without a DHT. *)
Lemma offline_hops now unix dht id h m :
  multihop h = Some m → heal_dht h = false →
  let h' := on_node_offline now unix dht id h in
  ∃ m', multihop h' = Some m' ∧ heal_dht h' = false ∧ hop_local m' = hop_local m
    ∧ is_offline <$> heal_states h' !! id = Some true
    ∧ (∀ i, i ≠ id → heal_states h' !! i = heal_states h !! i)
    ∧ hops m' !! id = None
    ∧ ∀ t, t ≠ id → hops m' !! t
        = (λ e, if decide (via e = id) then redirect now (hop_local m) t e else e) <$> hops m !! t.
Proof.
  intros Hm Hd h'. subst h'. unfold on_node_offline.
  change (multihop (update_state unix mark_offline id h)) with (multihop h). rewrite Hm.
  set (m1 := (remove_route id m).2). destruct (find_routes_NoDup id m1) as [Hn Hin].
  pose proof (reroutes_hops now dht id (find_routes_by_next_hop id m1) m1
    (update_state unix mark_offline id h) Hd Hn) as Hf.
  destruct (foldl _ _ _) as [m2 h2]. destruct Hf as (Hd2 & Hs2 & Hl2 & Hh2).
  exists m2. split_and!; try done.
  - cbn [heal_states emit_event set_multihop]. rewrite Hs2. unfold update_state. cbn [heal_states set_states].
    by rewrite lookup_insert_eq.
  - intros i Hi. cbn [heal_states emit_event set_multihop]. rewrite Hs2. unfold update_state.
    cbn [heal_states set_states]. by rewrite lookup_insert_ne.
  - rewrite Hh2. assert (E : hops m1 !! id = None) by apply lookup_delete_eq. rewrite E. by case_decide.
  - intros t Ht. assert (E : hops m1 !! t = hops m !! t) by (subst m1; cbn; by rewrite lookup_delete_ne).
    rewrite Hh2, E. destruct (hops m !! t) as [e|] eqn:He; [|by case_decide].
    cbn [fmap option_fmap option_map]. destruct (decide (via e = id)) as [Hv|Hv].
    + rewrite decide_True by (apply Hin; by exists e). done.
    + rewrite decide_False; [done|]. intros (e' & He' & Hv')%Hin. congruence.
Qed.
End Reroute.

Lemma redirect_route now local target e m :
  hops m !! target = Some (redirect now local target e) →
  via <$> find_route now target m = alternative (via e) local (candidates e).
Proof.
  intros E. unfold find_route. rewrite E. cbn [mbind option_bind]. unfold redirect.
  destruct (alternative _ _ _) as [v|]; cbn; unfold MultiHopEntry.is_expired; cbn.
  - rewrite (proj2 (Z.leb_gt _ _)); [done|]. unfold from_secs, DEFAULT_ROUTE_TIMEOUT_SECS. lia.
  - by rewrite (proj2 (Z.leb_le _ _)) by (unfold from_secs; lia).
Qed.
Lemma alternative_ne dead local cs v : alternative dead local cs = Some v → v ≠ dead ∧ v ≠ local.
Proof.
  unfold alternative. intros ([i c] & E & ->)%fmap_Some. apply list_find_Some in E as (_ & Hc & _).
  exact Hc.
Qed.

Section Properties.
Context `{HexCrateOk} `{JsonText PersistedHealState}.

(** C17: Routing around a dead node.  When a node goes offline, it is recorded as offline and no
    valid route leads to it or over it any more.  A route that did goes over the first of its
    candidates that is neither that node nor this one, if there is any; every other route is
    as it was.  (Without a DHT; with one, a route without candidates is discovered anew.) *)
Theorem offline_reroutes now unix dht id h m :
  multihop h = Some m → heal_dht h = false →
  let h' := on_node_offline now unix dht id h in
  ∃ m', multihop h' = Some m' ∧ is_offline <$> get_state id h' = Some true
    ∧ (∀ t e', find_route now t m' = Some e' → t ≠ id ∧ via e' ≠ id)
    ∧ ∀ t e, t ≠ id → hops m !! t = Some e →
        if decide (via e = id)
        then via <$> find_route now t m' = alternative id (hop_local m) (candidates e)
        else hops m' !! t = Some e.
Proof.
  intros Hm Hd h'. destruct (offline_hops now unix dht id h m Hm Hd)
    as (m' & Hm' & _ & _ & Hst & _ & Hid & Hh). exists m'.
  assert (Hr : ∀ t e, t ≠ id → hops m !! t = Some e →
    if decide (via e = id)
    then via <$> find_route now t m' = alternative id (hop_local m) (candidates e)
    else hops m' !! t = Some e).
  { intros t e Ht He. specialize (Hh t Ht). rewrite He in Hh. cbn [fmap option_fmap option_map] in Hh.
    case_decide as Hv; [|done]. apply redirect_route in Hh. by rewrite Hv in Hh. }
  split_and!; [done|done| |done]. intros t e' Hf. destruct (decide (t = id)) as [->|Ht].
  { unfold find_route in Hf. by rewrite Hid in Hf. }
  split; [done|]. specialize (Hh t Ht). destruct (hops m !! t) as [e|] eqn:He.
  2:{ unfold find_route in Hf. by rewrite Hh in Hf. }
  specialize (Hr t e Ht He). case_decide as Hv.
  - rewrite Hf in Hr. symmetry in Hr. by apply alternative_ne in Hr as [? _].
  - unfold find_route in Hf. rewrite Hr in Hf. cbn [mbind option_bind] in Hf.
    destruct (MultiHopEntry.is_expired now e); [done|]. by injection Hf as <-.
Qed.

(** A detour can lead over a node that is known to be dead.  The candidates are not checked:
    when a node goes offline and then the next hop of another route, that route is switched to
    its first candidate even if that is the node that went offline before. *)
Theorem detour_over_dead_node t1 t2 u1 u2 dht dead next target h m e :
  multihop h = Some m → heal_dht h = false → dead ≠ next → target ≠ dead → target ≠ next →
  hops m !! target = Some e → via e = next →
  alternative next (hop_local m) (candidates e) = Some dead →
  let h' := on_node_offline t2 u2 dht next (on_node_offline t1 u1 dht dead h) in
  ∃ m', multihop h' = Some m' ∧ via <$> find_route t2 target m' = Some dead
    ∧ is_offline <$> get_state dead h' = Some true.
Proof.
  intros Hm Hd Hdn Htd Htn He Hv Ha h'.
  destruct (offline_hops t1 u1 dht dead h m Hm Hd) as (m1 & Hm1 & Hd1 & Hl1 & Hs1 & _ & _ & Hh1).
  destruct (offline_hops t2 u2 dht next _ m1 Hm1 Hd1) as (m2 & Hm2 & _ & _ & _ & Hs2 & _ & Hh2).
  exists m2. split; [done|]. specialize (Hh1 target Htd).
  specialize (Hh2 target Htn). rewrite Hh1, He in Hh2. cbn [fmap option_fmap option_map] in Hh2.
  rewrite (decide_False (P := via e = dead)), decide_True in Hh2 by congruence. apply redirect_route in Hh2. rewrite Hv, Hl1, Ha in Hh2.
  split; [done|]. unfold get_state. by rewrite Hs2.
Qed.

(** ** The healing thread *)

Lemma probe_other now unix dht h i id :
  i ≠ id → heal_states (probe now unix dht h i) !! id = heal_states h !! id.
Proof.
  intros Hi. unfold probe. cbn [multihop set_states]. destruct (multihop h) as [m|].
  - cbn [heal_dht set_states]. destruct (heal_dht h).
    + destruct (discover_route _ _ _ _) as [[|] m']; cbn; by rewrite ?lookup_alter_ne by done.
    + cbn. by rewrite lookup_alter_ne.
  - cbn. by rewrite lookup_alter_ne.
Qed.
Lemma probe_frame now unix dht h i :
  heal_dht (probe now unix dht h i) = heal_dht h
  ∧ (∃ ev, events (probe now unix dht h i) = events h ++ ev)
  ∧ (∀ m, multihop h = Some m → ∃ m', multihop (probe now unix dht h i) = Some m' ∧ hop_local m' = hop_local m).
Proof.
  unfold probe. cbn [multihop set_states heal_dht]. destruct (multihop h) as [m|] eqn:Em.
  2:{ split_and!; [done|exists []; by rewrite app_nil_r|done]. }
  destruct (heal_dht h) eqn:Ed.
  2:{ split_and!; [done|exists []; by rewrite app_nil_r|]. intros m0 [= <-]. by exists m. }
  destruct (discover_route now dht i m) as [[|] m'] eqn:E.
  - split_and!; [done|by eexists|]. intros m0 [= <-]. exists m'. split; [done|].
    unfold discover_route in E. case_decide; [done|]. destruct dht as [d|]; [|done].
    destruct (sort_by _ _) as [|[v0 a0] l]; [done|].
    assert (Hl : ∀ e m, hop_local (insert_or_evict e m) = hop_local m).
    { intros e0 m0. unfold insert_or_evict. repeat case_match; reflexivity. }
    case_decide; injection E as _ <-; apply Hl.
  - split_and!; [done|exists []; by rewrite app_nil_r|]. intros m0 [= <-]. by exists m.
Qed.
Lemma probe_revives now unix d h m id s :
  multihop h = Some m → heal_dht h = true → id ≠ hop_local m → Dht.DhtManager.all_nodes d ≠ [] →
  heal_states h !! id = Some s →
  let h' := probe now unix (Some d) h id in
  is_offline <$> heal_states h' !! id = Some false ∧ NodeRecovered id unix ∈ events h'.
Proof.
  intros Hm Hd Hne Ha Hs. unfold probe. cbn [multihop set_states heal_dht]. rewrite Hm, Hd.
  destruct (discover_route now (Some d) id m) as [[|err] m'] eqn:E.
  - cbn. split; [|apply elem_of_app; right; by left]. by rewrite !lookup_alter_eq, Hs.
  - exfalso. unfold discover_route in E. rewrite decide_False in E by done.
    destruct (sort_by _ _) as [|[v addr] l] eqn:Es; [|by case_decide].
    apply (f_equal length) in Es. pose proof (sort_by_perm (MultihopManager.by_distance id)
      (Dht.DhtManager.find_node id d)) as Hp. rewrite Hp in Es.
    unfold Dht.DhtManager.find_node, Dht.DhtManager.find_nearest in Es.
    rewrite length_take, (sort_by_perm _ _) in Es. apply Ha, nil_length_inv.
    unfold Dht.K_BUCKET_SIZE in Es. cbn [length] in Es. lia.
Qed.

(** One turn without any answer of a node, at the time of a recovery check. *)
Lemma probes_revive now unix d id m l h s :
  multihop h = Some m → heal_dht h = true → id ≠ hop_local m → Dht.DhtManager.all_nodes d ≠ [] →
  heal_states h !! id = Some s → id ∈ l →
  let h' := foldl (probe now unix (Some d)) h l in
  is_offline <$> heal_states h' !! id = Some false ∧ NodeRecovered id unix ∈ events h'.
Proof.
  intros Hm Hd Hne Ha Hs Hin.
  assert (Hinv : ∀ l, let h' := foldl (probe now unix (Some d)) h l in
    heal_dht h' = true ∧ (∃ m', multihop h' = Some m' ∧ hop_local m' = hop_local m)
    ∧ is_Some (heal_states h' !! id)
    ∧ (id ∈ l → is_offline <$> heal_states h' !! id = Some false ∧ NodeRecovered id unix ∈ events h')).
  2:{ by apply Hinv. }
  clear l Hin. intros l. induction l as [|x l IH] using rev_ind; cbn [foldl].
  { split_and!; [done|by exists m|by exists s|by intros ?%elem_of_nil]. }
  rewrite foldl_app. cbn [foldl]. set (h1 := foldl _ h l) in *. cbn zeta in IH.
  destruct IH as (Hd1 & (m1 & Hm1 & Hl1) & [s1 Hs1] & Hon).
  destruct (probe_frame now unix (Some d) h1 x) as (Hd2 & [ev Hev] & Hm2).
  split_and!.
  - by rewrite Hd2.
  - destruct (Hm2 m1 Hm1) as (m2 & ? & ?). exists m2. split; [done|congruence].
  - destruct (decide (x = id)) as [->|Hx]; [|by rewrite probe_other].
    assert (Hne1 : id ≠ hop_local m1) by (by rewrite Hl1).
    destruct (probe_revives now unix d h1 m1 id s1 Hm1 Hd1 Hne1 Ha Hs1) as [Hf _].
    apply fmap_Some in Hf as (s2 & Hs2 & _). by exists s2.
  - intros Hin. destruct (decide (x = id)) as [->|Hx].
    + assert (Hne1 : id ≠ hop_local m1) by (by rewrite Hl1).
      by apply (probe_revives now unix d h1 m1 id s1).
    + rewrite probe_other by done. apply elem_of_app in Hin as [Hin|[->|[]%elem_of_nil]%elem_of_cons]; [|done].
      destruct (Hon Hin) as [Ho He]. split; [done|]. rewrite Hev. apply elem_of_app. by left.
Qed.

(** A node is declared recovered though nothing was heard of it.  The turn of the healing
    thread that is due for a recovery check counts as recovered every offline node with
    attempts left for which the DHT knows any node at all: no message is sent and no answer
    awaited. *)
Theorem probe_revives_silent_node now unix d disk last_recovery last_persist h m id s :
  heal_pongs h = [] → multihop h = Some m → heal_dht h = true → id ≠ hop_local m →
  Dht.DhtManager.all_nodes d ≠ [] →
  heal_states h !! id = Some s → heal_node s = id → due unix h s = true →
  recovery_check_interval h <= duration_since now last_recovery →
  let '(h', _, _, _) := turn now unix (Some d) disk last_recovery last_persist h in
  is_offline <$> get_state id h' = Some false ∧ NodeRecovered id unix ∈ events h'.
Proof.
  intros Hp Hm Hd Hne Ha Hs Hid Hdue Hrec. unfold turn. rewrite Hp. cbn [foldl].
  change (recovery_check_interval (set_pongs [] h)) with (recovery_check_interval h).
  rewrite (proj2 (Z.leb_le _ _) Hrec).
  assert (Hg := probes_revive now unix d id m
    (heal_node <$> filter (λ s, due unix (set_pongs [] h) s = true) (all_states (set_pongs [] h)))
    (set_pongs [] h) s Hm Hd Hne Ha Hs).
  assert (Hin : id ∈ heal_node <$> filter (λ s, due unix (set_pongs [] h) s = true)
                        (all_states (set_pongs [] h))).
  { apply list_elem_of_fmap. exists s. split; [done|]. apply list_elem_of_filter. split; [done|].
    unfold all_states. apply list_elem_of_fmap. exists (id, s). split; [done|].
    by apply elem_of_map_to_list. }
  specialize (Hg Hin). unfold get_state. by destruct (from_secs PERSIST_INTERVAL_SECS <=? _).
Qed.

(** ** Persistence *)

Lemma persisted_kmap unix h : persisted unix h = (kmap NodeID.to_hex (heal_states h), unix).
Proof. unfold persisted, kmap. f_equal. f_equal. apply list_fmap_ext. by intros ? [? ?] _. Qed.
Lemma size_kmap_hex (ss : gmap NodeID SelfHealNodeState) :
  size (kmap NodeID.to_hex ss : gmap string SelfHealNodeState) = size ss.
Proof.
  pose proof to_hex_inj. unfold kmap. rewrite map_size_list_to_map, length_fmap, length_map_to_list; [done|].
  rewrite <-list_fmap_compose, (list_fmap_ext _ (NodeID.to_hex ∘ fst)) by by intros ? [? ?] _.
  rewrite list_fmap_compose. apply NoDup_fmap_2; [done|]. apply NoDup_fst_map_to_list.
Qed.
Lemma restored_states (base : gmap NodeID SelfHealNodeState) (ss : gmap string SelfHealNodeState) id :
  (∀ k s, ss !! k = Some s → k = NodeID.to_hex (heal_node s)) →
  map_fold (λ _ s m, <[heal_node s := s]> m) base ss !! id = ss !! NodeID.to_hex id ∪ base !! id.
Proof.
  revert id. apply (map_fold_weak_ind (λ acc ss, ∀ id,
    (∀ k s, ss !! k = Some s → k = NodeID.to_hex (heal_node s)) →
    acc !! id = ss !! NodeID.to_hex id ∪ base !! id)).
  - intros id _. by rewrite lookup_empty, (left_id_L None (∪)).
  - intros k s m acc Hk IH id Hkeys. pose proof to_hex_inj.
    assert (k = NodeID.to_hex (heal_node s)) as -> by apply Hkeys, lookup_insert_eq.
    destruct (decide (heal_node s = id)) as [<-|Hne].
    + by rewrite !lookup_insert_eq, union_Some_l.
    + rewrite !lookup_insert_ne by (done || by intros ?%to_hex_inj). apply IH.
      intros k' s' Hs. apply Hkeys. rewrite lookup_insert_ne; [done|congruence].
Qed.

(** Healing state survives a restart.  Loading a saved state, in which each node's state is
    under its own identifier, reports how many states there were, announces as many, and gives
    every saved state back; states of other nodes that the loading manager had are kept. *)
Theorem selfheal_save_load `{!JsonTextOk PersistedHealState} unix path d d' h h2 :
  map_Forall (λ id s, heal_node s = id) (heal_states h) →
  save_state unix path d h = (Ok tt, d') →
  let n := size (heal_states h) in
  let '(res, h') := load_state path d' h2 in
  res = Ok n ∧ heal_states h' = heal_states h ∪ heal_states h2
  ∧ events h' = events h2 ++ [StateRestored n]
  ∧ try_restore_state d' (set_persist_path path h2) = (Ok n, set_persist_path path h').
Proof.
  intros Hk Hs n. pose proof to_hex_inj. unfold save_state in Hs.
  assert (Hf : files d' !! path = Some (as_bytes (to_string (persisted unix h)))).
  { unfold write in Hs. destruct (write_fault d path) as [[e [k|]]|]; [done..|].
    injection Hs as <-. apply lookup_insert_eq. }
  unfold try_restore_state. cbn [persist_path set_persist_path]. rewrite Hf. unfold load_state.
  rewrite Hf, from_utf8_as_bytes, from_str_to_string by apply to_string_str.
  rewrite persisted_kmap, size_kmap_hex. fold n. split_and!; [done| |done|done].
  cbn [heal_states emit_event set_states]. apply map_eq. intros id. rewrite restored_states.
  - rewrite lookup_union, lookup_kmap by apply to_hex_inj. done.
  - intros k s. rewrite lookup_kmap_Some by apply to_hex_inj. intros (i & -> & Hi).
    by rewrite (Hk _ _ Hi).
Qed.
End Properties.

(** ** Witnesses *)

#[export] Instance SelfHealNodeState_eq_dec : EqDecision SelfHealNodeState.
Proof. solve_decision. Defined.
#[export] Instance SelfHealNodeState_countable : Countable SelfHealNodeState.
Proof.
  refine (inj_countable' (λ s, (heal_node s, last_seen s, failed_attempts s, is_offline s,
      last_recovery_attempt s)) (λ '(i, l, f, o, r), mkHeal i l f o r) _). by intros [].
Defined.
#[export] Instance heal_text : JsonText PersistedHealState := bits_text PersistedHealState.
#[export] Instance heal_text_ok : JsonTextOk PersistedHealState := bits_text_ok PersistedHealState.

Lemma id_ne (a b : NodeID) : arr_bytes a ≠ arr_bytes b → a ≠ b.
Proof. by intros H ->. Qed.

(** A healer over the route to node 5, with candidates over nodes 2, 3 and 4. *)
Definition healer : SelfHealManager := set_multihop one_route (new node_1).

Lemma offline_reroutes_witness :
  ∃ m', multihop (on_node_offline 9 50 None node_5 healer) = Some m' ∧ find_route 9 node_5 m' = None.
Proof.
  destruct (offline_reroutes 9 50 None node_5 healer one_route eq_refl eq_refl) as (m' & Hm & _ & Hr & _).
  exists m'. split; [exact Hm|]. destruct (find_route 9 node_5 m') as [e|] eqn:E; [|reflexivity].
  destruct (proj1 (Hr _ _ E) eq_refl).
Defined.

(** Node 5 reached over node 3, with candidates over nodes 2 and 4. *)
Definition over_3 : MultiHopEntry :=
  MultiHopEntry.new 0 node_5 node_3 2 Relay [(node_2, "b"); (node_3, "c"); (node_4, "d")]%string.
Definition healer_3 : SelfHealManager := set_multihop (insert_route over_3 (MultihopManager.new 0 node_1)) (new node_1).

Lemma detour_over_dead_node_witness :
  ∃ m', multihop (on_node_offline 9 60 None node_3 (on_node_offline 5 50 None node_2 healer_3)) = Some m'
    ∧ via <$> find_route 9 node_5 m' = Some node_2.
Proof.
  destruct (detour_over_dead_node 5 9 50 60 None node_2 node_3 node_5 healer_3
    (insert_route over_3 (MultihopManager.new 0 node_1)) over_3) as (m' & Hm & Hv & _);
    try reflexivity; try (apply id_ne; vm_compute; discriminate).
  exists m'. split; [exact Hm|exact Hv].
Defined.

(** Node 5 is recorded as offline, and the DHT knows nodes 2 and 4. *)
Definition node_5_offline : SelfHealNodeState := mkHeal node_5 10 0 true 0.
Definition lonely : SelfHealManager :=
  set_states {[ node_5 := node_5_offline ]} (set_dht (set_multihop (MultihopManager.new 0 node_1) (new node_1))).

Lemma probe_revives_silent_node_witness :
  let '(h', _, _, _) := turn 30000000000 40 (Some small_dht) empty_disk 0 0 lonely in
  is_offline <$> get_state node_5 h' = Some false ∧ NodeRecovered node_5 40 ∈ events h'.
Proof.
  apply (probe_revives_silent_node 30000000000 40 small_dht empty_disk 0 0 lonely
    (MultihopManager.new 0 node_1) node_5 node_5_offline); try reflexivity.
  - apply id_ne. vm_compute. discriminate.
  - vm_compute. discriminate.
Defined.

Lemma selfheal_save_load_witness :
  ∃ d', save_state 70 "heal" empty_disk lonely = (Ok tt, d')
    ∧ (load_state "heal" d' (new node_1)).1 = Ok 1%nat.
Proof.
  assert (E : save_state 70 "heal" empty_disk lonely
    = (Ok tt, mkDisk (<["heal"%string := as_bytes (to_string (persisted 70 lonely))]> ∅)
                (λ _, None) (λ _, None)))
    by (unfold save_state; rewrite write_ok by exact eq_refl; exact eq_refl).
  eexists. split; [exact E|].
  pose proof (selfheal_save_load 70 "heal" empty_disk _ lonely (new node_1)
    (proj2 (map_Forall_singleton _ _ _) eq_refl) E) as Hl. cbv zeta in Hl.
  destruct (load_state _ _ _) as [res h']. destruct Hl as [-> _]. exact (f_equal Ok (map_size_singleton _ _)).
Defined.
