(* ===== verification/Download.v ===== *)
(** * Download: downloads of a file from several nodes

    Models crates/vpn/src/storage/download.rs: the buffer that puts blocks in
    order, the progress of a download, and the manager, which spreads the blocks
    over the nodes by their load.  [now] is the Unix clock in seconds.  Where
    the code can divide by zero, the result is [None]: the thread panics. *)
From Stdlib Require Import Floats.SpecFloat.
From S2P Require Import Prelude Identity Chunk Float.

Definition MAX_FAILED_BLOCKS : Z := 3.

Inductive DownloadStatus :=
| Pending
| Downloading (progress : f64) (downloaded_bytes total_bytes : Z)
| Completed (data : list byte)
| Failed (reason : string).

Record DownloadTask := mkTask {
  task_file : string; task_hash : Hash; total_size : Z; task_manifest : option FileManifest;
  block_sources : gmap Z (list string) }.
(** Messages that no code builds. *)
Record BlockRequest := mkBlockRequest { request_file : string; request_index : Z; request_hash : Hash }.
Record BlockResponse := mkBlockResponse {
  response_file : string; response_index : Z; response_data : list byte; success : bool; error : option string }.

(** ** Blocks in order *)

Record ReorderBuffer := mkReorder {
  blocks : gmap Z (list byte); expected_count : Z; next_expected : Z }.
Module ReorderBuffer.
Implicit Types b : ReorderBuffer.
Definition new (expected : Z) : ReorderBuffer := mkReorder ∅ expected 0.
Definition push (i : Z) (data : list byte) b : result unit string * ReorderBuffer :=
  if expected_count b <=? i
  then (Err ("block index " +:+ pretty i +:+ " out of range [0, " +:+ pretty (expected_count b) +:+ ")")%string, b)
  else if decide (is_Some (blocks b !! i))
  then (Err ("block index " +:+ pretty i +:+ " already received")%string, b)
  else (Ok tt, mkReorder (<[i := data]> (blocks b)) (expected_count b) (next_expected b)).
Definition can_assemble b : bool := Z.of_nat (size (blocks b)) =? expected_count b.
Definition is_complete : ReorderBuffer → bool := can_assemble.
(** Each turn takes a block out, so as many turns as there are blocks do. *)
Fixpoint drain (fuel : nat) b : list (Z * list byte) * ReorderBuffer :=
  match fuel with
  | O => ([], b)
  | S fuel =>
      match blocks b !! next_expected b with
      | Some data =>
          let '(out, b') := drain fuel (mkReorder (delete (next_expected b) (blocks b))
                              (expected_count b) (wrap 32 (next_expected b + 1))) in
          ((next_expected b, data) :: out, b')
      | None => ([], b)
      end
  end.
Definition drain_ordered b : list (Z * list byte) * ReorderBuffer := drain (size (blocks b)) b.
Definition remaining b : Z := saturating_sub (expected_count b) (wrap 32 (Z.of_nat (size (blocks b)))).
End ReorderBuffer.

(** ** Progress *)

Record DownloadProgress := mkProgress {
  progress_file : string; total_blocks : Z; progress_completed : Z; progress_failed : Z;
  total_bytes : Z; downloaded_bytes : Z; started_at : Z; estimated_remaining_secs : option Z }.
Module DownloadProgress.
Implicit Types p : DownloadProgress.
Definition new (now : Z) (name : string) (blocks bytes : Z) : DownloadProgress :=
  mkProgress name blocks 0 0 bytes 0 now None.
Definition eta (now : Z) p : option Z :=
  if (progress_completed p =? 0) || (total_blocks p =? 0) then None else
  let elapsed := saturating_sub now (started_at p) in
  if elapsed =? 0 then None else
  let bytes_per_sec := downloaded_bytes p / elapsed in
  if bytes_per_sec =? 0 then None else
  Some (saturating_sub (total_bytes p) (downloaded_bytes p) / bytes_per_sec).
Definition update (now completed failed downloaded : Z) p : DownloadProgress :=
  let p := mkProgress (progress_file p) (total_blocks p) completed failed (total_bytes p) downloaded
             (started_at p) (estimated_remaining_secs p) in
  mkProgress (progress_file p) (total_blocks p) completed failed (total_bytes p) downloaded
    (started_at p) (eta now p).
Definition progress_fraction p : f64 :=
  if total_blocks p =? 0 then f64_of_Z 1 else fdiv (f64_of_Z (progress_completed p)) (f64_of_Z (total_blocks p)).
End DownloadProgress.

(** ** Tasks *)

Record InternalTask := mkInternal {
  task : DownloadTask; status : DownloadStatus; progress : DownloadProgress; buffer : ReorderBuffer;
  completed_blocks : gset Z; failed_blocks : gmap Z (list string); node_assignments : gmap Z string }.
Module InternalTask.
Implicit Types t : InternalTask.
Definition new (now : Z) (d : DownloadTask) : InternalTask :=
  let n := wrap 32 (Z.of_nat (size (block_sources d))) in
  mkInternal d Pending (DownloadProgress.new now (task_file d) n (total_size d)) (ReorderBuffer.new n) ∅ ∅ ∅.
Definition set_assignments (a : gmap Z string) t : InternalTask :=
  mkInternal (task t) (status t) (progress t) (buffer t) (completed_blocks t) (failed_blocks t) a.
(** The estimate of the bytes so far; [None] divides by zero. *)
Definition downloaded t : option Z :=
  let n := Z.of_nat (size (block_sources (task t))) in
  if decide (completed_blocks t = ∅) then Some 0
  else if n =? 0 then None
  else Some (wrap 64 (Z.of_nat (size (completed_blocks t)) * (total_size (task t) / n))).
Definition set_progress (now bytes : Z) t : InternalTask :=
  mkInternal (task t) (status t)
    (DownloadProgress.update now (wrap 32 (Z.of_nat (size (completed_blocks t))))
       (wrap 32 (Z.of_nat (size (failed_blocks t)))) bytes (progress t))
    (buffer t) (completed_blocks t) (failed_blocks t) (node_assignments t).
Definition set_status (s : DownloadStatus) t : InternalTask :=
  mkInternal (task t) s (progress t) (buffer t) (completed_blocks t) (failed_blocks t) (node_assignments t).
End InternalTask.
Import InternalTask.

(** ** The manager *)

Record DownloadManager := mkDownloads {
  tasks : gmap string InternalTask; node_load : gmap string Z }.
Module DownloadManager.
Implicit Types m : DownloadManager.
Definition new : DownloadManager := mkDownloads ∅ ∅.
Definition create_task (now : Z) (name : string) (mf : FileManifest) (sources : gmap Z (list string)) m
    : DownloadTask * DownloadManager :=
  let d := mkTask name (file_hash mf) (file_size mf) (Some mf) sources in
  (d, mkDownloads (<[name := InternalTask.new now d]> (tasks m)) (node_load m)).
Definition get_status (name : string) m : option DownloadStatus := status <$> tasks m !! name.
Definition load (n : string) m : Z := default 0 (node_load m !! n).
(** [min_by_key]: the first of the least load. *)
Fixpoint select_source (available : list string) m : option string :=
  match available with
  | [] => None
  | n :: rest =>
      match select_source rest m with
      | Some n' => Some (if load n' m <? load n m then n' else n)
      | None => Some n
      end
  end.
Definition cancel (name : string) m : result unit string * DownloadManager :=
  match tasks m !! name with
  | None => (Err ("download task '" +:+ name +:+ "' not found")%string, m)
  | Some _ => (Ok tt, mkDownloads (delete name (tasks m)) (node_load m))
  end.
Definition is_active (t : InternalTask) : bool :=
  match status t with Pending | Downloading _ _ _ => true | _ => false end.
Definition active_downloads m : list string :=
  (filter (λ nt, is_active nt.2 = true) (map_to_list (tasks m))).*1.

Definition assign_block (name : string) (i : Z) (node : string) m : result unit string * DownloadManager :=
  let completed := match tasks m !! name with Some t => bool_decide (i ∈ completed_blocks t) | None => false end in
  if completed then (Err ("block " +:+ pretty i +:+ " already completed")%string, m) else
  (Ok tt, mkDownloads
     (alter (λ t, set_assignments (<[i := node]> (node_assignments t)) t) name (tasks m))
     (<[node := wrap 32 (load node m + 1)]> (node_load m))).
Definition assigned_node (name : string) (i : Z) m : option string :=
  t ← tasks m !! name; node_assignments t !! i.
Definition release (node : option string) (l : gmap string Z) : gmap string Z :=
  match node with
  | Some n =>
      match l !! n with
      | Some count =>
          let count := saturating_sub count 1 in
          if count =? 0 then delete n l else <[n := count]> l
      | None => l
      end
  | None => l
  end.
Definition complete_block (now : Z) (name : string) (i : Z) (data : list byte) m
    : option (result unit string * DownloadManager) :=
  let l := release (assigned_node name i m) (node_load m) in
  match tasks m !! name with
  | None => Some (Err ("download task '" +:+ name +:+ "' not found")%string, mkDownloads (tasks m) l)
  | Some t =>
      let '(res, buf) := ReorderBuffer.push i data (buffer t) in
      let t := mkInternal (task t) (status t) (progress t) buf ({[ i ]} ∪ completed_blocks t)
                 (failed_blocks t) (delete i (node_assignments t)) in
      match res with
      | Err e => Some (Err ("reorder buffer push failed: " +:+ e)%string, mkDownloads (<[name := t]> (tasks m)) l)
      | Ok _ =>
          bytes ← downloaded t;
          let t := set_progress now bytes t in
          let t := set_status
            (if ReorderBuffer.is_complete buf
             then Downloading (f64_of_Z 1) (total_size (task t)) (total_size (task t))
             else Downloading (DownloadProgress.progress_fraction (progress t)) bytes (total_size (task t))) t in
          Some (Ok tt, mkDownloads (<[name := t]> (tasks m)) l)
      end
  end.
Definition fail_block (now : Z) (name : string) (i : Z) m : option (result unit string * DownloadManager) :=
  let node := assigned_node name i m in
  let l := release node (node_load m) in
  match tasks m !! name with
  | None => Some (Err ("download task '" +:+ name +:+ "' not found")%string, mkDownloads (tasks m) l)
  | Some t =>
      let failed := <[i := default [] (failed_blocks t !! i) ++ option_list node]> (failed_blocks t) in
      let total_failed := wrap 32 (Z.of_nat (size failed)) in
      let s :=
        if MAX_FAILED_BLOCKS <=? total_failed
        then Failed ("too many failed blocks: " +:+ pretty total_failed +:+ " (max "
                       +:+ pretty MAX_FAILED_BLOCKS +:+ ")")%string
        else status t in
      let t := mkInternal (task t) s (progress t) (buffer t) (completed_blocks t) failed
                 (delete i (node_assignments t)) in
      bytes ← downloaded t;
      Some (Ok tt, mkDownloads (<[name := set_progress now bytes t]> (tasks m)) l)
  end.
End DownloadManager.
Import DownloadManager.

(** ** The load of a node *)

Inductive Op :=
| Create (now : Z) (name : string) (mf : FileManifest) (sources : gmap Z (list string))
| Assign (name : string) (i : Z) (node : string)
| Complete (now : Z) (name : string) (i : Z) (data : list byte)
| FailBlock (now : Z) (name : string) (i : Z)
| Cancel (name : string).
(** [None]: the operation panics. *)
Definition apply_op (m : DownloadManager) (op : Op) : option DownloadManager :=
  match op with
  | Create now name mf sources => Some (create_task now name mf sources m).2
  | Assign name i node => Some (assign_block name i node m).2
  | Complete now name i data => snd <$> complete_block now name i data m
  | FailBlock now name i => snd <$> fail_block now name i m
  | Cancel name => Some (cancel name m).2
  end.
Fixpoint run (ops : list Op) (m : DownloadManager) : option DownloadManager :=
  match ops with [] => Some m | op :: ops => apply_op m op ≫= run ops end.

(** How many blocks node [n] is assigned. *)
Definition is_node (n n' : string) : Z := if decide (n' = n) then 1 else 0.
Definition assigned (n : string) (t : InternalTask) : Z := map_sum (λ _, is_node n) (node_assignments t).
Definition assigned_to (n : string) (m : DownloadManager) : Z := map_sum (λ _, assigned n) (tasks m).
Definition has_assignments (name : string) (m : DownloadManager) : Prop :=
  ∃ t, tasks m !! name = Some t ∧ node_assignments t ≠ ∅.
(** A caller that assigns only blocks of a known download that nobody has, and
    drops no download with blocks under way. *)
Definition tidy (m : DownloadManager) (op : Op) : Prop :=
  match op with
  | Assign name i _ => is_Some (tasks m !! name) ∧ assigned_node name i m = None
  | Create _ name _ _ | Cancel name => ¬ has_assignments name m
  | Complete _ _ _ _ | FailBlock _ _ _ => True
  end.
Fixpoint tidy_run (ops : list Op) (m : DownloadManager) : Prop :=
  match ops with
  | [] => True
  | op :: ops => tidy m op ∧ ∀ m', apply_op m op = Some m' → tidy_run ops m'
  end.

Lemma is_node_range n n' : 0 <= is_node n n' <= 1.
Proof. unfold is_node. case_decide; lia. Qed.
Lemma assigned_nonneg n t : 0 <= assigned n t.
Proof. apply map_sum_nonneg. intros ? n' _. pose proof (is_node_range n n'). lia. Qed.
Lemma assigned_to_nonneg n m : 0 <= assigned_to n m.
Proof. apply map_sum_nonneg. intros ? t _. apply assigned_nonneg. Qed.

Lemma load_release n node l :
  default 0 (release node l !! n)
  = if decide (node = Some n) then saturating_sub (default 0 (l !! n)) 1 else default 0 (l !! n).
Proof.
  unfold release. destruct node as [n'|]; [|done]. destruct (decide (n' = n)) as [->|Hne].
  - rewrite decide_True by done. destruct (l !! n) as [c|] eqn:E; [|by rewrite E].
    destruct (saturating_sub c 1 =? 0) eqn:Hz; [|by rewrite lookup_insert_eq].
    apply Z.eqb_eq in Hz. rewrite lookup_delete_eq. cbn. congruence.
  - rewrite decide_False by congruence. destruct (l !! n') as [c|]; [|done].
    destruct (_ =? 0); by rewrite ?lookup_delete_ne, ?lookup_insert_ne.
Qed.

Lemma assigned_to_insert n name t m l :
  assigned_to n (mkDownloads (<[name := t]> (tasks m)) l)
  = assigned n t + assigned_to n m - default 0 (assigned n <$> tasks m !! name).
Proof. exact (map_sum_insert (λ _, assigned n) name t (tasks m)). Qed.
Lemma assigned_to_delete n name m l :
  assigned_to n (mkDownloads (delete name (tasks m)) l)
  = assigned_to n m - default 0 (assigned n <$> tasks m !! name).
Proof. exact (map_sum_delete (λ _, assigned n) name (tasks m)). Qed.

Lemma assigned_drop n i t t' :
  node_assignments t' = delete i (node_assignments t) →
  assigned n t' = assigned n t - default 0 (is_node n <$> node_assignments t !! i).
Proof. unfold assigned. intros ->. exact (map_sum_delete (λ _, is_node n) i _). Qed.
Lemma assigned_add n i node t :
  assigned n (set_assignments (<[i := node]> (node_assignments t)) t)
  = assigned n t + is_node n node - default 0 (is_node n <$> node_assignments t !! i).
Proof.
  unfold assigned. cbn [node_assignments set_assignments].
  pose proof (map_sum_insert (λ _, is_node n) i node (node_assignments t)) as Hs. cbn beta in Hs. lia.
Qed.

(** An operation changes the load of a node and what it is assigned together;
    one that is tidy, by the same amount. *)
Inductive moved (n : string) (m m' : DownloadManager) (exact : Prop) : Prop :=
| kept : load n m' = load n m → assigned_to n m' <= assigned_to n m →
    (exact → assigned_to n m' = assigned_to n m) → moved n m m' exact
| took : load n m' = wrap 32 (load n m + 1) → assigned_to n m' <= assigned_to n m + 1 →
    (exact → assigned_to n m' = assigned_to n m + 1) → moved n m m' exact
| gave : load n m' = saturating_sub (load n m) 1 → assigned_to n m' = assigned_to n m - 1 →
    moved n m m' exact.

(** Completing or failing block [i] drops its assignment. *)
Lemma drop_moved n name i t t' m exact :
  tasks m !! name = Some t → node_assignments t' = delete i (node_assignments t) →
  moved n m (mkDownloads (<[name := t']> (tasks m)) (release (assigned_node name i m) (node_load m))) exact.
Proof.
  intros Ht Ha. assert (Hn : assigned_node name i m = node_assignments t !! i)
    by (unfold assigned_node; by rewrite Ht).
  assert (Hs : assigned_to n (mkDownloads (<[name := t']> (tasks m)) (release (assigned_node name i m) (node_load m)))
    = assigned_to n m - default 0 (is_node n <$> node_assignments t !! i)).
  { rewrite assigned_to_insert, Ht, (assigned_drop n i t t' Ha).
    change (default 0 (assigned n <$> Some t)) with (assigned n t). lia. }
  assert (Hl := load_release n (assigned_node name i m) (node_load m)). rewrite Hn in Hl, Hs |- *.
  destruct (node_assignments t !! i) as [n'|]; cbn [fmap option_fmap option_map default] in Hs.
  2:{ apply kept; [exact Hl|lia|intros _; lia]. }
  unfold is_node in Hs. destruct (decide (n' = n)) as [->|Hne].
  - rewrite decide_True in Hl by done. unfold id in Hs. apply gave; [exact Hl|lia].
  - rewrite decide_False in Hl by congruence. unfold id in Hs.
    apply kept; [exact Hl|lia|intros _; lia].
Qed.
Lemma assign_moved n m name i node :
  moved n m (assign_block name i node m).2 (tidy m (Assign name i node)).
Proof.
  cbn [tidy].
  unfold assign_block. match goal with |- context [if ?b then _ else _] => destruct b end; cbn [snd]; [by apply kept|].
  set (l := <[node := _]> (node_load m)).
  assert (Hl : load n (mkDownloads (alter (λ t, set_assignments (<[i := node]> (node_assignments t)) t) name (tasks m)) l)
    = if decide (node = n) then wrap 32 (load n m + 1) else load n m).
  { unfold load at 1. cbn [node_load]. subst l. rewrite lookup_insert. by case_decide; subst. }
  assert (Hs : assigned_to n (mkDownloads (alter (λ t, set_assignments (<[i := node]> (node_assignments t)) t) name (tasks m)) l)
    = assigned_to n m + default 0 ((λ t, is_node n node - default 0 (is_node n <$> node_assignments t !! i)) <$> tasks m !! name)).
  { destruct (tasks m !! name) as [t|] eqn:E.
    - rewrite (alter_Some _ name t) by done. rewrite assigned_to_insert, assigned_add, E.
      cbn [fmap option_fmap option_map default]. unfold id. lia.
    - rewrite alter_id' by done. change (assigned_to n (mkDownloads (tasks m) l)) with (assigned_to n m). cbn [fmap option_fmap option_map default]. lia. }
  destruct (decide (node = n)) as [Heq|Hne]; [apply took|apply kept]; [exact Hl| | |exact Hl| |];
    rewrite Hs; (assert (Hr := is_node_range n)); unfold tidy, assigned_node;
    (destruct (tasks m !! name) as [t|]; cbn [fmap option_fmap option_map default mbind option_bind];
     [|try lia; try by intros [[? ?] _]]).
  + destruct (node_assignments t !! i); cbn; [pose proof (Hr s)|]; pose proof (Hr node); lia.
  + intros [_ ->]. cbn. unfold is_node. rewrite decide_True by done. lia.
  + unfold is_node at 1. rewrite decide_False by done.
    destruct (node_assignments t !! i); cbn; [pose proof (Hr s)|]; lia.
  + intros [_ ->]. cbn. unfold is_node. rewrite decide_False by done. lia.
Qed.
Lemma op_moved n m op m' : apply_op m op = Some m' → moved n m m' (tidy m op).
Proof.
  destruct op as [now name mf sources|name i node|now name i data|now name i|name]; cbn [apply_op tidy].
  - intros [= <-]. apply kept; [done|..]; cbn [create_task snd];
      rewrite assigned_to_insert; change (assigned n (InternalTask.new _ _)) with 0.
    + destruct (tasks m !! name) as [t|]; cbn; [pose proof (assigned_nonneg n t)|]; lia.
    + unfold has_assignments. intros Hno. destruct (tasks m !! name) as [t|] eqn:E; cbn; [|lia].
      destruct (decide (node_assignments t = ∅)) as [Ha|]; [|destruct Hno; by exists t].
      unfold assigned. rewrite Ha, map_sum_empty. lia.
  - intros [= <-]. apply assign_moved.
  - intros ([res m1] & E & ->)%fmap_Some. unfold complete_block in E.
    destruct (tasks m !! name) as [t|] eqn:Ht.
    2:{ injection E as _ <-. unfold assigned_node. rewrite Ht. by apply kept. }
    destruct (ReorderBuffer.push i data (buffer t)) as [[|] buf]; [|injection E as _ <-; by apply (drop_moved n name i t)].
    destruct (downloaded _) as [bytes|]; [|done]. injection E as _ <-. by apply (drop_moved n name i t).
  - intros ([res m1] & E & ->)%fmap_Some. unfold fail_block in E.
    destruct (tasks m !! name) as [t|] eqn:Ht.
    2:{ injection E as _ <-. unfold assigned_node. rewrite Ht. by apply kept. }
    destruct (downloaded _) as [bytes|]; [|done]. injection E as _ <-. by apply (drop_moved n name i t).
  - intros [= <-]. unfold cancel. destruct (tasks m !! name) as [t|] eqn:E; cbn [snd]; [|by apply kept].
    apply kept; [done|..]; rewrite assigned_to_delete, E; change (default 0 (assigned n <$> Some t)) with (assigned n t).
    + pose proof (assigned_nonneg n t). lia.
    + intros Hno. destruct (decide (node_assignments t = ∅)) as [Ha|]; [|destruct Hno; by exists t].
      unfold assigned. rewrite Ha, map_sum_empty. lia.
Qed.

(** The load of [n] counts what [n] is assigned and [s] more, and is at most [k]. *)
Definition ledger (n : string) (s k : Z) (m : DownloadManager) : Prop :=
  assigned_to n m + s <= load n m <= k.
Lemma run_ledger n s k ops m m' :
  0 <= s → ledger n s k m → k + len ops < 2 ^ 32 → run ops m = Some m' →
  ledger n s (k + len ops) m'
  ∧ (tidy_run ops m → assigned_to n m + s = load n m → assigned_to n m' + s = load n m').
Proof.
  intros Hs. revert k m. induction ops as [|op ops IH]; intros k m Hl Hk; cbn [run tidy_run].
  { intros [= <-]. cbn [length]. by rewrite Z.add_0_r. }
  intros (m1 & E & Hr)%bind_Some. rewrite length_cons in *.
  pose proof (assigned_to_nonneg n m) as Ha. pose proof (assigned_to_nonneg n m1) as Ha1. unfold ledger in Hl.
  assert (Hm : ledger n s (k + 1) m1 ∧ (tidy m op → assigned_to n m + s = load n m → assigned_to n m1 + s = load n m1)).
  { unfold ledger. destruct (op_moved n m op m1 E) as [El Es He|El Es He|El Es].
    - split; [lia|]. intros ? ?. rewrite He by done. lia.
    - rewrite wrap_id in El by (unfold fits; lia). split; [lia|]. intros ? ?. rewrite He by done. lia.
    - unfold saturating_sub in El. split; [lia|]. intros _ ?. lia. }
  destruct Hm as [Hm1 He1]. destruct (IH (k + 1) m1 Hm1 ltac:(lia) Hr) as [Hm' He'].
  split; [by replace (k + Z.of_nat (S (length ops))) with (k + 1 + len ops) by lia|].
  intros [Ht Hts] He. apply He'; [by apply Hts|by apply He1].
Qed.

(** The load of the nodes.  Whatever downloads are created, cancelled and served, a node is
    never counted as having fewer blocks under way than it has; and a caller that reassigns no
    block and drops no download with blocks under way sees exact loads, so the source selected
    among available nodes is the first with the fewest blocks under way. *)
Theorem download_load ops m :
  run ops new = Some m → len ops < 2 ^ 32 →
  (∀ n, assigned_to n m <= load n m)
  ∧ (tidy_run ops new → (∀ n, load n m = assigned_to n m)
      ∧ ∀ l n, select_source l m = Some n → n ∈ l ∧ ∀ n', n' ∈ l → assigned_to n m <= assigned_to n' m).
Proof.
  intros Hr Hk. assert (Hg : ∀ n, _) by (intros n; apply (run_ledger n 0 0 ops new m); [done|by vm_compute|done|exact Hr]).
  split; [intros n; destruct (Hg n) as [[? ?] _]; lia|]. intros Ht.
  assert (He : ∀ n, load n m = assigned_to n m).
  { intros n. destruct (Hg n) as [_ He]. specialize (He Ht eq_refl). lia. }
  split; [exact He|]. intros l. induction l as [|a l IH]; intros n Hs; [done|]. cbn [select_source] in Hs.
  destruct (select_source l m) as [b|] eqn:E.
  - destruct (IH b eq_refl) as [Hb Hmin]. rewrite !He in Hs. injection Hs as <-.
    destruct (Z.ltb_spec (assigned_to b m) (assigned_to a m)).
    + split; [by right|]. intros n' [->|Hn']%elem_of_cons; [lia|by apply Hmin].
    + split; [by left|]. intros n' [->|Hn']%elem_of_cons; [lia|]. specialize (Hmin n' Hn'). lia.
  - injection Hs as <-. split; [by left|]. intros n' [->|Hn']%elem_of_cons; [lia|].
    destruct l as [|c l]; [by apply elem_of_nil in Hn'|]. cbn [select_source] in E. by destruct (select_source l m).
Qed.

(** A cancelled download keeps its load.  When a download is cancelled while a node has a
    block of it under way, that node counts as loaded for good: whatever happens afterwards,
    its load stays at least one, and an idle node is always preferred to it. *)
Theorem cancel_leaks_load ops0 ops m0 m name i n idle :
  run ops0 new = Some m0 → assigned_node name i m0 = Some n →
  run ops (cancel name m0).2 = Some m → len ops0 + len ops < 2 ^ 32 → load idle m = 0 →
  1 <= load n m ∧ select_source [n; idle] m = Some idle.
Proof.
  intros H0 Ha Hr Hk Hi. unfold assigned_node in Ha. apply bind_Some in Ha as (t & Ht & Ha).
  destruct (run_ledger n 0 0 ops0 new m0 ltac:(done) ltac:(by vm_compute) ltac:(lia) H0) as [Hl _].
  assert (Hn : 1 <= assigned n t).
  { unfold assigned. rewrite (map_sum_take _ i), Ha.
    change (default 0 (is_node n <$> Some n)) with (is_node n n). unfold is_node at 1. rewrite decide_True by done.
    enough (0 <= map_sum (λ _, is_node n) (delete i (node_assignments t))) by lia.
    apply map_sum_nonneg. intros ? n' _. pose proof (is_node_range n n'). lia. }
  assert (Hc : ledger n 1 (len ops0) (cancel name m0).2).
  { unfold ledger in *. unfold cancel. rewrite Ht. cbn [snd]. rewrite assigned_to_delete, Ht.
    change (default 0 (assigned n <$> Some t)) with (assigned n t).
    change (load n (mkDownloads _ (node_load m0))) with (load n m0). lia. }
  destruct (run_ledger n 1 (len ops0) ops _ m ltac:(lia) Hc Hk Hr) as [[Hlo _] _].
  pose proof (assigned_to_nonneg n m). split; [lia|]. cbn [select_source].
  rewrite (proj2 (Z.ltb_lt _ _)); [done|lia].
Qed.

(** ** Assembling a file *)

Lemma drain_run xs fuel b :
  (∀ i d, xs !! i = Some d → blocks b !! (next_expected b + Z.of_nat i) = Some d) →
  blocks b !! (next_expected b + len xs) = None →
  0 <= next_expected b → next_expected b + len xs < 2 ^ 32 → (length xs <= fuel)%nat →
  (ReorderBuffer.drain fuel b).1 = zip (seqZ (next_expected b) (len xs)) xs.
Proof.
  revert fuel b. induction xs as [|x xs IH]; intros fuel b Hx Hend H0 Hk Hf.
  { rewrite Z.add_0_r in Hend. destruct fuel; cbn [ReorderBuffer.drain]; [done|by rewrite Hend]. }
  destruct fuel as [|fuel]; [cbn in Hf; lia|]. cbn [ReorderBuffer.drain].
  pose proof (Hx 0%nat x eq_refl) as Hx0. rewrite Z.add_0_r in Hx0. rewrite Hx0.
  rewrite length_cons in *. rewrite seqZ_cons by lia. cbn [zip zip_with].
  set (b1 := mkReorder _ _ _). assert (Hn : next_expected b1 = next_expected b + 1).
  { subst b1. cbn [next_expected]. rewrite wrap_id by (unfold fits; lia). done. }
  specialize (IH fuel b1). rewrite Hn in IH.
  replace (Z.succ (next_expected b)) with (next_expected b + 1) by lia.
  replace (Z.pred (Z.of_nat (S (length xs)))) with (len xs) by lia.
  rewrite <-IH; [by destruct (ReorderBuffer.drain fuel b1)| | |lia..].
  - intros i d Hi. subst b1. cbn [blocks]. rewrite lookup_delete_ne by lia.
    specialize (Hx (S i) d Hi). by replace (next_expected b + Z.of_nat (S i)) with (next_expected b + 1 + Z.of_nat i) in Hx by lia.
  - subst b1. cbn [blocks]. rewrite lookup_delete_ne by lia.
    by replace (next_expected b + Z.of_nat (S (length xs))) with (next_expected b + 1 + len xs) in Hend by lia.
Qed.

(** Completing a block that is expected and has not been received. *)
Lemma complete_step now name i data m t :
  tasks m !! name = Some t → i < expected_count (buffer t) → blocks (buffer t) !! i = None →
  block_sources (task t) ≠ ∅ →
  ∃ m' t', complete_block now name i data m = Some (Ok tt, m') ∧ tasks m' !! name = Some t'
    ∧ task t' = task t ∧ completed_blocks t' = {[ i ]} ∪ completed_blocks t
    ∧ buffer t' = mkReorder (<[i := data]> (blocks (buffer t))) (expected_count (buffer t)) (next_expected (buffer t))
    ∧ progress_completed (progress t') = wrap 32 (Z.of_nat (size (completed_blocks t')))
    ∧ is_active t' = true
    ∧ (ReorderBuffer.is_complete (buffer t') = true →
        status t' = Downloading (f64_of_Z 1) (total_size (task t)) (total_size (task t))).
Proof.
  intros Ht Hi Hb Hs. unfold complete_block. rewrite Ht. unfold ReorderBuffer.push.
  rewrite (proj2 (Z.leb_gt _ _)) by done. rewrite decide_False by (rewrite Hb; by intros [? ?]).
  set (t1 := mkInternal _ _ _ _ _ _ _). assert (Hd : ∃ bytes, downloaded t1 = Some bytes).
  { unfold downloaded. subst t1. cbn [task completed_blocks]. case_decide; [by eexists|].
    rewrite (proj2 (Z.eqb_neq _ _)); [by eexists|]. intros E. apply Hs, map_size_empty_inv. lia. }
  destruct Hd as [bytes Hd]. rewrite Hd. cbn [mbind option_bind].
  eexists _, _. split; [done|]. split; [apply lookup_insert_eq|]. split_and!; try done.
  { unfold is_active. cbn [status set_status]. by destruct (ReorderBuffer.is_complete _). }
  cbn [status set_status buffer set_progress]. subst t1. cbn [buffer]. by intros ->.
Qed.

(** Completing blocks one after another, at the times [ts]. *)
Definition completions (name : string) (ps : list (Z * (Z * list byte))) : list Op :=
  (λ p, Complete p.1 name p.2.1 p.2.2) <$> ps.
Lemma complete_all name ps m t :
  tasks m !! name = Some t → block_sources (task t) ≠ ∅ → NoDup ps.*2.*1 →
  (∀ p, p ∈ ps → p.2.1 < expected_count (buffer t) ∧ blocks (buffer t) !! p.2.1 = None) →
  ∃ m' t', run (completions name ps) m = Some m' ∧ tasks m' !! name = Some t'
    ∧ task t' = task t ∧ completed_blocks t' = list_to_set ps.*2.*1 ∪ completed_blocks t
    ∧ buffer t' = mkReorder (list_to_map ps.*2 ∪ blocks (buffer t)) (expected_count (buffer t)) (next_expected (buffer t))
    ∧ (ps ≠ [] → progress_completed (progress t') = wrap 32 (Z.of_nat (size (completed_blocks t')))
        ∧ (ReorderBuffer.is_complete (buffer t') = true →
            status t' = Downloading (f64_of_Z 1) (total_size (task t)) (total_size (task t)))).
Proof.
  revert m t. induction ps as [|p ps IH] using rev_ind; intros m t Ht Hs Hn Hp.
  { exists m, t. cbn. split_and!; try done; [by rewrite (left_id_L ∅ (∪))|].
    rewrite (left_id_L ∅ (∪)). by destruct (buffer t). }
  rewrite !fmap_app in Hn. cbn [fmap list_fmap] in Hn. apply NoDup_app in Hn as (Hn & Hni & _).
  destruct (IH m t Ht Hs Hn) as (m1 & t1 & Hr & Ht1 & Htask & Hc & Hb & _).
  { intros q Hq. apply Hp, elem_of_app. by left. }
  destruct (Hp p) as [Hi Hf]; [apply elem_of_app; right; by left|].
  assert (Hni' : p.2.1 ∉ ps.*2.*1) by (intros Hin; apply (Hni _ Hin); by left).
  destruct (complete_step p.1 name p.2.1 p.2.2 m1 t1 Ht1) as (m2 & t2 & Hstep & Ht2 & Htask2 & Hc2 & Hb2 & Hpr & _ & Hst).
  { by rewrite Hb. }
  { rewrite Hb. cbn [blocks]. rewrite lookup_union_None. split; [|done]. by apply not_elem_of_list_to_map_1. }
  { by rewrite Htask. }
  exists m2, t2. rewrite Htask in Htask2, Hst. split_and!; [|done|done| | |done].
  - assert (Hrun : ∀ a b m0, run (a ++ b) m0 = run a m0 ≫= run b).
    { intros a b. induction a as [|o a IHa]; intros m0; [done|]. cbn [app run].
      destruct (apply_op m0 o) as [m3|]; [apply IHa|done]. }
    unfold completions. rewrite fmap_app, Hrun. unfold completions in Hr. rewrite Hr.
    cbn [mbind option_bind fmap list_fmap run apply_op]. rewrite Hstep. done.
  - rewrite Hc2, Hc, !fmap_app, list_to_set_app_L. cbn. set_solver.
  - rewrite Hb2, Hb. cbn [blocks expected_count next_expected]. f_equal.
    rewrite fmap_app, list_to_map_app, insert_union_l. f_equal.
    cbn [fmap list_fmap list_to_map foldr]. 
    destruct p as [? [i d]]. cbn in *. apply map_eq. intros j. rewrite lookup_union, !lookup_insert.
    case_decide; [subst; rewrite not_elem_of_list_to_map_1 by done; done|].
    rewrite lookup_empty. by destruct (_ !! j).
Qed.

Section Assembly.
Context `{Sha256Crate}.
Import Chunk.Chunker.

Lemma block_index_lookup {A} (xs : list A) ps i x :
  ps ≡ₚ zip (seqZ 0 (len xs)) xs → xs !! i = Some x →
  (list_to_map ps : gmap Z A) !! Z.of_nat i = Some x.
Proof.
  intros Hp Hi. pose proof (lookup_lt_Some _ _ _ Hi) as Hlt. apply elem_of_list_to_map.
  - rewrite Hp, fst_zip by (rewrite length_seqZ; lia). apply NoDup_seqZ.
  - rewrite Hp. apply list_elem_of_lookup. exists i. apply lookup_zip_Some.
    split; [|done]. rewrite lookup_seqZ_lt; [done|lia].
Qed.

(** C19: Assembling a download.  A download of a file that is not empty, cut with a block size for which
    the count of blocks does not wrap and is below 2^32, and of which every block has a source, completes
    when every block has arrived once, whatever the order: all blocks are counted, the buffer then hands them
    out in order, and with the manifest they reassemble to exactly the file.  The status ends
    at Downloading with all bytes, not at Completed. *)
Theorem download_assembles now name c data sources ps m :
  let n := num_chunks (chunk_size c) data in
  let mf := (chunk_data data c).1 in
  let bs := (chunk_data data c).2 in
  chunkable (chunk_size c) data → (0 < n)%nat → fits 32 (Z.of_nat n) → size sources = n →
  ps.*2 ≡ₚ zip (seqZ 0 (Z.of_nat n)) bs →
  ∃ m' t, run (completions name ps) (create_task now name mf sources m).2 = Some m'
    ∧ tasks m' !! name = Some t
    ∧ progress_completed (progress t) = Z.of_nat n
    ∧ reassemble mf (ReorderBuffer.drain_ordered (buffer t)).1.*2 = Ok data
    ∧ get_status name m' = Some (Downloading (f64_of_Z 1) (len data) (len data)).
Proof.
  intros n mf bs Hc Hn Hfit Hsz Hp. set (d0 := mkTask name (file_hash mf) (file_size mf) (Some mf) sources).
  set (t0 := InternalTask.new now d0).
  assert (Hlen : length bs = n) by (subst bs; cbn; by rewrite length_fmap, length_seq).
  assert (Hexp : expected_count (buffer t0) = Z.of_nat n) by (cbn; by rewrite Hsz, wrap_id).
  assert (Hz : (zip (seqZ 0 (Z.of_nat n)) bs).*1 = seqZ 0 (Z.of_nat n))
    by (apply fst_zip; rewrite length_seqZ; lia).
  assert (Hlp : length ps = n).
  { apply Permutation_length in Hp. rewrite length_fmap, length_zip, length_seqZ, Hlen in Hp. lia. }
  destruct (complete_all name ps (create_task now name mf sources m).2 t0)
    as (m' & t & Hr & Ht & Htask & Hcb & Hb & Hend).
  { apply lookup_insert_eq. }
  { cbn. intros ->. rewrite map_size_empty in Hsz. lia. }
  { rewrite Hp, Hz. apply NoDup_seqZ. }
  { intros p Hin. rewrite Hexp. split; [|done].
    assert (Hin' : p.2.1 ∈ ps.*2.*1) by (apply list_elem_of_fmap_2, list_elem_of_fmap_2; done).
    rewrite Hp, Hz in Hin'. apply elem_of_seqZ in Hin'. lia. }
  destruct Hend as [Hpr Hst]; [intros ->; cbn in Hlp; lia|].
  exists m', t. split; [done|]. split; [done|].
  assert (Hbuf : buffer t = mkReorder (list_to_map ps.*2) (Z.of_nat n) 0).
  { rewrite Hb, Hexp. cbn. by rewrite (right_id_L ∅ (∪)). }
  assert (Hsize : size (list_to_map ps.*2 : gmap Z (list byte)) = n).
  { rewrite map_size_list_to_map; [by rewrite length_fmap|]. rewrite Hp, Hz. apply NoDup_seqZ. }
  split_and!.
  - rewrite Hpr, Hcb. cbn. rewrite (right_id_L ∅ (∪)), size_list_to_set.
    + rewrite !length_fmap, Hlp. by apply wrap_id.
    + rewrite Hp, Hz. apply NoDup_seqZ.
  - unfold ReorderBuffer.drain_ordered. rewrite (drain_run bs).
    + rewrite Hbuf. cbn [next_expected]. rewrite Hlen, snd_zip by (rewrite length_seqZ; lia).
      by apply reassemble_chunks.
    + intros i d Hi. rewrite Hbuf. cbn [blocks next_expected]. rewrite Z.add_0_l.
      apply (block_index_lookup bs); [by rewrite Hlen|done].
    + rewrite Hbuf. cbn [blocks next_expected]. apply not_elem_of_list_to_map_1. rewrite Hp, Hz.
      rewrite elem_of_seqZ. lia.
    + by rewrite Hbuf.
    + rewrite Hbuf, Hlen. cbn. unfold fits in Hfit. lia.
    + rewrite Hbuf, Hlen. cbn [blocks]. lia.
  - unfold get_status. rewrite Ht. cbn. f_equal. rewrite Hst; [done|].
    rewrite Hbuf. unfold ReorderBuffer.is_complete, ReorderBuffer.can_assemble. cbn [blocks expected_count].
    rewrite Hsize. apply Z.eqb_refl.
Qed.
End Assembly.

(** ** Failures *)

(** Failed is not final.  A download that was given up after three blocks had failed becomes
    active again, at Downloading, as soon as another block of it arrives. *)
Theorem failed_download_revives now name i data m t reason :
  tasks m !! name = Some t → status t = Failed reason →
  i < expected_count (buffer t) → blocks (buffer t) !! i = None → block_sources (task t) ≠ ∅ →
  name ∉ active_downloads m
  ∧ ∃ m', complete_block now name i data m = Some (Ok tt, m') ∧ name ∈ active_downloads m'.
Proof.
  intros Ht Hf Hi Hb Hs. assert (Hact : ∀ m, name ∈ active_downloads m ↔ is_active <$> tasks m !! name = Some true).
  { intros m0. unfold active_downloads. rewrite list_elem_of_fmap, fmap_Some. split.
    - intros ([n t0] & -> & [Ha Hin]%list_elem_of_filter). apply elem_of_map_to_list in Hin. by exists t0.
    - intros (t0 & H0 & Ha). exists (name, t0). split; [done|]. apply list_elem_of_filter.
      split; [done|]. by apply elem_of_map_to_list. }
  split.
  - rewrite Hact, Ht. cbn. unfold is_active. by rewrite Hf.
  - destruct (complete_step now name i data m t Ht Hi Hb Hs) as (m' & t' & E & Ht' & _ & _ & _ & _ & Ha & _).
    exists m'. split; [done|]. apply Hact. rewrite Ht'. cbn. by rewrite Ha.
Qed.

(** A download without sources can crash its thread.  A block that arrives for it is refused,
    but counted as completed; a failure reported afterwards divides by the number of sources. *)
Theorem no_sources_panics now name mf i j data m :
  0 <= i →
  let m1 := (create_task now name mf ∅ m).2 in
  ∃ e m2, complete_block now name i data m1 = Some (Err e, m2) ∧ fail_block now name j m2 = None.
Proof.
  intros Hi m1. set (t := InternalTask.new now (mkTask name (file_hash mf) (file_size mf) (Some mf) ∅)).
  assert (Ht : tasks m1 !! name = Some t) by apply lookup_insert_eq.
  unfold complete_block. rewrite Ht. unfold ReorderBuffer.push.
  change (expected_count (buffer t)) with 0. rewrite (proj2 (Z.leb_le _ _)) by done.
  eexists _, _. split; [done|]. unfold fail_block. cbn [tasks]. rewrite lookup_insert_eq.
  unfold downloaded. cbn [completed_blocks task block_sources].
  rewrite decide_False by set_solver. done.
Qed.

(** ** Witnesses *)

Definition chunker_2 : Chunker := mkChunker 2.
Definition three_sources : gmap Z (list string) :=
  {[ 0 := ["a"]; 1 := ["a"; "b"]; 2 := ["b"] ]}%string.
Definition small_manifest : FileManifest := (Chunker.chunk_data small_file chunker_2).1.
(** The blocks of [small_file] arrive in the order 2, 0, 1. *)
Definition arrivals : list (Z * (Z * list byte)) :=
  [(1, (2, [Byte.x65])); (2, (0, [Byte.x61; Byte.x62])); (3, (1, [Byte.x63; Byte.x64]))].

Lemma download_assembles_witness :
  ∃ m' t, run (completions "f" arrivals) (create_task 0 "f" small_manifest three_sources new).2 = Some m'
    ∧ tasks m' !! "f"%string = Some t
    ∧ Chunker.reassemble small_manifest (ReorderBuffer.drain_ordered (buffer t)).1.*2 = Ok small_file.
Proof.
  destruct (download_assembles 0 "f" chunker_2 small_file three_sources arrivals new) as (m' & t & Hr & Ht & _ & Ha & _).
  - split; vm_compute; congruence.
  - vm_compute. lia.
  - split; vm_compute; congruence.
  - vm_compute. reflexivity.
  - change (zip _ _) with [arrivals.*2 !!! 1%nat; arrivals.*2 !!! 2%nat; arrivals.*2 !!! 0%nat].
    cbn. etransitivity; [apply Permutation_cons_append|]. done.
  - exists m', t. split; [exact Hr|]. split; [exact Ht|exact Ha].
Defined.

Definition some_ops : list Op :=
  [Create 0 "f" small_manifest three_sources; Assign "f" 0 "a"; Assign "f" 1 "b"; Assign "f" 2 "b";
   Complete 1 "f" 1 [Byte.x63; Byte.x64]]%string.
Lemma download_load_witness :
  ∃ m, run some_ops new = Some m ∧ load "b" m = 1 ∧ assigned_to "b" m <= 1.
Proof.
  destruct (run some_ops new) as [m|] eqn:E; [|vm_compute in E; discriminate E].
  exists m. assert (Hb : load "b" m = 1) by (vm_compute in E; injection E as <-; vm_compute; reflexivity).
  split; [reflexivity|]. split; [exact Hb|].
  rewrite <-Hb. exact (proj1 (download_load some_ops m E ltac:(vm_compute; reflexivity)) "b"%string).
Defined.

Lemma cancel_leaks_load_witness :
  ∃ m0 m, run some_ops new = Some m0 ∧ run [] (cancel "f" m0).2 = Some m
    ∧ select_source ["b"; "c"]%string m = Some "c"%string.
Proof.
  destruct (run some_ops new) as [m0|] eqn:E; [|vm_compute in E; discriminate E].
  exists m0, (cancel "f" m0).2. split; [reflexivity|]. split; [reflexivity|].
  eapply (cancel_leaks_load some_ops [] m0 _ "f" 2 "b" "c" E).
  - vm_compute in E. injection E as <-. vm_compute. reflexivity.
  - reflexivity.
  - vm_compute. reflexivity.
  - vm_compute in E. injection E as <-. vm_compute. reflexivity.
Defined.

Definition failed_task : InternalTask :=
  set_status (Failed "too many failed blocks: 3 (max 3)")
    (InternalTask.new 0 (mkTask "f" zero32 5 (Some small_manifest) three_sources)).
Lemma failed_download_revives_witness :
  ∃ m', complete_block 1 "f" 0 [Byte.x61; Byte.x62] (mkDownloads {[ "f"%string := failed_task ]} ∅) = Some (Ok tt, m')
    ∧ "f"%string ∈ active_downloads m'.
Proof.
  apply (failed_download_revives 1 "f" 0 [Byte.x61; Byte.x62] (mkDownloads {[ "f"%string := failed_task ]} ∅) failed_task
    "too many failed blocks: 3 (max 3)"); [reflexivity|reflexivity|vm_compute; reflexivity|reflexivity|vm_compute; discriminate].
Defined.
Lemma no_sources_panics_witness :
  ∃ e m2, complete_block 0 "f" 0 [] (create_task 0 "f" small_manifest ∅ new).2 = Some (Err e, m2)
    ∧ fail_block 0 "f" 1 m2 = None.
Proof. apply (no_sources_panics 0 "f" small_manifest 0 1 [] new). lia. Defined.
