(* ===== verification/Center.v ===== *)
(** * Center: the registration center

    Models crates/vpn/src/registry/center.rs: the server, which keeps names and
    node identifiers in two maps and a JSON file, the client, which sends its
    requests through the relay's connections, and the client's cache.  [now] is
    the Unix clock for the server and the monotonic clock for the cache.  Locks
    are not modelled (the model has no poisoned lock), and the auto-save thread
    only its flag: it saves nothing. *)
From S2P Require Import Prelude Text Json Disk JsonFile Identity.
From S2P Require Relay.

Definition DEFAULT_CACHE_TTL : Z := 60.
Definition DEFAULT_HEARTBEAT_INTERVAL : Z := 30.
Definition DEFAULT_PERSIST_INTERVAL : Z := 300.
Definition DEFAULT_REGISTRY_PORT : Z := 9880.

Inductive RegistryMessageType :=
| Register | RegisterAck | Lookup_ | LookupResponse
| ReverseLookup | ReverseLookupResponse | ListNodes | ListNodesResponse.
Module RegistryMessageType.
Definition from_u8 (b : Z) : option RegistryMessageType :=
  match b with
  | 1 => Some Register | 2 => Some RegisterAck | 3 => Some Lookup_ | 4 => Some LookupResponse
  | 5 => Some ReverseLookup | 6 => Some ReverseLookupResponse | 7 => Some ListNodes
  | 8 => Some ListNodesResponse | _ => None
  end.
Definition to_u8 (t : RegistryMessageType) : Z :=
  match t with
  | Register => 1 | RegisterAck => 2 | Lookup_ => 3 | LookupResponse => 4
  | ReverseLookup => 5 | ReverseLookupResponse => 6 | ListNodes => 7 | ListNodesResponse => 8
  end.
End RegistryMessageType.

Inductive RegistryError :=
| AlreadyRegistered (name : string) | NotFound (name : string) | IoError (e : string)
| SerializeError (msg : string) | LockPoisoned.
Definition RegistryError_display (e : RegistryError) : string :=
  match e with
  | AlreadyRegistered name => "name '" +:+ name +:+ "' is already registered"
  | NotFound name => "name '" +:+ name +:+ "' not found"
  | IoError e => "io error: " +:+ e
  | SerializeError msg => "serialize error: " +:+ msg
  | LockPoisoned => "lock poisoned"
  end%string.

Record RegistryEntry := mkRegEntry {
  entry_name : string; entry_node : NodeID; registered_at : Z; last_seen : Z; ttl : Z }.
Module RegistryEntry.
Definition new (now : Z) (name : string) (id : NodeID) : RegistryEntry :=
  mkRegEntry name id now now DEFAULT_CACHE_TTL.
Definition touch (now : Z) (e : RegistryEntry) : RegistryEntry :=
  mkRegEntry (entry_name e) (entry_node e) (registered_at e) now (ttl e).
End RegistryEntry.

Abbreviation Names := (gmap string RegistryEntry).
Record RegistryData := mkRegData { data_names : Names; data_reverse : gmap string string }.
Record NodeInfo := mkNodeInfo {
  info_name : string; info_node : NodeID; info_registered_at : Z; info_last_seen : Z }.

Record RegisterPayload := mkRegister { reg_name : string; reg_node : NodeID }.
Record RegisterAckPayload := mkAck { ack_success : bool; ack_message : string }.
Record LookupPayload := mkLookup { lookup_name : string }.
Record LookupResponsePayload := mkLookupResponse { node_found : bool; found_node : option NodeID }.
Record ReverseLookupPayload := mkReverse { reverse_node : NodeID }.
Record ReverseLookupResponsePayload := mkReverseResponse { name_found : bool; found_name : option string }.
Record ListNodesResponsePayload := mkListNodes { list_infos : list NodeInfo; list_count : nat }.

(** serde_json at the types of the payloads. *)
Class RegistryJson := {
  register_json :: SerdeJson RegisterPayload; ack_json :: SerdeJson RegisterAckPayload;
  lookup_json :: SerdeJson LookupPayload; lookup_response_json :: SerdeJson LookupResponsePayload;
  reverse_json :: SerdeJson ReverseLookupPayload;
  reverse_response_json :: SerdeJson ReverseLookupResponsePayload;
  list_json :: SerdeJson ListNodesResponsePayload
}.
Class RegistryJsonOk `{RegistryJson} : Prop := {
  register_json_ok :: SerdeJsonOk RegisterPayload; ack_json_ok :: SerdeJsonOk RegisterAckPayload;
  lookup_json_ok :: SerdeJsonOk LookupPayload; lookup_response_json_ok :: SerdeJsonOk LookupResponsePayload;
  reverse_json_ok :: SerdeJsonOk ReverseLookupPayload;
  reverse_response_json_ok :: SerdeJsonOk ReverseLookupResponsePayload;
  list_json_ok :: SerdeJsonOk ListNodesResponsePayload
}.

(** A frame: the subtype, then the payload. *)
Definition framed `{SerdeJson T} (t : RegistryMessageType) (x : T) : list byte :=
  byte_of_Z (RegistryMessageType.to_u8 t) :: to_vec x.

(** ** The server *)

Record RegistryServer := mkRegistry {
  names : Names; reverse : gmap NodeID string; db_path : string; running : bool; dirty : bool }.

Module RegistryServer.
Section RegistryServer.
Context `{HexCrate} `{JsonText RegistryData}.
Implicit Types s : RegistryServer.

Definition new (path : string) : RegistryServer := mkRegistry ∅ ∅ path false false.
Definition set_running (b : bool) s : RegistryServer :=
  mkRegistry (names s) (reverse s) (db_path s) b (dirty s).
Definition start_auto_save : RegistryServer → RegistryServer := set_running true.
Definition stop_auto_save : RegistryServer → RegistryServer := set_running false.

Definition restore (rev : gmap NodeID string) (kv : string * string) : gmap NodeID string :=
  match NodeID.from_hex kv.1 with Ok id => <[id := kv.2]> rev | Err _ => rev end.
Definition load_from_file (d : Disk) s : result unit RegistryError * RegistryServer :=
  match files d !! db_path s with
  | None => (Ok tt, s)
  | Some data =>
      match from_utf8 data with
      | None => (Err (IoError "stream did not contain valid UTF-8"), s)
      | Some str =>
          if white_space (as_bytes str) then (Ok tt, s) else
          match from_str str with
          | Err e => (Err (SerializeError e), s)
          | Ok data =>
              (Ok tt, mkRegistry (data_names data)
                 (foldl restore (reverse s) (map_to_list (data_reverse data)))
                 (db_path s) (running s) (dirty s))
          end
      end
  end.
Definition persistent s : RegistryData :=
  mkRegData (names s)
    (list_to_map ((λ '(id, name), (NodeID.to_hex id, name)) <$> map_to_list (reverse s))).
Definition save_to_file (d : Disk) s : result unit RegistryError * Disk * RegistryServer :=
  match save_json (persistent s) (db_path s) d with
  | (Ok _, d) => (Ok tt, d, mkRegistry (names s) (reverse s) (db_path s) (running s) false)
  | (Err (DirError e | WriteError e), d) => (Err (IoError e), d, s)
  end.
Definition save_if_dirty (d : Disk) s : Disk * RegistryServer :=
  if dirty s then let '(_, d, s) := save_to_file d s in (d, s) else (d, s).
(** The maps after a change, marked dirty and saved. *)
Definition changed (ns : Names) (rev : gmap NodeID string) (d : Disk) s : Disk * RegistryServer :=
  save_if_dirty d (mkRegistry ns rev (db_path s) (running s) true).

Definition register (now : Z) (name : string) (id : NodeID) (d : Disk) s
    : result unit RegistryError * Disk * RegistryServer :=
  match names s !! name with
  | Some _ => (Err (AlreadyRegistered name), d, s)
  | None =>
      let '(d, s) := changed (<[name := RegistryEntry.new now name id]> (names s))
                       (<[id := name]> (reverse s)) d s in
      (Ok tt, d, s)
  end.
Definition upsert (now : Z) (name : string) (id : NodeID) (d : Disk) s
    : result unit RegistryError * Disk * RegistryServer :=
  let rev := match names s !! name with Some old => delete (entry_node old) (reverse s) | None => reverse s end in
  let '(d, s) := changed (<[name := RegistryEntry.new now name id]> (names s)) (<[id := name]> rev) d s in
  (Ok tt, d, s).
Definition lookup (name : string) s : option NodeID := entry_node <$> names s !! name.
Definition reverse_lookup (id : NodeID) s : option string := reverse s !! id.
Definition list_nodes s : list RegistryEntry := (map_to_list (names s)).*2.
Definition update_heartbeat (now : Z) (name : string) (d : Disk) s
    : result unit RegistryError * Disk * RegistryServer :=
  match names s !! name with
  | None => (Err (NotFound name), d, s)
  | Some e =>
      let '(d, s) := changed (<[name := RegistryEntry.touch now e]> (names s)) (reverse s) d s in
      (Ok tt, d, s)
  end.

Context `{RegistryJson}.
Definition info_of (e : RegistryEntry) : NodeInfo :=
  mkNodeInfo (entry_name e) (entry_node e) (registered_at e) (last_seen e).
Definition process_message (now : Z) (payload : list byte) (d : Disk) s
    : option (list byte) * Disk * RegistryServer :=
  match payload with
  | [] => (None, d, s)
  | sub :: data =>
      match RegistryMessageType.from_u8 (Z_of_byte sub) with
      | Some Register =>
          match from_slice data with
          | Err _ => (None, d, s)
          | Ok req =>
              let '(res, d, s) := register now (reg_name req) (reg_node req) d s in
              let ack := match res with
                         | Ok _ => mkAck true ("registered '" +:+ reg_name req +:+ "'")
                         | Err e => mkAck false (RegistryError_display e)
                         end in
              (Some (framed RegisterAck ack), d, s)
          end
      | Some Lookup_ =>
          match from_slice data with
          | Err _ => (None, d, s)
          | Ok req =>
              let id := lookup (lookup_name req) s in
              (Some (framed LookupResponse (mkLookupResponse (bool_decide (is_Some id)) id)), d, s)
          end
      | Some ReverseLookup =>
          match from_slice data with
          | Err _ => (None, d, s)
          | Ok req =>
              let name := reverse_lookup (reverse_node req) s in
              (Some (framed ReverseLookupResponse (mkReverseResponse (bool_decide (is_Some name)) name)), d, s)
          end
      | Some ListNodes =>
          let nodes := info_of <$> list_nodes s in
          (Some (framed ListNodesResponse (mkListNodes nodes (length nodes))), d, s)
      | Some (RegisterAck | LookupResponse | ReverseLookupResponse | ListNodesResponse) | None => (None, d, s)
      end
  end%string.
End RegistryServer.
End RegistryServer.
Import RegistryServer.

(** ** The client *)

Record RegistryCache := mkCache { cache : gmap string (NodeID * Instant); cache_ttl : Z }.
Module RegistryCache.
Implicit Types c : RegistryCache.
Definition new (ttl : Z) : RegistryCache := mkCache ∅ ttl.
Definition is_fresh (now : Instant) (ttl : Z) (e : NodeID * Instant) : bool :=
  duration_since now e.2 <? from_secs ttl.
Definition get (now : Instant) (name : string) c : option NodeID :=
  e ← cache c !! name; if is_fresh now (cache_ttl c) e then Some e.1 else None.
Definition insert (now : Instant) (name : string) (id : NodeID) c : RegistryCache :=
  mkCache (<[name := (id, now)]> (cache c)) (cache_ttl c).
Definition remove (name : string) c : RegistryCache := mkCache (delete name (cache c)) (cache_ttl c).
Definition clear c : RegistryCache := mkCache ∅ (cache_ttl c).
Definition cleanup (now : Instant) c : RegistryCache :=
  mkCache (filter (λ ne, is_fresh now (cache_ttl c) ne.2 = true) (cache c)) (cache_ttl c).
End RegistryCache.

Record RegistryClient := mkClient { server_addr : string; client_cache : RegistryCache }.
Module RegistryClient.
Section RegistryClient.
Context `{RegistryJson}.
Definition new (addr : string) : RegistryClient := mkClient addr (RegistryCache.new DEFAULT_CACHE_TTL).
Definition request (t : RegistryMessageType) `{SerdeJson T} (x : T) : Relay.Message :=
  Relay.mkMessage Relay.Registry (framed t x).
Definition register (now : Instant) (io : Relay.Io) (name : string) (id : NodeID) (c : RegistryClient)
    (r : Relay.RelayManager) : result RegisterAckPayload Relay.RelayError * Relay.RelayManager :=
  match Relay.RelayManager.send_message now io (server_addr c) (request Register (mkRegister name id)) r with
  | (Err e, r) => (Err e, r)
  | (Ok _, r) => (Ok (mkAck true "register request sent"), r)
  end.
Definition lookup (now : Instant) (io : Relay.Io) (name : string) (c : RegistryClient)
    (r : Relay.RelayManager) : option NodeID * Relay.RelayManager :=
  match RegistryCache.get now name (client_cache c) with
  | Some id => (Some id, r)
  | None => (None, (Relay.RelayManager.send_message now io (server_addr c) (request Lookup_ (mkLookup name)) r).2)
  end.
Definition reverse_lookup (now : Instant) (io : Relay.Io) (id : NodeID) (c : RegistryClient)
    (r : Relay.RelayManager) : option string * Relay.RelayManager :=
  (None, (Relay.RelayManager.send_message now io (server_addr c) (request ReverseLookup (mkReverse id)) r).2).
End RegistryClient.
End RegistryClient.

(** ** Reading answers *)

Section Parse.
Context `{RegistryJson}.
Definition parse_frame {T} `{SerdeJson T} (t : RegistryMessageType) (data : list byte) : option T :=
  match data with
  | sub :: data =>
      if Z_of_byte sub =? RegistryMessageType.to_u8 t
      then match from_slice data with Ok x => Some x | Err _ => None end
      else None
  | [] => None
  end.
Definition parse_register_ack : list byte → option RegisterAckPayload := parse_frame RegisterAck.
Definition parse_lookup_response : list byte → option LookupResponsePayload := parse_frame LookupResponse.
Definition parse_reverse_lookup_response : list byte → option ReverseLookupResponsePayload :=
  parse_frame ReverseLookupResponse.
Definition parse_list_nodes_response : list byte → option ListNodesResponsePayload :=
  parse_frame ListNodesResponse.
End Parse.

(** ** Running a server *)

Section Running.
Context `{HexCrate} `{JsonText RegistryData} `{RegistryJson}.
Inductive Op :=
| Reg (now : Z) (name : string) (id : NodeID)
| Upsert (now : Z) (name : string) (id : NodeID)
| Beat (now : Z) (name : string)
| Message (now : Z) (payload : list byte)
| Save.
Definition apply_op (ds : Disk * RegistryServer) (op : Op) : Disk * RegistryServer :=
  let '(d, s) := ds in
  match op with
  | Reg now name id => let '(_, d, s) := register now name id d s in (d, s)
  | Upsert now name id => let '(_, d, s) := upsert now name id d s in (d, s)
  | Beat now name => let '(_, d, s) := update_heartbeat now name d s in (d, s)
  | Message now payload => let '(_, d, s) := process_message now payload d s in (d, s)
  | Save => let '(_, d, s) := save_to_file d s in (d, s)
  end.

(** Every reverse entry is the name of its node, and every entry has its own name. *)
Record consistent (ns : Names) (rev : gmap NodeID string) : Prop := {
  reverse_sound : ∀ id name, rev !! id = Some name → entry_node <$> ns !! name = Some id;
  names_keyed : map_Forall (λ name e, entry_name e = name) ns
}.
Lemma consistent_empty : consistent ∅ ∅.
Proof. split; [intros id name; by rewrite lookup_empty|apply map_Forall_empty]. Qed.
Lemma consistent_register now name id ns rev :
  consistent ns rev → ns !! name = None →
  consistent (<[name := RegistryEntry.new now name id]> ns) (<[id := name]> rev).
Proof.
  intros [Hr Hk] Hn. split; [|by apply map_Forall_insert_2].
  intros i n. rewrite lookup_insert. case_decide as Hi.
  - intros [= <-]. rewrite lookup_insert_eq. by subst.
  - intros E. rewrite lookup_insert_ne; [by apply Hr|]. intros <-. specialize (Hr _ _ E). by rewrite Hn in Hr.
Qed.
Lemma consistent_upsert now name id ns rev :
  consistent ns rev →
  consistent (<[name := RegistryEntry.new now name id]> ns)
    (<[id := name]> match ns !! name with Some old => delete (entry_node old) rev | None => rev end).
Proof.
  intros Hc. destruct (ns !! name) as [old|] eqn:Hn; [|by apply consistent_register].
  destruct Hc as [Hr Hk]. split; [|by apply map_Forall_insert_2].
  intros i n. rewrite lookup_insert. case_decide as Hi.
  - intros [= <-]. rewrite lookup_insert_eq. by subst.
  - intros [Ho E]%lookup_delete_Some. rewrite lookup_insert_ne; [by apply Hr|].
    intros <-. specialize (Hr _ _ E). rewrite Hn in Hr. injection Hr as Hr. done.
Qed.
Lemma consistent_touch now name e ns rev :
  consistent ns rev → ns !! name = Some e →
  consistent (<[name := RegistryEntry.touch now e]> ns) rev.
Proof.
  intros [Hr Hk] Hn. split.
  - intros i n E. specialize (Hr i n E). rewrite lookup_insert. case_decide as Hne; [|done].
    subst n. by rewrite Hn in Hr.
  - apply map_Forall_insert_2; [|done]. exact (Hk _ _ Hn).
Qed.

(** What an operation does: nothing, one saved change, or saving. *)
Lemma op_change op d s :
  apply_op (d, s) op = (d, s)
  ∨ (∃ ns rev, apply_op (d, s) op = changed ns rev d s
      ∧ (consistent (names s) (reverse s) → consistent ns rev)
      ∧ (∀ name id, (∀ now id', op ≠ Upsert now name id') → lookup name s = Some id →
          entry_node <$> ns !! name = Some id))
  ∨ ∃ r, save_to_file d s = (r, (apply_op (d, s) op).1, (apply_op (d, s) op).2).
Proof.
  assert (Hreg : ∀ now name id, let '(r, d', s') := register now name id d s in
    (d', s') = (d, s) ∨ ∃ ns rev, (d', s') = changed ns rev d s
      ∧ (consistent (names s) (reverse s) → consistent ns rev)
      ∧ (∀ n i, lookup n s = Some i → entry_node <$> ns !! n = Some i)).
  { intros now name id. unfold register. destruct (names s !! name) as [e|] eqn:E; [by left|].
    destruct (changed _ _ d s) as [d' s'] eqn:Ec. right. eexists _, _. split; [symmetry; exact Ec|].
    split; [intros Hc; by apply consistent_register|]. intros n i Hn. unfold lookup in Hn.
    rewrite lookup_insert_ne; [done|]. intros <-. by rewrite E in Hn. }
  destruct op as [now name id|now name id|now name|now payload|]; cbn [apply_op].
  - specialize (Hreg now name id). destruct (register now name id d s) as [[r d'] s'].
    destruct Hreg as [?|(ns & rev & ? & ? & Hb)]; [by left|right; left; exists ns, rev].
    split_and!; [done..|]. intros n i _. apply Hb.
  - right; left. unfold upsert.
    destruct (changed _ _ d s) as [d' s'] eqn:Ec. eexists _, _. split; [symmetry; exact Ec|].
    split; [apply consistent_upsert|]. intros n i Hn Hl.
    rewrite lookup_insert_ne; [done|]. intros <-. by apply (Hn now id).
  - unfold update_heartbeat. destruct (names s !! name) as [e|] eqn:E; [right; left|by left].
    destruct (changed _ _ d s) as [d' s'] eqn:Ec. eexists _, _. split; [symmetry; exact Ec|].
    split; [intros Hc; by apply consistent_touch|]. intros n i _ Hl. unfold lookup in Hl.
    rewrite lookup_insert. case_decide as Hne; [|done]. subst n. by rewrite E in Hl.
  - unfold process_message. destruct payload as [|sub data]; [by left|].
    destruct (RegistryMessageType.from_u8 (Z_of_byte sub)) as [[]|];
      try (by left); try (destruct (from_slice data); by left).
    destruct (from_slice data) as [req|]; [|by left].
    specialize (Hreg now (reg_name req) (reg_node req)).
    destruct (register now (reg_name req) (reg_node req) d s) as [[r d'] s'].
    destruct Hreg as [?|(ns & rev & ? & ? & Hb)]; [by left|right; left; exists ns, rev].
    split_and!; [done..|]. intros n i _. apply Hb.
  - right; right. destruct (save_to_file d s) as [[r d'] s']. by exists r.
Qed.
End Running.

(** ** The file *)

Section Durable.
Context `{HexCrateOk} `{JsonText RegistryData} `{!JsonTextOk RegistryData} `{RegistryJson}.

Lemma restore_lookup l rev id :
  NoDup l.*1 → (∀ kv, kv ∈ l → ∃ i, kv.1 = NodeID.to_hex i) →
  foldl restore rev l !! id = (list_to_map l : gmap string string) !! NodeID.to_hex id ∪ rev !! id.
Proof.
  induction l as [|[k name] l IH] using rev_ind; intros Hn Hk.
  { cbn [foldl list_to_map foldr]. by rewrite lookup_empty, (left_id_L None (∪)). }
  rewrite fmap_app in Hn. apply NoDup_app in Hn as (Hn & Hni & _).
  assert (Hkl : k ∉ l.*1) by (intros Hin; apply (Hni _ Hin); by left).
  destruct (Hk (k, name)) as [i Hi]; [apply elem_of_app; right; by left|]. cbn [fst] in Hi. subst k.
  specialize (IH Hn). rewrite foldl_app, list_to_map_app. cbn [foldl list_to_map foldr].
  unfold restore at 1. cbn [fst snd]. rewrite from_hex_to_hex. cbv iota. rewrite lookup_insert.
  case_decide as Hid.
  - subst i. assert (E : (list_to_map l : gmap string string) !! NodeID.to_hex id = None)
      by by apply not_elem_of_list_to_map_1.
    rewrite lookup_union, E, lookup_insert_eq. by destruct (rev !! id).
  - rewrite IH by (intros kv Hkv; apply Hk, elem_of_app; by left).
    rewrite lookup_union. rewrite lookup_insert_ne by by intros ?%(inj NodeID.to_hex).
    rewrite lookup_empty. f_equal. by destruct (_ !! NodeID.to_hex id).
Qed.
Lemma restore_persistent rev :
  foldl restore ∅ (map_to_list (list_to_map ((λ '(id, name), (NodeID.to_hex id, name)) <$> map_to_list rev)
                                 : gmap string string)) = rev.
Proof.
  set (l := (λ '(id, name), (NodeID.to_hex id, name)) <$> map_to_list rev).
  assert (Hl : l = prod_map NodeID.to_hex (λ x, x) <$> map_to_list rev)
    by (apply list_fmap_ext; by intros ? [? ?] _).
  assert (Hn : NoDup l.*1).
  { rewrite Hl, <-list_fmap_compose, (list_fmap_ext _ (NodeID.to_hex ∘ fst)) by by intros ? [? ?] _.
    rewrite list_fmap_compose. apply NoDup_fmap_2; [apply _|]. apply NoDup_fst_map_to_list. }
  assert (Hp : map_to_list (list_to_map l : gmap string string) ≡ₚ l) by by apply map_to_list_to_map.
  apply map_eq. intros id. rewrite restore_lookup.
  - rewrite list_to_map_to_list, lookup_empty. subst l.
    destruct (rev !! id) as [name|] eqn:E.
    + rewrite (elem_of_list_to_map_1 _ _ name); [done|done|]. apply list_elem_of_fmap. exists (id, name).
      split; [done|]. by apply elem_of_map_to_list.
    + rewrite not_elem_of_list_to_map_1; [done|]. intros ([? n] & E1 & Hin)%list_elem_of_fmap.
      apply list_elem_of_fmap in Hin as ([i n'] & [= -> ->] & Hin). apply elem_of_map_to_list in Hin.
      cbn [fst] in E1. apply (inj NodeID.to_hex) in E1. congruence.
  - apply NoDup_fst_map_to_list.
  - intros kv Hin. rewrite Hp in Hin. apply list_elem_of_fmap in Hin as ([i n] & -> & _). by exists i.
Qed.

(** The file is the server's, and can be written. *)
Definition on_disk (path : string) (d : Disk) (s : RegistryServer) : Prop :=
  db_path s = path ∧ dir_fault d path = None ∧ write_fault d path = None
  ∧ load_from_file d (new path) = (Ok tt, mkRegistry (names s) (reverse s) path false false).
Lemma center_on_disk path d s :
  db_path s = path → dir_fault d path = None → write_fault d path = None →
  ∃ d' s', save_to_file d s = (Ok tt, d', s') ∧ names s' = names s ∧ reverse s' = reverse s
    ∧ on_disk path d' s'.
Proof.
  intros <- Hd Hw. unfold save_to_file.
  destruct (save_writable (persistent s) (db_path s) d Hd Hw) as (d' & -> & Hd' & Hw' & Hf).
  eexists _, _. split; [done|]. split; [done|]. split; [done|]. unfold on_disk. split_and!; [done..|].
  unfold load_from_file. cbn [db_path new names reverse]. rewrite Hf, lookup_insert_eq.
  rewrite from_utf8_as_bytes by apply to_string_str.
  rewrite to_string_not_blank, from_str_to_string. cbn [persistent data_names data_reverse running dirty reverse].
  by rewrite restore_persistent.
Qed.
Lemma changed_on_disk path ns rev d s :
  on_disk path d s → let '(d', s') := changed ns rev d s in
  on_disk path d' s' ∧ names s' = ns ∧ reverse s' = rev.
Proof.
  intros (Hp & Hd & Hw & _). unfold changed, save_if_dirty. cbn [dirty].
  destruct (center_on_disk path d (mkRegistry ns rev (db_path s) (running s) true) Hp Hd Hw)
    as (d' & s' & -> & Hn & Hr & Ho). done.
Qed.
Lemma op_on_disk path op d s :
  on_disk path d s → consistent (names s) (reverse s) →
  let '(d', s') := apply_op (d, s) op in
  on_disk path d' s' ∧ consistent (names s') (reverse s')
  ∧ ∀ name id, (∀ now id', op ≠ Upsert now name id') → lookup name s = Some id → lookup name s' = Some id.
Proof.
  intros Ho Hc. destruct (op_change op d s) as [->|[(ns & rev & -> & Hc' & Hb)|(r & E)]].
  - split_and!; auto.
  - pose proof (changed_on_disk path ns rev d s Ho) as Ho'. destruct (changed ns rev d s) as [d' s'].
    destruct Ho' as (? & Hn & Hr). unfold lookup. rewrite Hn, Hr. split_and!; [done|by apply Hc'|exact Hb].
  - destruct Ho as (Hp & Hd & Hw & _). destruct (center_on_disk path d s Hp Hd Hw) as (d' & s' & E' & Hn & Hr & Ho').
    rewrite E' in E. destruct (apply_op (d, s) op) as [d1 s1]. cbn [fst snd] in E. injection E as _ <- <-.
    unfold lookup. rewrite Hn, Hr. split_and!; auto.
Qed.

(** C16: The registry is consistent and durable.  Of a new server whose file can be written, after
    any registrations, updates, heartbeats and messages, well-formed or not: a reverse lookup
    never lies (the name it gives belongs to that node), every entry is under its own name,
    and a server started on the file has exactly the same names; and a name keeps its node as
    long as it is not upserted: no message ever takes a name over. *)
Theorem registry_consistent path d ops :
  files d !! path = None → dir_fault d path = None → write_fault d path = None →
  let '(d', s) := foldl apply_op (d, new path) ops in
  (∀ id name, reverse_lookup id s = Some name → lookup name s = Some id)
  ∧ map_Forall (λ name e, entry_name e = name) (names s)
  ∧ load_from_file d' (new path) = (Ok tt, mkRegistry (names s) (reverse s) path false false)
  ∧ ∀ more name id, (∀ now id', Upsert now name id' ∉ more) →
      lookup name s = Some id → lookup name (foldl apply_op (d', s) more).2 = Some id.
Proof.
  intros Hf Hd Hw. assert (Hrun : ∀ ops d s, on_disk path d s → consistent (names s) (reverse s) →
    let '(d', s') := foldl apply_op (d, s) ops in
    on_disk path d' s' ∧ consistent (names s') (reverse s')
    ∧ ∀ name id, (∀ now id', Upsert now name id' ∉ ops) → lookup name s = Some id → lookup name s' = Some id).
  { clear Hf Hd Hw d ops. induction ops as [|op ops IH]; intros d s Ho Hc; cbn [foldl]; [auto|].
    pose proof (op_on_disk path op d s Ho Hc) as Hop. destruct (apply_op (d, s) op) as [d1 s1].
    destruct Hop as (Ho1 & Hc1 & Hb1). specialize (IH d1 s1 Ho1 Hc1). destruct (foldl apply_op (d1, s1) ops) as [d2 s2].
    destruct IH as (? & ? & Hb2). split_and!; [done..|]. intros name id Hno Hl.
    apply Hb2; [intros now id' Hin; apply (Hno now id'); by right|].
    apply Hb1; [intros now id' ->; apply (Hno now id'); by left|done]. }
  assert (Ho : on_disk path d (new path)).
  { unfold on_disk. split_and!; [done..|]. unfold load_from_file. cbn [db_path new]. by rewrite Hf. }
  pose proof (Hrun ops d (new path) Ho consistent_empty) as Hs.
  destruct (foldl apply_op (d, new path) ops) as [d' s]. destruct Hs as (Ho' & Hc' & _).
  split_and!; [apply (reverse_sound _ _ Hc')|apply (names_keyed _ _ Hc')|apply Ho'|].
  intros more name id Hno Hl. pose proof (Hrun more d' s Ho' Hc') as Hm.
  destruct (foldl apply_op (d', s) more) as [d2 s2]. by apply Hm.
Qed.
End Durable.

(** ** Questions and answers *)

Section Answers.
Context `{HexCrate} `{JsonText RegistryData} `{RegistryJson}.

Lemma changed_maps ns rev d s : names (changed ns rev d s).2 = ns ∧ reverse (changed ns rev d s).2 = rev.
Proof.
  unfold changed, save_if_dirty, save_to_file. cbn [dirty].
  by destruct (save_json _ _ d) as [[|[]] d'].
Qed.
Lemma parse_framed {T} `{SerdeJsonOk T} t (x : T) : parse_frame t (framed t x) = Some x.
Proof.
  unfold parse_frame, framed. rewrite Z_of_byte_of_Z, Z.mod_small by (destruct t; cbn; lia).
  by rewrite Z.eqb_refl, from_slice_to_vec.
Qed.
Lemma framed_type {T} `{SerdeJson T} t (x : T) :
  ∃ sub, framed t x = sub :: to_vec x ∧ RegistryMessageType.from_u8 (Z_of_byte sub) = Some t.
Proof.
  eexists. split; [done|]. rewrite Z_of_byte_of_Z, Z.mod_small by (destruct t; cbn; lia). by destruct t.
Qed.

(** Questions are answered truthfully.  What a client asks, and the server's answer read by the
    client's parsers: a lookup gives the node of the name, if it has one, a reverse lookup the
    name of the node, the list all entries, none of which changes the server; a registration
    is acknowledged, and then found under the name and under the node, exactly when the name
    was free, and otherwise refused without any change. *)
Theorem registry_answers `{!RegistryJsonOk} now d s name id data :
  let ask {T} `{SerdeJson T} t (x : T) :=
    process_message now (Relay.payload (RegistryClient.request t x)) d s in
  (let '(r, d', s') := ask Lookup_ (mkLookup name) in
    r ≫= parse_lookup_response = Some (mkLookupResponse (bool_decide (is_Some (lookup name s))) (lookup name s))
    ∧ (d', s') = (d, s))
  ∧ (let '(r, d', s') := ask ReverseLookup (mkReverse id) in
    r ≫= parse_reverse_lookup_response
      = Some (mkReverseResponse (bool_decide (is_Some (reverse_lookup id s))) (reverse_lookup id s))
    ∧ (d', s') = (d, s))
  ∧ (let '(r, d', s') := process_message now (Byte.x07 :: data) d s in
    (∃ l, r ≫= parse_list_nodes_response = Some l ∧ list_count l = size (names s)
      ∧ ∀ i, i ∈ list_infos l ↔ ∃ n e, names s !! n = Some e ∧ i = info_of e)
    ∧ (d', s') = (d, s))
  ∧ (let '(r, d', s') := ask Register (mkRegister name id) in
    ack_success <$> (r ≫= parse_register_ack) = Some (bool_decide (lookup name s = None))
    ∧ if decide (lookup name s = None)
      then lookup name s' = Some id ∧ reverse_lookup id s' = Some name
      else (d', s') = (d, s)).
Proof.
  cbv zeta. split_and!.
  - cbn [Relay.payload RegistryClient.request]. destruct (framed_type Lookup_ (mkLookup name)) as (sub & -> & Ht).
    cbn [process_message]. rewrite Ht, from_slice_to_vec. cbn [mbind option_bind lookup_name].
    split; [|done]. apply (parse_framed (T := LookupResponsePayload)).
  - cbn [Relay.payload RegistryClient.request]. destruct (framed_type ReverseLookup (mkReverse id)) as (sub & -> & Ht).
    cbn [process_message]. rewrite Ht, from_slice_to_vec. cbn [mbind option_bind reverse_node].
    split; [|done]. apply (parse_framed (T := ReverseLookupResponsePayload)).
  - change (process_message now (Byte.x07 :: data) d s) with
      (Some (framed ListNodesResponse (mkListNodes (info_of <$> list_nodes s) (length (info_of <$> list_nodes s)))), d, s).
    cbn [mbind option_bind]. split; [|done]. eexists. split; [apply (parse_framed (T := ListNodesResponsePayload))|].
    cbn [list_count list_infos]. unfold list_nodes.
    rewrite !length_fmap, length_map_to_list. split; [done|]. intros i.
    rewrite list_elem_of_fmap. setoid_rewrite list_elem_of_fmap. split.
    + intros (e & -> & [n e'] & -> & Hin). apply elem_of_map_to_list in Hin. by exists n, e'.
    + intros (n & e & Hin & ->). exists e. split; [done|]. exists (n, e). split; [done|]. by apply elem_of_map_to_list.
  - cbn [Relay.payload RegistryClient.request]. destruct (framed_type Register (mkRegister name id)) as (sub & -> & Ht).
    cbn [process_message]. rewrite Ht, from_slice_to_vec. cbn [reg_name reg_node].
    unfold register. assert (Hl : names s !! name = None ↔ lookup name s = None)
      by (unfold lookup; by rewrite fmap_None).
    destruct (names s !! name) as [e|] eqn:E.
    + cbv beta iota zeta. rewrite decide_False, bool_decide_false by (rewrite <-Hl; done). cbn [mbind option_bind].
      split; [|done]. unfold parse_register_ack. by rewrite (parse_framed (T := RegisterAckPayload)).
    + assert (lookup name s = None) as E' by by apply Hl.
      destruct (changed_maps (<[name := RegistryEntry.new now name id]> (names s)) (<[id := name]> (reverse s)) d s) as [Hn Hr].
      destruct (changed _ _ d s) as [d' s']. cbn [snd] in Hn, Hr. cbn [mbind option_bind].
      rewrite decide_True, bool_decide_true by done.
      split; [unfold parse_register_ack; by rewrite (parse_framed (T := RegisterAckPayload))|].
      unfold lookup, reverse_lookup. by rewrite Hn, Hr, !lookup_insert_eq.
Qed.

Lemma reg_step now name id d s :
  names s !! name = None →
  ∃ d' s', apply_op (d, s) (Reg now name id) = (d', s')
    ∧ names s' = <[name := RegistryEntry.new now name id]> (names s)
    ∧ reverse s' = <[id := name]> (reverse s).
Proof.
  intros Hn. cbn [apply_op]. unfold register. rewrite Hn.
  pose proof (changed_maps (<[name := RegistryEntry.new now name id]> (names s)) (<[id := name]> (reverse s)) d s) as Hc.
  destruct (changed _ _ d s) as [d' s']. by exists d', s'.
Qed.

(** An update hides an alias.  A node that is registered under two names loses its reverse entry
    when one of the names is given to another node, even if the entry is for the other name:
    that name still leads to the node, but the node has no name any more. *)
Theorem upsert_hides_alias t1 t2 t3 a b n1 n2 d s :
  a ≠ b → n1 ≠ n2 → lookup a s = None → lookup b s = None →
  let '(_, s') := foldl apply_op (d, s) [Reg t1 a n1; Reg t2 b n1; Upsert t3 a n2] in
  lookup b s' = Some n1 ∧ reverse_lookup n1 s' = None.
Proof.
  intros Hab Hn Ha Hb. apply fmap_None in Ha, Hb. cbn [foldl].
  destruct (reg_step t1 a n1 d s Ha) as (d1 & s1 & -> & En1 & _).
  destruct (reg_step t2 b n1 d1 s1) as (d2 & s2 & -> & En2 & _); [by rewrite En1, lookup_insert_ne|].
  cbn [apply_op]. unfold upsert. rewrite En2, En1, lookup_insert_ne, lookup_insert_eq by done.
  cbn [entry_node RegistryEntry.new].
  match goal with |- context [changed ?ns ?rev d2 s2] => pose proof (changed_maps ns rev d2 s2) as [En3 Er3] end.
  destruct (changed _ _ d2 s2) as [d3 s3]. cbn [snd] in En3, Er3. unfold lookup, reverse_lookup. rewrite En3, Er3.
  split.
  - by rewrite lookup_insert_ne, ?En2, lookup_insert_eq by done.
  - by rewrite lookup_insert_ne, lookup_delete_eq by done.
Qed.

(** Loading into a server in use leaves false reverse entries.  The names are replaced by those of
    the file but the reverse entries are added to the old ones: a node that the file does not
    know keeps the name it had, though that name does not exist any more. *)
Theorem load_keeps_stale_reverse `{!JsonTextOk RegistryData} d s id name ns rev :
  reverse_lookup id s = Some name →
  files d !! db_path s = Some (as_bytes (to_string (mkRegData ns rev))) →
  ns !! name = None → (∀ hex, is_Some (rev !! hex) → NodeID.from_hex hex ≠ Ok id) →
  let '(res, s') := load_from_file d s in
  res = Ok tt ∧ lookup name s' = None ∧ reverse_lookup id s' = Some name.
Proof.
  intros Hr Hf Hn Hno. unfold load_from_file.
  rewrite Hf, from_utf8_as_bytes, to_string_not_blank, from_str_to_string by apply to_string_str.
  cbn [data_names data_reverse]. split; [done|]. unfold lookup, reverse_lookup. cbn [names reverse].
  split; [by rewrite Hn|].
  assert (Hl : ∀ l r, (∀ kv, kv ∈ l → NodeID.from_hex kv.1 ≠ Ok id) → foldl restore r l !! id = r !! id).
  { induction l as [|kv l IH]; intros r Hk; [done|]. cbn [foldl]. rewrite IH by (intros ? ?; apply Hk; by right).
    unfold restore. pose proof (Hk kv ltac:(by left)) as Hkv. destruct (NodeID.from_hex kv.1) as [i|]; [|done].
    rewrite lookup_insert_ne; [done|congruence]. }
  rewrite Hl; [done|]. intros [hex n] Hin. apply elem_of_map_to_list in Hin. apply Hno. by exists n.
Qed.
End Answers.

(** ** Witnesses *)

#[export] Instance RegistryEntry_eq_dec : EqDecision RegistryEntry.
Proof. solve_decision. Defined.
#[export] Instance RegistryEntry_countable : Countable RegistryEntry.
Proof.
  refine (inj_countable' (λ e, (entry_name e, entry_node e, registered_at e, last_seen e, ttl e))
    (λ '(n, i, r, l, t), mkRegEntry n i r l t) _). by intros [].
Defined.
#[export] Instance RegistryData_eq_dec : EqDecision RegistryData.
Proof. solve_decision. Defined.
#[export] Instance RegistryData_countable : Countable RegistryData.
Proof. refine (inj_countable' (λ d, (data_names d, data_reverse d)) (λ '(n, r), mkRegData n r) _). by intros []. Defined.
#[export] Instance registry_text : JsonText RegistryData := bits_text RegistryData.
#[export] Instance registry_text_ok : JsonTextOk RegistryData := bits_text_ok RegistryData.

(** JSON of a record whose fields a countable tuple holds. *)
Definition tuple_json {T U} `{Countable U} (f : T → U) (g : U → T) : SerdeJson T := {|
  to_vec x := pos_bits (encode (f x));
  from_slice bs := match of_bits bs ≫= decode with Some u => Ok (g u) | None => Err "invalid JSON"%string end
|}.
Lemma tuple_json_ok {T U} `{Countable U} (f : T → U) (g : U → T) :
  (∀ x, g (f x) = x) → @SerdeJsonOk T (tuple_json f g).
Proof. intros Hg x. cbn. rewrite of_bits_pos_bits. cbn [mbind option_bind]. by rewrite decode_encode, Hg. Qed.
#[export] Instance toy_registry_json : RegistryJson := {|
  register_json := tuple_json (λ p, (reg_name p, reg_node p)) (λ '(n, i), mkRegister n i);
  ack_json := tuple_json (λ p, (ack_success p, ack_message p)) (λ '(b, m), mkAck b m);
  lookup_json := tuple_json lookup_name mkLookup;
  lookup_response_json := tuple_json (λ p, (node_found p, found_node p)) (λ '(b, i), mkLookupResponse b i);
  reverse_json := tuple_json reverse_node mkReverse;
  reverse_response_json := tuple_json (λ p, (name_found p, found_name p)) (λ '(b, n), mkReverseResponse b n);
  list_json := tuple_json
    (λ p, ((λ i, (info_name i, info_node i, info_registered_at i, info_last_seen i)) <$> list_infos p, list_count p))
    (λ '(l, n), mkListNodes ((λ '(a, i, r, s), mkNodeInfo a i r s) <$> l) n)
|}.
#[export] Instance toy_registry_json_ok : RegistryJsonOk.
Proof.
  split; apply tuple_json_ok; try by intros []. intros [l n]. f_equal.
  rewrite <-list_fmap_compose. transitivity (id <$> l); [|by rewrite list_fmap_id].
  apply list_fmap_ext. by intros ? [] _.
Qed.

Definition reg_ops : list Op :=
  [Reg 1 "a" zero32; Message 2 (framed Register (mkRegister "b" one_high)); Upsert 3 "a" one_high]%string.
Lemma registry_consistent_witness :
  let '(d', s) := foldl apply_op (empty_disk, new "db") reg_ops in
  load_from_file d' (new "db") = (Ok tt, mkRegistry (names s) (reverse s) "db" false false)
  ∧ (lookup "b" s = Some one_high → lookup "b" (foldl apply_op (d', s) [Reg 4 "b" zero32]).2 = Some one_high).
Proof.
  pose proof (registry_consistent "db" empty_disk reg_ops eq_refl eq_refl eq_refl) as Hc.
  destruct (foldl apply_op (empty_disk, new "db") reg_ops) as [d' s]. destruct Hc as (_ & _ & Hl & Hb).
  split; [exact Hl|]. intros Hs. apply Hb; [|exact Hs].
  intros now id' Hin. apply list_elem_of_singleton in Hin. discriminate Hin.
Defined.
Lemma registry_answers_witness :
  let '(r, _, s') :=
    process_message 1 (Relay.payload (RegistryClient.request Register (mkRegister "a" one_high))) empty_disk (new "db") in
  ack_success <$> (r ≫= parse_register_ack) = Some true ∧ lookup "a" s' = Some one_high.
Proof.
  pose proof (registry_answers 1 empty_disk (new "db") "a" one_high []) as (_ & _ & _ & Ha). cbv zeta in Ha.
  destruct (process_message _ _ _ _) as [[r d'] s']. destruct Ha as [Ha Hs]. by split; [rewrite Ha|apply Hs].
Defined.
Lemma upsert_hides_alias_witness :
  let '(_, s') := foldl apply_op (empty_disk, new "db") [Reg 1 "a" zero32; Reg 2 "b" zero32; Upsert 3 "a" one_high]%string in
  lookup "b" s' = Some zero32 ∧ reverse_lookup zero32 s' = None.
Proof.
  apply (upsert_hides_alias 1 2 3 "a" "b" zero32 one_high empty_disk (new "db"));
    [discriminate| |reflexivity|reflexivity].
  intros E. apply (f_equal arr_bytes) in E. vm_compute in E. discriminate E.
Defined.
Definition named_server : RegistryServer :=
  mkRegistry {[ "a"%string := RegistryEntry.new 1 "a" zero32 ]} {[ zero32 := "a"%string ]} "db" false false.
Lemma load_keeps_stale_reverse_witness :
  let '(res, s') := load_from_file (disk_with "db" (as_bytes (to_string (mkRegData ∅ ∅)))) named_server in
  res = Ok tt ∧ lookup "a" s' = None ∧ reverse_lookup zero32 s' = Some "a"%string.
Proof.
  apply (load_keeps_stale_reverse _ named_server zero32 "a" ∅ ∅);
    [reflexivity|reflexivity|reflexivity|]. intros hex [n Hn]. discriminate Hn.
Defined.
