(* ===== verification/CenterThreads.v ===== *)
(** * CenterThreads: calls of the registration center that overlap

    Models the methods of [RegistryServer] in crates/vpn/src/registry/center.rs
    called from several threads: [register], [upsert] and [update_heartbeat]
    take the lock of the names, then that of the reverse map, then mark the server
    dirty and save it, each on its own.  A call is a program counter; a step is
    what it does under one lock or with one access to a flag or the file.  The
    two read locks of [save_to_file] are one step: the names cannot change while
    the first is held.  Center has each call as one step. *)
From S2P Require Import Prelude Text Json Disk JsonFile Identity Center.
Import RegistryServer.

(** The three methods, with the time their clock gives. *)
Inductive Call :=
| Register (now : Z) (name : string) (id : NodeID)
| Upsert (now : Z) (name : string) (id : NodeID)
| Beat (now : Z) (name : string).
Definition call_name (c : Call) : string :=
  match c with Register _ n _ | Upsert _ n _ | Beat _ n => n end.

(** Where a call is: before the names; before the reverse map, with the old node of an upsert; before
    the flag; at the test of [save_if_dirty]; before reading the maps, writing them, and clearing
    the flag; returned. *)
Inductive Pc :=
| AtNames
| AtReverse (id : NodeID) (old : option NodeID)
| AtDirty | AtTest | AtRead | AtWrite (data : RegistryData) | AtClear
| Returned (res : result unit RegistryError).

(** The calls under way and returned, and the calls in the order in which they took the names. *)
Record Sys := mkSys {
  server : RegistryServer; disk : Disk; calls : list (Call * Pc); commits : list (nat * Call)
}.

Section Threads.
Context `{HexCrate} `{JsonText RegistryData}.
Implicit Types s : RegistryServer.

Definition set_names (ns : Names) s : RegistryServer :=
  mkRegistry ns (reverse s) (db_path s) (running s) (dirty s).
Definition set_reverse (rev : gmap NodeID string) s : RegistryServer :=
  mkRegistry (names s) rev (db_path s) (running s) (dirty s).
Definition set_dirty (b : bool) s : RegistryServer :=
  mkRegistry (names s) (reverse s) (db_path s) (running s) b.

(** Under the lock of the names. *)
Definition names_step (c : Call) (ns : Names) : Names * Pc :=
  match c with
  | Register now name id =>
      match ns !! name with
      | Some _ => (ns, Returned (Err (AlreadyRegistered name)))
      | None => (<[name := RegistryEntry.new now name id]> ns, AtReverse id None)
      end
  | Upsert now name id =>
      (<[name := RegistryEntry.new now name id]> ns, AtReverse id (entry_node <$> ns !! name))
  | Beat now name =>
      match ns !! name with
      | Some e => (<[name := RegistryEntry.touch now e]> ns, AtDirty)
      | None => (ns, Returned (Err (NotFound name)))
      end
  end.

(** A step of a call; [None]: it has returned. *)
Definition call_step (c : Call) (p : Pc) (d : Disk) s : option (RegistryServer * Disk * Pc) :=
  match p with
  | AtNames => let '(ns, p) := names_step c (names s) in Some (set_names ns s, d, p)
  | AtReverse id old =>
      let rev := match old with Some o => delete o (reverse s) | None => reverse s end in
      Some (set_reverse (<[id := call_name c]> rev) s, d, AtDirty)
  | AtDirty => Some (set_dirty true s, d, AtTest)
  | AtTest => Some (s, d, if dirty s then AtRead else Returned (Ok tt))
  | AtRead => Some (s, d, AtWrite (persistent s))
  | AtWrite data =>
      let '(res, d) := save_json data (db_path s) d in
      Some (s, d, match res with Ok _ => AtClear | Err _ => Returned (Ok tt) end)
  | AtClear => Some (set_dirty false s, d, Returned (Ok tt))
  | Returned _ => None
  end.

(** A new call, and a step of call [j]. *)
Inductive Action := Begin (c : Call) | Step (j : nat).
Definition act (a : Action) (y : Sys) : option Sys :=
  match a with
  | Begin c => Some (mkSys (server y) (disk y) (calls y ++ [(c, AtNames)]) (commits y))
  | Step j =>
      '(c, p) ← calls y !! j;
      '(s, d, p') ← call_step c p (disk y) (server y);
      Some (mkSys s d (<[j := (c, p')]> (calls y))
              (match p with AtNames => commits y ++ [(j, c)] | _ => commits y end))
  end.
Fixpoint run (acts : list Action) (y : Sys) : option Sys :=
  match acts with [] => Some y | a :: acts => y ← act a y; run acts y end.

Definition start (s : RegistryServer) (d : Disk) : Sys := mkSys s d [] [].

Lemma run_ind (P : Sys → Prop) acts :
  (∀ a y y', P y → act a y = Some y' → P y') → ∀ y y', P y → run acts y = Some y' → P y'.
Proof.
  intros Hs. induction acts as [|a acts IH]; intros y y' Hy; simpl; [by intros [= <-]|].
  intros (y1 & E & Hr)%bind_Some. by eapply IH, Hr; eapply Hs.
Qed.

Lemma calls_run_app acts1 acts2 y : run (acts1 ++ acts2) y = y ← run acts1 y; run acts2 y.
Proof.
  revert y. induction acts1 as [|a acts1 IH]; intros y; [done|]. simpl.
  destruct (act a y); simpl; [apply IH|done].
Qed.

(** ** The names *)

(** The call as one step, that of Center, and several one after the other. *)
Definition serial (c : Call) (d : Disk) s : result unit RegistryError * Disk * RegistryServer :=
  match c with
  | Register now n id => register now n id d s
  | Upsert now n id => upsert now n id d s
  | Beat now n => update_heartbeat now n d s
  end.
Definition serial_all (cs : list Call) (d : Disk) s : Disk * RegistryServer :=
  foldl (λ ds c, let '(_, d, s) := serial c ds.1 ds.2 in (d, s)) (d, s) cs.

Lemma save_if_dirty_names d s : names (save_if_dirty d s).2 = names s.
Proof.
  unfold save_if_dirty, save_to_file. destruct (dirty s); [|done].
  destruct (save_json _ _ _) as [[|[|]] ?]; done.
Qed.

(** What a call answers, once it has taken the names. *)
Definition answer (p : Pc) : result unit RegistryError :=
  match p with Returned res => res | _ => Ok tt end.

Lemma serial_names c d s :
  names (serial c d s).2 = (names_step c (names s)).1
  ∧ (serial c d s).1.1 = answer (names_step c (names s)).2.
Proof.
  assert (Hc : ∀ ns rev, names (changed ns rev d s).2 = ns).
  { intros. unfold changed. by rewrite save_if_dirty_names. }
  destruct c as [now n id|now n id|now n]; unfold serial, register, upsert, update_heartbeat, names_step.
  - destruct (names s !! n); [done|].
    specialize (Hc (<[n:=RegistryEntry.new now n id]> (names s)) (<[id:=n]> (reverse s))).
    by destruct (changed _ _ d s).
  - match goal with |- context [changed ?a ?b d s] => specialize (Hc a b); by destruct (changed a b d s) end.
  - destruct (names s !! n) as [e|]; [|done].
    match goal with |- context [changed ?a ?b d s] => specialize (Hc a b); by destruct (changed a b d s) end.
Qed.
Lemma serial_all_snoc cs c d s :
  names (serial_all (cs ++ [c]) d s).2 = (names_step c (names (serial_all cs d s).2)).1.
Proof.
  unfold serial_all. rewrite foldl_app. cbn [foldl].
  destruct (foldl _ (d, s) cs) as [d1 s1]. cbn [fst snd].
  pose proof (serial_names c d1 s1) as [E _]. by destruct (serial c d1 s1) as [[r d2] s2].
Qed.

(** A call that has taken the names answers as it would in the order of [commits]. *)
Definition answered (d0 : Disk) (s0 : RegistryServer) (cs : list (nat * Call)) (j : nat) (c : Call) (p : Pc) : Prop :=
  match p with
  | AtNames => True
  | _ => ∃ l1 l2, cs = l1 ++ (j, c) :: l2
           ∧ answer p = answer (names_step c (names (serial_all l1.*2 d0 s0).2)).2
  end.
Definition serializes (d0 : Disk) (s0 : RegistryServer) (y : Sys) : Prop :=
  names (server y) = names (serial_all (commits y).*2 d0 s0).2
  ∧ ∀ j c p, calls y !! j = Some (c, p) → answered d0 s0 (commits y) j c p.

Lemma answered_snoc d0 s0 cs e j c p : answered d0 s0 cs j c p → answered d0 s0 (cs ++ [e]) j c p.
Proof.
  destruct p; simpl; try done; intros (l1 & l2 & -> & E); exists l1, (l2 ++ [e]);
    (split; [by rewrite <-app_assoc|done]).
Qed.

Lemma call_step_names c p d s s' d' p' :
  call_step c p d s = Some (s', d', p') → p ≠ AtNames →
  names s' = names s ∧ answer p' = answer p ∧ p' ≠ AtNames.
Proof.
  intros Hc Hp. destruct p; simpl in Hc; try done.
  1,2,4,6: by injection Hc as <- <- <-.
  - injection Hc as <- <- <-. by destruct (dirty s).
  - destruct (save_json data (db_path s) d) as [[] d1]; by injection Hc as <- <- <-.
Qed.

Lemma act_serializes d0 s0 a y y' : serializes d0 s0 y → act a y = Some y' → serializes d0 s0 y'.
Proof.
  intros [Hn Hc] Ha. destruct a as [c|j]; simpl in Ha.
  { injection Ha as <-. split; [done|]. simpl. intros i c' p'.
    rewrite lookup_app_Some, list_lookup_singleton_Some.
    intros [Hi|(_ & _ & [= <- <-])]; [by apply Hc|done]. }
  destruct (calls y !! j) as [[c p]|] eqn:Ej; [|done]. simpl in Ha.
  destruct (call_step c p (disk y) (server y)) as [[[s' d'] p']|] eqn:Es; [|done]. injection Ha as <-.
  pose proof (Hc j c p Ej) as Hj.
  assert (p = AtNames ∨ p ≠ AtNames) as [->|Hp] by (destruct p; (by left) || by right).
  - simpl in Es. destruct (names_step c (names (server y))) as [ns p1] eqn:En. injection Es as <- <- <-.
    split; simpl.
    + rewrite fmap_app. cbn. by rewrite serial_all_snoc, <-Hn, En.
    + intros i c' p'. rewrite list_lookup_insert_Some. intros [(<- & [= <- <-] & _)|[_ Hi]].
      * destruct p1; simpl; try done; exists (commits y), []; (split; [done|]; by rewrite <-Hn, En).
      * by apply answered_snoc, Hc.
  - destruct (call_step_names _ _ _ _ _ _ _ Es Hp) as (En & Ea & Hp').
    replace (match p with AtNames => _ | _ => commits y end) with (commits y) by by destruct p.
    split; simpl; [by rewrite En|]. intros i c' p1. rewrite list_lookup_insert_Some.
    intros [(<- & [= <- <-] & _)|[_ Hi]]; [|by apply Hc].
    destruct p; try done; destruct p'; simpl in *; try done; by rewrite Ea.
Qed.

(** C29: The names and the answers of overlapping calls are those of the same calls one after the other, in
    the order in which they took the lock of the names: in particular of two registrations of a
    free name exactly one succeeds. *)
Theorem calls_serialize acts s0 d0 y :
  run acts (start s0 d0) = Some y →
  names (server y) = names (serial_all (commits y).*2 d0 s0).2
  ∧ ∀ j c res, calls y !! j = Some (c, Returned res) →
      ∃ l1 l2, commits y = l1 ++ (j, c) :: l2
        ∧ res = (serial c (serial_all l1.*2 d0 s0).1 (serial_all l1.*2 d0 s0).2).1.1.
Proof.
  intros Hr. assert (Hs : serializes d0 s0 y).
  { apply (run_ind (serializes d0 s0) acts) with (start s0 d0); [|done|done]. intros a. apply act_serializes. }
  destruct Hs as [Hn Hc]. split; [done|]. intros j c res Hj.
  destruct (Hc j c _ Hj) as (l1 & l2 & E & Ha). exists l1, l2. split; [done|].
  destruct (serial_names c (serial_all l1.*2 d0 s0).1 (serial_all l1.*2 d0 s0).2) as [_ ->]. exact Ha.
Qed.

(** ** Calls on different names *)

Definition returned (p : Pc) : bool := match p with Returned _ => true | _ => false end.
(** A call begins only when no other call for its name is under way. *)
Definition begins_alone (a : Action) (y : Sys) : bool :=
  match a with
  | Begin c => forallb (λ cp, returned cp.2 || bool_decide (call_name cp.1 ≠ call_name c)) (calls y)
  | Step _ => true
  end.
Fixpoint exclusive (acts : list Action) (y : Sys) : bool :=
  match acts with
  | [] => true
  | a :: acts => begins_alone a y && match act a y with Some y' => exclusive acts y' | None => true end
  end.
Lemma begins_alone_others c y j c' p :
  begins_alone (Begin c) y = true → calls y !! j = Some (c', p) → call_name c' = call_name c →
  returned p = true.
Proof.
  intros Ha Hj Hn. apply list_elem_of_lookup_2, list_elem_of_In in Hj.
  simpl in Ha. rewrite forallb_forall in Ha. specialize (Ha _ Hj). simpl in Ha.
  by rewrite bool_decide_eq_false_2, orb_false_r in Ha by auto.
Qed.

(** A reverse entry is true, or the call that is to delete it is on its way; what a call is to enter
    is true. *)
Record settled (y : Sys) : Prop := {
  one_each i j ci pi cj pj :
    calls y !! i = Some (ci, pi) → calls y !! j = Some (cj, pj) → i ≠ j →
    call_name ci = call_name cj → returned pi = true ∨ returned pj = true;
  entries_true id n :
    reverse (server y) !! id = Some n →
    entry_node <$> names (server y) !! n = Some id
    ∨ ∃ j c new, calls y !! j = Some (c, AtReverse new (Some id)) ∧ call_name c = n;
  entry_to_come j c new old :
    calls y !! j = Some (c, AtReverse new old) →
    entry_node <$> names (server y) !! call_name c = Some new;
  own_names : map_Forall (λ n e, entry_name e = n) (names (server y))
}.

(** What taking the names does. *)
Lemma names_step_spec c ns ns' p :
  names_step c ns = (ns', p) → map_Forall (λ n e, entry_name e = n) ns →
  map_Forall (λ n e, entry_name e = n) ns'
  ∧ (∀ n, n ≠ call_name c → ns' !! n = ns !! n)
  ∧ (∀ id, entry_node <$> ns !! call_name c = Some id →
       entry_node <$> ns' !! call_name c = Some id ∨ ∃ new, p = AtReverse new (Some id))
  ∧ (∀ new old, p = AtReverse new old → entry_node <$> ns' !! call_name c = Some new).
Proof.
  intros Hn Hk. destruct c as [now n id|now n id|now n]; simpl in Hn |- *.
  - destruct (ns !! n) as [e|] eqn:E; injection Hn as <- <-.
    + split_and!; [done|done| |done]. intros i Hi. left. by rewrite E.
    + split_and!; [by apply map_Forall_insert_2| |done|].
      * intros m Hm. by rewrite lookup_insert_ne.
      * intros new old [= <- _]. by rewrite lookup_insert_eq.
  - injection Hn as <- <-. split_and!; [by apply map_Forall_insert_2| | |].
    + intros m Hm. by rewrite lookup_insert_ne.
    + intros i Hi. right. exists id. by rewrite Hi.
    + intros new old [= <- _]. by rewrite lookup_insert_eq.
  - destruct (ns !! n) as [e|] eqn:E; injection Hn as <- <-.
    + split_and!; [|intros m Hm; by rewrite lookup_insert_ne| |done].
      * apply map_Forall_insert_2; [|done]. simpl. by apply (Hk n e).
      * intros i Hi. left. rewrite lookup_insert_eq. simpl in Hi |- *. exact Hi.
    + split_and!; [done|done| |done]. intros i Hi. left. by rewrite E.
Qed.

Lemma begin_settled c y : settled y → begins_alone (Begin c) y = true →
  settled (mkSys (server y) (disk y) (calls y ++ [(c, AtNames)]) (commits y)).
Proof.
  intros [He Ht Hc Hk] Ha. split; simpl; try done.
  - intros i j ci pi cj pj. rewrite !lookup_app_Some, !list_lookup_singleton_Some.
    intros [Hi|(Hi & Ei & [= <- <-])] [Hj|(Hj & Ej & [= <- <-])] Hij Hn.
    + by eapply He.
    + left. by eapply begins_alone_others.
    + right. by eapply begins_alone_others.
    + lia.
  - intros id n Hr. destruct (Ht id n Hr) as [|(j & c' & new & Hj & Hn)]; [by left|].
    right. exists j, c', new. split; [by apply lookup_app_l_Some|done].
  - intros j c' new old. rewrite lookup_app_Some, list_lookup_singleton_Some.
    intros [Hj|(_ & _ & [=])]. by eapply Hc.
Qed.

(** A call [j] that moves, and is not back at the start. *)
Lemma calls_moved (y : Sys) j c p p' i ci pi :
  calls y !! j = Some (c, p) → <[j := (c, p')]> (calls y) !! i = Some (ci, pi) →
  i = j ∧ ci = c ∧ pi = p' ∨ i ≠ j ∧ calls y !! i = Some (ci, pi).
Proof. intros Hj. rewrite list_lookup_insert_Some. intros [(<- & [= <- <-] & _)|[? ?]]; auto. Qed.
Lemma moved_one_each y j c p p' :
  settled y → calls y !! j = Some (c, p) → returned p = false →
  ∀ i k ci pi ck pk, <[j := (c, p')]> (calls y) !! i = Some (ci, pi) →
    <[j := (c, p')]> (calls y) !! k = Some (ck, pk) → i ≠ k → call_name ci = call_name ck →
    returned pi = true ∨ returned pk = true.
Proof.
  intros Hs Hj Hp i k ci pi ck pk Hi Hk Hne Hn.
  destruct (calls_moved _ _ _ _ _ _ _ _ Hj Hi) as [(-> & -> & ->)|[Hi' Hi0]],
    (calls_moved _ _ _ _ _ _ _ _ Hj Hk) as [(-> & -> & ->)|[Hk' Hk0]]; try done.
  - right. destruct (one_each _ Hs _ _ _ _ _ _ Hj Hk0) as [|]; congruence.
  - left. destruct (one_each _ Hs _ _ _ _ _ _ Hj Hi0) as [|]; congruence.
  - by eapply (one_each _ Hs).
Qed.

Lemma names_settled y j c ns p' s' d' cs :
  settled y → calls y !! j = Some (c, AtNames) → names_step c (names (server y)) = (ns, p') →
  names s' = ns → reverse s' = reverse (server y) →
  settled (mkSys s' d' (<[j := (c, p')]> (calls y)) cs).
Proof.
  intros Hs Hj En Ens Er. destruct (names_step_spec _ _ _ _ En (own_names _ Hs)) as (Hk & Hne & Hold & Hnew).
  assert (Halone : ∀ i ci new old, calls y !! i = Some (ci, AtReverse new old) → call_name ci ≠ call_name c).
  { intros i ci new old Hi Hn. assert (i ≠ j) by (intros ->; congruence).
    by destruct (one_each _ Hs _ _ _ _ _ _ Hi Hj) as [|]. }
  split; simpl; [by eapply moved_one_each|..]; rewrite ?Ens, ?Er; [..|done].
  - intros id n Hr. destruct (entries_true _ Hs id n Hr) as [Ht|(k & ck & new & Hck & <-)].
    + destruct (decide (n = call_name c)) as [->|Hn]; [|left; by rewrite Hne].
      destruct (Hold id Ht) as [|[new ->]]; [by left|]. right. exists j, c, new.
      split; [|done]. apply list_lookup_insert_eq. by eapply lookup_lt_Some.
    + right. exists k, ck, new. split; [|done]. rewrite list_lookup_insert_ne; [done|].
      intros ->. congruence.
  - intros i ci new old Hi. destruct (calls_moved _ _ _ _ _ _ _ _ Hj Hi) as [(-> & -> & E)|[_ Hi0]].
    + by eapply Hnew.
    + rewrite Hne by by eapply Halone. by eapply (entry_to_come _ Hs).
Qed.

Lemma reverse_settled y j c new old s' d' cs :
  settled y → calls y !! j = Some (c, AtReverse new old) →
  names s' = names (server y) →
  reverse s' = <[new := call_name c]>
    (match old with Some o => delete o (reverse (server y)) | None => reverse (server y) end) →
  settled (mkSys s' d' (<[j := (c, AtDirty)]> (calls y)) cs).
Proof.
  intros Hs Hj Ens Er. split; simpl; [by eapply moved_one_each|..]; rewrite ?Ens, ?Er; [..|apply (own_names _ Hs)].
  - intros id n. rewrite lookup_insert. case_decide as Hid.
    { intros [= <-]. subst id. left. by eapply (entry_to_come _ Hs). }
    intros Hr. assert (reverse (server y) !! id = Some n ∧ old ≠ Some id) as [Hr' Ho].
    { destruct old as [o|]; [|by split]. apply lookup_delete_Some in Hr as [? ?]. split; congruence. }
    destruct (entries_true _ Hs id n Hr') as [|(k & ck & new' & Hk & Hn)]; [by left|].
    right. exists k, ck, new'. split; [|done]. rewrite list_lookup_insert_ne; [done|].
    intros ->. congruence.
  - intros i ci new' old' Hi. destruct (calls_moved _ _ _ _ _ _ _ _ Hj Hi) as [(_ & _ & [=])|[_ Hi0]].
    by eapply (entry_to_come _ Hs).
Qed.

Lemma later_settled y j c p p' s' d' cs :
  settled y → calls y !! j = Some (c, p) → returned p = false →
  (∀ new old, p ≠ AtReverse new old) → (∀ new old, p' ≠ AtReverse new old) →
  names s' = names (server y) → reverse s' = reverse (server y) →
  settled (mkSys s' d' (<[j := (c, p')]> (calls y)) cs).
Proof.
  intros Hs Hj Hp Hr Hr' Ens Er. split; simpl; [by eapply moved_one_each|..]; rewrite ?Ens, ?Er;
    [..|apply (own_names _ Hs)].
  - intros id n Hrev. destruct (entries_true _ Hs id n Hrev) as [|(k & ck & new & Hk & Hn)]; [by left|].
    right. exists k, ck, new. split; [|done]. rewrite list_lookup_insert_ne; [done|].
    intros ->. naive_solver.
  - intros i ci new old Hi. destruct (calls_moved _ _ _ _ _ _ _ _ Hj Hi) as [(_ & _ & E)|[_ Hi0]].
    + by destruct (Hr' new old).
    + by eapply (entry_to_come _ Hs).
Qed.

Lemma act_settled a y y' : settled y → begins_alone a y = true → act a y = Some y' → settled y'.
Proof.
  intros Hs Ha. destruct a as [c|j]; simpl; [intros [= <-]; by apply begin_settled|].
  destruct (calls y !! j) as [[c p]|] eqn:Ej; [|done]. simpl.
  destruct (call_step c p (disk y) (server y)) as [[[s' d'] p']|] eqn:Es; [|done]. intros [= <-].
  destruct p; simpl in Es; try done.
  - destruct (names_step c (names (server y))) as [ns p1] eqn:En. injection Es as <- <- <-.
    by eapply names_settled.
  - injection Es as <- <- <-. by eapply reverse_settled.
  - injection Es as <- <- <-. by eapply later_settled.
  - injection Es as <- <- <-. eapply later_settled; try done. by destruct (dirty (server y)).
  - injection Es as <- <- <-. by eapply later_settled.
  - destruct (save_json data _ _) as [[]] eqn:E; injection Es as <- <- <-; by eapply later_settled.
  - injection Es as <- <- <-. by eapply later_settled.
Qed.

Lemma run_settled acts : ∀ y y', settled y → exclusive acts y = true → run acts y = Some y' → settled y'.
Proof.
  induction acts as [|a acts IH]; intros y y' Hs; simpl; [by intros _ [= <-]|].
  intros [Ha He]%andb_true_iff (y1 & E & Hr)%bind_Some. rewrite E in He.
  eapply IH, Hr; [by eapply act_settled|done].
Qed.

(** C31: Calls on different names may overlap in any way: as long as no call begins while another for the
    same name is under way, the maps are consistent whenever all calls have returned, however
    the calls on different names, also for the same node, come in between each other. *)
Theorem overlapping_calls_stay_consistent acts s0 d0 y :
  consistent (names s0) (reverse s0) → exclusive acts (start s0 d0) = true →
  run acts (start s0 d0) = Some y → Forall (λ cp, returned cp.2 = true) (calls y) →
  consistent (names (server y)) (reverse (server y)).
Proof.
  intros [Hr0 Hk0] He Hr Hall. assert (Hs : settled (start s0 d0)).
  { split; simpl; try done. intros id n Hn. left. by apply Hr0. }
  pose proof (run_settled _ _ _ Hs He Hr) as Hy. split; [|apply (own_names _ Hy)].
  intros id n Hn. destruct (entries_true _ Hy id n Hn) as [|(j & c & new & Hj & _)]; [done|].
  rewrite Forall_lookup in Hall. by apply Hall in Hj.
Qed.

(** ** Calls for the same name, and two saves *)

(** The steps that call [j] takes once it has left the maps, and the last two of them. *)
Definition finish (j : nat) : list Action := replicate 5 (Step j).
Definition writable (s : RegistryServer) (d : Disk) : Prop :=
  dir_fault d (db_path s) = None ∧ write_fault d (db_path s) = None.

Lemma save_json_writable (x : RegistryData) s d :
  writable s d →
  save_json x (db_path s) d
  = (Ok tt, mkDisk (<[db_path s := as_bytes (to_string x)]> (files d)) (dir_fault d) (write_fault d)).
Proof. intros [Hd Hw]. unfold save_json, create_parent. by rewrite Hd, write_ok. Qed.

Lemma calls_act_step j c p s d ks cs s' d' p' :
  ks !! j = Some (c, p) → p ≠ AtNames → call_step c p d s = Some (s', d', p') →
  act (Step j) (mkSys s d ks cs) = Some (mkSys s' d' (<[j := (c, p')]> ks) cs).
Proof. intros Hj Hp Hs. simpl. rewrite Hj. simpl. rewrite Hs. simpl. by destruct p. Qed.

(** A call that is past the maps and not disturbed saves what is in them. *)
Lemma run_finish j c y :
  calls y !! j = Some (c, AtDirty) → writable (server y) (disk y) →
  run (finish j) y = Some (mkSys (set_dirty false (server y))
    (mkDisk (<[db_path (server y) := as_bytes (to_string (persistent (server y)))]> (files (disk y)))
       (dir_fault (disk y)) (write_fault (disk y)))
    (<[j := (c, Returned (Ok tt))]> (calls y)) (commits y)).
Proof.
  destruct y as [s d ks cs]. cbn [server disk calls commits]. intros Hj Hw.
  pose proof (lookup_lt_Some _ _ _ Hj) as Hlt. unfold finish. cbn [replicate run].
  erewrite calls_act_step by done. cbn [mbind option_bind].
  do 2 (erewrite calls_act_step; [|by apply list_lookup_insert_eq|done..];
        cbn [mbind option_bind]; rewrite list_insert_insert_eq).
  erewrite calls_act_step; [|by apply list_lookup_insert_eq|done|].
  2:{ cbn [call_step]. by rewrite save_json_writable. }
  cbn [mbind option_bind]. rewrite list_insert_insert_eq.
  erewrite calls_act_step; [|by apply list_lookup_insert_eq|done..].
  cbn [mbind option_bind]. by rewrite list_insert_insert_eq.
Qed.

(** Two upserts of one name that overlap can leave a reverse entry that lies: both return, the name
    leads to the second node, and the first node still has the name. *)
Theorem overlapping_upserts_lie s d name a b now :
  a ≠ b → writable s d →
  ∃ acts y, run acts (start s d) = Some y
    ∧ calls y = [(Upsert now name a, Returned (Ok tt)); (Upsert now name b, Returned (Ok tt))]
    ∧ lookup name (server y) = Some b ∧ reverse_lookup a (server y) = Some name.
Proof.
  intros Hab Hw.
  set (ups := [Begin (Upsert now name a); Begin (Upsert now name b); Step 0; Step 1; Step 1; Step 0]).
  assert (Hups : ∃ s1, run ups (start s d) = Some (mkSys s1 d [(Upsert now name a, AtDirty); (Upsert now name b, AtDirty)]
                     [(0%nat, Upsert now name a); (1%nat, Upsert now name b)])
    ∧ lookup name s1 = Some b ∧ reverse_lookup a s1 = Some name ∧ db_path s1 = db_path s).
  { eexists. split; [reflexivity|]. unfold lookup, reverse_lookup. simpl.
    by rewrite !lookup_insert_eq. }
  destruct Hups as (s1 & Hups & Hl & Hr & Hp).
  exists (ups ++ finish 0 ++ finish 1). eexists. split_and!.
  - rewrite calls_run_app, Hups. cbn [mbind option_bind]. rewrite calls_run_app.
    erewrite run_finish; [|done|unfold writable; cbn [server disk]; by rewrite Hp].
    cbn [mbind option_bind]. erewrite run_finish; [done|done|].
    unfold writable. cbn [server disk dir_fault write_fault set_dirty db_path]. by rewrite Hp.
  - done.
  - exact Hl.
  - exact Hr.
Qed.

(** C34: Two registrations whose saves overlap can lose one of them: both return [Ok] and the server, which
    is not dirty any more, knows both names, but the file is that of the first, and a server
    started on it does not know the second. *)
Theorem overlapping_saves_lose `{!JsonTextOk RegistryData} s d n1 n2 id1 id2 now :
  n1 ≠ n2 → names s !! n1 = None → names s !! n2 = None → writable s d →
  ∃ acts y, run acts (start s d) = Some y
    ∧ calls y = [(Register now n1 id1, Returned (Ok tt)); (Register now n2 id2, Returned (Ok tt))]
    ∧ lookup n2 (server y) = Some id2 ∧ dirty (server y) = false
    ∧ (load_from_file (disk y) (new (db_path s))).1 = Ok tt
    ∧ lookup n1 (load_from_file (disk y) (new (db_path s))).2 = Some id1
    ∧ lookup n2 (load_from_file (disk y) (new (db_path s))).2 = None.
Proof.
  intros Hn H1 H2 Hw.
  set (e1 := RegistryEntry.new now n1 id1). set (e2 := RegistryEntry.new now n2 id2).
  set (s1 := mkRegistry (<[n1 := e1]> (names s)) (<[id1 := n1]> (reverse s)) (db_path s) (running s) true).
  set (s2 := mkRegistry (<[n2 := e2]> (names s1)) (<[id2 := n2]> (reverse s1)) (db_path s) (running s) true).
  set (first := [Begin (Register now n1 id1); Begin (Register now n2 id2);
                 Step 0; Step 0; Step 0; Step 0; Step 0; Step 1; Step 1]).
  assert (Hfirst : run first (start s d) = Some (mkSys s2 d
    [(Register now n1 id1, AtWrite (persistent s1)); (Register now n2 id2, AtDirty)]
    [(0%nat, Register now n1 id1); (1%nat, Register now n2 id2)])).
  { cbn. rewrite H1. cbn. rewrite lookup_insert_ne, H2 by done. reflexivity. }
  exists (first ++ finish 1 ++ [Step 0; Step 0]).
  eexists (mkSys (set_dirty false s2)
    (mkDisk (<[db_path s := as_bytes (to_string (persistent s1))]> _) (dir_fault d) (write_fault d)) _ _).
  split_and!.
  - rewrite calls_run_app, Hfirst. cbn [mbind option_bind]. rewrite calls_run_app.
    erewrite run_finish by done. cbn [mbind option_bind run].
    erewrite calls_act_step; [|done|done|].
    2:{ cbn [call_step]. by rewrite save_json_writable. }
    cbn [mbind option_bind]. erewrite calls_act_step; [|done..]. reflexivity.
  - done.
  - unfold lookup. cbn. by rewrite lookup_insert_eq.
  - done.
  - unfold load_from_file. cbn. rewrite lookup_insert_eq, from_utf8_as_bytes by apply to_string_str.
    by rewrite to_string_not_blank, from_str_to_string.
  - unfold load_from_file, lookup. cbn. rewrite lookup_insert_eq, from_utf8_as_bytes by apply to_string_str.
    rewrite to_string_not_blank, from_str_to_string. cbn. by rewrite lookup_insert_eq.
  - unfold load_from_file, lookup. cbn. rewrite lookup_insert_eq, from_utf8_as_bytes by apply to_string_str.
    rewrite to_string_not_blank, from_str_to_string. cbn. by rewrite lookup_insert_ne, H2.
Qed.
End Threads.

(** ** Witnesses *)

(** Two registrations of different names interleave step by step; a third call follows. *)
Definition three_calls : list Action :=
  [Begin (Register 1 "a" zero32); Begin (Register 2 "b" one_high); Step 0; Step 1; Step 1; Step 0;
   Step 0; Step 1; Step 1; Step 0; Step 0; Step 1; Step 0; Step 1; Step 0; Step 1;
   Begin (Register 3 "a" one_high); Step 2]%string.
Definition new_server : RegistryServer := RegistryServer.new "db".
Definition three_returned : Sys := default (start new_server empty_disk) (run three_calls (start new_server empty_disk)).

Lemma calls_serialize_witness :
  commits three_returned = [(0%nat, Register 1 "a" zero32); (1%nat, Register 2 "b" one_high);
                            (2%nat, Register 3 "a" one_high)]%string
  ∧ names (server three_returned) = names (serial_all (commits three_returned).*2 empty_disk new_server).2.
Proof.
  split; [vm_compute; reflexivity|].
  apply (calls_serialize three_calls new_server empty_disk three_returned). vm_compute. reflexivity.
Defined.

Lemma overlapping_calls_stay_consistent_witness :
  consistent (names (server three_returned)) (reverse (server three_returned))
  ∧ reverse_lookup one_high (server three_returned) = Some "b"%string.
Proof.
  split; [|vm_compute; reflexivity].
  apply (overlapping_calls_stay_consistent three_calls new_server empty_disk three_returned).
  - apply consistent_empty.
  - vm_compute. reflexivity.
  - vm_compute. reflexivity.
  - apply (bool_decide_unpack _). vm_compute. exact I.
Defined.

Lemma overlapping_upserts_lie_witness :
  ∃ acts y, run acts (start new_server empty_disk) = Some y
    ∧ lookup "a" (server y) = Some one_high ∧ reverse_lookup zero32 (server y) = Some "a"%string.
Proof.
  destruct (overlapping_upserts_lie new_server empty_disk "a" zero32 one_high 1) as (acts & y & Hr & _ & Hl & Hv);
    [|done|by exists acts, y].
  intros E. apply (f_equal arr_bytes) in E. discriminate E.
Defined.

Lemma overlapping_saves_lose_witness :
  ∃ acts y, run acts (start new_server empty_disk) = Some y
    ∧ lookup "b" (server y) = Some one_high
    ∧ lookup "b" (load_from_file (disk y) (RegistryServer.new "db")).2 = None.
Proof.
  destruct (overlapping_saves_lose new_server empty_disk "a" "b" zero32 one_high 1)
    as (acts & y & Hr & _ & Hl & _ & _ & _ & Hn); [done|done|done|done|].
  by exists acts, y.
Defined.
