(* ===== verification/Encrypt.v ===== *)
(** * Encrypt: encrypted blocks

    Models crates/vpn/src/storage/encrypt.rs over AES-256-GCM as a class.  The
    eight random bytes of a nonce are an argument ([rnd]); [None] is the panic
    of a failed encryption.  A nonce [[u8; 12]] is a list of bytes; the index it
    starts with is little-endian. *)
From S2P Require Import Prelude.

Definition KEY_LEN : nat := 32.
Definition NONCE_LEN : nat := 12.
Definition TAG_LEN : nat := 16.
Abbreviation Key := bytes32.

(** The crate: encryption is a function of the key, the nonce and the text, and
    decryption accepts exactly its results, which carry a tag of 16 bytes. *)
Class AesGcmCrate := {
  gcm_encrypt : Key → list byte → list byte → option (list byte);
  gcm_decrypt : Key → list byte → list byte → option (list byte)
}.
Class AesGcmCrateOk `{AesGcmCrate} : Prop := {
  gcm_exact k n p c : gcm_decrypt k n c = Some p ↔ gcm_encrypt k n p = Some c;
  gcm_length k n p c : gcm_encrypt k n p = Some c → length c = (length p + TAG_LEN)%nat
}.

Record EncryptedChunk := mkEncrypted { enc_nonce : list byte; enc_data : list byte }.
Record Encryptor := mkEncryptor { key : Key }.

Module Encryptor.
Section Encryptor.
Context `{AesGcmCrate}.
Definition new (k : Key) : Encryptor := mkEncryptor k.
Definition encrypt (rnd : list byte) (chunk_index : Z) (plaintext : list byte) (e : Encryptor)
    : option EncryptedChunk :=
  let nonce := le_bytes 4 chunk_index ++ rnd in
  ciphertext ← gcm_encrypt (key e) nonce plaintext;
  Some (mkEncrypted nonce ciphertext).
Definition decrypt (chunk_index : Z) (c : EncryptedChunk) (e : Encryptor) : result (list byte) string :=
  let stored_index := of_le (take 4 (enc_nonce c)) in
  if negb (stored_index =? chunk_index)
  then Err ("chunk index mismatch: nonce has " +:+ pretty stored_index +:+ ", expected "
              +:+ pretty chunk_index)%string
  else ok_or (gcm_decrypt (key e) (enc_nonce c) (enc_data c))
         "decryption failed: authentication tag mismatch or wrong key"%string.
End Encryptor.
End Encryptor.
Import Encryptor.

Section Properties.
Context `{AesGcmCrateOk}.

(** Block encryption is exact.  An encrypted block has the nonce of its index and 16 bytes more
    than the block; it is decrypted back, under its own index only; and whatever is decrypted
    under an index is the ciphertext of the result under a nonce that starts with that index:
    a changed ciphertext, a block moved to another index, or a block made with another key is
    refused, unless it is a ciphertext of that key itself. *)
Theorem encrypt_exact rnd i j p c e :
  fits 32 i → encrypt rnd i p e = Some c →
  length (enc_data c) = (length p + TAG_LEN)%nat
  ∧ (decrypt j c e = Ok p ↔ j = i)
  ∧ ∀ c' e' q, decrypt j c' e' = Ok q ↔
      of_le (take 4 (enc_nonce c')) = j ∧ gcm_encrypt (key e') (enc_nonce c') q = Some (enc_data c').
Proof.
  intros Hi. unfold encrypt. destruct (gcm_encrypt _ _ p) as [ct|] eqn:E; [|done].
  intros [= <-]. assert (Hd : ∀ c' e' q, decrypt j c' e' = Ok q ↔
      of_le (take 4 (enc_nonce c')) = j ∧ gcm_encrypt (key e') (enc_nonce c') q = Some (enc_data c')).
  { intros c' e' q. unfold decrypt. destruct (Z.eqb_spec (of_le (take 4 (enc_nonce c'))) j) as [Hj|Hj]; cbn [negb].
    - rewrite <-gcm_exact. destruct (gcm_decrypt _ _ _) as [q'|]; cbn [ok_or].
      + split; [by intros [= ->]|by intros [_ [= ->]]].
      + split; [done|by intros [_ ?]].
    - split; [done|]. by intros [? _]. }
  split; [cbn [enc_data]; by eapply gcm_length|]. split; [|exact Hd].
  rewrite Hd. assert (Hn : of_le (take 4 (le_bytes 4 i ++ rnd)) = i).
  { rewrite <-(length_le_bytes 4 i) at 1. rewrite take_app_length. by apply of_le_le_bytes_id. }
  match goal with |- of_le ?x = _ ∧ _ ↔ _ => change (of_le x) with (of_le (take 4 (le_bytes 4 i ++ rnd))) end.
  rewrite Hn.
  split; [by intros [-> _]|by intros ->].
Qed.
End Properties.

(** ** Witnesses *)

(** A concrete scheme: the text and a tag of the key and the nonce. *)
#[export] Instance toy_gcm : AesGcmCrate := {
  gcm_encrypt k n p := Some (p ++ take TAG_LEN (arr_bytes k));
  gcm_decrypt k n c :=
    if decide (drop (length c - TAG_LEN) c = take TAG_LEN (arr_bytes k))
    then Some (take (length c - TAG_LEN) c) else None
}.
#[export] Instance toy_gcm_ok : AesGcmCrateOk.
Proof.
  assert (Hl : ∀ k, length (take TAG_LEN (arr_bytes k)) = TAG_LEN)
    by (intros k; rewrite length_take, length_arr_bytes; done).
  split; intros k n p c; cbn [gcm_decrypt gcm_encrypt toy_gcm].
  - split.
    + case_decide as E; [|done]. intros [= <-]. f_equal. rewrite <-E. by rewrite take_drop.
    + intros [= <-]. rewrite length_app, Hl. replace (length p + TAG_LEN - TAG_LEN)%nat with (length p) by lia.
      rewrite drop_app_length, take_app_length. by rewrite decide_True.
  - intros [= <-]. by rewrite length_app, Hl.
Qed.

Lemma encrypt_exact_witness :
  ∃ c, encrypt (replicate 8 Byte.x07) 3 [Byte.x61] (new zero32) = Some c
    ∧ decrypt 3 c (new zero32) = Ok [Byte.x61].
Proof.
  destruct (encrypt (replicate 8 Byte.x07) 3 [Byte.x61] (new zero32)) as [c|] eqn:E; [|discriminate E].
  exists c. split; [reflexivity|].
  assert (Hf : fits 32 3) by (split; vm_compute; congruence).
  exact (proj2 (proj1 (proj2 (encrypt_exact (replicate 8 Byte.x07) 3 3 [Byte.x61] c (new zero32) Hf E))) eq_refl).
Defined.
