(* ===== verification/Command.v ===== *)
(** * Command: the command line of the VPN

    Models crates/vpn/src/vpn/command.rs: parsing, and the commands over the VPN
    node ([VpnNode], which VpnRouter.v implements), the storage files and the
    disk.  A command returns its output or its error text; [None] is a panic of
    the encryption, or a command that never returns.  Random values, and the answers that listeners forward while
    a restore waits, are arguments.  [restore]'s messages with a parent directory
    show it without redundant separators. *)
From Stdlib Require Import Ascii.
From S2P Require Import Prelude Text Json Disk Identity Address Router Float.
From S2P Require Import Chunk Encrypt Version Metadata Gc.
From S2P Require Incremental.

Inductive Command :=
| Cmd (target command : string)
| Ping (target : string)
| Nodes
| Status
| Backup (path target : string)
| Restore (target path : string)
| StorageGC
| StoragePrune (keep : Z)
| StorageStats_
| Increment (path target : string)
| Version_ (file : string).

(** ** Parsing *)

Definition check_target (target : string) (c : Command) : result Command string :=
  if ParsedAddress.is_node_address target then Ok c
  else Err ("invalid target address '" +:+ target +:+ "': expected node:<name>")%string.
(** The local path of a restore that names none. *)
Definition derived_path (target : string) : string :=
  match splitn 3 ":" target with
  | _ :: _ :: path :: _ => trim_start "/" path
  | _ => "restored_file"
  end%string.
(** A subcommand with its arguments; [p] is the usage texts' prefix. *)
Definition parse_sub (p unknown sub : string) (rest : list string) : result Command string :=
  if String.eqb sub "cmd" then
    match rest with
    | target :: c :: cs => check_target target (Cmd target (join " " (c :: cs)))
    | _ => Err ("usage: " +:+ p +:+ "cmd node:<name> <command>")
    end
  else if String.eqb sub "ping" then
    match rest with
    | target :: _ => check_target target (Ping target)
    | [] => Err ("usage: " +:+ p +:+ "ping node:<name>")
    end
  else if String.eqb sub "nodes" then Ok Nodes
  else if String.eqb sub "status" then Ok Status
  else if String.eqb sub "backup" then
    match rest with
    | path :: target :: _ => check_target target (Backup path target)
    | _ => Err ("usage: " +:+ p +:+ "backup <path> node:<name>")
    end
  else if String.eqb sub "restore" then
    match rest with
    | target :: more =>
        if starts_with "node:" target
        then Ok (Restore target (match more with path :: _ => path | [] => derived_path target end))
        else Err ("invalid target '" +:+ target +:+ "': expected node:<name>:<path>")
    | [] => Err ("usage: " +:+ p +:+ "restore node:<name>:<path> [local-path]")
    end
  else if String.eqb sub "storage" then
    match rest with
    | what :: more =>
        if String.eqb what "gc" then Ok StorageGC
        else if String.eqb what "prune" then
          let? keep :=
            match more with
            | n :: _ => ok_or (parse_uint 64 n) ("invalid number '" +:+ n +:+ "': expected a positive integer")
            | [] => Ok 10
            end in
          if keep =? 0 then Err "keep count must be positive" else Ok (StoragePrune keep)
        else if String.eqb what "stats" then Ok StorageStats_
        else Err ("unknown storage subcommand '" +:+ what +:+ "'. Available: gc, prune, stats")
    | [] => Err ("usage: " +:+ p +:+ "storage <gc|prune|stats> [args]")
    end
  else if String.eqb sub "increment" || String.eqb sub "inc" then
    match rest with
    | path :: target :: _ => check_target target (Increment path target)
    | _ => Err ("usage: " +:+ p +:+ "increment <path> node:<name>")
    end
  else if String.eqb sub "version" || String.eqb sub "ver" then
    match rest with
    | file :: _ => Ok (Version_ file)
    | [] => Err ("usage: " +:+ p +:+ "version <file>")
    end
  else Err unknown.
Definition parse_short_command (args : list string) : result Command string :=
  match args with
  | [] => Err "empty command"
  | sub :: rest =>
      parse_sub "" ("unknown command '" +:+ sub +:+ "'. Available: ll cmd, ll ping, ll nodes, ll status, ll backup, ll restore, ll storage, ll increment, ll version")
        sub rest
  end%string.
Definition parse_command (args : list string) : result Command string :=
  match list_find (λ a, a = "ll") args with
  | None =>
      match args with
      | [] => Err "empty command. Usage: ll <cmd|ping|nodes|status> [args]"
      | _ => parse_short_command args
      end
  | Some (pos, _) =>
      match drop pos args with
      | _ :: sub :: rest =>
          parse_sub "ll " ("unknown subcommand '" +:+ sub +:+ "'. Available: cmd, ping, nodes, status, backup, restore, storage, increment, version")
            sub rest
      | _ => Err "expected subcommand after 'll'. Usage: ll <cmd|ping|nodes|status>"
      end
  end%string.

(** ** The VPN node, as the commands use it *)

Class VpnNode (V : Type) := {
  vpn_trait :: Router V;
  vpn_name : V → string;
  vpn_id : V → NodeID;
  vpn_nodes : V → list (string * (NodeID * ConnectionType * NodeStatus));
  (** [register_listener], of the listener for the answers with a tag. *)
  vpn_listen : string → V → V;
  vpn_ping : Instant → string → V → result Duration RouterError * V
}.
(** The [json!] texts of the messages of a block. *)
Class CommandJson := {
  backup_to_string : string → Z → Z → Z → string → string → string;
  increment_to_string : string → Z → Z → Z → string → string
}.
Record World (V : Type) := mkWorld { disk : Disk; vpn : V }.
Arguments mkWorld {V} _ _.
Arguments disk {V} _.
Arguments vpn {V} _.

Definition truncate_hex (hex_str : string) (n : nat) : string :=
  if (String.length hex_str <=? n + 3)%nat then hex_str
  else (String.substring 0 n hex_str +:+ "...")%string.
(** [path.parent()], printed. *)
Definition parent (p : string) : string :=
  (match p with String "/"%char _ => "/" | _ => "" end +:+ join "/" (removelast (components p)))%string.
Definition read_file (path : string) (d : Disk) : result (list byte) string :=
  ok_or (files d !! path)
    ("failed to read '" +:+ path +:+ "': No such file or directory (os error 2)")%string.
(** The name under which a command knows a file. *)
Definition file_key (path : string) : string := default path (file_name path).

Section Commands.
Context `{Sha256Crate} `{HexCrate} `{AesGcmCrate} `{Incremental.SyncJson} `{CommandJson}.
Context `{JsonText VersionStore} `{EntryHash} `{JsonText Entries}.
Context {V : Type} `{VpnNode V}.
Implicit Types w : World V.

(** The messages in order, up to the first failure: its number and error. *)
Fixpoint send_all (now : Instant) (target : string) (i : nat) (msgs : list string) (v : V)
    : result unit (nat * RouterError) * V :=
  match msgs with
  | [] => (Ok tt, v)
  | msg :: msgs =>
      match send now target (as_bytes msg) v with
      | (Err e, v) => (Err (i, e), v)
      | (Ok _, v) => send_all now target (S i) msgs v
      end
  end.
Definition send_failed (what : string) (e : nat * RouterError) : string :=
  "failed to send " +:+ what +:+ " " +:+ pretty e.1 +:+ ": " +:+ RouterError_display e.2.

Fixpoint encrypt_all (rnd : nat → list byte) (i : nat) (cs : list (list byte)) (e : Encryptor)
    : option (list EncryptedChunk) :=
  match cs with
  | [] => Some []
  | c :: cs =>
      x ← Encryptor.encrypt (rnd i) (wrap 32 (Z.of_nat i)) c e;
      xs ← encrypt_all rnd (S i) cs e; Some (x :: xs)
  end.
Definition backup_message (file : string) (total size : Z) (i : nat) (c : EncryptedChunk) : string :=
  "BACKUP_CHUNK:" +:+ backup_to_string file (Z.of_nat i) total size (hex_encode (enc_nonce c)) (hex_encode (enc_data c)).
(** [k] is the generated key, [rnd i] the random bytes of the [i]-th nonce. *)
Definition execute_backup (now : Instant) (unix : Z) (k : Key) (rnd : nat → list byte)
    (path target : string) w : option (result string string * World V) :=
  match ParsedAddress.parse target with
  | Err e => Some (Err ("invalid target address: " +:+ AddressError_display e), w)
  | Ok parsed =>
      let file := file_key path in
      match read_file path (disk w) with
      | Err e => Some (Err e, w)
      | Ok data =>
          let '(m, cs) := Chunker.chunk_data data Chunker.new in
          encrypted ← encrypt_all rnd 0 cs (Encryptor.new k);
          match send_all now target 0 (imap (backup_message file (len cs) (len data)) encrypted) (vpn w) with
          | (Err e, v) => Some (Err (send_failed "chunk" e), mkWorld (disk w) v)
          | (Ok _, v) =>
              match send now target (as_bytes ("BACKUP_META:" +:+ file +:+ ":" +:+ Incremental.manifest_to_string m)) v with
              | (Err e, v) => Some (Err ("failed to send metadata: " +:+ RouterError_display e), mkWorld (disk w) v)
              | (Ok _, v) =>
                  let blocks := (λ c, mkBlock (meta_hash c) (index c) [name parsed] unix) <$> chunks m in
                  let '(res, d, _) := MetadataStore.register unix file (file_hash m) (len data) (Some m) blocks
                                        (name parsed) (disk w) MetadataStore.new_default in
                  let w := mkWorld d v in
                  match res with
                  | Err e => Some (Err ("failed to register metadata: " +:+ MetadataError_display e), w)
                  | Ok _ =>
                      Some (Ok ("Backup completed: " +:+ path +:+ " → " +:+ target +:+ line "" ""
                        +:+ "  File: " +:+ file +:+ line " (" (pretty (len data) +:+ " bytes)")
                        +:+ line "  Chunks: " (pretty (len cs)) +:+ line "  Encrypted: yes" ""
                        +:+ "  Key: " +:+ truncate_hex (hex_encode (arr_bytes k)) 16), w)
                  end
              end
          end
      end
  end%string.

(** What is made of the answer for chunk [i]; the hex crate's error text is left out. *)
Definition chunk_response (i : nat) (reply : option string) : result (list byte) string :=
  let? resp := ok_or reply ("timeout waiting for chunk " +:+ pretty i)%string in
  let? data := map_err (λ e, "invalid chunk response: " +:+ e)%string (Incremental.data_hex_of resp) in
  let? hex := ok_or data "missing data_hex in chunk response"%string in
  ok_or (hex_decode hex) "invalid hex data"%string.
(** The chunks that are received: [replies i] is what the [i]-th listener forwards. *)
Fixpoint request_chunks (now : Instant) (node remote : string) (tags : nat → Z)
    (replies : nat → option string) (i n : nat) (v : V) : result (list (list byte)) string * V :=
  match n with
  | O => (Ok [], v)
  | S n =>
      let tag := "restore-chunk-" +:+ pretty i +:+ "-" +:+ pretty (tags i) in
      match send now node (as_bytes ("RESTORE_GET_CHUNK:" +:+ tag +:+ ":" +:+ remote)) (vpn_listen tag v) with
      | (Err e, v) => (Err ("failed to request chunk " +:+ pretty i +:+ ": " +:+ RouterError_display e), v)
      | (Ok _, v) =>
          let chunk := chunk_response i (replies i) in
          match chunk with
          | Err e => (Err e, v)
          | Ok c =>
              let '(res, v) := request_chunks now node remote tags replies (S i) n v in
              (let? cs := res in Ok (c :: cs), v)
          end
      end
  end%string.
Definition execute_restore (now : Instant) (meta_tag : Z) (tags : nat → Z) (meta_reply : option string)
    (replies : nat → option string) (target local_path : string) w : result string string * World V :=
  match splitn 3 ":" target with
  | _ :: node_name :: remote :: _ =>
      let node := "node:" +:+ node_name in
      let tag := "restore-meta-" +:+ pretty meta_tag in
      match send now node (as_bytes ("RESTORE_GET_META:" +:+ tag +:+ ":" +:+ remote)) (vpn_listen tag (vpn w)) with
      | (Err e, v) => (Err ("failed to request metadata: " +:+ RouterError_display e), mkWorld (disk w) v)
      | (Ok _, v) =>
          let manifest :=
            let? json := ok_or meta_reply "timeout waiting for metadata response" in
            map_err (λ e, "failed to parse manifest: " +:+ e) (Incremental.manifest_from_str json) in
          match manifest with
          | Err e => (Err e, mkWorld (disk w) v)
          | Ok m =>
              let '(res, v) := request_chunks now node remote tags replies 0 (length (chunks m)) v in
              let restored :=
                let? cs := res in
                map_err (λ e, "reassembly failed: " +:+ e) (Chunker.reassemble m cs) in
              match restored with
              | Err e => (Err e, mkWorld (disk w) v)
              | Ok data =>
                  match create_parent local_path (disk w) with
                  | Err e => (Err ("failed to create directory '" +:+ parent local_path +:+ "': " +:+ e), mkWorld (disk w) v)
                  | Ok _ =>
                      let '(res, d) := write local_path data (disk w) in
                      (match res with
                       | Err e => Err ("failed to write '" +:+ local_path +:+ "': " +:+ e)
                       | Ok _ => Ok ("Restore completed: " +:+ target +:+ " → " +:+ local_path +:+ line "" ""
                           +:+ "  File: " +:+ file_key remote +:+ line " (" (pretty (file_size m) +:+ " bytes)")
                           +:+ line "  Chunks: " (pretty (len (chunks m))) +:+ "  Integrity: verified")
                       end, mkWorld d v)
                  end
              end
          end
      end
  | _ => (Err ("invalid restore target '" +:+ target +:+ "': expected node:<name>:<path>"), w)
  end%string.

(** ** Storage *)

Definition load_stores (d : Disk) : result (VersionManager * MetadataStore) string :=
  let? m := VersionManager.load_from_file DEFAULT_VERSION_DB_PATH d in
  let? s := map_err MetadataError_display (MetadataStore.load_from_file DEFAULT_METADATA_PATH d) in
  Ok (m, s).
Definition execute_storage_gc (d : Disk) : result string string :=
  let? ms := load_stores d in
  let? r := GarbageCollector.collect ms.1 ms.2 in Ok (CollectResult_display r).
Definition execute_storage_stats (d : Disk) : result string string :=
  let? ms := load_stores d in
  let? r := GarbageCollector.storage_stats ms.1 ms.2 in Ok (StorageStats_display r).
(** [None]: the command never returns. *)
Definition execute_storage_prune (keep : Z) (d : Disk) : option (result string string) * Disk :=
  match VersionManager.load_from_file DEFAULT_VERSION_DB_PATH d with
  | Err e => (Some (Err e), d)
  | Ok m =>
      match GarbageCollector.prune_old_versions (Z.to_nat keep) d m with
      | (None, d, _) => (None, d)
      | (Some (Err e), d, _) => (Some (Err e), d)
      | (Some (Ok pruned), d, m) =>
          let '(res, d, _) := VersionManager.flush d m in
          ((λ res, match res with
           | Err e => Err ("failed to save version store: " +:+ e)
           | Ok _ => Ok ("Pruned " +:+ pretty (Z.of_nat pruned) +:+ " version(s). Kept " +:+ pretty keep
                           +:+ " most recent version(s) per file.")
           end) <$> res, d)
      end
  end%string.

Definition increment_message (file : string) (total size : Z) (i : nat) (c : list byte) : string :=
  "INCR_BLOCK:" +:+ increment_to_string file (Z.of_nat i) total size (hex_encode c).
Definition execute_increment (now : Instant) (unix : Z) (path target : string) w
    : option (result string string) * World V :=
  match ParsedAddress.parse target with
  | Err e => (Some (Err ("invalid target address: " +:+ AddressError_display e)), w)
  | Ok _ =>
      let file := file_key path in
      match read_file path (disk w) with
      | Err e => (Some (Err e), w)
      | Ok data =>
          let '(m, cs) := Chunker.chunk_data data Chunker.new in
          match send_all now target 0 (imap (increment_message file (len cs) (len data)) cs) (vpn w) with
          | (Err e, v) => (Some (Err (send_failed "block" e)), mkWorld (disk w) v)
          | (Ok _, v) =>
              match send now target (as_bytes ("INCR_MANIFEST:" +:+ file +:+ ":" +:+ Incremental.manifest_to_string m)) v with
              | (Err e, v) => (Some (Err ("failed to send manifest: " +:+ RouterError_display e)), mkWorld (disk w) v)
              | (Ok _, v) =>
                  match VersionManager.load_from_file DEFAULT_VERSION_DB_PATH (disk w) with
                  | Err e => (Some (Err e), mkWorld (disk w) v)
                  | Ok vm =>
                      let '(res, d, vm) := VersionManager.create_snapshot unix file m "increment" (disk w) vm in
                      match res with
                      | None => (None, mkWorld d v)
                      | Some (Err e) => (Some (Err e), mkWorld d v)
                      | Some (Ok id) =>
                          let '(res, d, _) := VersionManager.flush d vm in
                          ((λ res, match res with
                           | Err e => Err ("failed to save version: " +:+ e)
                           | Ok _ => Ok ("Incremental sync completed: " +:+ path +:+ " → " +:+ target +:+ line "" ""
                               +:+ "  File: " +:+ file +:+ line " (" (pretty (len data) +:+ " bytes)")
                               +:+ line "  Chunks: " (pretty (len cs)) +:+ "  Version: " +:+ id)
                           end) <$> res, mkWorld d v)
                      end
                  end
              end
          end
      end
  end%string.

Definition version_line (id ts size note : string) : string :=
  line (pad_right 22 id +:+ " " +:+ pad_right 20 ts +:+ " " +:+ pad_right 10 size +:+ " ") note.
Definition execute_version (file : string) (d : Disk) : result string string :=
  let? m := VersionManager.load_from_file DEFAULT_VERSION_DB_PATH d in
  match VersionManager.list_versions file m with
  | [] => Ok ("No versions found for '" +:+ file +:+ "'.")
  | vs => Ok (line ("Version history for '" +:+ file +:+ "':") ""
      +:+ version_line "Version ID" "Timestamp" "Size" "Annotation" +:+ line (repeat_string 80 "-") ""
      +:+ join "" ((λ v, version_line (version_id v) (timestamp v) (pretty (file_size (manifest v))) (annotation v)) <$> vs))
  end%string.

(** ** Nodes *)

Definition execute_cmd_subcommand (now : Instant) (target command : string) (r : MemAddressResolver) w
    : result string string * MemAddressResolver * World V :=
  let '(res, r) := resolve_address now target r in
  match res with
  | Err e => (Err ("address resolution failed: " +:+ AddressError_display e), r, w)
  | Ok (parsed, id) =>
      let '(res, v) := send now target (as_bytes ("CMD:" +:+ command)) (vpn w) in
      (match res with
       | Err e => Err ("send failed: " +:+ RouterError_display e)
       | Ok _ => Ok ("Command sent to " +:+ name parsed +:+ " (" +:+ NodeID.to_hex id +:+ "): " +:+ command)
       end, r, mkWorld (disk w) v)
  end%string.
(** [t0] and [t1] are the clock before and after. *)
Definition execute_ping (now : Instant) (t0 t1 : Z) (target : string) w : result string string * World V :=
  let '(res, v) := vpn_ping now target (vpn w) in
  (match res with
   | Ok rtt => Ok ("PONG from " +:+ target +:+ ": time="
       +:+ format_fixed 1 (fmul (as_secs_f64 rtt) (f64_of_Z 1000)) +:+ "ms seq=1 ttl=64 time="
       +:+ pretty (wrap 64 (t1 - t0)) +:+ "s")
   | Err Timeout => Err ("Request timeout for " +:+ target)
   | Err e => Err ("Ping failed for " +:+ target +:+ ": " +:+ RouterError_display e)
   end, mkWorld (disk w) v)%string.
(** Padding applies to strings only: the types and states are printed without. *)
Definition execute_nodes w : result string string :=
  match vpn_nodes (vpn w) with
  | [] => Ok "No known nodes."
  | ns =>
      Ok (line "Known nodes:" ""
        +:+ line (pad_right 20 "Name" +:+ " " +:+ pad_right 20 "Node ID" +:+ " " +:+ pad_right 10 "Type" +:+ " ")
              (pad_right 10 "Status")
        +:+ line (repeat_string 60 "-") ""
        +:+ join "" ((λ '(n, (id, ct, st)),
              line (pad_right 20 n +:+ " " +:+ pad_right 20 (String.substring 0 16 (NodeID.to_hex id)) +:+ " "
                      +:+ ConnectionType_display ct +:+ " ") (NodeStatus_display st)) <$> ns))
  end%string.
Definition execute_status (now : Instant) (unix : Z) w : result string string :=
  let st := status now unix (vpn w) in
  let online := length (filter (λ n, n.2.2 = Online) (vpn_nodes (vpn w))) in
  Ok (line "=== VPN Status ===" ""
    +:+ line "Node Name:     " (vpn_name (vpn w)) +:+ line "Node ID:       " (NodeID.to_hex (vpn_id (vpn w)))
    +:+ line "Status:        " (NodeStatus_display (node_status st))
    +:+ line "Connection:    " (ConnectionType_display (connection_type st))
    +:+ line "Known Nodes:   " (pretty (Z.of_nat (known_nodes st)))
    +:+ line "Online Nodes:  " (pretty (Z.of_nat online))
    +:+ line "Active Routes: " (pretty (Z.of_nat (active_routes st)))
    +:+ line "Last Update:   " (pretty (last_update st)))%string.
(** What the commands take from outside: the clock, random values, and the answers
    that arrive. *)
Record Outside := mkOutside {
  instant : Instant; unix_secs : Z; clock_before : Z; clock_after : Z;
  generated_key : Key; nonce_rnd : nat → list byte; meta_tag : Z; chunk_tag : nat → Z;
  meta_reply : option string; chunk_reply : nat → option string }.
Definition execute_cmd (o : Outside) (args : list string) (r : MemAddressResolver) w
    : option (result string string * MemAddressResolver * World V) :=
  match parse_command args with
  | Err e => Some (Err e, r, w)
  | Ok c =>
      let now := instant o in
      match c with
      | Cmd target command => Some (execute_cmd_subcommand now target command r w)
      | Ping target =>
          let '(res, w) := execute_ping now (clock_before o) (clock_after o) target w in Some (res, r, w)
      | Nodes => Some (execute_nodes w, r, w)
      | Status => Some (execute_status now (unix_secs o) w, r, w)
      | Backup path target =>
          '(res, w) ← execute_backup now (unix_secs o) (generated_key o) (nonce_rnd o) path target w;
          Some (res, r, w)
      | Restore target path =>
          let '(res, w) := execute_restore now (meta_tag o) (chunk_tag o) (meta_reply o) (chunk_reply o)
                             target path w in
          Some (res, r, w)
      | StorageGC => Some (execute_storage_gc (disk w), r, w)
      | StoragePrune keep =>
          let '(res, d) := execute_storage_prune keep (disk w) in
          res ← res; Some (res, r, mkWorld d (vpn w))
      | StorageStats_ => Some (execute_storage_stats (disk w), r, w)
      | Increment path target =>
          let '(res, w) := execute_increment now (unix_secs o) path target w in
          res ← res; Some (res, r, w)
      | Version_ file => Some (execute_version file (disk w), r, w)
      end
  end.
End Commands.
