(* ===== verification/CommandProofs.v ===== *)
(** * CommandProofs: what backing up, restoring and parsing do

    The properties of Command.v: they compose the chunks (Chunk.v), the
    encryption (Encrypt.v), the catalogue (Metadata.v), the versions (Version.v)
    and the collector (Gc.v) through the command line. *)
From S2P Require Import Prelude Text Json Disk JsonFile Identity Address Router.
From S2P Require Import Chunk Encrypt Version Metadata Gc Command.
From S2P Require Incremental VpnRouter.
Import Chunker Encryptor.

(** ** The VPN router is such a node

    The relay's answers, the session count, the ping's number and its round-trip time are fixed. *)
Section VpnNode.
Context `{HexCrate} {L R : Type} `{Router L} `{Resolver R}.
Definition vpn_node (io : Relay.Io) (sessions : nat) (nonce : Z) (incoming : list (NodeID * Relay.Message))
    (rtt : Duration) : VpnNode (@VpnRouter.VpnRouter L R) := {|
  vpn_trait := {|
    send := VpnRouter.vpn_send io;
    status := λ _, VpnRouter.vpn_status sessions;
    router_name := VpnRouter.local_name |};
  vpn_name := VpnRouter.local_name;
  vpn_id := VpnRouter.local_id;
  vpn_nodes := VpnRouter.known_nodes_info;
  vpn_listen tag := VpnRouter.register_listener (VpnRouter.Restore tag);
  vpn_ping now target v :=
    let '(res, v) := VpnRouter.ping_node now io nonce incoming target v in
    ((let? _ := res in Ok rtt), v)
|}.
End VpnNode.

(** ** Parsing *)

Lemma parse_sub_Ok p1 u1 p2 u2 sub rest c :
  parse_sub p1 u1 sub rest = Ok c → parse_sub p2 u2 sub rest = Ok c.
Proof.
  unfold parse_sub.
  repeat first [done | match goal with |- context [if ?b then _ else _] => destruct b end
    | match goal with |- context [match ?l with [] => _ | _ => _ end] => destruct l end].
Qed.

(** The prefix [ll].  Without it a command line is accepted exactly when it is with it, as the
    same command; but the word is searched in the whole line, and everything before its
    first occurrence is ignored: a command that is sent to another node with [ll] among its
    words runs as what follows the word, on this node. *)
Theorem parse_from_ll pre args c :
  "ll" ∉ pre →
  (parse_command pre = Ok c ↔ parse_command ("ll" :: pre) = Ok c)
  ∧ parse_command (pre ++ "ll" :: args) = parse_command ("ll" :: args).
Proof.
  intros Hn. unfold parse_command. split.
  - assert (E : list_find (λ a, a = "ll"%string) pre = None).
    { apply list_find_None, Forall_forall. intros x Hx ->. done. }
    rewrite E. cbn [list_find]. rewrite decide_True by done. cbn [drop].
    destruct pre as [|sub rest]; [done|]. unfold parse_short_command.
    split; apply parse_sub_Ok.
  - assert (E : list_find (λ a, a = "ll"%string) (pre ++ "ll"%string :: args) = Some (length pre, "ll"%string)).
    { apply list_find_app_Some. right. split_and!.
      - lia.
      - apply list_find_None, Forall_forall. intros x Hx ->. done.
      - rewrite Nat.sub_diag. cbn [list_find]. by rewrite decide_True. }
    rewrite E, drop_app_length. cbn [list_find]. by rewrite decide_True.
Qed.
Lemma parse_from_ll_witness :
  parse_command ["cmd"; "node:pika"; "ll"; "nodes"] = parse_command ["ll"; "nodes"]
  ∧ parse_command ["ll"; "nodes"] = Ok Nodes.
Proof.
  split; [|reflexivity]. apply (proj2 (parse_from_ll ["cmd"; "node:pika"] ["nodes"] Nodes ltac:(by apply (bool_decide_unpack _)))).
Defined.

(** ** Backups *)

Section Properties.
Context `{Sha256Crate} `{HexCrate} `{AesGcmCrate} `{Incremental.SyncJson} `{CommandJson}.
Context `{JsonText VersionStore} `{EntryHash} `{JsonText Entries}.
Context {V : Type} `{VpnNode V}.
Implicit Types w : World V.

(** The entry a backup makes. *)
Definition backup_blocks (unix : Z) (node : string) (data : list byte) : list BlockLocation :=
  (λ c, mkBlock (meta_hash c) (index c) [node] unix) <$> chunks (chunk_data data Chunker.new).1.
Definition backup_entry (unix : Z) (file node : string) (data : list byte) : MetadataEntry :=
  MetadataStore.fresh_entry unix file (sha256 data) (len data) (Some (chunk_data data Chunker.new).1)
    (backup_blocks unix node data) node.

Lemma backup_done now unix k rnd path target w msg w' :
  execute_backup now unix k rnd path target w = Some (Ok msg, w') →
  ∃ parsed data d s,
    ParsedAddress.parse target = Ok parsed ∧ files (disk w) !! path = Some data
    ∧ MetadataStore.register unix (file_key path) (sha256 data) (len data)
        (Some (chunk_data data Chunker.new).1) (backup_blocks unix (name parsed) data) (name parsed)
        (disk w) MetadataStore.new_default = (Ok tt, d, s)
    ∧ disk w' = d.
Proof.
  unfold execute_backup, read_file. destruct (ParsedAddress.parse target) as [parsed|]; [|done].
  destruct (files (disk w) !! path) as [data|]; [|done]. cbn [ok_or].
  destruct (chunk_data data Chunker.new) as [m cs] eqn:Em.
  destruct (encrypt_all rnd 0 cs _) as [encs|]; [|done]. cbn [mbind option_bind].
  destruct (send_all _ _ _ _ _) as [[[]|] v]; [|done].
  destruct (send _ _ _ v) as [[[]|] v']; [|done].
  assert (file_hash m = sha256 data) as Hf by by injection Em as <- _.
  intros Hr. exists parsed, data. unfold backup_blocks. rewrite Em. cbn [fst]. rewrite <-Hf.
  destruct (MetadataStore.register _ _ _ _ _ _ _ _ _) as [[res d] s] eqn:Er.
  assert (res = Ok tt) as -> by (destruct res as [[]|]; [done|by injection Hr]).
  exists d, s. split_and!; [done..|]. by injection Hr as _ <-.
Qed.

(** What registering in a store that was not loaded leaves on the disk. *)
Lemma register_fresh unix file hash size mf bs node d :
  dir_fault d DEFAULT_METADATA_PATH = None → write_fault d DEFAULT_METADATA_PATH = None →
  ∃ d' s', MetadataStore.register unix file hash size mf bs node d MetadataStore.new_default = (Ok tt, d', s')
    ∧ files d' = <[DEFAULT_METADATA_PATH := as_bytes (to_string
        ({[ file := MetadataStore.fresh_entry unix file hash size mf bs node ]} : Entries))]> (files d).
Proof.
  intros Hd Hw. unfold MetadataStore.register, MetadataStore.new_default, MetadataStore.new.
  cbn [entries]. rewrite lookup_empty. unfold MetadataStore.upsert, MetadataStore.changed.
  cbn [entries meta_path]. unfold MetadataStore.save_if_dirty. cbn [meta_dirty].
  unfold MetadataStore.save_to_file. cbn [entries meta_path].
  destruct (save_writable (<[file:=MetadataStore.fresh_entry unix file hash size mf bs node]> (∅ : Entries))
    _ d Hd Hw) as (d' & E & _ & _ & Hf).
  rewrite E. by exists d', (mkStore {[file := MetadataStore.fresh_entry unix file hash size mf bs node]} DEFAULT_METADATA_PATH false).
Qed.

(** The state after a successful backup. *)
Lemma backup_catalogue `{!JsonTextOk Entries} now unix k rnd path target w msg w' :
  execute_backup now unix k rnd path target w = Some (Ok msg, w') →
  dir_fault (disk w) DEFAULT_METADATA_PATH = None → write_fault (disk w) DEFAULT_METADATA_PATH = None →
  ∃ parsed data, ParsedAddress.parse target = Ok parsed ∧ files (disk w) !! path = Some data
    ∧ (∀ p, p ≠ DEFAULT_METADATA_PATH → files (disk w') !! p = files (disk w) !! p)
    ∧ MetadataStore.load_from_file DEFAULT_METADATA_PATH (disk w') = Ok (mkStore
        {[ file_key path := backup_entry unix (file_key path) (name parsed) data ]} DEFAULT_METADATA_PATH false).
Proof.
  intros (parsed & data & d & s & Hp & Hdata & Hr & Hw')%backup_done Hd Hw.
  exists parsed, data. rewrite Hw'. edestruct register_fresh as (d' & s' & E & Hf); [exact Hd|exact Hw|].
  rewrite E in Hr. injection Hr as -> ->. split_and!; [done..| |].
  - intros p Hne. by rewrite Hf, lookup_insert_ne.
  - unfold MetadataStore.load_from_file. erewrite load_stored; [done|].
    unfold stored. by rewrite Hf, lookup_insert_eq.
Qed.

(** A backup forgets the catalogue.  It registers the file in a store that is never loaded,
    and saves that store over the file: after a backup, loading the catalogue gives the
    entry of this backup alone, under the file's last path component, with the hashes and
    the size of the data and the target node as the holder of every block; whatever was
    registered before, under any other name, is gone.  The other files are as they were. *)
Theorem backup_overwrites_catalogue `{!JsonTextOk Entries} now unix k rnd path target w msg w' :
  execute_backup now unix k rnd path target w = Some (Ok msg, w') →
  dir_fault (disk w) DEFAULT_METADATA_PATH = None → write_fault (disk w) DEFAULT_METADATA_PATH = None →
  ∃ parsed data s, ParsedAddress.parse target = Ok parsed ∧ files (disk w) !! path = Some data
    ∧ (∀ p, p ≠ DEFAULT_METADATA_PATH → files (disk w') !! p = files (disk w) !! p)
    ∧ MetadataStore.load_from_file DEFAULT_METADATA_PATH (disk w') = Ok s
    ∧ MetadataStore.query (file_key path) s = Some (backup_entry unix (file_key path) (name parsed) data)
    ∧ ∀ other, other ≠ file_key path → MetadataStore.query other s = None.
Proof.
  intros Hb Hd Hw. destruct (backup_catalogue _ _ _ _ _ _ _ _ _ Hb Hd Hw) as (parsed & data & Hp & Hdata & Hfs & Hl).
  exists parsed, data, (mkStore {[ file_key path := backup_entry unix (file_key path) (name parsed) data ]}
    DEFAULT_METADATA_PATH false). split_and!; [done..| |].
  - by unfold MetadataStore.query; cbn [entries]; rewrite lookup_singleton_eq.
  - intros other Hne. unfold MetadataStore.query; cbn [entries]. by rewrite lookup_singleton_ne.
Qed.

(** A backup is garbage at once.  If no version of any file is recorded, the collector that runs
    after a successful backup reports exactly the blocks of that backup as safe to remove. *)
Theorem fresh_backup_is_garbage `{!JsonTextOk Entries} now unix k rnd path target w msg w' :
  execute_backup now unix k rnd path target w = Some (Ok msg, w') →
  dir_fault (disk w) DEFAULT_METADATA_PATH = None → write_fault (disk w) DEFAULT_METADATA_PATH = None →
  files (disk w) !! DEFAULT_VERSION_DB_PATH = None →
  ∃ data r, files (disk w) !! path = Some data
    ∧ execute_storage_gc (disk w') = Ok (CollectResult_display r)
    ∧ ∀ h, h ∈ unreferenced_hashes r ↔ h ∈ meta_hash <$> chunks (chunk_data data Chunker.new).1.
Proof.
  intros Hb Hd Hw Hv. destruct (backup_catalogue _ _ _ _ _ _ _ _ _ Hb Hd Hw) as (parsed & data & Hp & Hdata & Hfs & Hl).
  assert (Hv' : files (disk w') !! DEFAULT_VERSION_DB_PATH = None) by by rewrite Hfs.
  set (s := mkStore _ _ _) in Hl. set (m := VersionManager.new_default).
  destruct (collect_list m s) as (r & Er & _ & _ & Hr). exists data, r. split_and!; [done| |].
  - unfold execute_storage_gc, load_stores, VersionManager.load_from_file, load_json.
    rewrite Hv'. cbn [result_bind]. rewrite Hl. cbn [result_bind map_err].
    change (mkVersionManager ∅ 0 DEFAULT_VERSION_DB_PATH false false) with m. cbn [fst snd]. by rewrite Er.
  - intros h. rewrite Hr, elem_of_catalogued, elem_of_referenced. split.
    + intros [(f & e & b & He & Hb' & <-) _]. cbn [entries s] in He.
      apply lookup_singleton_Some in He as [_ <-]. cbn [blocks meta backup_entry MetadataStore.fresh_entry] in Hb'.
      apply list_elem_of_fmap in Hb' as (c & -> & Hc). cbn [block_hash]. apply list_elem_of_fmap. by exists c.
    + intros (c & -> & Hc)%list_elem_of_fmap. split.
      * eexists _, _, (mkBlock (meta_hash c) (index c) [name parsed] unix). split_and!; [by apply lookup_singleton_eq| |done].
        cbn [blocks meta backup_entry MetadataStore.fresh_entry]. apply list_elem_of_fmap. by exists c.
      * intros (f & v & Hvs & _). unfold VersionManager.list_versions in Hvs.
        cbn [store m VersionManager.new_default VersionManager.new] in Hvs. rewrite lookup_empty in Hvs.
        by apply not_elem_of_nil in Hvs.
Qed.
(** Pruning the storage never prunes it.  When some file has more versions than are to be kept, the
    command never returns, and nothing reaches the disk; otherwise it reports, once it has
    written the versions anew, that it pruned none. *)
Theorem storage_prune_prunes_nothing `{!JsonTextOk VersionStore} keep d m :
  VersionManager.load_from_file DEFAULT_VERSION_DB_PATH d = Ok m →
  write_fault d DEFAULT_VERSION_DB_PATH = None → dir_fault d DEFAULT_VERSION_DB_PATH = None →
  if decide (map_Forall (λ _ fv, (length (versions fv) ≤ Z.to_nat keep)%nat) (store m)) then
    ∃ d', execute_storage_prune keep d
        = (Some (Ok ("Pruned 0 version(s). Kept " +:+ pretty keep +:+ " most recent version(s) per file.")%string), d')
      ∧ VersionManager.load_from_file DEFAULT_VERSION_DB_PATH d' = Ok m
  else execute_storage_prune keep d = (None, d).
Proof.
  intros Hl Hw Hd. unfold execute_storage_prune, GarbageCollector.prune_old_versions. rewrite Hl.
  case_decide as Hk; [|by destruct (prune_all_stuck _ d m Hk) as (m' & ->)].
  assert (∃ s, m = mkVersionManager s 0 DEFAULT_VERSION_DB_PATH false false) as [s ->].
  { unfold VersionManager.load_from_file in Hl. destruct (load_json _ _ _) as [s|[]]; [|done..].
    injection Hl as <-. by exists s. }
  unfold VersionManager.prune_all_versions. cbn [store] in *. rewrite prune_all_id by done. cbn [Nat.ltb Nat.leb].
  destruct (JsonFile.save_writable s DEFAULT_VERSION_DB_PATH d Hd Hw) as (d' & E & _).
  unfold VersionManager.flush, VersionManager.save. cbn. rewrite E. exists d'. split; [done|].
  unfold VersionManager.load_from_file. by erewrite load_stored by (by eapply save_stored).
Qed.

(** ** Restoring *)

Lemma request_chunks_Ok now node remote tags replies i n v cs v' :
  request_chunks now node remote tags replies i n v = (Ok cs, v') →
  length cs = n ∧ ∀ j c, cs !! j = Some c → chunk_response (i + j) (replies (i + j)%nat) = Ok c.
Proof.
  revert i v cs v'. induction n as [|n IH]; intros i v cs v'; cbn [request_chunks].
  { intros [= <- _]. split; [done|]. intros j c. by rewrite lookup_nil. }
  destruct (send _ _ _ _) as [[[]|] v1]; [|done].
  destruct (chunk_response i (replies i)) as [c|] eqn:Ec; [|done].
  destruct (request_chunks _ _ _ _ _ (S i) n v1) as [[cs'|] v2] eqn:Er; cbn [result_bind]; [|done].
  intros [= <- _]. destruct (IH (S i) v1 cs' v2) as [Hl Hc]; [exact Er|].
  split; [cbn [length]; lia|]. intros [|j] c'; cbn [lookup list_lookup].
  - intros [= <-]. by rewrite Nat.add_0_r.
  - intros Hj. rewrite Nat.add_succ_r. by apply Hc.
Qed.

(** The chunks the answers give under a manifest, all of them well formed. *)
Definition answered (m : FileManifest) (replies : nat → option string) (cs : list (list byte)) : Prop :=
  length cs = length (chunks m)
  ∧ ∀ i c, cs !! i = Some c → chunk_response i (replies i) = Ok c.

(** The answers form a manifest and, in order, the chunks it lists, each of its recorded size, which together
    are [data] and have the recorded hash. *)
Definition accepted (mreply : option string) (replies : nat → option string) (data : list byte) : Prop :=
  ∃ json m cs, mreply = Some json ∧ Incremental.manifest_from_str json = Ok m ∧ answered m replies cs
    ∧ meta_size <$> chunks m = (λ c, len c) <$> cs ∧ sha256 (mjoin cs) = file_hash m ∧ data = mjoin cs.

(** C32: What a restore accepts.  It succeeds only when the answers form a manifest and, in order, as
    many chunks as it lists, each of its recorded size, which together have the recorded hash;
    then the local file holds their concatenation and no other file is touched.  When it
    fails, no file is touched at all - whatever the answers are, whichever of them fails to come, and
    whatever was in the local file - unless all the answers were accepted and the write of the local
    file itself failed on the way, which leaves the part that was written. *)
Theorem restore_exact now tag tags mreply replies target path w :
  let '(res, w') := execute_restore now tag tags mreply replies target path w in
  match res with
  | Ok _ => ∃ data, accepted mreply replies data ∧ files (disk w') = <[path := data]> (files (disk w))
  | Err _ => disk w' = disk w
      ∨ ∃ data e n, accepted mreply replies data ∧ write_fault (disk w) path = Some (e, Some n)
          ∧ files (disk w') = <[path := take n data]> (files (disk w))
  end.
Proof.
  unfold execute_restore. destruct (splitn _ _ target) as [|? [|node [|remote ?]]]; try (by left).
  destruct (send _ _ _ _) as [[[]|] v]; [|by left].
  destruct mreply as [json|]; cbn [ok_or result_bind]; [|by left].
  destruct (Incremental.manifest_from_str json) as [m|] eqn:Em; cbn [map_err]; [|by left].
  destruct (request_chunks _ _ _ _ _ 0 _ v) as [[cs|] v1] eqn:Er; cbn [result_bind]; [|by left].
  destruct (reassemble m cs) as [data|] eqn:Ed; cbn [map_err]; [|by left].
  apply reassemble_Ok in Ed as (Hs & -> & Hh). apply request_chunks_Ok in Er.
  assert (Ha : accepted (Some json) replies (mjoin cs)) by (exists json, m, cs; by split_and!).
  unfold create_parent, write. destruct (dir_fault (disk w) path); [by left|].
  destruct (write_fault (disk w) path) as [[e [n|]]|] eqn:Hw; cbn [disk files]; [right|by left|].
  - by exists (mjoin cs), e, n.
  - by exists (mjoin cs).
Qed.

Lemma encrypt_all_lookup rnd i cs e encs :
  encrypt_all rnd i cs e = Some encs →
  length encs = length cs ∧ ∀ j c x, cs !! j = Some c → encs !! j = Some x →
    encrypt (rnd (i + j)%nat) (wrap 32 (Z.of_nat (i + j))) c e = Some x.
Proof.
  revert i encs. induction cs as [|c cs IH]; intros i encs; cbn [encrypt_all].
  { intros [= <-]. split; [done|]. intros j c x. by rewrite lookup_nil. }
  destruct (encrypt (rnd i) _ c e) as [x|] eqn:Ex; cbn [mbind option_bind]; [|done].
  destruct (encrypt_all rnd (S i) cs e) as [xs|] eqn:Exs; cbn [mbind option_bind]; [|done].
  intros [= <-]. destruct (IH _ _ Exs) as [Hl Hc]. split; [cbn [length]; lia|].
  intros [|j] c' x'; cbn [lookup list_lookup].
  - intros [= <-] [= <-]. by rewrite Nat.add_0_r.
  - rewrite Nat.add_succ_r. apply Hc.
Qed.

(** A backup cannot be restored.  Let a node keep what a backup of a non-empty file sent it, the
    manifest and the encrypted chunks, and answer a restore with exactly these.  The restore
    fails, and writes nothing: it does not decrypt, a ciphertext is 16 bytes longer than its
    chunk, and the manifest has the sizes of the plain chunks. *)
Theorem backup_cannot_be_restored `{!HexCrateOk} `{!AesGcmCrateOk} k rnd data encs
    now tag tags json replies target path w :
  encrypt_all rnd 0 (chunk_data data Chunker.new).2 (Encryptor.new k) = Some encs →
  data ≠ [] → len data < 2 ^ 63 →
  Incremental.manifest_from_str json = Ok (chunk_data data Chunker.new).1 →
  (∀ i x, encs !! i = Some x → ∃ r, replies i = Some r
      ∧ Incremental.data_hex_of r = Ok (Some (hex_encode (enc_data x)))) →
  let '(res, w') := execute_restore now tag tags (Some json) replies target path w in
  is_ok res = false ∧ disk w' = disk w.
Proof.
  intros He Hne Hlen Hm Hr. unfold execute_restore.
  destruct (splitn _ _ target) as [|? [|node [|remote ?]]]; try done.
  destruct (send _ _ _ _) as [[[]|] v]; [|done].
  cbn [ok_or result_bind]. rewrite Hm. cbn [map_err].
  destruct (request_chunks _ _ _ _ _ 0 _ v) as [[cs|] v1] eqn:Er; cbn [result_bind]; [|done].
  destruct (reassemble _ cs) as [data'|] eqn:Ed; cbn [map_err]; [|done]. exfalso.
  apply reassemble_Ok in Ed as (Hs & _ & _). apply request_chunks_Ok in Er as [Hl Hc].
  destruct (encrypt_all_lookup _ _ _ _ _ He) as [Hle Hx]. cbn [chunk_data fst snd chunks] in *.
  rewrite length_fmap, length_seq in Hl. rewrite length_fmap, length_seq in Hle. rewrite chunk_sizes in Hs.
  set (size := chunk_size Chunker.new) in *.
  assert (Hlt : (0 < num_chunks size data)%nat).
  { apply (num_chunks_lt size); [change size with 4194304; unfold chunkable; lia|]. destruct data; [done|]. cbn [length]. lia. }
  destruct (lookup_lt_is_Some_2 (seq 0 (num_chunks size data)) 0) as [i0 Hs0]; [by rewrite length_seq|].
  destruct (lookup_lt_is_Some_2 cs 0) as [c Ec]; [lia|].
  destruct (lookup_lt_is_Some_2 encs 0) as [x Ex]; [lia|].
  assert (Hb : (block size data <$> seq 0 (num_chunks size data)) !! 0%nat = Some (block size data i0))
    by by rewrite list_lookup_fmap, Hs0.
  destruct (Hr 0%nat x Ex) as (r & Hrep & Hhex). specialize (Hc 0%nat c Ec). cbn [Nat.add] in Hc.
  unfold chunk_response in Hc. rewrite Hrep in Hc. cbn [ok_or result_bind] in Hc. rewrite Hhex in Hc.
  cbn [map_err ok_or result_bind] in Hc. rewrite hex_decode_encode in Hc. injection Hc as <-.
  specialize (Hx 0%nat _ _ Hb Ex). unfold encrypt in Hx.
  destruct (gcm_encrypt _ _ _) as [ct|] eqn:Eg; [|done]. injection Hx as <-.
  apply gcm_length in Eg. apply (f_equal (λ l, l !! 0%nat)) in Hs.
  rewrite !list_lookup_fmap, Hs0, Ec in Hs. cbn [fmap option_fmap option_map enc_data] in Hs.
  injection Hs as Hs. unfold TAG_LEN in Eg. lia.
Qed.
End Properties.

(** ** Witnesses *)

(** A network that delivers everything, and a text of the messages. *)
#[local] Instance reachable : VpnNode unit := {|
  vpn_trait := {| send := λ _ _ _ v, (Ok tt, v);
                  status := λ _ unix _, mkStatus Online Vpn 0 0 unix; router_name := λ _, "pika" |};
  vpn_name := λ _, "pika";
  vpn_id := λ _, zero32;
  vpn_nodes := λ _, [];
  vpn_listen := λ _ v, v;
  vpn_ping := λ _ _ v, (Ok 0, v)
|}%string.
#[local] Instance toy_messages : CommandJson := {
  backup_to_string file i n size nonce data := (file +:+ ":" +:+ pretty i +:+ ":" +:+ data)%string;
  increment_to_string file i n size data := (file +:+ ":" +:+ pretty i +:+ ":" +:+ data)%string
}.
#[local] Existing Instance Incremental.toy_sync_json.
Lemma sends_delivered now target i msgs v : send_all now target i msgs v = (Ok tt, v).
Proof. revert i. by induction msgs as [|m msgs IH]; intros i; [|apply IH]. Qed.
(** A file, and a catalogue with another one. *)
Definition two_files : World unit := mkWorld
  (mkDisk {[ "a.txt"%string := small_file;
             DEFAULT_METADATA_PATH := as_bytes (to_string ({[ "b.txt"%string := entry_of 1 1 ]} : Entries)) ]}
     (λ _, None) (λ _, None)) tt.
Definition backup_a : option (result string string * World unit) :=
  execute_backup 0 7 zero32 (λ _, replicate 8 Byte.x07) "a.txt" "node:raichu" two_files.

Lemma backup_a_ok : ∃ msg w', backup_a = Some (Ok msg, w').
Proof.
  unfold backup_a, execute_backup, read_file.
  assert (Hp : ParsedAddress.parse "node:raichu" = Ok (mkParsed "raichu" None)) by (vm_compute; reflexivity).
  assert (Hd : files (disk two_files) !! "a.txt"%string = Some small_file) by reflexivity.
  rewrite Hp, Hd. cbn [ok_or]. destruct (chunk_data small_file Chunker.new) as [m cs] eqn:Em.
  assert (He : is_Some (encrypt_all (λ _, replicate 8 Byte.x07) 0 cs (Encryptor.new zero32)))
    by (injection Em as _ <-; vm_compute; by eexists).
  destruct He as [encs ->]. cbn [mbind option_bind]. rewrite sends_delivered. cbn [send vpn_trait reachable].
  destruct (register_fresh 7 (file_key "a.txt") (file_hash m) (len small_file) (Some m)
    ((λ c, mkBlock (meta_hash c) (index c) [name (mkParsed "raichu" None)] 7) <$> chunks m)
    (name (mkParsed "raichu" None)) (disk two_files) eq_refl eq_refl) as (d & s & -> & _).
  by eexists _, _.
Qed.
Lemma backup_overwrites_catalogue_witness :
  ∃ msg w' s, backup_a = Some (Ok msg, w')
    ∧ (∃ s0, MetadataStore.load_from_file DEFAULT_METADATA_PATH (disk two_files) = Ok s0
         ∧ MetadataStore.contains "b.txt" s0 = true)
    ∧ MetadataStore.load_from_file DEFAULT_METADATA_PATH (disk w') = Ok s
    ∧ MetadataStore.query "b.txt" s = None.
Proof.
  destruct backup_a_ok as (msg & w' & E).
  destruct (@backup_overwrites_catalogue toy_sha256 std_hex toy_gcm Incremental.toy_sync_json
    toy_messages entries_text unit reachable
    entries_text_ok 0 7 zero32 (λ _, replicate 8 Byte.x07) "a.txt" "node:raichu" two_files msg w' E
    eq_refl eq_refl) as (parsed & data & s & _ & _ & _ & Hl & _ & Ho).
  exists msg, w', s. split_and!; [done| |done|apply Ho; discriminate].
  eexists. split; vm_compute; reflexivity.
Defined.
Lemma fresh_backup_is_garbage_witness :
  ∃ msg w' r, backup_a = Some (Ok msg, w')
    ∧ execute_storage_gc (disk w') = Ok (CollectResult_display r)
    ∧ sha256 small_file ∈ unreferenced_hashes r.
Proof.
  destruct backup_a_ok as (msg & w' & E).
  assert (Hd : files (disk two_files) !! "a.txt"%string = Some small_file) by reflexivity.
  destruct (@fresh_backup_is_garbage toy_sha256 std_hex toy_gcm Incremental.toy_sync_json
    toy_messages version_text entries_text unit reachable
    entries_text_ok 0 7 zero32 (λ _, replicate 8 Byte.x07) "a.txt" "node:raichu" two_files msg w' E
    eq_refl eq_refl eq_refl) as (data & r & Hdata & Hg & Hh).
  exists msg, w', r. split_and!; [done|done|]. apply Hh. rewrite Hd in Hdata. injection Hdata as <-.
  apply list_elem_of_fmap. by exists (chunk_meta DEFAULT_CHUNK_SIZE small_file 0); split; [|left].
Defined.
Lemma backup_cannot_be_restored_witness :
  is_ok (execute_restore 0 1 (λ _, 2)
    (Some (Incremental.manifest_to_string (chunk_data small_file Chunker.new).1))
    (λ _, Some (hex_encode (small_file ++ take TAG_LEN (arr_bytes zero32))))
    "node:raichu:a.txt" "a.txt" two_files).1 = false.
Proof.
  pose proof (@backup_cannot_be_restored toy_sha256 std_hex toy_gcm Incremental.toy_sync_json unit reachable
    std_hex_ok toy_gcm_ok zero32 (λ _, replicate 8 Byte.x07) small_file
    [mkEncrypted (le_bytes 4 0 ++ replicate 8 Byte.x07) (small_file ++ take TAG_LEN (arr_bytes zero32))]
    0 1 (λ _, 2) (Incremental.manifest_to_string (chunk_data small_file Chunker.new).1)
    (λ _, Some (hex_encode (small_file ++ take TAG_LEN (arr_bytes zero32))))
    "node:raichu:a.txt" "a.txt" two_files eq_refl ltac:(discriminate) ltac:(vm_compute; reflexivity)
    (Incremental.toy_manifest_roundtrip _)) as H.
  match type of H with ?P → _ => assert (Hr : P) end.
  { intros [|i] x Hx; [|discriminate Hx]. injection Hx as <-. by eexists. }
  specialize (H Hr). destruct (execute_restore _ _ _ _ _ _ _ two_files) as [res w']. exact (proj1 H).
Defined.

(** Two versions of a file, of which one is to be kept. *)
Definition two_versions : VersionStore :=
  {[ "a"%string := mkVersions "a" [mkVersion "v1" "" 1 1 (manifest_of_size 2) ""; mkVersion "v0" "" 0 0 (manifest_of_size 1) ""] ]}.
Lemma storage_prune_prunes_nothing_witness :
  let d := disk_with DEFAULT_VERSION_DB_PATH (as_bytes (to_string two_versions)) in
  execute_storage_prune 1 d = (None, d).
Proof.
  intros d.
  assert (Hl : VersionManager.load_from_file DEFAULT_VERSION_DB_PATH d
    = Ok (mkVersionManager two_versions 0 DEFAULT_VERSION_DB_PATH false false)).
  { unfold VersionManager.load_from_file. rewrite (load_stored ∅ two_versions); [reflexivity|].
    unfold stored, d. cbn [files disk_with]. by rewrite lookup_singleton_eq. }
  pose proof (storage_prune_prunes_nothing 1 d _ Hl eq_refl eq_refl) as Hp.
  rewrite decide_False in Hp; [exact Hp|]. cbn [store]. unfold two_versions.
  rewrite map_Forall_singleton. cbn. lia.
Defined.
