(* ===== verification/Handshake.v ===== *)
(** * Handshake: the handshake between two nodes

    Models crates/vpn/src/vpn/handshake.rs.  The snow library is the class
    [SnowCrate]: generated key pairs ([seed] is the randomness) and the states
    its builders make.  The clock readings of a call are arguments, in Unix
    seconds; u64 sums wrap. *)
From S2P Require Import Prelude Identity.

Definition DEFAULT_KEY_ROTATION_SECS : Z := 86400.
Definition REPLAY_WINDOW_SECS : Z := 60.

Class SnowCrate := {
  SnowErr : Type;
  SnowErr_display : SnowErr → string;
  HandshakeState : Type;
  (** The public and the private key. *)
  generate_keypair : Z → result (list byte * list byte) SnowErr;
  build_initiator : list byte → list byte → result HandshakeState SnowErr;
  build_responder : list byte → result HandshakeState SnowErr
}.
(** Keys are generated, and builders take generated keys. *)
Class SnowCrateOk `{SnowCrate} : Prop := {
  keys_generated seed : is_ok (generate_keypair seed) = true;
  initiator_built s1 s2 k1 k2 : generate_keypair s1 = Ok k1 → generate_keypair s2 = Ok k2 →
    is_ok (build_initiator k1.2 k2.1) = true;
  responder_built s k : generate_keypair s = Ok k → is_ok (build_responder k.2) = true
}.

Inductive HandshakeMsgType := Hello | HelloAck | Data.
Module HandshakeMsgType.
Definition from_u8 (b : Z) : option HandshakeMsgType :=
  match b with 1 => Some Hello | 2 => Some HelloAck | 3 => Some Data | _ => None end.
Definition to_u8 (t : HandshakeMsgType) : Z := match t with Hello => 1 | HelloAck => 2 | Data => 3 end.
End HandshakeMsgType.
Inductive HandshakePhase := Init | HelloSent | HelloReceived | HelloAckReceived | Established | Failed.
#[export] Instance HandshakePhase_eq_dec : EqDecision HandshakePhase.
Proof. solve_decision. Defined.

Record TimestampedPayload := mkStamped { timestamp : Z; payload : list byte }.

Section Handshake.
Context `{SnowCrate}.

Inductive HandshakeError :=
| SnowError (e : SnowErr)
| InvalidState (msg : string)
| ReplayDetected (ts : Z)
| TimestampExpired (ts now : Z)
| InvalidData (msg : string).
Definition HandshakeError_display (e : HandshakeError) : string :=
  match e with
  | SnowError e => "noise error: " +:+ SnowErr_display e
  | InvalidState msg => "invalid state: " +:+ msg
  | ReplayDetected ts => "replay detected at timestamp: " +:+ pretty ts
  | TimestampExpired ts now => "timestamp expired: " +:+ pretty ts +:+ " (now: " +:+ pretty now +:+ ")"
  | InvalidData msg => "invalid data: " +:+ msg
  end%string.

Definition stamp (now : Z) (data : list byte) : TimestampedPayload := mkStamped now data.
Definition to_bytes (t : TimestampedPayload) : list byte := be_bytes 8 (timestamp t) ++ payload t.
Definition from_bytes (data : list byte) : option TimestampedPayload :=
  if (length data <? 8)%nat then None else Some (mkStamped (of_be (slice 0 8 data)) (drop 8 data)).
Definition validate (now : Z) (t : TimestampedPayload) : result unit HandshakeError :=
  if wrap 64 (timestamp t + REPLAY_WINDOW_SECS) <? now then Err (TimestampExpired (timestamp t) now) else Ok tt.
Definition check_replay (used : list Z) (ts : Z) : result unit HandshakeError :=
  if bool_decide (ts ∈ used) then Err (ReplayDetected ts) else Ok tt.
(** The timestamps used after a message's body: it is checked when it is long enough to have one. *)
Definition check_body (now : Z) (used : list Z) (body : list byte) : result (list Z) HandshakeError :=
  match from_bytes body with
  | Some t =>
      let? _ := validate now t in
      let? _ := check_replay used (timestamp t) in Ok (used ++ [timestamp t])
  | None => Ok used
  end.
(** A message: its type, then a stamped node identifier. *)
Definition message (now : Z) (t : HandshakeMsgType) (id : NodeID) : list byte :=
  byte_of_Z (HandshakeMsgType.to_u8 t) :: to_bytes (stamp now (arr_bytes id)).
(** [msg.len() < 1 || msg[0] != t.to_u8()], negated. *)
Definition has_type (t : HandshakeMsgType) (msg : list byte) : bool :=
  match msg with b :: _ => Z_of_byte b =? HandshakeMsgType.to_u8 t | [] => false end.

(** ** The initiator *)

Record HandshakeInitiator := mkInitiator {
  init_id : NodeID; remote_public_key : list byte; init_noise : option HandshakeState;
  init_phase : HandshakePhase; init_used : list Z }.
Implicit Types i : HandshakeInitiator.
Definition new_initiator (id : NodeID) (remote : list byte) : HandshakeInitiator :=
  mkInitiator id remote None Init [].
Definition start_handshake (seed : Z) i : result (list byte) HandshakeError * HandshakeInitiator :=
  match generate_keypair seed with
  | Err e => (Err (SnowError e), i)
  | Ok (public, private) =>
      match build_initiator private (remote_public_key i) with
      | Err e => (Err (SnowError e), i)
      | Ok noise =>
          (Ok (byte_of_Z (HandshakeMsgType.to_u8 Hello) :: public),
           mkInitiator (init_id i) (remote_public_key i) (Some noise) HelloSent (init_used i))
      end
  end.
(** [t_check] is the clock of the check, [t_send] that of the answer. *)
Definition handle_hello_ack (t_check t_send : Z) (msg : list byte) i
    : result (list byte) HandshakeError * HandshakeInitiator :=
  if decide (init_phase i ≠ HelloSent) then (Err (InvalidState "expected HelloSent phase"), i) else
  if negb (has_type HelloAck msg) then (Err (InvalidData "invalid HelloACK message"), i) else
  match check_body t_check (init_used i) (tail msg) with
  | Err e => (Err e, i)
  | Ok used =>
      (Ok (message t_send Data (init_id i)),
       mkInitiator (init_id i) (remote_public_key i) (init_noise i) HelloAckReceived used)
  end%string.
Definition complete i : result unit HandshakeError * HandshakeInitiator :=
  if decide (init_phase i ≠ HelloAckReceived) then (Err (InvalidState "handshake not completed"), i)
  else (Ok tt, mkInitiator (init_id i) (remote_public_key i) (init_noise i) Established (init_used i)).

(** ** The responder *)

Record HandshakeResponder := mkResponder {
  resp_id : NodeID; private_key : list byte; resp_noise : option HandshakeState;
  resp_phase : HandshakePhase; resp_used : list Z }.
Implicit Types r : HandshakeResponder.
Definition new_responder (id : NodeID) (private : list byte) : HandshakeResponder :=
  mkResponder id private None Init [].
Definition handle_hello (now : Z) (msg : list byte) r : result (list byte) HandshakeError * HandshakeResponder :=
  if decide (resp_phase r ≠ Init) then (Err (InvalidState "expected Init phase"), r) else
  if negb (has_type Hello msg) then (Err (InvalidData "invalid Hello message"), r) else
  match build_responder (private_key r) with
  | Err e => (Err (SnowError e), r)
  | Ok noise =>
      (Ok (message now HelloAck (resp_id r)),
       mkResponder (resp_id r) (private_key r) (Some noise) HelloReceived (resp_used r))
  end%string.
Definition handle_data (now : Z) (msg : list byte) r : result unit HandshakeError * HandshakeResponder :=
  if decide (resp_phase r ≠ HelloReceived) then (Err (InvalidState "expected HelloReceived phase"), r) else
  if negb (has_type Data msg) then (Err (InvalidData "invalid Data message"), r) else
  match check_body now (resp_used r) (tail msg) with
  | Err e => (Err e, r)
  | Ok used => (Ok tt, mkResponder (resp_id r) (private_key r) (resp_noise r) Established used)
  end%string.

(** ** Both ends in one call *)

(** [None]: an assertion fails.  [t1] to [t4] are the clock when the HelloACK is made and
    checked, and the Data message is made and checked. *)
Definition assert_phase (p q : HandshakePhase) : option unit := if decide (p = q) then Some tt else None.
Definition perform_handshake (seed1 seed2 t1 t2 t3 t4 : Z) (initiator responder : NodeID)
    : option (result (HandshakePhase * HandshakePhase) HandshakeError) :=
  match generate_keypair seed1 with
  | Err e => Some (Err (SnowError e))
  | Ok (public, private) =>
  let i := new_initiator initiator public in
  let r := new_responder responder private in
  match start_handshake seed2 i with
  | (Err e, _) => Some (Err e)
  | (Ok hello, i) =>
  _ ← assert_phase (init_phase i) HelloSent;
  match handle_hello t1 hello r with
  | (Err e, _) => Some (Err e)
  | (Ok ack, r) =>
  _ ← assert_phase (resp_phase r) HelloReceived;
  match handle_hello_ack t2 t3 ack i with
  | (Err e, _) => Some (Err e)
  | (Ok data, i) =>
  _ ← assert_phase (init_phase i) HelloAckReceived;
  match handle_data t4 data r with
  | (Err e, _) => Some (Err e)
  | (Ok _, r) =>
  _ ← assert_phase (resp_phase r) Established;
  match complete i with
  | (Err e, _) => Some (Err e)
  | (Ok _, i) =>
  _ ← assert_phase (init_phase i) Established;
  Some (Ok (init_phase i, resp_phase r))
  end end end end end end.

(** ** What a body needs *)

(** The timestamp in front of a body that is long enough. *)
Definition body_time (body : list byte) : option Z :=
  if (length body <? 8)%nat then None else Some (of_be (take 8 body)).
(** Fresh enough at [now], and not used. *)
Definition acceptable (now : Z) (used : list Z) (body : list byte) : Prop :=
  match body_time body with
  | None => True
  | Some ts => now <= wrap 64 (ts + REPLAY_WINDOW_SECS) ∧ ts ∉ used
  end.
Lemma check_body_ok now used body :
  is_ok (check_body now used body) = true ↔ acceptable now used body.
Proof.
  unfold check_body, from_bytes, acceptable, body_time. destruct (length body <? 8)%nat; [done|].
  unfold validate, check_replay, slice. cbn [timestamp]. rewrite drop_0.
  change (8 - 0)%nat with 8%nat. destruct (Z.ltb_spec (wrap 64 (of_be (take 8 body) + REPLAY_WINDOW_SECS)) now).
  { split; [done|]. intros [? _]. lia. }
  cbn [result_bind]. destruct (bool_decide_reflect (of_be (take 8 body) ∈ used)); cbn [result_bind is_ok].
  - split; [done|]. by intros [_ ?].
  - done.
Qed.
Lemma check_body_used now used body used' :
  check_body now used body = Ok used' → used' = used ++ option_list (body_time body).
Proof.
  unfold check_body, from_bytes, body_time. destruct (length body <? 8)%nat; [intros [= <-]; by rewrite app_nil_r|].
  destruct (validate _ _); [|done]. cbn [result_bind]. destruct (check_replay _ _); [|done].
  intros [= <-]. cbn [timestamp option_list]. by unfold slice; rewrite drop_0.
Qed.
Lemma check_body_no_replay now used body ts :
  check_body now used body = Err (ReplayDetected ts) → ts ∈ used.
Proof.
  unfold check_body. destruct (from_bytes body) as [t|]; [|done]. unfold validate.
  destruct (_ <? _); [done|]. cbn [result_bind]. unfold check_replay.
  case_bool_decide; cbn [result_bind]; [|done]. by intros [= <-].
Qed.
Lemma has_type_message now t id : has_type t (message now t id) = true.
Proof. unfold has_type, message. rewrite Z_of_byte_of_Z. by destruct t. Qed.
Lemma has_type_byte t body : has_type t (byte_of_Z (HandshakeMsgType.to_u8 t) :: body) = true.
Proof. unfold has_type. rewrite Z_of_byte_of_Z. by destruct t. Qed.
Lemma message_time now t id :
  fits 64 now → body_time (tail (message now t id)) = Some now.
Proof.
  intros Hf. unfold message, body_time, to_bytes, stamp. cbn [tail timestamp payload].
  destruct (Nat.ltb_spec (length (be_bytes 8 now ++ arr_bytes id)) 8) as [Hl|Hl].
  { rewrite length_app, length_be_bytes in Hl. lia. }
  assert (E : take 8 (be_bytes 8 now ++ arr_bytes id) = be_bytes 8 now).
  { apply take_app_length'. by rewrite length_be_bytes. }
  rewrite E. by rewrite of_be_be_bytes_id.
Qed.
Lemma check_message now' now t id :
  fits 64 now →
  check_body now' [] (tail (message now t id)) =
    if wrap 64 (now + 60) <? now' then Err (TimestampExpired now now') else Ok [now].
Proof.
  intros Hf. pose proof (message_time now t id Hf) as Ht. revert Ht.
  generalize (tail (message now t id)). intros body Ht. unfold body_time in Ht.
  unfold check_body, from_bytes. destruct (_ <? 8)%nat; [done|]. injection Ht as Ht.
  unfold slice. rewrite drop_0. change (8 - 0)%nat with 8%nat. rewrite Ht. unfold validate.
  cbn [timestamp]. change REPLAY_WINDOW_SECS with 60. destruct (_ <? now'); [done|].
  cbn [result_bind]. unfold check_replay. by rewrite bool_decide_false by apply not_elem_of_nil.
Qed.
(** Each message is taken by the waiting end, unless it is too old. *)
Lemma ack_step t1 t2 t3 id i :
  fits 64 t1 → init_phase i = HelloSent → init_used i = [] →
  handle_hello_ack t2 t3 (message t1 HelloAck id) i =
    if wrap 64 (t1 + 60) <? t2 then (Err (TimestampExpired t1 t2), i)
    else (Ok (message t3 Data (init_id i)),
          mkInitiator (init_id i) (remote_public_key i) (init_noise i) HelloAckReceived [t1]).
Proof.
  intros Hf Hp Hu. unfold handle_hello_ack. rewrite decide_False by (by rewrite Hp; intros []).
  rewrite has_type_message. cbn [negb]. rewrite Hu, check_message by done. by destruct (_ <? t2).
Qed.
Lemma data_step t1 t2 id r :
  fits 64 t1 → resp_phase r = HelloReceived → resp_used r = [] →
  handle_data t2 (message t1 Data id) r =
    if wrap 64 (t1 + 60) <? t2 then (Err (TimestampExpired t1 t2), r)
    else (Ok tt, mkResponder (resp_id r) (private_key r) (resp_noise r) Established [t1]).
Proof.
  intros Hf Hp Hu. unfold handle_data. rewrite decide_False by (by rewrite Hp; intros []).
  rewrite has_type_message. cbn [negb]. rewrite Hu, check_message by done. by destruct (_ <? t2).
Qed.
End Handshake.

(** ** Properties *)

Section Properties.
Context `{SnowCrate}.

(** Both ends of one process.  Whatever the keys and the identifiers are, the handshake ends with
    both phases established, unless a message is checked more than a minute after it was
    made; then it fails with that message's time and the clock.  No assertion fails. *)
Theorem perform_handshake_exact `{!SnowCrateOk} seed1 seed2 t1 t2 t3 t4 initiator responder :
  fits 64 t1 → fits 64 t3 →
  perform_handshake seed1 seed2 t1 t2 t3 t4 initiator responder =
  Some (if wrap 64 (t1 + 60) <? t2 then Err (TimestampExpired t1 t2)
        else if wrap 64 (t3 + 60) <? t4 then Err (TimestampExpired t3 t4)
        else Ok (Established, Established)).
Proof.
  intros H1 H3. unfold perform_handshake, start_handshake.
  pose proof (keys_generated seed1) as K1. pose proof (keys_generated seed2) as K2.
  destruct (generate_keypair seed1) as [[pub1 priv1]|] eqn:E1; [|done].
  destruct (generate_keypair seed2) as [[pub2 priv2]|] eqn:E2; [|done].
  pose proof (initiator_built _ _ _ _ E2 E1) as B. pose proof (responder_built _ _ E1) as R.
  cbn [fst snd new_initiator remote_public_key init_id init_used] in *.
  destruct (build_initiator priv2 pub1) as [noise|]; [|done].
  cbn [assert_phase init_phase]. unfold handle_hello. cbn [resp_phase new_responder private_key].
  rewrite decide_False by (by intros []). rewrite has_type_byte. cbn [negb].
  destruct (build_responder priv1) as [rn|]; [|done].
  rewrite ack_step by done. change 60 with REPLAY_WINDOW_SECS. destruct (_ <? t2); [done|].
  rewrite data_step by done. by destruct (_ <? t4).
Qed.

(** C37: The handshake authenticates nobody.  An initiator that waits for the answer, whatever key it
    expects, is established by any bytes that start with 2, and a new responder, whatever key it
    was made with, as long as the Noise library builds a state from it, by any two messages that start
    with 1 and 3: the rest is not decrypted or checked against a key or an identifier.  Only a last
    message of eight bytes more must give a time in these that this side has not accepted before
    and that is at most a minute old or in the future - the sum of the time and a minute wraps, so that
    a time within a minute of 2^64 seconds is refused. *)
Theorem handshake_authenticates_nobody i id private t1 t2 hello msg :
  init_phase i = HelloSent → is_ok (build_responder private) = true →
  (init_phase (complete (handle_hello_ack t1 t2 msg i).2).2 = Established ↔
     has_type HelloAck msg = true ∧ acceptable t1 (init_used i) (tail msg))
  ∧ (resp_phase (handle_data t2 msg (handle_hello t1 hello (new_responder id private)).2).2 = Established ↔
     has_type Hello hello = true ∧ has_type Data msg = true ∧ acceptable t2 [] (tail msg)).
Proof.
  intros Hi Hr. split.
  - unfold handle_hello_ack. rewrite decide_False by (by rewrite Hi; intros []).
    rewrite <-check_body_ok. destruct (has_type HelloAck msg); cbn [negb snd].
    + destruct (check_body t1 _ _) as [used|e]; cbn [snd is_ok]; unfold complete.
      * cbn. done.
      * rewrite decide_True by (by rewrite Hi). cbn [snd]. rewrite Hi. split; [done|by intros [_ ?]].
    + unfold complete. rewrite decide_True by (by rewrite Hi). cbn [snd]. rewrite Hi. split; [done|by intros [? _]].
  - unfold handle_hello. cbn [resp_phase new_responder private_key]. rewrite decide_False by (by intros []).
    destruct (has_type Hello hello); cbn [negb snd].
    2:{ unfold handle_data. cbn. split; [done|by intros [? _]]. }
    destruct (build_responder private) as [noise|]; [|done]. unfold handle_data.
    cbn -[has_type check_body]. rewrite <-check_body_ok.
    destruct (has_type Data msg); cbn -[check_body]; [|split; [done|by intros (_ & ? & _)]].
    destruct (check_body t2 _ _) as [used|e]; cbn; [done|]. split; [done|by intros (_ & _ & ?)].
Qed.

(** ** Replays *)

Inductive Op := GetHello (now : Z) (msg : list byte) | GetData (now : Z) (msg : list byte).
Definition apply_op (r : HandshakeResponder) (op : Op) : HandshakeResponder :=
  match op with GetHello now msg => (handle_hello now msg r).2 | GetData now msg => (handle_data now msg r).2 end.
Definition error_of (r : HandshakeResponder) (op : Op) : option HandshakeError :=
  match op with
  | GetHello now msg => match (handle_hello now msg r).1 with Err e => Some e | Ok _ => None end
  | GetData now msg => match (handle_data now msg r).1 with Err e => Some e | Ok _ => None end
  end.
(** A responder that is not established has used no timestamp. *)
Definition unused (r : HandshakeResponder) : Prop := resp_phase r ≠ Established → resp_used r = [].
Lemma apply_op_unused r op : unused r → unused (apply_op r op).
Proof.
  unfold unused. intros Hr. destruct op as [now msg|now msg]; cbn [apply_op].
  - unfold handle_hello. case_decide as Hp; [done|]. destruct (negb _); [done|].
    destruct (build_responder _); [|done]. cbn [snd resp_phase resp_used]. intros _. apply Hr.
    by rewrite Hp.
  - unfold handle_data. case_decide; [done|]. destruct (negb _); [done|].
    by destruct (check_body _ _ _).
Qed.
Lemma run_unused id private ops : unused (foldl apply_op (new_responder id private) ops).
Proof.
  assert (H0 : unused (new_responder id private)) by done. revert H0.
  generalize (new_responder id private). induction ops as [|op ops IH]; intros r Hr; [done|].
  apply IH. by apply apply_op_unused.
Qed.

(** Replays are never seen.  Whatever a responder receives, it never reports a replay: it checks
    the time of one message at most.  And a recorded message that one responder accepted is
    accepted by every other responder that waits for one, whatever its identifier and key,
    until a minute after the time in it. *)
Theorem replays_are_accepted id private ops now now' msg r r1 r2 id2 private2 ops2 :
  r = foldl apply_op (new_responder id private) ops →
  handle_data now msg r = (Ok tt, r1) →
  r2 = foldl apply_op (new_responder id2 private2) ops2 → resp_phase r2 = HelloReceived →
  acceptable now' [] (tail msg) →
  (∀ op ts, error_of r op ≠ Some (ReplayDetected ts))
  ∧ (handle_data now' msg r2).1 = Ok tt.
Proof.
  intros -> Hd -> Hp Ha. split.
  - intros [t m|t m] ts; cbn [error_of].
    + unfold handle_hello. case_decide; [done|]. destruct (negb _); [done|]. by destruct (build_responder _).
    + unfold handle_data. case_decide as Hph; [done|]. destruct (negb _); [done|].
      destruct (check_body t _ _) as [u|e] eqn:E; [done|]. cbn [fst]. intros [= ->].
      apply check_body_no_replay in E. rewrite run_unused in E; [by apply not_elem_of_nil in E|].
      by rewrite Hph.
  - assert (Ht : has_type Data msg = true).
    { unfold handle_data in Hd. case_decide; [done|]. by destruct (has_type Data msg). }
    unfold handle_data. rewrite decide_False by (by rewrite Hp; intros []). rewrite Ht. cbn [negb].
    rewrite run_unused by (by rewrite Hp). apply check_body_ok in Ha. by destruct (check_body now' [] _).
Qed.
End Properties.

(** ** Witnesses *)

#[export] Instance toy_snow : SnowCrate := {
  SnowErr := string; SnowErr_display e := e; HandshakeState := unit;
  generate_keypair _ := Ok (replicate 32 Byte.x01, replicate 32 Byte.x02);
  build_initiator _ _ := Ok tt; build_responder _ := Ok tt
}.
#[export] Instance toy_snow_ok : SnowCrateOk.
Proof. by split. Qed.

Lemma perform_handshake_exact_witness :
  perform_handshake 1 2 100 100 101 161 zero32 zero32 = Some (Ok (Established, Established))
  ∧ perform_handshake 1 2 100 100 101 162 zero32 zero32 = Some (Err (TimestampExpired 101 162)).
Proof.
  split; [rewrite (perform_handshake_exact 1 2 100 100 101 161)|rewrite (perform_handshake_exact 1 2 100 100 101 162)];
    first [reflexivity | split; vm_compute; congruence].
Defined.
Lemma handshake_authenticates_nobody_witness :
  resp_phase (handle_data 0 [Byte.x03] (handle_hello 0 [Byte.x01] (new_responder zero32 [])).2).2 = Established.
Proof.
  apply (proj2 (@handshake_authenticates_nobody toy_snow (mkInitiator zero32 [] None HelloSent [])
    zero32 [] 0 0 [Byte.x01] [Byte.x03] eq_refl eq_refl)). repeat split.
Defined.
(** A message stamped at 100 seconds. *)
Definition recorded : list byte := message 100 Data zero32.
Definition waiting : list Op := [GetHello 100 [Byte.x01]].
Definition first_responder : HandshakeResponder := foldl apply_op (new_responder zero32 []) waiting.
Definition second_responder : HandshakeResponder := foldl apply_op (new_responder one_high [Byte.x07]) waiting.
Lemma replays_are_accepted_witness : (handle_data 160 recorded second_responder).1 = Ok tt.
Proof.
  assert (Hr : (handle_data 101 recorded first_responder).1 = Ok tt) by (vm_compute; reflexivity).
  destruct (handle_data 101 recorded first_responder) as [res r1] eqn:H1. cbn [fst] in Hr. rewrite Hr in H1.
  assert (H2 : resp_phase second_responder = HelloReceived) by (vm_compute; reflexivity).
  assert (H3 : acceptable 160 [] (tail recorded)).
  { split; [vm_compute; congruence|apply not_elem_of_nil]. }
  exact (proj2 (@replays_are_accepted toy_snow zero32 [] waiting 101 160 recorded first_responder
    r1 second_responder one_high [Byte.x07] waiting
    eq_refl H1 eq_refl H2 H3)).
Defined.
