(* ===== verification/HolePunch.v ===== *)
(** * HolePunch: UDP hole punching

    Models crates/vpn/src/vpn/hole_punch.rs.  The network is an argument of a
    punch: whether its socket opens, and for each attempt whether the send
    fails and what the one [recv_from] after it gives.  The packets that are
    sent are logged.  A receive on a blocking socket that gets nothing does not
    return, which is not modelled; the clock value kept in a punch and
    the field [running] are not read. *)
From S2P Require Import Prelude Identity LanRouter.

Definition PUNCH_TIMEOUT_SECS : Z := 5.
Definition PUNCH_RETRY_COUNT : nat := 3.
Definition PUNCH_PORT_START : Z := 34780.
Definition PUNCH_PACKET_SIZE : nat := 64.
Definition KEEPALIVE_INTERVAL_SECS : Z := 30.

Inductive NatType := Cone | Restricted | Symmetric | Unknown.
#[export] Instance NatType_eq_dec : EqDecision NatType.
Proof. solve_decision. Defined.
Module NatType.
Definition is_punchable (t : NatType) : bool := match t with Cone | Restricted => true | _ => false end.
Definition as_str (t : NatType) : string :=
  match t with Cone => "cone" | Restricted => "restricted" | Symmetric => "symmetric" | Unknown => "unknown" end.
End NatType.
Inductive PunchResult := Success | PunchFailed (e : string) | DegradedToRelay (e : string).

Record HolePunchConn := mkConn {
  conn_target : NodeID; public_addr : SocketAddr; started : Instant; retries : Z; established : bool }.
Record HolePunchManager := mkPunch {
  local_id : NodeID; nat_type : NatType; active : gmap NodeID HolePunchConn;
  punched : gmap NodeID SocketAddr; has_socket : bool; sent : list (SocketAddr * list byte) }.

(** What a receive gives: a datagram, nothing yet ([WouldBlock]), or an error. *)
Inductive Received := Packet (data : list byte) (src : SocketAddr) | NoData | Broken (e : string).
Record Attempt := mkAttempt { send_error : option string; received : Received }.
Record PunchIo := mkIo { opens : result unit string; attempts : nat → Attempt }.

Module HolePunchManager.
Implicit Types m : HolePunchManager.
Definition new (id : NodeID) : HolePunchManager := mkPunch id Unknown ∅ ∅ false [].
Definition bind_socket m : HolePunchManager :=
  mkPunch (local_id m) (nat_type m) (active m) (punched m) true (sent m).
Definition set_nat_type (t : NatType) m : HolePunchManager :=
  mkPunch (local_id m) t (active m) (punched m) (has_socket m) (sent m).
Definition set_active (a : gmap NodeID HolePunchConn) m : HolePunchManager :=
  mkPunch (local_id m) (nat_type m) a (punched m) (has_socket m) (sent m).
Definition set_punched (p : gmap NodeID SocketAddr) m : HolePunchManager :=
  mkPunch (local_id m) (nat_type m) (active m) p (has_socket m) (sent m).
Definition push_sent (to : SocketAddr) (data : list byte) m : HolePunchManager :=
  mkPunch (local_id m) (nat_type m) (active m) (punched m) (has_socket m) (sent m ++ [(to, data)]).
Definition active_punches m : nat := size (active m).
Definition punched_peer_count m : nat := size (punched m).
Definition detect_nat_type m : NatType * HolePunchManager := (Cone, set_nat_type Cone m).
Definition is_symmetric_nat m : bool := bool_decide (nat_type m = Symmetric).

(** [packet.resize(PUNCH_PACKET_SIZE, 0)] *)
Definition resize (n : nat) (bs : list byte) : list byte :=
  take n bs ++ replicate (n - length bs) Byte.x00.
Definition magic : list byte := as_bytes "LLHP".
Definition build_punch_packet (target : NodeID) m : list byte :=
  resize PUNCH_PACKET_SIZE (magic ++ take 28 (arr_bytes (local_id m)) ++ take 28 (arr_bytes target)).
Definition is_valid_punch_response (buf : list byte) (expected : NodeID) : bool :=
  if (length buf <? 4 + 28)%nat then false
  else bool_decide (slice 0 4 buf = magic)
         && bool_decide (slice 4 32 buf = take 28 (arr_bytes expected)).

(** The remaining attempts; [last_error] is the loop's variable. *)
Fixpoint punch_loop (io : PunchIo) (remote : NodeID) (to : SocketAddr) (k n : nat)
    (last_error : string) m : PunchResult * HolePunchManager :=
  match n with
  | O =>
      (DegradedToRelay ("all " +:+ pretty (Z.of_nat PUNCH_RETRY_COUNT) +:+ " attempts failed: "
         +:+ (if String.eqb last_error "" then "no response" else last_error)),
       set_active (delete remote (active m)) m)
  | S n =>
      let a := attempts io k in
      let '(last_error, m) :=
        match send_error a with
        | None => (last_error, push_sent to (build_punch_packet remote m) m)
        | Some e => ("send error: " +:+ e, m)
        end in
      match received a with
      | Packet data src =>
          if is_valid_punch_response (resize PUNCH_PACKET_SIZE data) remote
          then (Success, set_active (delete remote (active m)) (set_punched (<[remote := src]> (punched m)) m))
          else punch_loop io remote to (S k) n last_error m
      | NoData => punch_loop io remote to (S k) n last_error m
      | Broken e => punch_loop io remote to (S k) n ("recv error: " +:+ e) m
      end
  end%string.
Definition punch_hole (now : Instant) (io : PunchIo) (remote : NodeID) (to : SocketAddr) m
    : result PunchResult string * HolePunchManager :=
  if is_symmetric_nat m then (Ok (DegradedToRelay "symmetric NAT cannot punch"), m) else
  if bool_decide (is_Some (punched m !! remote)) then (Ok Success, m) else
  match (if has_socket m then Ok tt else opens io) with
  | Err e => (Err e, m)
  | Ok _ =>
      let m := set_active (<[remote := mkConn remote to now 0 false]> (active m)) m in
      let '(res, m) := punch_loop io remote to 0 PUNCH_RETRY_COUNT "" m in (Ok res, m)
  end%string.

Definition keepalive : list byte := as_bytes "LLKA".
Definition send_keepalive (send_error : option string) (peer : NodeID) m : result unit string * HolePunchManager :=
  match punched m !! peer with
  | None => (Err "peer not punched", m)
  | Some to =>
      if has_socket m then
        match send_error with
        | Some e => (Err ("keepalive send failed: " +:+ e), m)
        | None => (Ok tt, push_sent to keepalive m)
        end
      else (Err "no UDP socket", m)
  end%string.
Definition get_punched_addr (peer : NodeID) m : option SocketAddr := punched m !! peer.
Definition remove_peer (peer : NodeID) m : HolePunchManager :=
  set_active (delete peer (active m)) (set_punched (delete peer (punched m)) m).
Definition clear m : HolePunchManager := set_active ∅ (set_punched ∅ m).
Definition punched_peers m : list (NodeID * SocketAddr) := map_to_list (punched m).
End HolePunchManager.
Import HolePunchManager.

(** ** Packets *)

Lemma resize_exact n bs : length bs = n → resize n bs = bs.
Proof. intros <-. unfold resize. by rewrite firstn_all, Nat.sub_diag, app_nil_r. Qed.
Lemma length_resize n bs : length (resize n bs) = n.
Proof. unfold resize. rewrite length_app, length_take, length_replicate. lia. Qed.
Lemma punch_packet_split target m :
  build_punch_packet target m =
    magic ++ take 28 (arr_bytes (local_id m)) ++ take 28 (arr_bytes target) ++ replicate 4 Byte.x00.
Proof.
  unfold build_punch_packet, resize. set (p := magic ++ _).
  assert (Hl : length p = 60%nat).
  { unfold p. by rewrite !length_app, !length_take, !length_arr_bytes. }
  rewrite Hl. rewrite take_ge by (rewrite Hl; unfold PUNCH_PACKET_SIZE; lia).
  unfold p. by rewrite <-!app_assoc.
Qed.
(** A punch packet is valid for every peer that shares the sender's first 28 bytes. *)
Lemma valid_punch_packet target peer m :
  is_valid_punch_response (resize PUNCH_PACKET_SIZE (build_punch_packet target m)) peer = true ↔
  take 28 (arr_bytes (local_id m)) = take 28 (arr_bytes peer).
Proof.
  assert (Hs : length (take 28 (arr_bytes (local_id m))) = 28%nat) by by rewrite length_take, length_arr_bytes.
  rewrite resize_exact by apply length_resize. unfold is_valid_punch_response.
  rewrite (proj2 (Nat.ltb_ge _ _)) by (unfold build_punch_packet; rewrite length_resize; unfold PUNCH_PACKET_SIZE; lia).
  rewrite punch_packet_split, slice_head by done. rewrite bool_decide_true by done. cbn [andb].
  rewrite (slice_mid 4 32) by (rewrite ?Hs; done). by rewrite bool_decide_eq_true.
Qed.

(** ** A punch *)

(** Where an attempt's answer comes from, when it is valid; the first of [n] from [k]. *)
Definition answers (io : PunchIo) (remote : NodeID) (j : nat) : option SocketAddr :=
  match received (attempts io j) with
  | Packet data src =>
      if is_valid_punch_response (resize PUNCH_PACKET_SIZE data) remote then Some src else None
  | _ => None
  end.
Definition first_answer (io : PunchIo) (remote : NodeID) (k n : nat) : option SocketAddr :=
  head (omap (answers io remote) (seq k n)).

(** What a punch of [remote] leaves, with its result. *)
Definition punched_state (io : PunchIo) (remote : NodeID) (to : SocketAddr) (k n : nat) m
    (res : PunchResult) (m' : HolePunchManager) : Prop :=
  local_id m' = local_id m ∧ nat_type m' = nat_type m ∧ has_socket m' = has_socket m
  ∧ active m' = delete remote (active m)
  ∧ (∃ j, (j ≤ n)%nat ∧ sent m' = sent m ++ replicate j (to, build_punch_packet remote m))
  ∧ match first_answer io remote k n with
    | Some src => res = Success ∧ punched m' = <[remote := src]> (punched m)
    | None => (∃ text, res = DegradedToRelay text) ∧ punched m' = punched m
    end.
Lemma punch_loop_exact io remote to k n e m :
  let '(res, m') := punch_loop io remote to k n e m in punched_state io remote to k n m res m'.
Proof.
  revert k e m. induction n as [|n IH]; intros k e m; cbn [punch_loop].
  { split_and!; try done; [exists 0%nat; by rewrite app_nil_r|]. split; [by eexists|done]. }
  destruct (match send_error _ with None => _ | Some _ => _ end) as [e1 m1] eqn:E1.
  assert (Hm1 : local_id m1 = local_id m ∧ nat_type m1 = nat_type m ∧ has_socket m1 = has_socket m
    ∧ active m1 = active m ∧ punched m1 = punched m
    ∧ ∃ j, (j ≤ 1)%nat ∧ sent m1 = sent m ++ replicate j (to, build_punch_packet remote m)).
  { destruct (send_error (attempts io k)); injection E1 as _ <-; split_and!; try done;
      [exists 0%nat|exists 1%nat]; rewrite ?app_nil_r; split; (done || lia). }
  destruct Hm1 as (Hi & Hn & Hs & Ha & Hp & j1 & Hj1 & Hsent).
  assert (Hf : first_answer io remote k (S n) =
    match answers io remote k with Some src => Some src | None => first_answer io remote (S k) n end).
  { unfold first_answer. cbn [seq omap list_omap]. by destruct (answers io remote k). }
  assert (Hnext : ∀ e', answers io remote k = None →
    let '(res, m') := punch_loop io remote to (S k) n e' m1 in punched_state io remote to k (S n) m res m').
  { intros e' Hnone. specialize (IH (S k) e' m1). destruct (punch_loop _ _ _ _ _ _ m1) as [res m'].
    destruct IH as (Hi' & Hn' & Hs' & Ha' & (j & Hj & Hse') & Hres).
    unfold punched_state. rewrite Hf, Hnone. split_and!; try congruence.
    - exists (j1 + j)%nat. split; [lia|]. rewrite Hse', Hsent, <-app_assoc. f_equal.
      rewrite replicate_add. f_equal. unfold build_punch_packet. by rewrite Hi.
    - by rewrite Hp in Hres. }
  unfold answers in Hf, Hnext. destruct (received (attempts io k)) as [data src| |e']; [|by apply Hnext..].
  destruct (is_valid_punch_response _ _); [|by apply Hnext].
  unfold punched_state. rewrite Hf. cbn -[build_punch_packet]. rewrite Ha, Hp. split_and!; try done.
  exists j1. split; [lia|done].
Qed.

(** What a punch does.  Behind a symmetric NAT it degrades at once; a peer that is punched stays
    so; a socket that does not open is an error; none of these changes anything.  Otherwise at
    most three packets are sent, all to the given address, and the peer is punched exactly when
    the datagram that one of the three attempts receives names it as the sender: then it is
    recorded with the first such datagram's source, which need not be the given address.
    In every case the peer is no longer being punched when the call returns. *)
Lemma punch_hole_spec now io remote to m :
  let '(res, m') := punch_hole now io remote to m in
  if is_symmetric_nat m then m' = m ∧ ∃ text, res = Ok (DegradedToRelay text)
  else match punched m !! remote, (if has_socket m then Ok tt else opens io) with
  | Some _, _ => m' = m ∧ res = Ok Success
  | None, Err e => m' = m ∧ res = Err e
  | None, Ok _ => ∃ r, res = Ok r ∧ punched_state io remote to 0 3 m r m'
  end.
Proof.
  unfold punch_hole. destruct (is_symmetric_nat m); [by split; [|eexists]|].
  destruct (punched m !! remote) as [a|] eqn:Ep; [by rewrite bool_decide_true by by eexists|].
  rewrite bool_decide_false by by intros [].
  destruct (if has_socket m then Ok tt else opens io) as [u|e]; [|done].
  set (m0 := set_active _ m). pose proof (punch_loop_exact io remote to 0 PUNCH_RETRY_COUNT "" m0) as Hl.
  destruct (punch_loop _ _ _ _ _ _ m0) as [r m']. exists r. split; [done|].
  destruct Hl as (Hi & Hn & Hs & Ha & Hse & Hres). split_and!; try done.
  rewrite Ha. cbn. by rewrite delete_insert_eq.
Qed.

(** Two nodes that punch each other meet.  If each is not behind a symmetric NAT, has a socket and
    has not punched the other, and one of the datagrams each receives in its three attempts is
    a punch packet that the other built, both punches succeed.  The packet may have been built
    for any target: the name of the receiver in it is not looked at. *)
Theorem simultaneous_punch now1 now2 io1 io2 a b to_a to_b ta tb ja jb src_a src_b :
  nat_type a ≠ Symmetric → nat_type b ≠ Symmetric →
  punched a !! local_id b = None → punched b !! local_id a = None →
  opens io1 = Ok tt → opens io2 = Ok tt →
  (ja < 3)%nat → received (attempts io1 ja) = Packet (build_punch_packet ta b) src_b →
  (jb < 3)%nat → received (attempts io2 jb) = Packet (build_punch_packet tb a) src_a →
  let '(r1, a') := punch_hole now1 io1 (local_id b) to_b a in
  let '(r2, b') := punch_hole now2 io2 (local_id a) to_a b in
  r1 = Ok Success ∧ r2 = Ok Success
  ∧ is_Some (get_punched_addr (local_id b) a') ∧ is_Some (get_punched_addr (local_id a) b').
Proof.
  assert (H : ∀ now io to x y t j src, nat_type x ≠ Symmetric → punched x !! local_id y = None →
    opens io = Ok tt → (j < 3)%nat → received (attempts io j) = Packet (build_punch_packet t y) src →
    let '(r, x') := punch_hole now io (local_id y) to x in
    r = Ok Success ∧ is_Some (get_punched_addr (local_id y) x')).
  { intros now io to x y t j src Hn Hp Ho Hj Hr. pose proof (punch_hole_spec now io (local_id y) to x) as H.
    destruct (punch_hole now io (local_id y) to x) as [res x'].
    unfold is_symmetric_nat in H. rewrite bool_decide_false in H by done.
    replace (if has_socket x then Ok tt else opens io) with (Ok (E := string) tt) in H by by destruct (has_socket x).
    rewrite Hp in H.
    destruct H as (r & -> & _ & _ & _ & _ & _ & Hf). destruct (first_answer io (local_id y) 0 3) as [s|] eqn:Ef.
    - destruct Hf as [-> Hf]. split; [done|]. unfold get_punched_addr. rewrite Hf, lookup_insert_eq. by eexists.
    - exfalso. unfold first_answer in Ef. apply head_None in Ef.
      assert (Hin : src ∈ omap (answers io (local_id y)) (seq 0 3)).
      { apply list_elem_of_omap. exists j. split; [apply elem_of_seq; lia|]. unfold answers. rewrite Hr.
        by rewrite (proj2 (valid_punch_packet t (local_id y) y)). }
      rewrite Ef in Hin. by apply not_elem_of_nil in Hin. }
  intros Ha Hb Hpa Hpb Ho1 Ho2 Hja Hra Hjb Hrb.
  pose proof (H now1 io1 to_b a b ta ja src_b Ha Hpa Ho1 Hja Hra) as H1.
  pose proof (H now2 io2 to_a b a tb jb src_a Hb Hpb Ho2 Hjb Hrb) as H2.
  destruct (punch_hole now1 _ _ _ a) as [r1 a'], (punch_hole now2 _ _ _ b) as [r2 b'].
  destruct H1 as [-> ?], H2 as [-> ?]. done.
Qed.

(** ** Running a manager *)

Inductive Op :=
| Detect
| SetNat (t : NatType)
| Punch (now : Instant) (io : PunchIo) (remote : NodeID) (to : SocketAddr)
| Keepalive (e : option string) (peer : NodeID)
| RemovePeer (peer : NodeID)
| Clear.
Definition apply_op m (op : Op) : HolePunchManager :=
  match op with
  | Detect => (detect_nat_type m).2
  | SetNat t => set_nat_type t m
  | Punch now io remote to => (punch_hole now io remote to m).2
  | Keepalive e peer => (send_keepalive e peer m).2
  | RemovePeer peer => remove_peer peer m
  | Clear => clear m
  end.

Lemma apply_op_active op m : active m = ∅ → active (apply_op m op) = ∅.
Proof.
  intros Ha. destruct op as [|t|now io remote to|e' p|p|]; cbn [apply_op]; try done.
  - pose proof (punch_hole_spec now io remote to m) as H. destruct (punch_hole now io remote to m) as [r m'].
    cbn [snd]. destruct (is_symmetric_nat m); [by destruct H as [-> _]|].
    destruct (punched m !! remote); [by destruct H as [-> _]|].
    destruct (if has_socket m then Ok tt else opens io); [|by destruct H as [-> _]].
    destruct H as (_ & _ & _ & _ & _ & -> & _). by rewrite Ha, delete_empty.
  - unfold send_keepalive. destruct (punched m !! p); [|done]. destruct (has_socket m); [|done]. by destruct e'.
  - cbn. by rewrite Ha, delete_empty.
Qed.
Lemma apply_op_socket op m : has_socket (apply_op m op) = has_socket m.
Proof.
  destruct op as [|t|now io remote to|e' p|p|]; cbn [apply_op]; try done.
  - pose proof (punch_hole_spec now io remote to m) as H. destruct (punch_hole now io remote to m) as [r m'].
    cbn [snd]. destruct (is_symmetric_nat m); [by destruct H as [-> _]|].
    destruct (punched m !! remote); [by destruct H as [-> _]|].
    destruct (if has_socket m then Ok tt else opens io); [|by destruct H as [-> _]].
    by destruct H as (_ & _ & _ & _ & -> & _).
  - unfold send_keepalive. destruct (punched m !! p); [|done]. destruct (has_socket m) eqn:E; [|done]. by destruct e'.
Qed.

(** Holes are not kept open.  A manager that was not given a socket opens one for each punch,
    which is gone when the punch returns: after any operations, sending a keepalive to any peer
    fails, though peers are recorded as punched. *)
Theorem unbound_keepalive_fails id ops e peer :
  is_ok (send_keepalive e peer (foldl apply_op (new id) ops)).1 = false.
Proof.
  assert (H : has_socket (foldl apply_op (new id) ops) = false).
  { assert (H0 : has_socket (new id) = false) by done. revert H0. generalize (new id).
    induction ops as [|op ops IH]; intros x Hx; [done|]. apply IH. by rewrite apply_op_socket. }
  unfold send_keepalive. rewrite H. by destruct (punched _ !! peer).
Qed.

(** One step adds a peer only by an answer. *)
Lemma apply_op_punched op m peer src :
  punched (apply_op m op) !! peer = Some src →
  punched m !! peer = Some src
  ∨ ∃ now io to j, op = Punch now io peer to ∧ (j < 3)%nat ∧ answers io peer j = Some src.
Proof.
  destruct op as [|t|now io remote to|e' p|p|]; cbn [apply_op]; try by left.
  - pose proof (punch_hole_spec now io remote to m) as H. destruct (punch_hole now io remote to m) as [r m'].
    cbn [snd]. destruct (is_symmetric_nat m); [destruct H as [-> _]; by left|].
    destruct (punched m !! remote); [destruct H as [-> _]; by left|].
    destruct (if has_socket m then Ok tt else opens io); [|destruct H as [-> _]; by left].
    destruct H as (r0 & _ & _ & _ & _ & _ & _ & Hf). destruct (first_answer io remote 0 3) as [s|] eqn:Ef.
    + destruct Hf as [_ ->]. intros [[Er Es]|[_ ?]]%lookup_insert_Some; [|by left]. right. subst remote s.
      apply head_Some_elem_of, list_elem_of_omap in Ef as (j & Hj & Ha).
      apply elem_of_seq in Hj. exists now, io, to, j. split_and!; [done|lia|done].
    + destruct Hf as [_ ->]. by left.
  - unfold send_keepalive. destruct (punched m !! p); [|by left]. destruct (has_socket m); [|by left].
    destruct e'; by left.
  - cbn. intros [_ ?]%lookup_delete_Some. by left.
Qed.

(** A recorded peer has answered.  After any operations, with or without a socket of its own, no
    punch is active, and every peer that is recorded as punched was punched by one of the
    operations, one of whose three receives got a datagram that names the peer as its sender,
    from the recorded address. *)
Theorem punched_peers_answered m0 ops :
  active m0 = ∅ → punched m0 = ∅ →
  let m := foldl apply_op m0 ops in
  active_punches m = 0%nat
  ∧ ∀ peer src, get_punched_addr peer m = Some src →
      ∃ now io to j, Punch now io peer to ∈ ops ∧ (j < 3)%nat ∧ answers io peer j = Some src.
Proof.
  intros Ha Hp m. split.
  - unfold active_punches, m. apply map_size_empty_iff. clear Hp m. revert m0 Ha.
    induction ops as [|op ops IH]; intros x Ha; [done|]. apply IH. by apply apply_op_active.
  - unfold m. clear Ha m. intros peer src.
    assert (H : ∀ x, punched (foldl apply_op x ops) !! peer = Some src → punched x !! peer = Some src
      ∨ ∃ now io to j, Punch now io peer to ∈ ops ∧ (j < 3)%nat ∧ answers io peer j = Some src).
    { induction ops as [|op ops IH]; intros x Hx; [by left|].
      destruct (IH _ Hx) as [Hy|(now & io & to & j & Hin & ?)].
      - apply apply_op_punched in Hy as [|(now & io & to & j & -> & ?)]; [by left|].
        right. exists now, io, to, j. split; [left|done].
      - right. exists now, io, to, j. split; [by right|done]. }
    intros Hs. apply H in Hs as [Hs|]; [|done]. by rewrite Hp, lookup_empty in Hs.
Qed.

(** ** Witnesses *)

Definition node_a : HolePunchManager := new zero32.
Definition node_b : HolePunchManager := new one_high.
Definition addr_1 : SocketAddr := mkAddr (V4 0x0A000001) 5000.
Definition hears (m : HolePunchManager) : PunchIo :=
  mkIo (Ok tt) (λ _, mkAttempt None (Packet (build_punch_packet zero32 m) addr_1)).
Lemma simultaneous_punch_witness :
  (punch_hole 0 (hears node_b) one_high addr_1 node_a).1 = Ok Success.
Proof.
  pose proof (simultaneous_punch 0 0 (hears node_b) (hears node_a) node_a node_b addr_1 addr_1 zero32 zero32
    0 0 addr_1 addr_1) as H.
  do 4 (specialize (H ltac:(done))). specialize (H eq_refl eq_refl ltac:(lia) eq_refl ltac:(lia) eq_refl).
  change (local_id node_b) with one_high in H.
  destruct (punch_hole 0 (hears node_b) one_high addr_1 node_a) as [r1 a'].
  destruct (punch_hole 0 (hears node_a) _ addr_1 node_b) as [r2 b']. exact (proj1 H).
Defined.
Lemma punched_peers_answered_witness :
  ∃ io to, Punch 0 io one_high to ∈ [Punch 0 (hears node_b) one_high addr_1] ∧ answers io one_high 0 = Some addr_1.
Proof.
  destruct (punched_peers_answered node_a [Punch 0 (hears node_b) one_high addr_1] eq_refl eq_refl) as [_ H].
  assert (Hs : get_punched_addr one_high (foldl apply_op node_a [Punch 0 (hears node_b) one_high addr_1]) = Some addr_1)
    by (vm_compute; reflexivity).
  destruct (H one_high addr_1 Hs) as (now & io & to & j & Hin & _). exists (hears node_b), addr_1.
  split; [left|reflexivity].
Defined.
