(* ===== verification/Bootstrap.v ===== *)
(** * Bootstrap: entry nodes of the network

    Models crates/vpn/src/vpn/bootstrap.rs.  serde_json is the class
    [BootstrapJson]: what the configuration reads from the parsed value, each
    field as the accessor gives it.  Log messages are not modelled. *)
From Stdlib Require Import Ascii.
From S2P Require Import Prelude Text Lines Identity.

Definition DEFAULT_BOOTSTRAP_PORT : Z := 9876.
Definition BOOTSTRAP_TIMEOUT_SECS : Z := 10.

Inductive BootstrapError :=
| ConfigError (msg : string) | ConnectionFailed (msg : string) | HandshakeFailed (msg : string)
| Timeout | AllNodesUnreachable.
Definition BootstrapError_display (e : BootstrapError) : string :=
  match e with
  | ConfigError msg => "config error: " +:+ msg
  | ConnectionFailed msg => "connection failed: " +:+ msg
  | HandshakeFailed msg => "handshake failed: " +:+ msg
  | Timeout => "bootstrap timeout"
  | AllNodesUnreachable => "all bootstrap nodes unreachable"
  end%string.

Record BootstrapNode := mkBootNode { host : string; boot_port : Z; priority : Z }.
Module BootstrapNode.
Definition new (h : string) (p : Z) : BootstrapNode := mkBootNode h p 0.
Definition with_priority (h : string) (p prio : Z) : BootstrapNode := mkBootNode h p prio.
Definition addr (n : BootstrapNode) : string := (host n +:+ ":" +:+ pretty (boot_port n))%string.
End BootstrapNode.

(** ** Configuration *)

(** One element of [value["bootstrap"]["nodes"]]: ["host"] as a string, ["port"] and
    ["priority"] as u64. *)
Record JsonNode := mkJsonNode { json_host : option string; json_port : option Z; json_priority : option Z }.
(** [from_str::<Value>], and the array of nodes when there is one. *)
Class BootstrapJson := json_nodes : string → result (option (list JsonNode)) string.

Record BootstrapConfig := mkConfig { boot_nodes : list BootstrapNode; timeout : Duration }.
Definition cmp_priority (a b : BootstrapNode) : comparison := Z.compare (priority a) (priority b).

Definition newline : ascii := ascii_of_nat 10.
Definition quote : ascii := ascii_of_nat 34.
(** [s.lines()]; a carriage return stays, which [trim] removes as it does all white space. *)
Definition lines (s : string) : list string :=
  let ps := splitn (S (String.length s)) newline s in
  if decide (last ps = Some EmptyString) then removelast ps else ps.
(** [s.trim_start_matches(p)] of a text [p] that is not empty; [fuel] bounds how often. *)
Fixpoint strip_prefixes (fuel : nat) (p s : string) : string :=
  match fuel with
  | O => s
  | S fuel =>
      if starts_with p s
      then strip_prefixes fuel p (String.substring (String.length p) (String.length s - String.length p) s)
      else s
  end.
Definition trim_start_text (p s : string) : string := strip_prefixes (String.length s) p s.
(** [s.trim_matches(c)] *)
Definition rev_string (s : string) : string := String.string_of_list_ascii (rev (String.list_ascii_of_string s)).
Definition trim_matches (c : ascii) (s : string) : string :=
  rev_string (trim_start c (rev_string (trim_start c s))).

Module BootstrapConfig.
Definition new : BootstrapConfig := mkConfig [] (from_secs BOOTSTRAP_TIMEOUT_SECS).
(** The loop over the array; [i] is the element's index. *)
Fixpoint read_nodes (i : nat) (ns : list JsonNode) : result (list BootstrapNode) BootstrapError :=
  match ns with
  | [] => Ok []
  | n :: ns =>
      let? h := ok_or (json_host n) (ConfigError "missing host") in
      let p := wrap 16 (default DEFAULT_BOOTSTRAP_PORT (json_port n)) in
      let prio := wrap 32 (default (Z.of_nat i) (json_priority n)) in
      let? rest := read_nodes (S i) ns in Ok (BootstrapNode.with_priority h p prio :: rest)
  end.
Definition from_json `{BootstrapJson} (json : string) : result BootstrapConfig BootstrapError :=
  let? value := map_err ConfigError (json_nodes json) in
  let? ns := match value with Some ns => read_nodes 0 ns | None => Ok [] end in
  Ok (mkConfig (sort_by cmp_priority ns) (timeout new)).

(** One line: the nodes so far, the host and the port that are read. *)
Definition yaml_line (st : list BootstrapNode * option string * Z) (line : string)
    : list BootstrapNode * option string * Z :=
  let '(ns, current_host, current_port) := st in
  let line := trim line in
  if starts_with "- host:" line then
    let '(ns, current_port) :=
      match current_host with
      | Some h => (ns ++ [BootstrapNode.new h current_port], DEFAULT_BOOTSTRAP_PORT)
      | None => (ns, current_port)
      end in
    (ns, Some (trim_matches quote (trim (trim_start_text "- host:" line))), current_port)
  else if starts_with "port:" line then
    (ns, current_host,
     match parse_uint 16 (trim (trim_start_text "port:" line)) with Some p => p | None => current_port end)
  else (ns, current_host, current_port).
Definition from_yaml_simple (yaml : string) : result BootstrapConfig BootstrapError :=
  let '(ns, h, p) := foldl yaml_line ([], None, DEFAULT_BOOTSTRAP_PORT) (lines yaml) in
  Ok (mkConfig (ns ++ match h with Some h => [BootstrapNode.new h p] | None => [] end) (timeout new)).
Definition add_node (n : BootstrapNode) (c : BootstrapConfig) : BootstrapConfig :=
  mkConfig (sort_by cmp_priority (boot_nodes c ++ [n])) (timeout c).
Definition node_count (c : BootstrapConfig) : nat := length (boot_nodes c).
End BootstrapConfig.

(** ** The manager *)

Record KnownNode := mkKnown {
  known_id : NodeID; known_name : string; known_addr : string; discovered_at : Instant; source : string }.
Record BootstrapManager := mkBootstrap {
  boot_id : NodeID; boot_name : string; config : BootstrapConfig;
  known_nodes : gmap NodeID KnownNode; connected_bootstrap : list string }.
Module BootstrapManager.
Implicit Types m : BootstrapManager.
Definition new (id : NodeID) (name : string) (c : BootstrapConfig) : BootstrapManager :=
  mkBootstrap id name c ∅ [].
(** A placeholder in the source as well: it connects to nothing. *)
Definition connect_to_bootstrap_node (_ : BootstrapNode) m : result (list KnownNode) BootstrapError := Ok [].
Definition set_connected (l : list string) m : BootstrapManager :=
  mkBootstrap (boot_id m) (boot_name m) (config m) (known_nodes m) l.
Definition set_known (k : gmap NodeID KnownNode) m : BootstrapManager :=
  mkBootstrap (boot_id m) (boot_name m) (config m) k (connected_bootstrap m).
Fixpoint try_nodes (ns : list BootstrapNode) (discovered : list KnownNode) m
    : list KnownNode * BootstrapManager :=
  match ns with
  | [] => (discovered, m)
  | n :: ns =>
      match connect_to_bootstrap_node n m with
      | Ok found =>
          try_nodes ns (discovered ++ found) (set_connected (connected_bootstrap m ++ [BootstrapNode.addr n]) m)
      | Err _ => try_nodes ns discovered m
      end
  end.
Definition bootstrap m : result (list KnownNode) BootstrapError * BootstrapManager :=
  match boot_nodes (config m) with
  | [] => (Err (ConfigError "no bootstrap nodes configured"), m)
  | ns =>
      let '(discovered, m) := try_nodes ns [] m in
      (match discovered with
       | [] => match boot_nodes (config m) with [] => Ok discovered | _ => Err AllNodesUnreachable end
       | _ => Ok discovered
       end, m)
  end.
Definition add_known_node (n : KnownNode) m : BootstrapManager := set_known (<[known_id n := n]> (known_nodes m)) m.
Definition remove_known_node (id : NodeID) m : option KnownNode * BootstrapManager :=
  (known_nodes m !! id, set_known (delete id (known_nodes m)) m).
Definition get_known_node (id : NodeID) m : option KnownNode := known_nodes m !! id.
Definition get_all_known_nodes m : list KnownNode := (map_to_list (known_nodes m)).*2.
Definition known_node_count m : nat := size (known_nodes m).
(** Only logs. *)
Definition broadcast_node_list m : result unit BootstrapError := Ok tt.
Definition connected_bootstrap_nodes m : list string := connected_bootstrap m.
Definition is_bootstrapped m : bool := negb (bool_decide (connected_bootstrap m = [])).
End BootstrapManager.

(** ** Requests *)

Inductive BootstrapRequestType := GetNodeList | ReportNode | NodeListResponse.
Module BootstrapRequestType.
Definition from_u8 (b : Z) : option BootstrapRequestType :=
  match b with 1 => Some GetNodeList | 2 => Some ReportNode | 3 => Some NodeListResponse | _ => None end.
Definition to_u8 (t : BootstrapRequestType) : Z :=
  match t with GetNodeList => 1 | ReportNode => 2 | NodeListResponse => 3 end.
End BootstrapRequestType.
Record BootstrapRequest := mkRequest {
  request_type : BootstrapRequestType; sender_id : NodeID; sender_name : string; timestamp : Z }.
Module BootstrapRequest.
Definition to_bytes (r : BootstrapRequest) : list byte :=
  let name := as_bytes (sender_name r) in
  byte_of_Z (BootstrapRequestType.to_u8 (request_type r)) :: arr_bytes (sender_id r)
    ++ byte_of_Z (len name) :: name ++ be_bytes 8 (timestamp r).
Definition from_bytes (data : list byte) : option BootstrapRequest :=
  if (length data <? 1 + 32 + 1 + 8)%nat then None else
  t ← data !! 0%nat; t ← BootstrapRequestType.from_u8 (Z_of_byte t);
  id ← to_arr32 (slice 1 33 data);
  n ← data !! 33%nat; let n := Z.to_nat (Z_of_byte n) in
  if (length data <? 34 + n + 8)%nat then None else
  name ← from_utf8 (slice 34 (34 + n) data);
  Some (mkRequest t id name (of_be (slice (34 + n) (42 + n) data))).
End BootstrapRequest.

(** ** Configurations are ordered *)

Section Properties.
Context `{BootstrapJson}.

Abbreviation ordered := (StronglySorted (cmp_le cmp_priority)).
Lemma cmp_priority_le a b : cmp_le cmp_priority a b ↔ priority a <= priority b.
Proof. unfold cmp_le, cmp_priority. by rewrite Z.compare_le_iff. Qed.
Lemma sort_priority_sorted l : ordered (sort_by cmp_priority l).
Proof.
  apply sort_by_sorted.
  - intros x y z. rewrite !cmp_priority_le. lia.
  - intros x y Hxy. apply cmp_priority_le. unfold cmp_priority in Hxy. apply Z.compare_gt_iff in Hxy. lia.
Qed.
Lemma sort_insert_first x l :
  Forall (λ y, priority x <= priority y) l → sort_insert cmp_priority x l = x :: l.
Proof.
  destruct l as [|y l]; intros Hx; [done|]. apply Forall_cons in Hx as [Hx _]. cbn [sort_insert].
  unfold cmp_priority. destruct (Z.compare_spec (priority x) (priority y)); [done..|lia].
Qed.
(** Sorting with one more node at the end inserts it after its equals. *)
Lemma sort_snoc n l :
  ordered l → sort_by cmp_priority (l ++ [n]) =
    filter (λ x, priority x <= priority n) l ++ n :: filter (λ x, priority n < priority x) l.
Proof.
  induction l as [|x l IH]; intros Hs; [done|]. apply StronglySorted_inv in Hs as [Hs Hx].
  assert (Hx' : Forall (λ y, priority x <= priority y) l).
  { eapply Forall_impl; [exact Hx|]. intros y. by rewrite cmp_priority_le. }
  cbn [app sort_by foldr]. fold (sort_by cmp_priority (l ++ [n])). rewrite IH by done.
  rewrite !filter_cons. destruct (decide (priority x <= priority n)) as [Hn|Hn].
  - rewrite (decide_False (P := priority n < priority x)) by lia. rewrite sort_insert_first; [done|].
    apply Forall_app. split; [by apply Forall_filter_2|]. constructor; [lia|]. by apply Forall_filter_2.
  - rewrite (decide_True (P := priority n < priority x)) by lia.
    assert (E : filter (λ x, priority x <= priority n) l = []).
    { apply list_filter_none. eapply Forall_impl; [exact Hx'|]. cbn. lia. }
    assert (E' : filter (λ x, priority n < priority x) l = l).
    { apply list_filter_all. eapply Forall_impl; [exact Hx'|]. cbn. lia. }
    rewrite E, E'. cbn [app sort_insert]. unfold cmp_priority at 1.
    destruct (Z.compare_spec (priority x) (priority n)); [lia..|]. by rewrite sort_insert_first.
Qed.

(** The configurations that the program can make. *)
Inductive built : BootstrapConfig → Prop :=
| built_new : built BootstrapConfig.new
| built_json json c : BootstrapConfig.from_json json = Ok c → built c
| built_yaml yaml c : BootstrapConfig.from_yaml_simple yaml = Ok c → built c
| built_add n c : built c → built (BootstrapConfig.add_node n c).
Lemma yaml_line_priority st line :
  Forall (λ n, priority n = 0) st.1.1 → Forall (λ n, priority n = 0) (BootstrapConfig.yaml_line st line).1.1.
Proof.
  destruct st as [[ns h] p]. intros Hs. unfold BootstrapConfig.yaml_line. destruct (starts_with _ _).
  - destruct h; [|done]. apply Forall_app. split; [done|by constructor].
  - by destruct (starts_with _ _).
Qed.
Lemma yaml_priority yaml c :
  BootstrapConfig.from_yaml_simple yaml = Ok c → Forall (λ n, priority n = 0) (boot_nodes c).
Proof.
  unfold BootstrapConfig.from_yaml_simple.
  assert (Hl : ∀ ls st, Forall (λ n, priority n = 0) st.1.1 →
    Forall (λ n, priority n = 0) (foldl BootstrapConfig.yaml_line st ls).1.1).
  { induction ls as [|x ls IH]; intros st Hst; [done|]. apply IH. by apply yaml_line_priority. }
  specialize (Hl (lines yaml) ([], None, DEFAULT_BOOTSTRAP_PORT) (Forall_nil_2 _)).
  destruct (foldl _ _ _) as [[ns h] p]. intros [= <-]. apply Forall_app. split; [done|].
  destruct h; [by constructor|constructor].
Qed.

(** Entry nodes are tried in the order of their priority.  Every configuration that the program
    makes, from JSON, from YAML or node by node, is sorted by priority; and adding a node
    keeps the order of the others and puts it after those of the same priority. *)
Theorem config_by_priority c :
  built c →
  ordered (boot_nodes c)
  ∧ ∀ n, boot_nodes (BootstrapConfig.add_node n c) =
      filter (λ x, priority x <= priority n) (boot_nodes c) ++
      n :: filter (λ x, priority n < priority x) (boot_nodes c).
Proof.
  intros Hb. assert (Hs : ordered (boot_nodes c)).
  { induction Hb as [|json c Hj|yaml c Hy|n c _ _].
    - constructor.
    - unfold BootstrapConfig.from_json in Hj. destruct (json_nodes json) as [v|]; [|done].
      cbn [map_err result_bind] in Hj.
      destruct (match v with Some ns => _ | None => _ end) as [ns|]; [|done]. injection Hj as <-.
      apply sort_priority_sorted.
    - apply yaml_priority in Hy. induction Hy as [|x l Hx Hl IH]; [constructor|]. constructor; [done|].
      eapply Forall_impl; [exact Hl|]. intros y Hy0. apply cmp_priority_le. cbn in Hx, Hy0. lia.
    - apply sort_priority_sorted. }
  split; [done|]. intros n. by apply sort_snoc.
Qed.
End Properties.

(** ** Bootstrapping *)

Lemma try_nodes_all ns l m :
  BootstrapManager.try_nodes ns l m =
    (l, BootstrapManager.set_connected (connected_bootstrap m ++ (BootstrapNode.addr <$> ns)) m).
Proof.
  revert l m. induction ns as [|n ns IH]; intros l m; cbn [BootstrapManager.try_nodes fmap list_fmap].
  - rewrite app_nil_r. by destruct m.
  - cbn [BootstrapManager.connect_to_bootstrap_node]. rewrite IH, app_nil_r. cbn. by rewrite <-app_assoc.
Qed.

(** Bootstrapping always fails and always counts as done.  With entry nodes configured, the call
    answers that all are unreachable, since connecting to one finds no nodes; but it has
    recorded every one of them as connected, so the manager says that it is bootstrapped, and
    each further call records all of them again.  The known nodes are as they were. *)
Theorem bootstrap_fails_connected m k :
  boot_nodes (config m) ≠ [] →
  let m' := Nat.iter (S k) (λ m, (BootstrapManager.bootstrap m).2) m in
  (BootstrapManager.bootstrap m').1 = Err AllNodesUnreachable
  ∧ BootstrapManager.is_bootstrapped m' = true
  ∧ BootstrapManager.connected_bootstrap_nodes m' =
      connected_bootstrap m ++ mjoin (replicate (S k) (BootstrapNode.addr <$> boot_nodes (config m)))
  ∧ known_nodes m' = known_nodes m.
Proof.
  intros Hne.
  assert (Hstep : ∀ x, boot_nodes (config x) ≠ [] → BootstrapManager.bootstrap x =
    (Err AllNodesUnreachable,
     BootstrapManager.set_connected (connected_bootstrap x ++ (BootstrapNode.addr <$> boot_nodes (config x))) x)).
  { intros x Hx. unfold BootstrapManager.bootstrap. destruct (boot_nodes (config x)) as [|n ns] eqn:E; [done|].
    rewrite try_nodes_all. cbn [config BootstrapManager.set_connected]. by rewrite E. }
  assert (Hi : ∀ j x, x = Nat.iter j (λ m, (BootstrapManager.bootstrap m).2) m →
    config x = config m ∧ known_nodes x = known_nodes m
    ∧ connected_bootstrap x =
        connected_bootstrap m ++ mjoin (replicate j (BootstrapNode.addr <$> boot_nodes (config m)))).
  { induction j as [|j IH]; intros x ->; [by rewrite app_nil_r|].
    destruct (IH _ eq_refl) as (Hc & Hk & Hl). rewrite Nat.iter_succ. set (x := Nat.iter j _ m) in *.
    rewrite Hstep by (by rewrite Hc). cbn [snd BootstrapManager.set_connected config known_nodes connected_bootstrap].
    rewrite Hc, Hl, Hk. split_and!; [done..|]. rewrite <-app_assoc. f_equal.
    rewrite replicate_S_end. rewrite join_app. cbn. by rewrite app_nil_r. }
  intros m'. destruct (Hi (S k) m' eq_refl) as (Hc & Hk & Hl).
  rewrite Hstep by (by rewrite Hc). split_and!; [done| |done|done].
  unfold BootstrapManager.is_bootstrapped. rewrite bool_decide_false; [done|]. rewrite Hl.
  destruct (boot_nodes (config m)); [done|]. cbn. by intros [_ ?]%app_eq_nil.
Qed.

(** ** Requests *)

Lemma request_parts t id n name ts :
  length name = n → (n < 256)%nat → length ts = 8%nat →
  BootstrapRequest.from_bytes (byte_of_Z (BootstrapRequestType.to_u8 t) :: arr_bytes id ++ byte_of_Z (Z.of_nat n) :: name ++ ts)
  = s ← from_utf8 name; Some (mkRequest t id s (of_be ts)).
Proof.
  intros Hn Hlt Ht.
  unfold BootstrapRequest.from_bytes. set (b := byte_of_Z (BootstrapRequestType.to_u8 t)).
  set (c := byte_of_Z (Z.of_nat n)). set (data := b :: _).
  assert (Hd : data = ([b] ++ arr_bytes id ++ [c]) ++ name ++ ts) by (unfold data; by rewrite <-!app_assoc).
  assert (Hl : length data = (34 + n + 8)%nat) by (rewrite Hd, !length_app, length_arr_bytes; cbn; lia).
  assert (Hc : Z.to_nat (Z_of_byte c) = n) by (unfold c; rewrite Z_of_byte_of_Z, Z.mod_small; lia).
  rewrite (proj2 (Nat.ltb_ge _ _)) by lia.
  assert (H0 : data !! 0%nat = Some b) by done.
  assert (H33 : data !! 33%nat = Some c).
  { rewrite Hd. rewrite lookup_app_l by (rewrite !length_app, length_arr_bytes; cbn; lia).
    rewrite lookup_app_r by (cbn; lia). rewrite lookup_app_r by (rewrite length_arr_bytes; cbn; lia).
    by rewrite length_arr_bytes. }
  assert (Hid : slice 1 33 data = arr_bytes id).
  { rewrite Hd, <-!app_assoc. apply slice_mid; [done|]. by rewrite length_arr_bytes. }
  assert (Hp : length ([b] ++ arr_bytes id ++ [c]) = 34%nat) by by rewrite !length_app, length_arr_bytes.
  assert (Hname : slice 34 (34 + n) data = name).
  { rewrite Hd. apply slice_mid; [by rewrite Hp|lia]. }
  assert (Hts : slice (34 + n) (42 + n) data = ts).
  { rewrite Hd, (app_assoc _ name ts). apply slice_tail; [rewrite length_app, Hp; lia|lia]. }
  rewrite H0. cbn [mbind option_bind].
  assert (Hty : BootstrapRequestType.from_u8 (Z_of_byte b) = Some t).
  { unfold b. rewrite Z_of_byte_of_Z. by destruct t. }
  rewrite Hty. cbn [mbind option_bind]. rewrite Hid, to_arr32_arr_bytes. cbn [mbind option_bind].
  rewrite H33. cbn [mbind option_bind]. rewrite Hc. rewrite (proj2 (Nat.ltb_ge _ _)) by lia.
  by rewrite Hname, Hts.
Qed.

(** Requests read back.  A request is read back from its bytes exactly when the name has fewer than
    256 bytes: the length of a longer name is written modulo 256, and what is read, if
    anything, has another name. *)
Theorem request_roundtrip r :
  is_str (sender_name r) → fits 64 (timestamp r) →
  BootstrapRequest.from_bytes (BootstrapRequest.to_bytes r) = Some r ↔ (length (as_bytes (sender_name r)) < 256)%nat.
Proof.
  intros Hs Hf. destruct r as [t id name ts]. cbn [sender_name timestamp] in *.
  unfold BootstrapRequest.to_bytes. cbn [request_type sender_id sender_name timestamp]. split.
  - intros H. unfold BootstrapRequest.from_bytes in H.
    set (data := _ :: _) in H. destruct (length data <? _)%nat; [done|].
    destruct (data !! 0%nat) as [b|]; [|done]. cbn [mbind option_bind] in H.
    destruct (BootstrapRequestType.from_u8 _) as [t'|]; [|done]. cbn [mbind option_bind] in H.
    destruct (to_arr32 _) as [id'|]; [|done]. cbn [mbind option_bind] in H.
    destruct (data !! 33%nat) as [c|] eqn:Ec; [|done]. cbn [mbind option_bind] in H.
    destruct (Nat.ltb_spec (length data) (34 + Z.to_nat (Z_of_byte c) + 8)); [done|].
    destruct (from_utf8 _) as [name'|] eqn:En; [|done]. injection H as _ _ -> _.
    unfold from_utf8 in En. destruct (utf8_valid _); [|done]. injection En as En.
    rewrite <-En. unfold as_bytes. rewrite String.list_byte_of_string_of_list_byte, length_slice by lia.
    pose proof (Z_of_byte_range c). lia.
  - intros Hl. rewrite request_parts by (done || apply length_be_bytes). rewrite from_utf8_as_bytes by done. cbn [mbind option_bind].
    by rewrite of_be_be_bytes_id.
Qed.

(** ** Witnesses *)

#[export] Instance toy_boot_json : BootstrapJson := λ s,
  if String.eqb s "two" then Ok (Some [mkJsonNode (Some "far") None (Some 7); mkJsonNode (Some "near") (Some 65537) None])
  else Err "expected value"%string.
Definition two_entries : BootstrapConfig :=
  mkConfig [BootstrapNode.with_priority "near" 1 1; BootstrapNode.with_priority "far" 9876 7] (from_secs 10).
Lemma config_by_priority_witness :
  BootstrapConfig.from_json "two" = Ok two_entries
  ∧ boot_nodes (BootstrapConfig.add_node (BootstrapNode.new "first" 1) two_entries)
    = BootstrapNode.new "first" 1 :: boot_nodes two_entries.
Proof.
  assert (E : BootstrapConfig.from_json "two" = Ok two_entries) by reflexivity.
  split; [exact E|]. exact (proj2 (config_by_priority two_entries (built_json "two" _ E)) (BootstrapNode.new "first" 1)).
Defined.
Example yaml_example :
  BootstrapConfig.from_yaml_simple (join (String newline "") ["bootstrap:"; "  - host: a.example"; "    port: 12"; "  - host: b"])
  = Ok (mkConfig [BootstrapNode.new "a.example" 12; BootstrapNode.new "b" 9876] (from_secs 10)).
Proof. vm_compute. reflexivity. Qed.
Lemma bootstrap_fails_connected_witness :
  (BootstrapManager.bootstrap (BootstrapManager.bootstrap (BootstrapManager.new zero32 "n" two_entries)).2).1
    = Err AllNodesUnreachable.
Proof. exact (proj1 (bootstrap_fails_connected (BootstrapManager.new zero32 "n" two_entries) 0 ltac:(discriminate))). Defined.
Lemma request_roundtrip_witness :
  BootstrapRequest.from_bytes (BootstrapRequest.to_bytes (mkRequest ReportNode zero32 "pika" 5))
    = Some (mkRequest ReportNode zero32 "pika" 5).
Proof.
  apply (proj2 (request_roundtrip (mkRequest ReportNode zero32 "pika" 5) eq_refl ltac:(split; vm_compute; congruence))).
  cbn. lia.
Defined.
