(* ===== verification/Stats.v ===== *)
(** * Stats: traffic statistics and the token bucket

    Models crates/vpn/src/vpn/stats.rs.  Clock readings are arguments; rates,
    peaks and tokens are f64 (Float.v), counters u64 that wrap. *)
From Stdlib Require Import Floats.SpecFloat.
From S2P Require Import Prelude Text Float.

Definition DEFAULT_RATE_LIMIT_BYTES_PER_SEC : Z := 1048576.
Definition DEFAULT_BUCKET_CAPACITY : Z := 10485760.
Definition RATE_WINDOW_SECS : Z := 5.

(** ** Statistics *)

Record TrafficSummary := mkSummary {
  sum_tx : Z; sum_rx : Z; tx_rate : f64; rx_rate : f64; sum_tx_peak : f64; sum_rx_peak : f64; sum_connections : Z }.
Module TrafficSummary.
Definition total_bytes (s : TrafficSummary) : Z := wrap 64 (sum_tx s + sum_rx s).
Definition format_bytes (bytes : Z) : string :=
  (if (1073741824 <=? bytes)%Z then format_fixed 2 (fdiv (f64_of_Z bytes) (f64_of_Z 1073741824)) +:+ " GiB"
   else if (1048576 <=? bytes)%Z then format_fixed 2 (fdiv (f64_of_Z bytes) (f64_of_Z 1048576)) +:+ " MiB"
   else if (1024 <=? bytes)%Z then format_fixed 2 (fdiv (f64_of_Z bytes) (f64_of_Z 1024)) +:+ " KiB"
   else pretty bytes +:+ " B")%string.
Definition format_rate (r : f64) : string :=
  (if fge r (f64_of_Z 1073741824) then format_fixed 2 (fdiv r (f64_of_Z 1073741824)) +:+ " GiB/s"
   else if fge r (f64_of_Z 1048576) then format_fixed 2 (fdiv r (f64_of_Z 1048576)) +:+ " MiB/s"
   else if fge r (f64_of_Z 1024) then format_fixed 2 (fdiv r (f64_of_Z 1024)) +:+ " KiB/s"
   else format_fixed 2 r +:+ " B/s")%string.
End TrafficSummary.

Record RateSample := mkSample { sampled_at : Instant; sampled : Z }.
Record TrafficStats := mkTraffic {
  total_tx : Z; total_rx : Z; tx_peak : f64; rx_peak : f64; tx_samples : list RateSample;
  rx_samples : list RateSample; connection_count : Z }.
Module TrafficStats.
Implicit Types s : TrafficStats.
Definition new : TrafficStats := mkTraffic 0 0 (f64_of_Z 0) (f64_of_Z 0) [] [] 0.
Definition cleanup_old_samples (now : Instant) (l : list RateSample) : list RateSample :=
  filter (λ x, now - from_secs RATE_WINDOW_SECS <= sampled_at x) l.
Definition calculate_rate (l : list RateSample) : f64 :=
  match l, last l with
  | x :: _ :: _, Some y =>
      let d := duration_since (sampled_at y) (sampled_at x) in
      if d <? from_millis 100 then f64_of_Z 0
      else fdiv (f64_of_Z (foldl (λ acc z, wrap 64 (acc + sampled z)) 0 l)) (as_secs_f64 d)
  | _, _ => f64_of_Z 0
  end.
(** The samples and the peak after a record; the clock is read for the sample and for the cleaning. *)
Definition sample (now later : Instant) (bytes : Z) (l : list RateSample) (peak : f64)
    : list RateSample * f64 :=
  let l := cleanup_old_samples later (l ++ [mkSample now bytes]) in
  let rate := calculate_rate l in (l, if flt peak rate then rate else peak).
Definition record_tx (now later : Instant) (bytes : Z) s : TrafficStats :=
  let '(l, peak) := sample now later bytes (tx_samples s) (tx_peak s) in
  mkTraffic (wrap 64 (total_tx s + bytes)) (total_rx s) peak (rx_peak s) l (rx_samples s) (connection_count s).
Definition record_rx (now later : Instant) (bytes : Z) s : TrafficStats :=
  let '(l, peak) := sample now later bytes (rx_samples s) (rx_peak s) in
  mkTraffic (total_tx s) (wrap 64 (total_rx s + bytes)) (tx_peak s) peak (tx_samples s) l (connection_count s).
Definition set_connections (n : Z) s : TrafficStats :=
  mkTraffic (total_tx s) (total_rx s) (tx_peak s) (rx_peak s) (tx_samples s) (rx_samples s) n.
Definition add_connection s : TrafficStats := set_connections (wrap 64 (connection_count s + 1)) s.
Definition remove_connection s : TrafficStats := set_connections (wrap 64 (connection_count s - 1)) s.
Definition summary s : TrafficSummary :=
  mkSummary (total_tx s) (total_rx s) (calculate_rate (tx_samples s)) (calculate_rate (rx_samples s))
    (tx_peak s) (rx_peak s) (connection_count s).
Definition reset s : TrafficStats := new.
End TrafficStats.

(** ** The token bucket *)

Record RateLimiter := mkLimiter { rate_per_sec : Z; capacity : Z; tokens : f64; last_refill : Instant }.

(** [Duration::from_secs_f64]: to the nearest nanosecond; [None] is the panic on a negative
    or too large number. *)
Definition duration_from_secs_f64 (x : f64) : option Duration :=
  match x with
  | S754_zero _ => Some 0
  | S754_finite false m e =>
      let n := round_scaled (Z.pos m * 1000000000) e in
      if n / 1000000000 <? 2 ^ 64 then Some n else None
  | _ => None
  end.

Module RateLimiter.
Implicit Types l : RateLimiter.
Definition new (rate cap : Z) (now : Instant) : RateLimiter := mkLimiter rate cap (f64_of_Z cap) now.
Definition default_ (now : Instant) : RateLimiter :=
  new DEFAULT_RATE_LIMIT_BYTES_PER_SEC DEFAULT_BUCKET_CAPACITY now.
Definition refill (now : Instant) l : RateLimiter :=
  let new_tokens := fmul (as_secs_f64 (duration_since now (last_refill l))) (f64_of_Z (rate_per_sec l)) in
  mkLimiter (rate_per_sec l) (capacity l) (fmin (fadd (tokens l) new_tokens) (f64_of_Z (capacity l))) now.
Definition set_tokens (t : f64) l : RateLimiter := mkLimiter (rate_per_sec l) (capacity l) t (last_refill l).
Definition check (now : Instant) (bytes : Z) l : bool * RateLimiter :=
  let l := refill now l in
  if fge (tokens l) (f64_of_Z bytes) then (true, set_tokens (fsub (tokens l) (f64_of_Z bytes)) l) else (false, l).
Definition consume (now : Instant) (bytes : Z) l : Z * RateLimiter :=
  let l := refill now l in
  let consumed := f64_to_u64 (fmin (f64_of_Z bytes) (tokens l)) in
  (consumed, set_tokens (fsub (tokens l) (f64_of_Z consumed)) l).
Definition set_rate (rate : Z) l : RateLimiter := mkLimiter rate (capacity l) (tokens l) (last_refill l).
Definition reset (now : Instant) l : RateLimiter :=
  mkLimiter (rate_per_sec l) (capacity l) (f64_of_Z (capacity l)) now.
(** [later] is the clock after the sleep. *)
Definition wait_for (now later : Instant) (bytes : Z) l : option (Duration * RateLimiter) :=
  let '(ok, l) := check now bytes l in
  if ok then Some (0, l) else
  let needed := fsub (f64_of_Z bytes) (tokens l) in
  let wait_secs := fmax (fdiv needed (f64_of_Z (rate_per_sec l))) (f64_of_Z 0) in
  wait ← duration_from_secs_f64 wait_secs;
  Some (wait, (check later bytes l).2).
End RateLimiter.

(** ** One peer *)

Record PeerTrafficTracker := mkTracker { stats : TrafficStats; limiter : RateLimiter }.
Module PeerTrafficTracker.
Implicit Types p : PeerTrafficTracker.
Definition new (rate cap : Z) (now : Instant) : PeerTrafficTracker :=
  mkTracker TrafficStats.new (RateLimiter.new rate cap now).
(** The clock is read by the sample, the cleaning and the bucket. *)
Definition record_tx (t1 t2 t3 : Instant) (bytes : Z) p : bool * PeerTrafficTracker :=
  let '(ok, l) := RateLimiter.check t3 bytes (limiter p) in
  (ok, mkTracker (TrafficStats.record_tx t1 t2 bytes (stats p)) l).
Definition record_rx (t1 t2 t3 : Instant) (bytes : Z) p : bool * PeerTrafficTracker :=
  let '(ok, l) := RateLimiter.check t3 bytes (limiter p) in
  (ok, mkTracker (TrafficStats.record_rx t1 t2 bytes (stats p)) l).
Definition summary p : TrafficSummary := TrafficStats.summary (stats p).
End PeerTrafficTracker.

(** ** What the statistics say *)

Inductive Op :=
| Tx (now later : Instant) (bytes : Z) | Rx (now later : Instant) (bytes : Z)
| Connect | Disconnect | ResetAll.
Definition apply_op (s : TrafficStats) (op : Op) : TrafficStats :=
  match op with
  | Tx now later n => TrafficStats.record_tx now later n s
  | Rx now later n => TrafficStats.record_rx now later n s
  | Connect => TrafficStats.add_connection s
  | Disconnect => TrafficStats.remove_connection s
  | ResetAll => TrafficStats.reset s
  end.
(** The true totals since the last reset: sent, received, connections. *)
Definition count (t : Z * Z * Z) (op : Op) : Z * Z * Z :=
  let '(tx, rx, n) := t in
  match op with
  | Tx _ _ b => (tx + b, rx, n) | Rx _ _ b => (tx, rx + b, n)
  | Connect => (tx, rx, n + 1) | Disconnect => (tx, rx, n - 1) | ResetAll => (0, 0, 0)
  end.

Lemma flt_irrefl x : flt x x = false.
Proof.
  unfold flt. destruct x as [[]|[]| |[] m e]; cbn [SFcompare]; try done; rewrite Z.compare_refl;
    change (Pos.compare_cont Eq m m) with (Pos.compare m m); by rewrite Pos.compare_refl.
Qed.
(** The rate of the samples is not above the peak. *)
Definition below_peak (l : list RateSample) (peak : f64) : Prop := flt peak (TrafficStats.calculate_rate l) = false.
Lemma sample_below_peak now later n l peak :
  below_peak (TrafficStats.sample now later n l peak).1 (TrafficStats.sample now later n l peak).2.
Proof.
  unfold TrafficStats.sample, below_peak. cbn [fst snd]. destruct (flt peak _) eqn:E; [apply flt_irrefl|done].
Qed.

(** The statistics.  After any operations the totals are what was sent and received since the
    last reset, modulo 2^64, the connections are those added less those removed, modulo 2^64,
    so one removal too many counts as 2^64 - 1 connections; and the rates of a summary are
    never above its peaks. *)
Theorem stats_exact ops :
  let s := TrafficStats.summary (foldl apply_op TrafficStats.new ops) in
  let '(tx, rx, n) := foldl count (0, 0, 0) ops in
  sum_tx s = wrap 64 tx ∧ sum_rx s = wrap 64 rx ∧ sum_connections s = wrap 64 n
  ∧ flt (sum_tx_peak s) (tx_rate s) = false ∧ flt (sum_rx_peak s) (rx_rate s) = false.
Proof.
  set (ok := λ (s : TrafficStats) (t : Z * Z * Z),
    total_tx s = wrap 64 t.1.1 ∧ total_rx s = wrap 64 t.1.2 ∧ connection_count s = wrap 64 t.2
    ∧ below_peak (tx_samples s) (tx_peak s) ∧ below_peak (rx_samples s) (rx_peak s)).
  assert (H : ∀ s t, ok s t → ok (foldl apply_op s ops) (foldl count t ops)).
  { induction ops as [|op ops IH]; intros s t Hs; [done|]. apply IH.
    destruct s as [tx rx txp rxp txs rxs n], t as [[tx' rx'] n'].
    destruct Hs as (Htx & Hrx & Hn & Hpt & Hpr). cbn in Htx, Hrx, Hn, Hpt, Hpr. subst tx rx n.
    destruct op as [now later b|now later b| | |]; cbn [apply_op count].
    - unfold TrafficStats.record_tx. cbn [tx_samples tx_peak total_tx].
      pose proof (sample_below_peak now later b txs txp) as Hb.
      destruct (TrafficStats.sample now later b txs txp) as [l p]. split_and!; try done. cbn. apply wrap_add_l.
    - unfold TrafficStats.record_rx. cbn [rx_samples rx_peak total_rx].
      pose proof (sample_below_peak now later b rxs rxp) as Hb.
      destruct (TrafficStats.sample now later b rxs rxp) as [l p]. split_and!; try done. cbn. apply wrap_add_l.
    - split_and!; try done. cbn. apply wrap_add_l.
    - split_and!; try done. cbn. apply wrap_sub_l.
    - by split_and!. }
  specialize (H TrafficStats.new (0, 0, 0)). destruct (foldl count (0, 0, 0) ops) as [[tx rx] n].
  apply H. by split_and!.
Qed.

(** ** What the bucket grants *)

(** The answers to checks in one instant. *)
Fixpoint checks (now : Instant) (bs : list Z) (l : RateLimiter) : list bool * RateLimiter :=
  match bs with
  | [] => ([], l)
  | b :: bs =>
      let '(ok, l) := RateLimiter.check now b l in
      let '(oks, l) := checks now bs l in (ok :: oks, l)
  end.
(** A bucket of whole tokens: a request is granted when there are enough. *)
Fixpoint grants (t : Z) (bs : list Z) : list bool * Z :=
  match bs with
  | [] => ([], t)
  | b :: bs =>
      let '(oks, t') := grants (if b <=? t then t - b else t) bs in ((b <=? t) :: oks, t')
  end.
Definition granted (oks : list bool) (bs : list Z) : Z :=
  foldr Z.add 0 (zip_with (λ (ok : bool) b, if ok then b else 0) oks bs).

Lemma f64_not_nan a : 0 <= a < 2 ^ 53 → is_nan (f64_of_Z a) = false.
Proof. intros Ha. destruct a as [|p|]; [done| |lia]. by rewrite f64_of_pos by lia. Qed.
Lemma refill_same rate cap t now :
  0 <= rate < 2 ^ 53 → 0 <= t <= cap → cap < 2 ^ 53 →
  RateLimiter.refill now (mkLimiter rate cap (f64_of_Z t) now) = mkLimiter rate cap (f64_of_Z t) now.
Proof.
  intros Hr Ht Hc. unfold RateLimiter.refill. cbn [last_refill rate_per_sec capacity tokens].
  unfold duration_since. rewrite Z.sub_diag. change (Z.max 0 0) with 0.
  assert (E : fmul (as_secs_f64 0) (f64_of_Z rate) = S754_zero false).
  { replace (as_secs_f64 0) with (S754_zero false) by reflexivity.
    destruct rate as [|p|]; [done| |lia]. by rewrite f64_of_pos by lia. }
  rewrite E, f64_add_zero by lia. f_equal. unfold fmin. rewrite !f64_not_nan by lia.
  unfold flt. rewrite f64_compare_exact by lia. by destruct (Z.compare_spec cap t); [|lia|].
Qed.
Lemma check_same rate cap t b now :
  0 <= rate < 2 ^ 53 → 0 <= t <= cap → cap < 2 ^ 53 → 0 <= b < 2 ^ 53 →
  RateLimiter.check now b (mkLimiter rate cap (f64_of_Z t) now) =
    (b <=? t, mkLimiter rate cap (f64_of_Z (if b <=? t then t - b else t)) now).
Proof.
  intros Hr Ht Hc Hb. unfold RateLimiter.check. rewrite refill_same by done. cbn [tokens].
  unfold fge. rewrite f64_compare_exact by lia. unfold RateLimiter.set_tokens. cbn [rate_per_sec capacity last_refill].
  destruct (Z.leb_spec b t), (Z.compare_spec t b); try lia; try done; by rewrite f64_sub_exact by lia.
Qed.

(** A burst.  Of the requests that arrive in one instant at a new bucket, exactly those are granted
    that a bucket of whole tokens grants, in the order of arrival: the f64 tokens are exact, as
    long as the numbers are below 2^53.  So never more bytes than the capacity are granted, and
    a request is refused only when it is for more than what is left. *)
Theorem bucket_burst now rate cap bs :
  0 <= rate < 2 ^ 53 → 0 <= cap < 2 ^ 53 → Forall (λ b, 0 <= b < 2 ^ 53) bs →
  checks now bs (RateLimiter.new rate cap now) =
    ((grants cap bs).1, mkLimiter rate cap (f64_of_Z (grants cap bs).2) now)
  ∧ granted (grants cap bs).1 bs = cap - (grants cap bs).2 ∧ 0 <= (grants cap bs).2 <= cap.
Proof.
  intros Hr Hc Hbs. unfold RateLimiter.new.
  assert (H : ∀ t, 0 <= t <= cap →
    checks now bs (mkLimiter rate cap (f64_of_Z t) now) =
      ((grants t bs).1, mkLimiter rate cap (f64_of_Z (grants t bs).2) now)
    ∧ granted (grants t bs).1 bs = t - (grants t bs).2 ∧ 0 <= (grants t bs).2 <= t); [|apply H; lia].
  induction Hbs as [|b bs Hb _ IH]; intros t Ht; cbn [checks grants].
  { split_and!; cbn; (done || lia). }
  rewrite check_same by (done || lia).
  destruct (IH (if b <=? t then t - b else t)) as (Hk & Hg & Hn); [case_match; lia|].
  rewrite Hk. destruct (grants _ bs) as [oks t']. cbn [fst snd] in *. split; [done|].
  unfold granted in *. cbn [zip_with foldr]. rewrite Hg.
  destruct (Z.leb_spec b t); lia.
Qed.

(** What is larger than the bucket.  A request for more bytes than the capacity is refused at any
    time and in any state of the bucket; and [wait_for] such a request, when it returns, has
    slept and consumed nothing: the caller goes on as if the bytes were granted. *)
Theorem oversized_never_passes now later bytes l :
  flt (f64_of_Z (capacity l)) (f64_of_Z bytes) = true →
  RateLimiter.check now bytes l = (false, RateLimiter.refill now l)
  ∧ ∀ wait l', RateLimiter.wait_for now later bytes l = Some (wait, l') →
      l' = RateLimiter.refill later (RateLimiter.refill now l).
Proof.
  intros Hb.
  assert (Hc : ∀ t x, capacity x = capacity l → RateLimiter.check t bytes x = (false, RateLimiter.refill t x)).
  { intros t x Hx. unfold RateLimiter.check. destruct (fge _ _) eqn:E; [|done]. exfalso.
    pose proof (fge_flt_trans _ _ _ E Hb) as Hlt. unfold RateLimiter.refill in Hlt. cbn [tokens] in Hlt.
    rewrite Hx in Hlt. revert Hlt. unfold fmin. destruct (is_nan (fadd _ _)); [by rewrite flt_irrefl|].
    destruct (is_nan (f64_of_Z (capacity l))) eqn:En.
    - destruct (f64_of_Z (capacity l)); done.
    - destruct (flt (f64_of_Z (capacity l)) (fadd _ _)) eqn:Ef; [by rewrite flt_irrefl|by rewrite Ef]. }
  split; [by apply Hc|]. intros wait l'. unfold RateLimiter.wait_for. rewrite Hc by done.
  destruct (duration_from_secs_f64 _); [|done]. cbn [mbind option_bind]. rewrite Hc by done. by intros [= _ <-].
Qed.

(** Waiting at rate zero.  For a bucket that is not refilled, waiting for more than it holds does
    not return: the time to wait is infinite, which is no [Duration], and the call panics. *)
Theorem wait_for_zero_rate_panics now later cap bytes :
  0 <= cap < bytes → bytes < 2 ^ 53 →
  RateLimiter.wait_for now later bytes (RateLimiter.new 0 cap now) = None.
Proof.
  intros Hc Hb. unfold RateLimiter.wait_for, RateLimiter.new. rewrite check_same by lia.
  rewrite (proj2 (Z.leb_gt _ _)) by lia. cbn [tokens rate_per_sec].
  rewrite f64_sub_exact by lia. destruct (bytes - cap) as [|p|] eqn:E; [lia| |lia].
  by rewrite f64_of_pos by lia.
Qed.

(** ** Witnesses *)

(** The calls of the example in the documentation of the bucket. *)
Lemma bucket_burst_witness :
  (checks 0 [512; 512; 1024] (RateLimiter.new 1024 4096 0)).1 = [true; true; true].
Proof.
  pose proof (bucket_burst 0 1024 4096 [512; 512; 1024] ltac:(lia) ltac:(lia)
    ltac:(repeat constructor; lia)) as [H _]. rewrite H. reflexivity.
Defined.
Lemma oversized_never_passes_witness :
  (RateLimiter.check 1000000000000 4097 (RateLimiter.new 1024 4096 0)).1 = false.
Proof.
  rewrite (proj1 (oversized_never_passes 1000000000000 0 4097 (RateLimiter.new 1024 4096 0) eq_refl)).
  reflexivity.
Defined.
Lemma wait_for_zero_rate_panics_witness :
  RateLimiter.wait_for 0 5 11 (RateLimiter.new 0 10 0) = None.
Proof. apply (wait_for_zero_rate_panics 0 5 10 11); lia. Defined.
