(* ===== verification/Ctl.v ===== *)
(** * Ctl: the protocol side of lan-linkctl

    Models crates/ctl/src/main.rs from the first packet on: connecting over
    UDP or TCP, sending and receiving control messages, running a native command,
    pushing and pulling a file, pinging.  The sockets, the clock and sleeping are the class
    [Network], which the client is written against.  The addresses to try are
    arguments, as the standard library parses them; so are the random numbers.
    An action is [None] when the client panics; a loop that waits has fuel. *)
From S2P Require Import Prelude Frame Stream Connection Identity Float.

Definition CHUNK_SIZE : Z := 1024.
Definition PORT_CANDIDATES : list Z := [9876; 9877; 9878; 9879; 9880; 9881; 9882; 9883; 9884; 9885].

(** What the client does to the world.  An [Err] of a receive is a timeout or an
    error of the socket. *)
Class Network (W : Type) := {
  net_now : W → Instant;
  net_sleep : Duration → W → W;
  udp_bind : W → result unit string * W;
  send_to : SocketAddr → list byte → W → result unit string * W;
  recv_from : Duration → W → result (list byte) string * W;
  tcp_connect : Duration → W → result unit string * W;
  tcp_write_all : list byte → W → result unit string * W;
  tcp_read_exact : option Duration → nat → W → result (list byte) string * W
}.

Record Ctx := mkCtx { remote : SocketAddr; ctx_psk : Psk; ctx_conn : Z; ctx_seq : Z; via_tcp : bool }.

(** ** Actions: state, errors and panics *)

Section Monad.
Context {S : Type}.
Definition act (A : Type) : Type := S → option (result A string * S).
Definition ret {A} (a : A) : act A := λ s, Some (Ok a, s).
Definition fail {A} (e : string) : act A := λ s, Some (Err e, s).
Definition panic {A} : act A := λ _, None.
Definition bind {A B} (m : act A) (k : A → act B) : act B := λ s,
  match m s with
  | None => None
  | Some (Err e, s) => Some (Err e, s)
  | Some (Ok a, s) => k a s
  end.
(** The result as a value: [let _ = m], [if let Ok(..) = m]. *)
Definition attempt {A} (m : act A) : act (result A string) := λ s,
  match m s with None => None | Some (r, s) => Some (Ok r, s) end.
End Monad.
Arguments act : clear implicits.
Declare Scope act_scope.
Delimit Scope act_scope with act.
Notation "'do!' x ':=' m 'in' k" := (bind m (λ x, k))
  (at level 10, x pattern, m at level 100, k at level 200) : act_scope.

(** ** Packets *)

Section Packets.
Context `{BufCrate} `{AeadCrate} `{ControlCodec}.
Definition encode_packet (conn_id : Z) (t : PacketType) (stream_id seq : Z) (f : Flags)
    (payload nonce : list byte) : list byte :=
  encode (mkHeader conn_id t f stream_id seq 0 0 (wrap 16 (len payload)) nonce) [] ++ payload.
(** [None]: [expect("encrypt")] panics. *)
Definition encode_control (conn_id : Z) (psk : Psk) (seq : Z) (msg : ControlMsg) : option (list byte) :=
  let nonce := make_nonce conn_id seq in
  encrypted ← encrypt psk nonce (serialize msg);
  Some (encode_packet conn_id Data (StreamId.as_u16 Control) seq RELIABLE encrypted nonce).
Definition parse_packet (data : list byte) : option (PacketHeader * list byte) :=
  h ← decode_header data; Some (h, drop HEADER_SIZE data).
(** The ciphertext that the header announces. *)
Definition announced (h : PacketHeader) (ct : list byte) : list byte :=
  take (Nat.min (Z.to_nat (payload_len h)) (length ct)) ct.
Definition is_syn_ack (conn_id : Z) (data : list byte) : bool :=
  match parse_packet data with
  | Some (h, _) => bool_decide (pkt_type h = SynAck) && (Frame.conn_id h =? conn_id)
  | None => false
  end.
Definition syn (conn_id : Z) : list byte :=
  encode_packet conn_id Syn (StreamId.as_u16 Control) 0 empty_flags [] (replicate 12 Byte.x00).
Definition hello : ControlMsg := Hello PROTOCOL_VERSION ["exec"; "input"]%string.
End Packets.

Section Client.
Context `{BufCrate} `{AeadCrate} `{ControlCodec} `{HexCrate} {W : Type} `{Network W}.
Open Scope act_scope.

(** An operation of the network as an action, in any state with a world. *)
Definition io {A} (f : W → result A string * W) : act (Ctx * W) A := λ s,
  let '(r, w) := f s.2 in Some (r, (s.1, w)).
Definition ask {A} (f : Ctx → W → A) : act (Ctx * W) A := λ s, Some (Ok (f s.1 s.2), s).
Definition modify (f : Ctx → Ctx) : act (Ctx * W) unit := λ s, Some (Ok tt, (f s.1, s.2)).
Definition sleep (d : Duration) : act (Ctx * W) unit := λ s, Some (Ok tt, (s.1, net_sleep d s.2)).

Definition tcp_write (data : list byte) : act (Ctx * W) unit :=
  do! tcp := ask (λ c _, via_tcp c) in
  if tcp then do! _ := io (tcp_write_all (be_bytes 4 (wrap 32 (len data)))) in io (tcp_write_all data) else ret tt.
Definition tcp_read_frame (timeout : Duration) : act (Ctx * W) (option (list byte)) :=
  do! tcp := ask (λ c _, via_tcp c) in
  if negb tcp then ret None else
  do! l := attempt (io (tcp_read_exact (Some timeout) 4)) in
  match l with
  | Err _ => ret None
  | Ok l =>
      let frame_len := of_be l in
      if (frame_len =? 0) || (65536 <? frame_len) then ret None else
      do! buf := io (tcp_read_exact None (Z.to_nat frame_len)) in ret (Some buf)
  end.

(** [self.seq += 1] wraps in a release build. *)
Definition send_control (msg : ControlMsg) : act (Ctx * W) unit :=
  do! _ := modify (λ c, mkCtx (remote c) (ctx_psk c) (ctx_conn c) (wrap 32 (ctx_seq c + 1)) (via_tcp c)) in
  do! pkt := ask (λ c _, encode_control (ctx_conn c) (ctx_psk c) (ctx_seq c) msg) in
  match pkt with
  | None => panic
  | Some pkt =>
      do! c := ask (λ c _, c) in
      if via_tcp c then tcp_write pkt else io (send_to (remote c) pkt)
  end.
(** At most MAX_PACKET bytes of the datagram reach the buffer. *)
Definition recv_parsed (timeout : Duration) : act (Ctx * W) (PacketHeader * list byte) :=
  do! buf := io (recv_from timeout) in
  match parse_packet (take MAX_PACKET buf) with
  | None => fail "Bad packet"
  | Some (h, ct) => ret (h, announced h ct)
  end.
Definition recv_control (timeout : Duration) : act (Ctx * W) (option ControlMsg) :=
  do! c := ask (λ c _, c) in
  if via_tcp c then
    do! frame := tcp_read_frame timeout in
    match frame ≫= parse_packet with
    | Some (h, ct) =>
        ret (if bool_decide (pkt_type h = Data)
             then decrypt (ctx_psk c) (nonce h) (announced h ct) ≫= deserialize else None)
    | None => ret None
    end
  else
    do! (h, data) := recv_parsed timeout in
    ret (if bool_decide (pkt_type h = Data) && negb (bool_decide (data = []))
         then decrypt (ctx_psk c) (nonce h) data ≫= deserialize else None).

(** ** Connecting *)

(** The UDP phase: the first address that answers the SYN. *)
Fixpoint probe (conn_id : Z) (remotes : list SocketAddr) (w : W) : option SocketAddr * W :=
  match remotes with
  | [] => (None, w)
  | r :: rest =>
      match udp_bind w with
      | (Err _, w) => probe conn_id rest w
      | (Ok _, w) =>
          match send_to r (syn conn_id) w with
          | (Err _, w) => probe conn_id rest w
          | (Ok _, w) =>
              match recv_from (from_millis 800) w with
              | (Ok data, w) => if is_syn_ack conn_id (take MAX_PACKET data) then (Some r, w) else probe conn_id rest w
              | (Err _, w) => probe conn_id rest w
              end
          end
      end
  end.
(** The TCP phase, to the first port; [false]: not connected, or a wrong answer. *)
Definition tcp_handshake (conn_id : Z) : act (Ctx * W) bool :=
  do! r := attempt (io (tcp_connect (from_secs 3))) in
  match r with
  | Err _ => ret false
  | Ok _ =>
      do! _ := io (tcp_write_all (be_bytes 4 (wrap 32 (len (syn conn_id))))) in
      do! _ := io (tcp_write_all (syn conn_id)) in
      do! l := io (tcp_read_exact None 4) in
      if (of_be l =? 0) || (4096 <=? of_be l) then ret false else
      do! resp := io (tcp_read_exact None (Z.to_nat (of_be l))) in
      if negb (is_syn_ack conn_id resp) then ret false else
      do! _ := io udp_bind in
      do! _ := send_control hello in
      do! _ := tcp_read_frame (from_secs 5) in ret true
  end.
(** [Ctx::new] for the addresses [remotes] of the UDP phase and [tcp_remote] of the other:
    the key, the two phases, and the Hello. *)
Definition connect (psk_hex : string) (remotes : list SocketAddr) (tcp_remote : SocketAddr)
    (not_found : string) (conn_id : Z) (w : W) : option (result Ctx string * W) :=
  match hex_decode psk_hex with
  | None => Some (Err "invalid hex", w)
  | Some bytes =>
      match to_arr32 bytes with
      | None => Some (Err "PSK must be 32 bytes", w)
      | Some psk =>
          let '(found, w) := probe conn_id remotes w in
          match found with
          | Some r =>
              let hs := do! _ := send_control hello in do! _ := recv_control (from_secs 5) in ret tt in
              match hs (mkCtx r psk conn_id 0 false, w) with
              | None => None
              | Some (res, (c, w)) => Some (let? _ := res in Ok c, w)
              end
          | None =>
              match tcp_handshake conn_id (mkCtx tcp_remote psk conn_id 0 true, w) with
              | None => None
              | Some (res, (c, w)) => Some (let? answered := res in if answered : bool then Ok c else Err not_found, w)
              end
          end
      end
  end%string.

(** ** Running a command *)

(** What was printed: (1 is the error output, else the output, the bytes). *)
Fixpoint drain_exec (fuel : nat) (id : Z) (deadline : Instant) (out : list (Z * list byte))
    : act (Ctx * W) (option (option Z) * list (Z * list byte)) :=
  match fuel with
  | O => ret (None, out)
  | S fuel =>
      do! now := ask (λ _ w, net_now w) in
      let remaining := duration_since deadline now in
      if remaining =? 0 then
        do! _ := attempt (send_control (ExecSignal id 15)) in
        do! _ := sleep (from_millis 500) in
        do! _ := attempt (send_control (ExecSignal id 9)) in
        ret (Some None, out)
      else
        do! r := attempt (recv_control (Z.min remaining (from_secs 2))) in
        match r with
        | Ok (Some (ExecChunk i stream chunk)) =>
            drain_exec fuel id deadline (if i =? id then out ++ [(stream, chunk)] else out)
        | Ok (Some (ExecDone i code)) =>
            if i =? id then ret (Some code, out) else drain_exec fuel id deadline out
        | _ => drain_exec fuel id deadline out
        end
  end.
(** The exit code and the output; the code is [None] when the command had none or the time is up. *)
Definition native_run (fuel : nat) (id : Z) (cmd : NativeCmdType) (timeout_secs : Z)
    : act (Ctx * W) (option (option Z) * list (Z * list byte)) :=
  do! _ := send_control (NativeCmd id cmd) in
  do! now := ask (λ _ w, net_now w) in
  drain_exec fuel id (now + from_secs timeout_secs) [].

(** ** Pushing a file *)

(** The wait for an acknowledgement of [end_]. *)
Fixpoint await_ack (fuel : nat) (file_id end_ : Z) (deadline : Instant) : act (Ctx * W) bool :=
  match fuel with
  | O => ret false
  | S fuel =>
      do! now := ask (λ _ w, net_now w) in
      if negb (now <? deadline) then ret false else
      do! r := attempt (recv_control (from_millis 500)) in
      match r with
      | Ok (Some (FileAck i off)) =>
          if (i =? file_id) && (end_ <=? off) then ret true else await_ack fuel file_id end_ deadline
      | _ => await_ack fuel file_id end_ deadline
      end
  end.
(** The retries from number [retry] on, [n] of them left. *)
Fixpoint push_chunk (fuel : nat) (file_id offset : Z) (chunk : list byte) (retry n : nat) : act (Ctx * W) bool :=
  match n with
  | O => ret false
  | S n =>
      do! _ := send_control (FileChunk file_id offset chunk) in
      do! now := ask (λ _ w, net_now w) in
      do! acked := await_ack fuel file_id (offset + len chunk) (now + from_secs (1 + Z.of_nat retry * 2)) in
      if acked then ret true else push_chunk fuel file_id offset chunk (S retry) n
  end.
(** The chunks of the rest of the file; [rest] is not empty in a recursive call. *)
Fixpoint push_chunks (fuel n : nat) (file_id offset : Z) (rest : list byte) : act (Ctx * W) unit :=
  match n, rest with
  | S n, _ :: _ =>
      let chunk := take (Z.to_nat CHUNK_SIZE) rest in
      do! acked := push_chunk fuel file_id offset chunk 0 4 in
      if acked then push_chunks fuel n file_id (offset + len chunk) (drop (Z.to_nat CHUNK_SIZE) rest)
      else fail ("Push #" +:+ pretty file_id +:+ ": chunk at offset " +:+ pretty offset
                   +:+ " not ACKed after 3 retries")%string
  | _, _ => ret tt
  end.
(** [data] is what the local file holds; every chunk is not empty, so their number is at most
    the number of bytes. *)
Definition cmd_push (fuel : nat) (file_id : Z) (data : list byte) (remote_path : string) : act (Ctx * W) unit :=
  do! _ := send_control (FilePush file_id remote_path (len data)) in
  push_chunks fuel (length data) file_id 0 data.

(** ** Pulling a file *)

(** [None] when the time is up. *)
Fixpoint drain_pull (fuel : nat) (id : Z) (deadline : Instant) (buf : list byte)
    : act (Ctx * W) (option (list byte)) :=
  match fuel with
  | O => ret None
  | S fuel =>
      do! now := ask (λ _ w, net_now w) in
      let rem := duration_since deadline now in
      if rem =? 0 then ret None else
      do! r := attempt (recv_control (Z.min rem (from_secs 2))) in
      match r with
      | Ok (Some (ExecChunk eid 0 data)) =>
          drain_pull fuel id deadline (if eid =? id then buf ++ data else buf)
      | Ok (Some (ExecDone eid _)) => if eid =? id then ret (Some buf) else drain_pull fuel id deadline buf
      | _ => drain_pull fuel id deadline buf
      end
  end.
(** What is written to the local file, whatever the exit code was; with [None] the program ends
    in the same way, without a file and without a message. *)
Definition cmd_pull (fuel : nat) (id : Z) (remote_path : string) (timeout : Z)
    : act (Ctx * W) (option (list byte)) :=
  do! _ := send_control (NativeCmd id (ReadFile remote_path)) in
  do! start := ask (λ _ w, net_now w) in
  drain_pull fuel id (start + from_secs timeout) [].

(** The times of [Cmd::Ping] in nanoseconds, [n] pings left of [count], and the error that ends it before. *)
Fixpoint cmd_ping (n : nat) (lat : list Duration) : act (Ctx * W) (list Duration * option string) :=
  match n with
  | O => ret (lat, None)
  | S n =>
      do! start := ask (λ _ w, net_now w) in
      do! r := attempt (do! _ := send_control (Hello PROTOCOL_VERSION ["ping"%string]) in recv_control (from_secs 3)) in
      match r with
      | Err err => ret (lat, Some err)
      | Ok _ =>
          do! e := ask (λ _ w, duration_since (net_now w) start) in
          do! _ := (match n with O => ret tt | _ => sleep (from_millis 500) end) in
          cmd_ping n (lat ++ [e])
      end
  end.
End Client.

Definition human_speed (bytes_per_sec : Z) : string :=
  (if (bytes_per_sec <? 1024)%Z then pretty bytes_per_sec +:+ "B" else
   let kb := (bytes_per_sec / 1024)%Z in
   if (kb <? 1024)%Z then pretty kb +:+ "KB"
   else format_fixed 1 (fdiv (f64_of_Z kb) (f64_of_Z 1024)) +:+ "MB")%string.

(** The time of day of [now_str], from the seconds since the epoch. *)
Definition now_str (secs : Z) : string :=
  let two (z : Z) := ((if (z <? 10)%Z then "0" else "") +:+ pretty z)%string in
  (two (secs / 3600 mod 24)%Z +:+ ":" +:+ two (secs / 60 mod 60)%Z +:+ ":" +:+ two (secs mod 60)%Z)%string.
