(* ===== verification/CtlProofs.v ===== *)
(** * CtlProofs: pushing a file from lan-linkctl to lan-linkd

    Composes the client of Ctl with the daemon's packet handler over a network
    that loses nothing and delivers at once, and follows a push from the first SYN
    to its end.  The daemon's timer does not fall into the push.  [bincode] and the
    cipher are used through their documented behaviour. *)
From S2P Require Import Prelude Frame Stream RateLimit Connection Daemon DaemonProofs Identity Ctl.

(** ** The network between the two *)

Record Net := mkNet { clock : Instant; ep : Endpoint; hst : Host; inbox : list (list byte) }.

(** The messages of a push, of a pull and of a command, with the integers in their widths. *)
Definition file_msg (m : ControlMsg) : Prop :=
  match m with
  | NativeCmd i (ReadFile _) | NativeCmd i (Cat _) => u32_ok i
  | ExecSignal i signo => u32_ok i ∧ u32_ok signo
  | ExecChunk i stream _ => u32_ok i ∧ stream = 0
  | ExecDone i code => u32_ok i ∧ ∀ z, code = Some z → - 2 ^ 31 <= z < 2 ^ 31
  | FilePush i _ size => u32_ok i ∧ u64_ok size
  | FileChunk i off _ | FileAck i off => u32_ok i ∧ u64_ok off
  | Hello v caps => m = hello
  | HelloAck v caps => m = HelloAck PROTOCOL_VERSION daemon_capabilities
  | _ => False
  end.
(** What bincode writes for them: the integers, tags of 4 bytes, lengths of 8, options of 1. *)
Definition file_size (m : ControlMsg) : nat :=
  match m with
  | FilePush _ path _ => 24 + length (as_bytes path)
  | FileChunk _ _ d => 24 + length d
  | FileAck _ _ => 16
  | NativeCmd _ (ReadFile path) | NativeCmd _ (Cat path) => 20 + length (as_bytes path)
  | ExecSignal _ _ => 12
  | ExecChunk _ _ d => 17 + length d
  | ExecDone _ (Some _) => 13
  | ExecDone _ None => 9
  | _ => 39
  end.
Class FileCodecOk `{ControlCodec} : Prop := {
  codec_roundtrip m : file_msg m → deserialize (serialize m) = Some m;
  codec_length m : file_msg m → length (serialize m) = file_size m
}.
(** Encryption succeeds below the limit of the cipher, far above a datagram. *)
Class AeadTotal `{AeadCrate} : Prop :=
  aead_total k n p : length n = 12%nat → len p <= 65536 → is_Some (aead_encrypt k n p).

Section Net.
Context `{BufCrate} `{AeadCrate} `{ControlCodec}.
Variable psk : Psk.
Variables (me server : SocketAddr).

(** What a native command of the daemon prints, and its exit code. *)
Variable native : option (list byte * option Z).

(** The system calls of the daemon succeed. *)
Definition calm : Env := mkEnv true native true None.
(** The datagrams among [es] that reach the client. *)
Definition answers (es : list Effect) : list (list byte) :=
  omap (λ e, match e with SentUdp p d => if decide (p = me) then Some d else None | _ => None end) es.
Definition deliver (data : list byte) (w : Net) : Net :=
  let '(e, h) := handle_packet_inner psk (clock w) calm (take MAX_PACKET data) me (ep w) (hst w) in
  mkNet (clock w) e h (inbox w ++ answers (drop (length (trace (hst w))) (trace h))).
Definition receive (timeout : Duration) (w : Net) : result (list byte) string * Net :=
  match inbox w with
  | d :: rest => (Ok d, mkNet (clock w) (ep w) (hst w) rest)
  | [] => (Err "deadline has elapsed"%string, mkNet (clock w + timeout) (ep w) (hst w) [])
  end.
#[local] Instance lan : Network Net := {
  net_now := clock;
  net_sleep d w := mkNet (clock w + d) (ep w) (hst w) (inbox w);
  udp_bind w := (Ok tt, w);
  send_to dest data w := (Ok tt, if decide (dest = server) then deliver data w else w);
  recv_from := receive;
  tcp_connect _ w := (Err "refused"%string, w);
  tcp_write_all _ w := (Err "refused"%string, w);
  tcp_read_exact _ _ w := (Err "refused"%string, w)
}.
End Net.

(** ** One message to the daemon and back *)

Section Exchange.
Context `{BufCrateOk} `{AeadCrateOk} `{FileCodecOk} `{!AeadTotal}.
Variable psk : Psk.
Variables (me server : SocketAddr) (native : option (list byte * option Z)) (c : Z).
Hypothesis Hc : u64_ok c.
#[local] Existing Instance lan.
#[local] Instance network : Network Net := lan psk me server native.

(** A datagram that carries [m] on the connection. *)
Definition carries (pkt : list byte) (m : ControlMsg) : Prop :=
  ∃ hd, decode_header pkt = Some hd ∧ Frame.conn_id hd = c ∧ pkt_type hd = Data
    ∧ stream_id hd = StreamId.as_u16 Control ∧ payload_len hd = len (drop HEADER_SIZE pkt)
    ∧ decrypt psk (nonce hd) (drop HEADER_SIZE pkt) = Some (serialize m)
    ∧ length pkt = (HEADER_SIZE + length (serialize m) + 16)%nat
    ∧ header_ok hd ∧ pkt = encode hd [] ++ drop HEADER_SIZE pkt.

Lemma sealed_carries q m :
  len (serialize m) <= 60000 → ∃ pkt, control_datagram c psk q m = Some pkt ∧ carries pkt m.
Proof.
  intros Hl. unfold control_datagram, encrypt.
  destruct (aead_total psk (make_nonce c (wrap 32 q)) (serialize m)) as [ct Ect]; [done|lia|].
  rewrite Ect. cbn [mbind option_bind]. eexists; split; [done|].
  unfold Connection.build_encrypted_data. rewrite put_slice_ok.
  pose proof (aead_length _ _ _ _ Ect) as Hct.
  set (h := Connection.data_header _ _ _ _ _ _).
  assert (Hh : header_ok h) by (apply data_header_ok; try done; by apply wrap_fits).
  assert (He : length (encode h []) = HEADER_SIZE) by by apply length_encode.
  exists h. rewrite decode_header_encode, drop_app_length' by done. split_and!; try done.
  - change (payload_len h) with (wrap 16 (len ct)). apply wrap_id. unfold fits. lia.
  - exact (aead_roundtrip _ _ _ _ Ect).
  - rewrite length_app, He, Hct. unfold HEADER_SIZE. lia.
Qed.
Lemma client_seals q m : u32_ok q → encode_control c psk q m = control_datagram c psk q m.
Proof.
  intros Hq. unfold encode_control, control_datagram. rewrite wrap_id by done.
  destruct (encrypt _ _ _); [|done]. cbn [mbind option_bind]. unfold Connection.build_encrypted_data.
  by rewrite put_slice_ok.
Qed.

(** The connection as the daemon has it: [n] commands counted in the window that began at [T]. *)
Definition linked (l : nat) (T n : Z) (w : Net) : Prop :=
  (∃ conn, connections (ep w) !! c = Some conn ∧ state conn = Established ∧ peer conn = me
     ∧ send_seq conn = l)
  ∧ default (clock w, 0) (cmd_counts (limiter (ep w)) !! ip me) = (T, n)
  ∧ T <= clock w <= T + from_secs 60.

Definition ctx (q : Z) : Ctx := mkCtx server psk c q false.
(** The world after [m] reached the daemon. *)
Definition pass (l : nat) (n : Z) (m : ControlMsg) (w w' : Net) : Prop :=
  if n <? CMD_RATE_LIMIT then
    let h := handle_msg psk (calm native) m c me l (hst w) in
    hst w' = h ∧ inbox w' = inbox w ++ answers me (drop (length (trace (hst w))) (trace h))
  else hst w' = hst w ∧ inbox w' = inbox w.

Lemma send_read l T n q m w :
  linked l T n w → 0 <= n < 2 ^ 31 → deserialize (serialize m) = Some m → (length (serialize m) <= MAX_PAYLOAD)%nat →
  ∃ w', Ctl.send_control m (ctx q, w) = Some (Ok tt, (ctx (wrap 32 (q + 1)), w'))
    ∧ clock w' = clock w ∧ linked l T (n + 1) w' ∧ pass l n m w w'.
Proof.
  intros ((conn & Hx & Hs & Hp & Harc) & Hn & HT) Hn31 Hm Hl.
  destruct (sealed_carries (wrap 32 (q + 1)) m) as (pkt & Epkt & hd & Hd & Hcd & Ht & Hst & _ & Hdec & Hlen & _);
    [unfold MAX_PAYLOAD in Hl; lia|].
  unfold Ctl.send_control, bind, modify, ask. cbn [fst snd ctx remote ctx_psk ctx_conn ctx_seq via_tcp].
  rewrite client_seals, Epkt by by apply wrap_fits. cbn [fst via_tcp remote].
  unfold io. cbn [fst snd send_to network lan]. rewrite decide_True by done.
  exists (deliver psk me native pkt w). split; [done|].
  unfold deliver. rewrite take_ge by (rewrite Hlen; unfold MAX_PACKET; lia).
  unfold handle_packet_inner. rewrite Hd, Ht, Hcd, Hx. unfold is_established.
  rewrite !bool_decide_true by done. cbn [negb andb].
  rewrite (proj2 (Nat.leb_gt _ _)) by (rewrite Hlen; lia). rewrite Hdec, Hst, Z.eqb_refl.
  cbn [update_conn limiter connections].
  unfold RateLimiter.check_cmd, RateLimiter.check. rewrite Hn. cbn [fst snd].
  rewrite (proj2 (Z.ltb_ge _ _)) by (unfold duration_since, from_secs, RATE_WINDOW_SECS in *; lia).
  rewrite wrap_id by (unfold fits; lia).
  assert (Hlinked : ∀ h ib, linked l T (n + 1)
    (mkNet (clock w) (mkEndpoint (alter (touch (clock w)) c (connections (ep w)))
       (mkLimiter (syn_counts (limiter (ep w))) (<[ip me := (T, n + 1)]> (cmd_counts (limiter (ep w)))))) h ib)).
  { intros h ib. split_and!; try done; [|by cbn; rewrite lookup_insert_eq|by cbn; lia..].
    exists (touch (clock w) conn). cbn [ep connections]. by rewrite lookup_alter_eq, Hx. }
  unfold pass, CMD_RATE_LIMIT. rewrite Harc. unfold handle_control. rewrite Hm.
  destruct (Z.leb_spec (n + 1) 30), (Z.ltb_spec n 30); try lia; cbn [negb clock hst inbox].
  - by split_and!.
  - rewrite drop_all, app_nil_r. by split_and!.
Qed.

Lemma send_passes l T n q m w :
  linked l T n w → 0 <= n < 2 ^ 31 → file_msg m → (file_size m <= MAX_PAYLOAD)%nat →
  ∃ w', Ctl.send_control m (ctx q, w) = Some (Ok tt, (ctx (wrap 32 (q + 1)), w'))
    ∧ clock w' = clock w ∧ linked l T (n + 1) w' ∧ pass l n m w w'.
Proof.
  intros Hw Hn Hm Hl. apply send_read; [done..|by apply codec_roundtrip|by rewrite codec_length].
Qed.

Lemma recv_carries t q m pkt rest w :
  inbox w = pkt :: rest → carries pkt m → file_msg m → (file_size m <= MAX_PAYLOAD)%nat →
  Ctl.recv_control t (ctx q, w) = Some (Ok (Some m), (ctx q, mkNet (clock w) (ep w) (hst w) rest)).
Proof.
  intros Hib (hd & Hd & Hcd & Ht & Hst & Hpl & Hdec & Hlen & _) Hm Hl. rewrite <-(codec_length m Hm) in Hl.
  unfold Ctl.recv_control, bind, ask. cbn [fst via_tcp ctx].
  unfold recv_parsed, bind, io. cbn [snd fst recv_from network lan]. unfold receive. rewrite Hib.
  unfold parse_packet. rewrite take_ge by (rewrite Hlen; unfold MAX_PACKET; lia).
  rewrite Hd. cbn [mbind option_bind]. unfold ret, announced.
  assert (Hld : length (drop HEADER_SIZE pkt) = (length (serialize m) + 16)%nat)
    by (rewrite length_drop, Hlen; lia).
  rewrite Hpl, Nat2Z.id, Nat.min_id, firstn_all, Ht.
  rewrite bool_decide_true by done. rewrite bool_decide_false by (intros E; rewrite E in Hld; simpl in Hld; lia).
  cbn [negb andb ctx_psk ctx]. rewrite Hdec. cbn [mbind option_bind]. by rewrite (codec_roundtrip m Hm).
Qed.

(** The answer to a message, when it is answered. *)
Definition answer (m : ControlMsg) (h : Host) : option ControlMsg :=
  match m with
  | Hello _ _ => Some (HelloAck PROTOCOL_VERSION daemon_capabilities)
  | FilePush i _ _ => Some (FileAck i 0)
  | FileChunk i off d => if transfers h !! i is Some _ then Some (FileAck i (wrap 64 (off + len d))) else None
  | _ => None
  end.
Lemma answer_ok m h a : file_msg m → answer m h = Some a → file_msg a ∧ (file_size a <= 39)%nat.
Proof.
  intros Hm. destruct m; try done; cbn; [..|intros [= <-]; cbn; split; [done|lia]].
  - intros [= <-]. cbn in *. split; [|lia]. split; [by destruct Hm|]. unfold fits; lia.
  - case_match; [|done]. intros [= <-]. cbn in *. split; [|lia]. split; [by destruct Hm|by apply wrap_fits].
Qed.
Lemma reply_traces l m h :
  file_msg m → Z.of_nat (file_size m) <= 60000 →
  ∃ pkt, carries pkt m ∧ trace (reply_udp psk c me l m h) = trace h ++ [SentUdp me pkt].
Proof.
  intros Hm Hl. rewrite <-(codec_length m Hm) in Hl. unfold reply_udp. cbn [next_seq].
  destruct (sealed_carries (default 0 (counters h !! l)) m) as (pkt & Epkt & Hpkt); [lia|].
  exists pkt. split; [done|]. unfold Daemon.send_control. by rewrite Epkt.
Qed.
Lemma handle_traces l m h a :
  file_msg m → answer m h = Some a →
  ∃ pkt, carries pkt a ∧ trace (handle_msg psk (calm native) m c me l h) = trace h ++ [SentUdp me pkt].
Proof.
  intros Hm Ha. pose proof (answer_ok m h a Hm Ha) as [Hpa Hla].
  assert (Hs : Z.of_nat (file_size a) <= 60000) by lia.
  destruct m; try done; cbn in Ha.
  - simplify_eq. cbn [handle_msg file_push calm open_ok]. by apply (reply_traces l _ (set_files _ _ _)).
  - destruct (transfers h !! id) as [ft|] eqn:Eft; [|done]. simplify_eq.
    cbn [handle_msg]. unfold file_chunk. rewrite Eft. cbn [calm write_fails].
    match goal with |- context [reply_udp psk c me l ?m ?h'] =>
      destruct (reply_traces l m h' Hpa Hs) as (pkt & Hpkt & Htr) end.
    exists pkt. split; [done|]. rewrite Htr. by case_match.
  - simplify_eq. cbn in Hm. injection Hm as -> _. by apply reply_traces.
Qed.

(** A message that is counted within the quota is handled, and its answer is the next datagram. *)
Lemma exchange l T n q m a w :
  linked l T n w → 0 <= n < CMD_RATE_LIMIT → file_msg m → (file_size m <= MAX_PAYLOAD)%nat →
  answer m (hst w) = Some a →
  ∃ w1 pkt, Ctl.send_control m (ctx q, w) = Some (Ok tt, (ctx (wrap 32 (q + 1)), w1))
    ∧ clock w1 = clock w ∧ inbox w1 = inbox w ++ [pkt] ∧ carries pkt a ∧ linked l T (n + 1) w1
    ∧ hst w1 = handle_msg psk (calm native) m c me l (hst w).
Proof.
  intros Hw Hn Hm Hl Ha.
  destruct (send_passes l T n q m w Hw) as (w1 & E1 & Hc1 & Hl1 & Hp); [unfold CMD_RATE_LIMIT in Hn; lia|done|done|].
  unfold pass in Hp. rewrite (proj2 (Z.ltb_lt _ _)) in Hp by lia. destruct Hp as [Hh Hib1].
  destruct (handle_traces l m (hst w) a Hm Ha) as (pkt & Hpkt & Htr).
  rewrite Htr, drop_app_length in Hib1. cbn in Hib1. rewrite decide_True in Hib1 by done.
  by exists w1, pkt.
Qed.

(** ** The chunks of a push *)

(** An acknowledgement that never comes: [k] waits of half a second. *)
Lemma await_times_out q i e k : ∀ fuel deadline w,
  inbox w = [] → deadline = clock w + Z.of_nat k * from_millis 500 → (k < fuel)%nat →
  await_ack fuel i e deadline (ctx q, w) = Some (Ok false, (ctx q, mkNet deadline (ep w) (hst w) [])).
Proof.
  induction k as [|k IH]; intros fuel deadline [t ep0 h ib] Hib Hd Hf; (destruct fuel; [lia|]);
    cbn [await_ack clock ep hst inbox] in *; subst ib; unfold bind at 1, ask; cbn [fst snd net_now network lan clock].
  - rewrite (proj2 (Z.ltb_ge _ _)) by (unfold from_millis in *; lia). cbn [negb]. unfold ret.
    do 4 f_equal. unfold from_millis in *; lia.
  - rewrite (proj2 (Z.ltb_lt _ _)) by (unfold from_millis in *; lia). cbn [negb].
    unfold bind at 1, attempt. unfold Ctl.recv_control, bind, ask. cbn [fst via_tcp ctx].
    unfold recv_parsed, bind, io. cbn [snd fst recv_from network lan receive inbox].
    apply (IH fuel deadline (mkNet (t + from_millis 500) ep0 h [])); [done| |lia].
    cbn [clock]. unfold from_millis in *; lia.
Qed.
Lemma linked_wait l T n w t ib :
  linked l T n w → 0 < n → clock w <= t <= T + from_secs 60 → linked l T n (mkNet t (ep w) (hst w) ib).
Proof.
  intros (Hx & Hn & HT) Hn0 Ht. split_and!; [done| |cbn [clock]; lia..]. cbn [clock ep].
  destruct (cmd_counts _ !! _); [done|]. cbn in Hn. injection Hn; lia.
Qed.

(** Beyond the quota no retry helps, as all of them end within the window. *)
Lemma chunk_refused l T i off chunk fuel n : ∀ retry k q w,
  linked l T k w → CMD_RATE_LIMIT <= k → k + Z.of_nat n < 2 ^ 31 → inbox w = [] →
  u32_ok i → u64_ok off → (24 + length chunk <= MAX_PAYLOAD)%nat →
  clock w + from_secs (Z.of_nat (retry + n) ^ 2 - Z.of_nat retry ^ 2) <= T + from_secs 60 →
  (4 * (retry + n) <= S fuel)%nat →
  ∃ q' w', push_chunk fuel i off chunk retry n (ctx q, w) = Some (Ok false, (ctx q', w')) ∧ hst w' = hst w.
Proof.
  induction n as [|n IH]; intros retry k q w Hw Hk Hk31 Hib Hi Hoff Hl Ht Hf; [by eexists _, _|].
  destruct (send_passes l T k q (FileChunk i off chunk) w Hw) as (w1 & E1 & Hc1 & Hw1 & Hp);
    [unfold CMD_RATE_LIMIT in Hk; lia|done|done|].
  unfold pass in Hp. rewrite (proj2 (Z.ltb_ge _ _)) in Hp by lia. destruct Hp as [Hh Hib1].
  cbn [push_chunk]. unfold bind at 1. rewrite E1. unfold bind at 1, ask. cbn [fst snd net_now network lan].
  unfold bind at 1.
  rewrite (await_times_out _ _ _ (2 + 4 * retry) fuel _ w1);
    [|by rewrite Hib1|unfold from_secs, from_millis; lia|lia].
  destruct (IH (S retry) (k + 1) (wrap 32 (q + 1))
    (mkNet (clock w1 + from_secs (1 + Z.of_nat retry * 2)) (ep w1) (hst w1) [])) as (q' & w' & E & Hh');
    [..|exists q', w'; by rewrite E, Hh', <-Hh]; try done; [|unfold from_secs in *; cbn [clock]; rewrite ?Hc1; lia..].
  apply linked_wait; [done|unfold CMD_RATE_LIMIT in Hk; lia|]. rewrite Hc1. unfold from_secs in *. lia.
Qed.

(** An acknowledgement of the end of the chunk, or of more, ends the wait; of less, it does not. *)
Lemma await_step fuel i e deadline q w off pkt rest :
  inbox w = pkt :: rest → carries pkt (FileAck i off) → u32_ok i → u64_ok off → clock w < deadline →
  await_ack (S fuel) i e deadline (ctx q, w) =
    let w' := mkNet (clock w) (ep w) (hst w) rest in
    if e <=? off then Some (Ok true, (ctx q, w')) else await_ack fuel i e deadline (ctx q, w').
Proof.
  intros Hib Hpkt Hi Hoff Ht. cbn [await_ack]. unfold bind at 1, ask. cbn [fst snd net_now network lan].
  rewrite (proj2 (Z.ltb_lt _ _)) by done. cbn [negb]. unfold bind at 1, attempt.
  rewrite (recv_carries _ q _ _ rest w Hib Hpkt); [|done|cbn; unfold MAX_PAYLOAD; lia].
  rewrite Z.eqb_refl. cbn [andb]. by case_match.
Qed.

(** What can wait in the inbox: nothing, or the answer to the [FilePush], which is never read for itself. *)
Definition idle (i k : Z) (w : Net) : Prop :=
  inbox w = [] ∨ ∃ pkt, inbox w = [pkt] ∧ carries pkt (FileAck i 0) ∧ k < CMD_RATE_LIMIT.

(** Within the quota a chunk is acknowledged at the first try. *)
Lemma chunk_acked l T i fuel n k q w path size file chunk :
  linked l T k w → 0 <= k < CMD_RATE_LIMIT → idle i k w → u32_ok i →
  (0 < length chunk <= 1024)%nat → len file + len chunk < 2 ^ 63 →
  transfers (hst w) !! i = Some (mkTransfer path (len file) size) → disk (hst w) !! path = Some file →
  ∃ q' w', push_chunk (S (S fuel)) i (len file) chunk 0 (S n) (ctx q, w) = Some (Ok true, (ctx q', w'))
    ∧ linked l T (k + 1) w' ∧ clock w' = clock w ∧ inbox w' = []
    ∧ disk (hst w') = <[path := file ++ chunk]> (disk (hst w))
    ∧ transfers (hst w') !! i = (if size <=? len file + len chunk then None
                                 else Some (mkTransfer path (len (file ++ chunk)) size)).
Proof.
  intros Hw Hk Hib Hi Hl H63 Ht Hd.
  assert (Hoff : u64_ok (len file)) by (unfold fits; lia).
  assert (Hend : u64_ok (len file + len chunk)) by (unfold fits; lia).
  destruct (exchange l T k q (FileChunk i (len file) chunk) (FileAck i (len file + len chunk)) w)
    as (w1 & pkt & E1 & Hc1 & Hib1 & Hpkt & Hw1 & Hh1); try done.
  { cbn [file_size]. unfold MAX_PAYLOAD; lia. }
  { cbn [answer]. by rewrite Ht, wrap_id. }
  exists (wrap 32 (q + 1)), (mkNet (clock w1) (ep w1) (hst w1) []). cbn [push_chunk]. unfold bind at 1. rewrite E1.
  unfold bind at 1, ask. cbn [fst snd net_now network lan]. unfold bind at 1. split.
  - destruct Hib as [Hib|(old & Hib & Hold & _)]; rewrite Hib in Hib1; cbn [app] in Hib1.
    + rewrite (await_step _ _ _ _ _ w1 _ _ _ Hib1 Hpkt) by (done || unfold from_secs; lia).
      by rewrite Z.leb_refl.
    + rewrite (await_step _ _ _ _ _ w1 _ _ _ Hib1 Hold) by (done || unfold from_secs; lia).
      rewrite (proj2 (Z.leb_gt _ _)) by lia. cbv zeta.
      rewrite (await_step _ _ _ _ _ (mkNet _ _ _ _) _ pkt [] eq_refl Hpkt) by (done || cbn; unfold from_secs; lia).
      by rewrite Z.leb_refl.
  - split_and!; try done; [by apply Hw1..| |]; cbn [hst]; rewrite Hh1;
      by destruct (chunk_step psk (calm native) c me l eq_refl i path size file chunk (hst w)) as [? ?].
Qed.

(** One turn of the loop over the chunks. *)
Lemma push_chunks_turn fuel n i off rest : rest ≠ [] →
  push_chunks fuel (S n) i off rest =
    (let chunk := take 1024 rest in
     bind (push_chunk fuel i off chunk 0 4) (λ acked, if acked
       then push_chunks fuel n i (off + len chunk) (drop 1024 rest)
       else fail ("Push #" +:+ pretty i +:+ ": chunk at offset " +:+ pretty off
                   +:+ " not ACKed after 3 retries")%string)).
Proof. by destruct rest. Qed.
(** The quota after a chunk that it covers. *)
Lemma quota_turn k (rest file : list byte) :
  k < CMD_RATE_LIMIT →
  let left k := (Z.to_nat (CMD_RATE_LIMIT - k) * 1024)%nat in
  bool_decide (length (drop 1024 rest) <= left (k + 1)%Z)%nat = bool_decide (length rest <= left k)%nat
  ∧ (file ++ take 1024 rest) ++ take (left (k + 1)) (drop 1024 rest) = file ++ take (left k) rest.
Proof.
  intros Hk left. unfold left, CMD_RATE_LIMIT in *.
  assert (E : Z.to_nat (30 - k) = S (Z.to_nat (30 - (k + 1)))) by lia. rewrite E. split.
  - apply bool_decide_ext. rewrite length_drop. lia.
  - rewrite <-app_assoc, take_take_drop. by replace (1024 + Z.to_nat (30 - (k + 1)) * 1024)%nat with (S (Z.to_nat (30 - (k + 1))) * 1024)%nat by lia.
Qed.
Lemma chunks_pushed l T i path size fuel n : ∀ k q file rest w,
  linked l T k w → 0 <= k <= CMD_RATE_LIMIT → clock w <= T + from_secs 44 → idle i k w → (15 <= fuel)%nat →
  u32_ok i → (length rest <= n)%nat → size = len file + len rest → size < 2 ^ 63 →
  (rest ≠ [] → transfers (hst w) !! i = Some (mkTransfer path (len file) size)) →
  disk (hst w) !! path = Some file →
  let quota := (Z.to_nat (CMD_RATE_LIMIT - k) * Z.to_nat CHUNK_SIZE)%nat in
  ∃ r q' w', push_chunks fuel n i (len file) rest (ctx q, w) = Some (r, (ctx q', w'))
    ∧ is_ok r = bool_decide (length rest <= quota)%nat
    ∧ disk (hst w') = <[path := file ++ take quota rest]> (disk (hst w)).
Proof.
  change (Z.to_nat CHUNK_SIZE) with 1024%nat.
  induction n as [|n IH]; intros k q file rest w Hw Hk HT Hib Hf Hi Hn Hs H63 Ht Hd quota;
    (destruct rest as [|b rest0]; [|try (cbn [length] in Hn; lia)]);
    [exists (Ok tt), q, w; split; [done|]; split; [by rewrite bool_decide_true by (cbn; lia)|];
     by rewrite take_nil, app_nil_r, insert_id..|].
  set (rest := b :: rest0) in *. assert (Hne : rest ≠ []) by done. specialize (Ht Hne). rewrite push_chunks_turn by done.
  cbv zeta. set (chunk := take 1024 rest). assert (Hlc : (0 < length chunk <= 1024)%nat) by (unfold chunk, rest; rewrite length_take; cbn [length]; lia).
  assert (Hsplit : rest = chunk ++ drop 1024 rest) by (unfold chunk; by rewrite take_drop).
  assert (Hlr : (0 < length rest)%nat) by (unfold rest; cbn; lia).
  assert (Hsum : (length rest = length chunk + length (drop 1024 rest))%nat) by (rewrite Hsplit at 1; apply length_app).
  unfold bind. destruct (decide (k < CMD_RATE_LIMIT)) as [Hlt|Hge].
  - destruct fuel as [|[|fuel]]; [lia..|].
    destruct (chunk_acked l T i fuel 3 k q w path size file chunk) as (q1 & w1 & E1 & Hw1 & Hc1 & Hib1 & Hd1 & Ht1);
      try done; [lia..|]. rewrite E1.
    replace (len file + len chunk) with (len (file ++ chunk)) in * by (rewrite length_app; lia).
    destruct (IH (k + 1) q1 (file ++ chunk) (drop 1024 rest) w1) as (r & q2 & w2 & E2 & Hr & Hd2); try done.
    + lia.
    + lia.
    + by left.
    + rewrite length_drop; unfold rest in *; cbn [length] in *; lia.
    + rewrite length_app. lia.
    + intros Hne'. rewrite Ht1, (proj2 (Z.leb_gt _ _)); [done|]. rewrite length_app.
      destruct (drop 1024 rest); [done|]. cbn [length] in Hsum. lia.
    + by rewrite Hd1, lookup_insert_eq.
    + exists r, q2, w2. split; [done|]. destruct (quota_turn k rest file Hlt) as [Eq Et].
      rewrite Hr, Hd2, Hd1, insert_insert_eq. unfold chunk. by rewrite Eq, Et.
  - assert (inbox w = []) by (destruct Hib as [|(? & _ & _ & ?)]; [done|lia]).
    destruct (chunk_refused l T i (len file) chunk fuel 4 0 k q w) as (q1 & w1 & E1 & Hh1); try done.
    { unfold CMD_RATE_LIMIT in *. lia. } { unfold CMD_RATE_LIMIT in *. lia. } { unfold fits. lia. }
    { unfold MAX_PAYLOAD. lia. } { unfold from_secs in *. lia. } { lia. }
    rewrite E1. eexists _, q1, w1. split; [reflexivity|]. rewrite Hh1.
    assert (quota = 0%nat) as -> by (unfold quota; lia). split.
    + symmetry. apply bool_decide_false. lia.
    + by rewrite take_0, app_nil_r, insert_id.
Qed.

(** ** From the SYN to the end of the push *)

(** The daemon has room for the connection, and has counted nothing from the client's address. *)
Definition newcomer (w : Net) : Prop :=
  connections (ep w) !! c = None ∧ (size (connections (ep w)) < MAX_CONNECTIONS)%nat
  ∧ syn_counts (limiter (ep w)) !! ip me = None ∧ cmd_counts (limiter (ep w)) !! ip me = None
  ∧ inbox w = [].

Lemma syn_answered w :
  newcomer w →
  ∃ l w', deliver psk me native (syn c) w = w' ∧ clock w' = clock w ∧ inbox w' = [Connection.build_syn_ack c]
    ∧ linked l (clock w) 0 w' ∧ disk (hst w') = disk (hst w).
Proof.
  intros (Hx & Hsz & Hsyn & Hcmd & Hib). exists (length (counters (hst w))). eexists. split; [done|].
  unfold deliver, syn, encode_packet. rewrite take_ge by (rewrite length_app, length_encode; [cbn [length]; unfold MAX_PACKET; lia|done]).
  unfold handle_packet_inner. rewrite decode_header_encode.
  2: by apply bare_ok.
  cbn [pkt_type Frame.conn_id]. unfold RateLimiter.check_syn, RateLimiter.check. rewrite Hsyn. cbn [default fst snd].
  replace (duration_since (clock w) (clock w)) with 0 by (unfold duration_since; lia).
  change (from_secs RATE_WINDOW_SECS <? 0) with false. cbn [negb connections]. cbn [fst snd].
  change (wrap 32 (0 + 1) <=? SYN_RATE_LIMIT) with true. cbn [negb].
  rewrite (proj2 (Nat.leb_gt _ _)), Hx by done. cbn [new_connection new_counter fst snd].
  cbn [clock inbox hst trace emit set_counters ep]. rewrite drop_app_length, Hib. cbn [answers omap list_omap app].
  rewrite decide_True by done. do 2 (split; [done|]). split; [|done]. split_and!.
  - eexists. split_and!; [cbn [ep connections]; by rewrite lookup_insert_eq|done..].
  - cbn [ep limiter cmd_counts clock]. by rewrite Hcmd.
  - cbn [clock]. unfold from_secs. lia.
  - cbn [clock]. unfold from_secs. lia.
Qed.

Lemma connects psk_hex tcp nf w `{HexCrate} :
  hex_decode psk_hex = Some (arr_bytes psk) → newcomer w →
  ∃ l w', connect psk_hex [server] tcp nf c w = Some (Ok (ctx 1), w')
    ∧ clock w' = clock w ∧ inbox w' = [] ∧ linked l (clock w) 1 w' ∧ disk (hst w') = disk (hst w).
Proof.
  intros Hhex Hw. destruct (syn_answered w Hw) as (l & w1 & E1 & Hc1 & Hib1 & Hw1 & Hd1).
  unfold connect. rewrite Hhex, to_arr32_arr_bytes. cbn [probe udp_bind send_to recv_from network lan].
  rewrite decide_True by done. rewrite E1. unfold receive. rewrite Hib1.
  assert (Hack : is_syn_ack c (take MAX_PACKET (Connection.build_syn_ack c)) = true).
  { unfold Connection.build_syn_ack, is_syn_ack, parse_packet.
    rewrite take_ge by (rewrite length_encode; [cbn [length]; unfold MAX_PACKET; lia|done]).
    rewrite <-(app_nil_r (encode _ [])), decode_header_encode.
    - cbn [mbind option_bind pkt_type Frame.conn_id Connection.bare]. by rewrite Z.eqb_refl.
    - by apply bare_ok. }
  rewrite Hack. set (w2 := mkNet _ _ _ _).
  destruct (exchange l (clock w) 0 0 hello (HelloAck PROTOCOL_VERSION daemon_capabilities) w2)
    as (w3 & pkt & E3 & Hc3 & Hib3 & Hpkt & Hw3 & Hh3); [apply Hw1|done..|cbn; unfold MAX_PAYLOAD; lia|done|].
  change (mkCtx server psk c 0 false) with (ctx 0).
  unfold bind at 1. rewrite E3. unfold bind at 1.
  rewrite (recv_carries _ _ _ pkt [] w3 Hib3 Hpkt); [|done|cbn; unfold MAX_PAYLOAD; lia].
  eexists l, _. split; [reflexivity|]. split; [by cbn [clock]; rewrite Hc3|]. split; [done|].
  split; [apply Hw3|]. cbn [hst]. rewrite Hh3.
  cbn [handle_msg hello]. rewrite Z.eqb_refl.
  by destruct (reply_udp_keeps psk c me l (HelloAck PROTOCOL_VERSION daemon_capabilities) (hst w2)) as (_ & _ & _ & _ & _ & ->).
Qed.

(** C22: On a network that loses nothing and delivers at once ([lan]), between one client and a daemon that serves
    nobody else meanwhile and can open and write the file, pushing a file works up to 28 KiB and not
    beyond.  The daemon handles 30 commands of an address in a minute; the greeting and the
    [FilePush] are two of them and each chunk of 1024 bytes one more.  A client with the key, whose connection and
    address are new to a daemon with fewer than 100 connections, connects, and its push succeeds
    exactly when the file has at most 28672 bytes; then the remote file is the local one, otherwise it is cut off after 28672 bytes
    and the client gives up.  The name of the file fits into a datagram.  (A slower network can
    spread a longer push over several minutes of quota, a lost acknowledgement can end a shorter one.) *)
Theorem push_stops_at_quota `{HexCrate} psk_hex tcp nf i data path fuel w :
  hex_decode psk_hex = Some (arr_bytes psk) → newcomer w → u32_ok i → len data < 2 ^ 63 →
  (24 + length (as_bytes path) <= MAX_PAYLOAD)%nat → (15 <= fuel)%nat →
  ∃ ctx1 w1 r ctx2 w2,
    connect psk_hex [server] tcp nf c w = Some (Ok ctx1, w1)
    ∧ cmd_push fuel i data path (ctx1, w1) = Some (r, (ctx2, w2))
    ∧ is_ok r = bool_decide (length data <= 28 * 1024)%nat
    ∧ disk (hst w2) = <[path := take (28 * 1024) data]> (disk (hst w)).
Proof.
  intros Hhex Hw Hi H63 Hp Hf.
  destruct (connects psk_hex tcp nf w Hhex Hw) as (l & w1 & E1 & Hc1 & Hib1 & Hw1 & Hd1).
  destruct (exchange l (clock w) 1 1 (FilePush i path (len data)) (FileAck i 0) w1)
    as (w2 & pkt & E2 & Hc2 & Hib2 & Hpkt & Hw2 & Hh2); [done|done|split; [done|unfold fits; lia]|done|done|].
  cbn [handle_msg file_push calm open_ok] in Hh2.
  pose proof (reply_udp_keeps psk c me l (FileAck i 0)
    (set_files (<[i:=mkTransfer path 0 (len data)]> (transfers (hst w1))) (<[path:=[]]> (disk (hst w1))) (hst w1)))
    as (_ & _ & _ & _ & Ht & Hd).
  rewrite <-Hh2 in Ht, Hd. cbn [transfers disk set_files] in Ht, Hd. rewrite Hd1 in Hd.
  destruct (chunks_pushed l (clock w) i path (len data) fuel (length data) 2 (wrap 32 2) [] data w2)
    as (r & q & w3 & E3 & Hr & Hd3); try done.
  - rewrite Hc2, Hc1. unfold from_secs. lia.
  - right. exists pkt. by rewrite Hib2, Hib1.
  - intros _. by rewrite Ht, lookup_insert_eq.
  - by rewrite Hd, lookup_insert_eq.
  - exists (ctx 1), w1, r, (ctx q), w3. split_and!; [done| |done|].
    + unfold cmd_push, bind. by rewrite E2.
    + by rewrite Hd3, Hd, insert_insert_eq.
Qed.

(** ** Pulling a file *)

(** A datagram longer than the client's buffer arrives cut off, and what is left does not decrypt. *)
Lemma recv_cut t q m pkt rest w :
  inbox w = pkt :: rest → carries pkt m → (MAX_PACKET < length pkt)%nat → len pkt <= 60000 →
  open_packet psk (take MAX_PACKET pkt) = None →
  Ctl.recv_control t (ctx q, w) = Some (Ok None, (ctx q, mkNet (clock w) (ep w) (hst w) rest)).
Proof.
  intros Hib (hd & _ & _ & Ht & _ & Hpl & _ & _ & Hok & Hpkt) Hlen Hl Hcut.
  unfold Ctl.recv_control, bind, ask. cbn [fst via_tcp ctx].
  unfold recv_parsed, bind, io. cbn [snd fst recv_from network lan]. unfold receive. rewrite Hib.
  assert (He : length (encode hd []) = HEADER_SIZE) by (apply length_encode; by destruct Hok as (_ & _ & _ & _ & _ & _ & _ & ?)).
  set (ct := drop HEADER_SIZE pkt) in *. unfold MAX_PACKET in *.
  assert (Hlc : (MAX_PAYLOAD + 16 < length ct)%nat) by (unfold ct; rewrite length_drop; lia).
  assert (Htk : take (HEADER_SIZE + MAX_PAYLOAD + 16) pkt = encode hd [] ++ take (MAX_PAYLOAD + 16) ct).
  { rewrite Hpkt, <-Nat.add_assoc, <-He. apply take_app_add. }
  unfold open_packet in Hcut. rewrite Htk in *. unfold parse_packet.
  rewrite decode_header_encode in * by done. cbn [mbind option_bind] in *.
  rewrite drop_app_length' in * by done. unfold ret, announced. rewrite length_take, Hpl, Nat2Z.id.
  rewrite Nat.min_r, firstn_all2 by (rewrite ?length_take; lia). cbn [ctx_psk ctx].
  destruct (decrypt psk (nonce hd) _); [done|]. by case_match.
Qed.

(** The daemon answers a native command with two datagrams. *)
Lemma native_answered l T n q i cmd out code w :
  native = Some (out, code) → linked l T n w → 0 <= n < CMD_RATE_LIMIT → inbox w = [] →
  u32_ok i → (∀ z, code = Some z → - 2 ^ 31 <= z < 2 ^ 31) → len out <= 50000 →
  deserialize (serialize (NativeCmd i cmd)) = Some (NativeCmd i cmd) →
  (length (serialize (NativeCmd i cmd)) <= MAX_PAYLOAD)%nat →
  ∃ w1 seq pkt1 pkt2,
    Ctl.send_control (NativeCmd i cmd) (ctx q, w) = Some (Ok tt, (ctx (wrap 32 (q + 1)), w1))
    ∧ clock w1 = clock w ∧ inbox w1 = [pkt1; pkt2] ∧ control_datagram c psk seq (ExecChunk i 0 out) = Some pkt1
    ∧ carries pkt1 (ExecChunk i 0 out) ∧ carries pkt2 (ExecDone i code).
Proof.
  intros Hnat Hw Hn Hib Hi Hcode Hout Hrt Hp.
  destruct (send_read l T n q (NativeCmd i cmd) w Hw) as (w1 & E1 & Hc1 & _ & Hpass);
    [unfold CMD_RATE_LIMIT in Hn; lia|done|done|].
  unfold pass in Hpass. rewrite (proj2 (Z.ltb_lt _ _)) in Hpass by lia. destruct Hpass as [_ Hib1].
  cbn [handle_msg] in Hib1. unfold run_native in Hib1. cbn [calm native_result] in Hib1.
  rewrite Hnat in Hib1. cbn [from_option Datatypes.id reply_on] in Hib1.
  destruct (sealed_carries (default 0 (counters (hst w) !! l)) (ExecChunk i 0 out)) as (pkt1 & Epkt1 & Hpkt1).
  { rewrite codec_length by done. cbn. lia. }
  match type of Hib1 with context [reply_udp psk c me l (ExecDone i code) ?h] =>
    destruct (reply_traces l (ExecDone i code) h) as (pkt2 & Hpkt2 & Htr2); [done|destruct code; cbn; lia|];
    rewrite Htr2 in Hib1; assert (Htr1 : trace h = trace (hst w) ++ [SentUdp me pkt1]);
    [unfold reply_udp; cbn [next_seq]; unfold Daemon.send_control; by rewrite Epkt1|] end.
  rewrite Htr1, <-app_assoc, drop_app_length, Hib in Hib1. cbn in Hib1. rewrite !decide_True in Hib1 by done.
  by exists w1, (default 0 (counters (hst w) !! l)), pkt1, pkt2.
Qed.

(** The output arrives if it fits into a datagram; what arrives of a longer one is no message. *)
Lemma output_received t q i out w seq pkt rest :
  inbox w = pkt :: rest → control_datagram c psk seq (ExecChunk i 0 out) = Some pkt →
  carries pkt (ExecChunk i 0 out) → u32_ok i → len out <= 50000 →
  ((MAX_PACKET < length pkt)%nat → open_packet psk (take MAX_PACKET pkt) = None) →
  Ctl.recv_control t (ctx q, w) =
    Some (Ok (if decide (length out <= 1383)%nat then Some (ExecChunk i 0 out) else None),
          (ctx q, mkNet (clock w) (ep w) (hst w) rest)).
Proof.
  intros Hib Epkt Hpkt Hi Hout Hcut. case_decide.
  - apply recv_carries with pkt; [done..|]. cbn. unfold MAX_PAYLOAD. lia.
  - pose proof Hpkt as (hd & _ & _ & _ & _ & _ & _ & Hlen & _). rewrite codec_length in Hlen by done. cbn in Hlen.
    apply recv_cut with (ExecChunk i 0 out) pkt; try done; [unfold MAX_PACKET, MAX_PAYLOAD, HEADER_SIZE; lia|lia|].
    apply Hcut. unfold MAX_PACKET, MAX_PAYLOAD, HEADER_SIZE. lia.
Qed.

(** Pulling a file works up to 1383 bytes.  The daemon answers with the whole file in one
    datagram, of which the client reads 1454 bytes: a file of at most 1383 bytes is written as it
    is, and for a longer one, if what arrives does not decrypt, the client writes an empty file and
    reports success. *)
Lemma pull_native l T n q i path timeout out code fuel w :
  native = Some (out, code) → linked l T n w → 0 <= n < CMD_RATE_LIMIT → inbox w = [] →
  u32_ok i → (∀ z, code = Some z → - 2 ^ 31 <= z < 2 ^ 31) → len out <= 50000 →
  (20 + length (as_bytes path) <= MAX_PAYLOAD)%nat → 0 < timeout → (2 <= fuel)%nat →
  (∀ seq pkt, control_datagram c psk seq (ExecChunk i 0 out) = Some pkt →
     (MAX_PACKET < length pkt)%nat → open_packet psk (take MAX_PACKET pkt) = None) →
  ∃ ctx' w', cmd_pull fuel i path timeout (ctx q, w) =
    Some (Ok (Some (if decide (length out <= 1383)%nat then out else [])), (ctx', w')).
Proof.
  intros Hnat Hw Hn Hib Hi Hcode Hout Hp Hto Hf Hcut.
  destruct (native_answered l T n q i (ReadFile path) out code w)
    as (w1 & seq & pkt1 & pkt2 & E1 & _ & Hib1 & Epkt1 & Hpkt1 & Hpkt2); try done;
    [by apply codec_roundtrip|by rewrite codec_length|].
  assert (Er : ∀ t, Ctl.recv_control t (ctx (wrap 32 (q + 1)), w1) = _) by
    (intros t; exact (output_received t (wrap 32 (q + 1)) i out w1 seq pkt1 [pkt2] Hib1 Epkt1 Hpkt1 Hi Hout (Hcut _ _ Epkt1))).
  destruct fuel as [|[|fuel]]; [lia..|].
  exists (ctx (wrap 32 (q + 1))), (mkNet (clock w1) (ep w1) (hst w1) []).
  unfold cmd_pull, bind at 1. rewrite E1. unfold bind at 1, ask. cbn [fst snd net_now network lan drain_pull].
  unfold bind at 1, ask. cbn [fst snd net_now network lan].
  assert (Hd : (duration_since (clock w1 + from_secs timeout) (clock w1) =? 0) = false)
    by (apply Z.eqb_neq; unfold duration_since, from_secs; lia).
  rewrite Hd. unfold bind at 1, attempt. rewrite Er.
  assert (E2 : ∀ dl buf, dl = clock w1 + from_secs timeout →
    drain_pull (S fuel) i dl buf (ctx (wrap 32 (q + 1)), mkNet (clock w1) (ep w1) (hst w1) [pkt2]) =
    Some (Ok (Some buf), (ctx (wrap 32 (q + 1)), mkNet (clock w1) (ep w1) (hst w1) []))).
  { intros dl buf ->. cbn [drain_pull]. unfold bind at 1, ask. cbn [fst snd net_now network lan clock].
    rewrite Hd. unfold bind at 1, attempt.
    rewrite (recv_carries _ _ _ pkt2 [] (mkNet (clock w1) (ep w1) (hst w1) [pkt2]) eq_refl Hpkt2); [|done|destruct code; cbn; unfold MAX_PAYLOAD; lia].
    by rewrite Z.eqb_refl. }
  case_decide; rewrite ?Z.eqb_refl; by apply E2.
Qed.
End Exchange.

(** ** Witnesses *)

(** A codec of the sizes of bincode's, for the messages of a push and a pull. *)
Definition pad (n : nat) : list byte := replicate n Byte.x00.
Definition file_serialize (m : ControlMsg) : list byte :=
  match m with
  | FilePush i path size => Byte.x01 :: pad 3 ++ le_bytes 4 i ++ le_bytes 8 size ++ pad 8 ++ as_bytes path
  | FileChunk i off d => Byte.x02 :: pad 3 ++ le_bytes 4 i ++ le_bytes 8 off ++ pad 8 ++ d
  | FileAck i off => Byte.x03 :: pad 3 ++ le_bytes 4 i ++ le_bytes 8 off
  | NativeCmd i (ReadFile path) => Byte.x04 :: pad 3 ++ le_bytes 4 i ++ pad 12 ++ as_bytes path
  | ExecChunk i _ d => Byte.x05 :: pad 3 ++ le_bytes 4 i ++ pad 9 ++ d
  | ExecDone i None => Byte.x06 :: pad 3 ++ le_bytes 4 i ++ pad 1
  | ExecDone i (Some z) => Byte.x07 :: pad 3 ++ le_bytes 4 i ++ pad 1 ++ le_bytes 4 (wrap 32 z)
  | HelloAck _ _ => Byte.x08 :: pad 38
  | ExecSignal i signo => Byte.x0a :: pad 3 ++ le_bytes 4 i ++ le_bytes 4 signo
  | NativeCmd i (Cat path) => Byte.x0b :: pad 3 ++ le_bytes 4 i ++ pad 12 ++ as_bytes path
  | _ => Byte.x09 :: pad 38
  end.
Definition file_deserialize (bs : list byte) : option ControlMsg :=
  let r := drop 4 bs in
  let i := of_le (take 4 r) in
  let o := of_le (take 8 (drop 4 r)) in
  match head bs with
  | Some Byte.x01 => Some (FilePush i (String.string_of_list_byte (drop 20 r)) o)
  | Some Byte.x02 => Some (FileChunk i o (drop 20 r))
  | Some Byte.x03 => Some (FileAck i o)
  | Some Byte.x04 => Some (NativeCmd i (ReadFile (String.string_of_list_byte (drop 16 r))))
  | Some Byte.x05 => Some (ExecChunk i 0 (drop 13 r))
  | Some Byte.x06 => Some (ExecDone i None)
  | Some Byte.x07 => Some (ExecDone i (Some (as_i32 (of_le (drop 5 r)))))
  | Some Byte.x08 => Some (HelloAck PROTOCOL_VERSION daemon_capabilities)
  | Some Byte.x09 => Some hello
  | Some Byte.x0a => Some (ExecSignal i (of_le (drop 4 r)))
  | Some Byte.x0b => Some (NativeCmd i (Cat (String.string_of_list_byte (drop 16 r))))
  | _ => None
  end.
#[local] Instance file_codec : ControlCodec := { serialize := file_serialize; deserialize := file_deserialize }.

Lemma file_fields t i rest :
  u32_ok i → let bs := t :: pad 3 ++ le_bytes 4 i ++ rest in
  head bs = Some t ∧ of_le (take 4 (drop 4 bs)) = i ∧ (∀ k, drop (4 + k) (drop 4 bs) = drop k rest).
Proof.
  intros Hi. split; [done|]. assert (H4 : length (le_bytes 4 i) = 4%nat) by apply length_le_bytes.
  change (drop 4 (t :: pad 3 ++ le_bytes 4 i ++ rest)) with (le_bytes 4 i ++ rest). split.
  - rewrite take_app_length' by done. by apply of_le_le_bytes_id.
  - intros k. by apply drop_app_add'.
Qed.
Lemma file_read t i rest :
  u32_ok i → file_deserialize (t :: pad 3 ++ le_bytes 4 i ++ rest) =
  let o := of_le (take 8 rest) in
  match t with
  | Byte.x01 => Some (FilePush i (String.string_of_list_byte (drop 16 rest)) o)
  | Byte.x02 => Some (FileChunk i o (drop 16 rest))
  | Byte.x03 => Some (FileAck i o)
  | Byte.x04 => Some (NativeCmd i (ReadFile (String.string_of_list_byte (drop 12 rest))))
  | Byte.x05 => Some (ExecChunk i 0 (drop 9 rest))
  | Byte.x06 => Some (ExecDone i None)
  | Byte.x07 => Some (ExecDone i (Some (as_i32 (of_le (drop 1 rest)))))
  | Byte.x08 => Some (HelloAck PROTOCOL_VERSION daemon_capabilities)
  | Byte.x09 => Some hello
  | Byte.x0a => Some (ExecSignal i (of_le rest))
  | Byte.x0b => Some (NativeCmd i (Cat (String.string_of_list_byte (drop 12 rest))))
  | _ => None
  end.
Proof.
  intros Hi. destruct (file_fields t i rest Hi) as (Hh & Hid & Hr). unfold file_deserialize.
  pose proof (Hr 0%nat) as H0. change (drop (4 + 0)) with (drop (A:=byte) 4) in H0. rewrite drop_0 in H0.
  by rewrite Hh, Hid, <-(Hr 12%nat), <-(Hr 16%nat), <-(Hr 9%nat), <-(Hr 1%nat), H0.
Qed.
Lemma as_i32_wrap z : - 2 ^ 31 <= z < 2 ^ 31 → as_i32 (of_le (le_bytes 4 (wrap 32 z))) = z.
Proof.
  intros Hz. rewrite of_le_le_bytes_id by (apply wrap_fits; lia). unfold as_i32, wrap.
  rewrite Zplus_mod_idemp_l, Z.mod_small; lia.
Qed.
Lemma file_tail z (rest : list byte) k :
  of_le (take 8 (le_bytes 8 z ++ rest)) = of_le (le_bytes 8 z)
  ∧ drop (8 + k) (le_bytes 8 z ++ rest) = drop k rest.
Proof.
  split; [rewrite take_app_length'; [done|by rewrite length_le_bytes]|].
  apply drop_app_add'. by rewrite length_le_bytes.
Qed.
Lemma file_size_exact m : file_msg m → length (file_serialize m) = file_size m.
Proof.
  assert (H48 : ∀ z, length (le_bytes 4 z) = 4%nat ∧ length (le_bytes 8 z) = 8%nat)
    by (intros; split; apply length_le_bytes).
  destruct m as [| | | | | | | | | | | | | | | |? []| | |? []|]; try done; intros _;
    cbn -[le_bytes]; rewrite ?length_app, ?(proj1 (H48 _)), ?(proj2 (H48 _)); done.
Qed.
#[local] Instance file_codec_ok : FileCodecOk.
Proof.
  split; [|apply file_size_exact]. intros m Hm.
  change (file_deserialize (file_serialize m) = Some m).
  destruct m as [|i path size|i off d|i off| | | | | | | | |v caps|v caps| |i stream d|i code| |i signo|i cmd|]; try done;
    cbn [file_serialize file_msg] in *.
  - destruct Hm. rewrite file_read by done. destruct (file_tail size (pad 8 ++ as_bytes path) 8) as [E1 E2].
    cbv zeta iota. change (drop (8 + 8)) with (drop (A:=byte) 16) in E2.
    rewrite E1, E2, of_le_le_bytes_id by done. by rewrite drop_app_length', as_bytes_of.
  - destruct Hm. rewrite file_read by done. destruct (file_tail off (pad 8 ++ d) 8) as [E1 E2].
    cbv zeta iota. change (drop (8 + 8)) with (drop (A:=byte) 16) in E2.
    rewrite E1, E2, of_le_le_bytes_id by done. by rewrite drop_app_length'.
  - destruct Hm. rewrite file_read by done. destruct (file_tail off [] 8) as [E1 _].
    rewrite app_nil_r in E1. cbv zeta iota. by rewrite E1, of_le_le_bytes_id.
  - by rewrite Hm.
  - by rewrite Hm.
  - destruct Hm as [Hi ->]. by rewrite file_read.
  - destruct Hm as [Hi Hz]. destruct code as [z|]; rewrite file_read by done; [|done].
    cbv zeta iota. change (drop 1 (pad 1 ++ ?l)) with l. by rewrite as_i32_wrap by by apply Hz.
  - destruct Hm as [Hi Hs]. rewrite <-(app_nil_r (le_bytes 4 signo)), file_read by done. cbv zeta iota.
    by rewrite app_nil_r, of_le_le_bytes_id.
  - destruct cmd; try done; rewrite file_read by done; cbv zeta iota;
      change (drop 12 (pad 12 ++ ?l)) with l; by rewrite as_bytes_of.
Qed.

#[local] Instance tag_aead_total : AeadTotal.
Proof. intros k n p Hn _. cbn. rewrite decide_True by done. by eexists. Qed.

Definition here : SocketAddr := mkAddr (V4 0x0A000002) 4000.
Definition there : SocketAddr := mkAddr (V4 0x0A000003) 9876.
Definition idle_net : Net :=
  mkNet 0 (mkEndpoint ∅ RateLimiter.new) (mkHost [] ∅ 0 ∅ ∅ ∅ ∅ []) [].
(** A network over which the file of the next lemma but one is read. *)
Definition sample_out : option (list byte * option Z) := Some ([Byte.x68; Byte.x69], Some 0).
#[local] Instance sample_lan : Network Net := lan sample_psk here there sample_out.

Lemma push_stops_at_quota_witness :
  let data := [Byte.x68; Byte.x69] in
  ∃ ctx1 w1 r ctx2 w2,
    connect (hex_encode (arr_bytes sample_psk)) [there] there "none" 42 idle_net = Some (Ok ctx1, w1)
    ∧ cmd_push 15 7 data "/tmp/hi" (ctx1, w1) = Some (r, (ctx2, w2))
    ∧ is_ok r = bool_decide (length data <= 28 * 1024)%nat
    ∧ disk (hst w2) = <["/tmp/hi"%string := take (28 * 1024) data]> (disk (hst idle_net)).
Proof.
  intros data. apply (push_stops_at_quota sample_psk here there sample_out 42); try done.
  - split_and!; try done. by vm_compute; lia.
  - vm_compute; lia.
Defined.

(** The daemon with the connection 42 of the client. *)
Definition linked_net : Net :=
  mkNet 0 (mkEndpoint {[ 42 := set_state Established (Connection.new 0 42 here 0) ]} (mkLimiter ∅ {[ ip here := (0, 1) ]}))
    (mkHost [0] ∅ 0 ∅ ∅ ∅ ∅ []) [].
