(* ===== verification/NativeFs.v ===== *)
(** * NativeFs: the file commands of the daemon

    Models crates/daemon/src/native_cmd/fs.rs, and the operating system that all
    native commands ask ([Os]): the files with their faults (Disk.v), listings,
    metadata, environment variables, and what programs that are started print.
    File names are valid UTF-8. *)
From S2P Require Import Prelude Text Lines Disk Identity.
From Stdlib Require Import Ascii.
#[local] Open Scope Z_scope.

(** ** The operating system *)

Record Output := mkOutput { stdout : list byte; stderr : list byte; code : option Z }.

(** What [stat] tells; [debug] is how the standard library prints the permissions. *)
Inductive FileKind := KDir | KSymlink | KOther.
Record Meta := mkMeta {
  kind : FileKind; mode : Z; nlink : Z; uid : Z; gid : Z; msize : Z; blocks : Z; blksize : Z;
  dev : Z; rdev : Z; ino : Z; debug : string
}.

(** [read_fault]: a file that exists cannot be read.  [dir]: the names in a directory in the order
    of the system; [lstat] does not follow a link, [stat] does.  [run]: a program with its
    arguments, or why it does not start.  [accepts]: whether a text is a socket address that accepts
    a TCP connection in time.  [links]: the symbolic links that were made, with their targets; reading
    does not follow them. *)
Record Os := mkOs {
  disk : Disk;
  links : gmap string string;
  remove_fault : string → option string;
  read_fault : string → option string;
  dir : string → result (list string) string;
  lstat : string → option Meta;
  stat : string → option Meta;
  var : string → option string;
  run : list string → result Output string;
  accepts : string → bool
}.
Definition set_disk (d : Disk) (o : Os) : Os :=
  mkOs d (links o) (remove_fault o) (read_fault o) (dir o) (lstat o) (stat o) (var o) (run o) (accepts o).

Definition set_links (l : gmap string string) (o : Os) : Os :=
  mkOs (disk o) l (remove_fault o) (read_fault o) (dir o) (lstat o) (stat o) (var o) (run o) (accepts o).

Definition ENOENT : string := "No such file or directory (os error 2)".
(** [fs::read], [fs::read_to_string] *)
Definition read (o : Os) (path : string) : result (list byte) string :=
  match read_fault o path with
  | Some e => Err e
  | None => ok_or (files (disk o) !! path) ENOENT
  end.
Definition read_to_string (o : Os) (path : string) : result string string :=
  let? d := read o path in ok_or (from_utf8 d) "stream did not contain valid UTF-8"%string.
(** [Path::exists], [Path::is_dir] *)
Definition exists_ (o : Os) (path : string) : bool :=
  bool_decide (is_Some (stat o path)) || bool_decide (is_Some (files (disk o) !! path)).
Definition is_dir (o : Os) (path : string) : bool :=
  match stat o path with Some m => match kind m with KDir => true | _ => false end | None => false end.
(** [fs::remove_file] *)
Definition remove_file (path : string) (o : Os) : result unit string * Os :=
  match remove_fault o path with
  | Some e => (Err e, o)
  | None =>
      if decide (is_Some (links o !! path)) then (Ok tt, set_links (delete path (links o)) o)
      else if decide (is_Some (files (disk o) !! path))
      then (Ok tt, set_disk (mkDisk (delete path (files (disk o))) (dir_fault (disk o)) (write_fault (disk o))) o)
      else (Err ENOENT, o)
  end.
(** [fs::create_dir_all(dir)] and [symlink(src, link)] with their results dropped; [dir] is the
    parent of [link]. *)
Definition make_link (src link : string) (o : Os) : Os :=
  if decide (dir_fault (disk o) link = None ∧ links o !! link = None ∧ files (disk o) !! link = None)
  then set_links (<[link := src]> (links o)) o else o.
(** [Path::join] of a name *)
Definition path_join (p name : string) : string :=
  if decide (p = ""%string) then name
  else if ends_with "/" p then p +:+ name else p +:+ "/" +:+ name.

(** The output of a command and its exit code. *)
Definition Out : Type := list byte * option Z.
Definition text (s : string) (exit : Z) : Out := (as_bytes s, Some exit).
(** [Command::new(..).args(..).output()], printing its output; [name] begins the error text. *)
Definition run_program (o : Os) (name : string) (exit : Z) (argv : list string) : Out :=
  match run o argv with
  | Ok r => (stdout r, code r)
  | Err e => text (name +:+ " error: " +:+ e +:+ nl) exit
  end.
Definition flag (b : bool) (arg : string) : list string := if b then [arg] else [].

(** [format!("{:o}", z)] for [z] of at most 64 bits *)
Fixpoint octal_digits (fuel : nat) (z : Z) (acc : string) : string :=
  match fuel with
  | O => acc
  | S fuel =>
      let acc := String (ascii_of_nat (48 + Z.to_nat (z mod 8))) acc in
      if z <? 8 then acc else octal_digits fuel (z / 8) acc
  end.
Definition octal (z : Z) : string := octal_digits 22 z "".
Definition octal4 (z : Z) : string := zeros (4 - String.length (octal z)) (octal z).

(** ** The commands *)

Definition ls_line (o : Os) (path : string) (long : bool) (name : string) : string :=
  match (if long then lstat o (path_join path name) else None) with
  | Some m =>
      match kind m with KDir => "d" | KSymlink => "l" | KOther => "-" end +:+ octal4 (Z.land (mode m) 4095)
        +:+ " " +:+ pad_left 3 (pretty (nlink m)) +:+ " " +:+ pad_left 8 (pretty (uid m))
        +:+ " " +:+ pad_left 8 (pretty (gid m)) +:+ " " +:+ pad_left 8 (pretty (msize m)) +:+ "  " +:+ name +:+ nl
  | None => name +:+ nl
  end%string.
Definition cmd_ls (o : Os) (path : string) (long all : bool) : Out :=
  match dir o path with
  | Err e => text ("ls: " +:+ path +:+ ": " +:+ e +:+ nl) 2
  | Ok names =>
      let shown := filter (λ n, all = true ∨ starts_with "." n = false) (sort_by String.compare names) in
      text (String.concat "" (ls_line o path long <$> shown)) 0
  end.

Definition cmd_cat (o : Os) (path : string) : Out :=
  match read o path with
  | Ok d => (d, Some 0)
  | Err e => text ("cat: " +:+ path +:+ ": " +:+ e +:+ nl) 1
  end.
Definition cmd_head (o : Os) (path : string) (n : Z) : Out :=
  match read_to_string o path with
  | Ok c => text (unlines (take (Z.to_nat n) (lines c))) 0
  | Err e => text ("head: " +:+ path +:+ ": " +:+ e +:+ nl) 1
  end.
Definition cmd_tail (o : Os) (path : string) (n : Z) : Out :=
  match read_to_string o path with
  | Ok c =>
      let l := lines c in
      let start := if (length l <=? Z.to_nat n)%nat then 0%nat else (length l - Z.to_nat n)%nat in
      text (unlines (drop start l)) 0
  | Err e => text ("tail: " +:+ path +:+ ": " +:+ e +:+ nl) 1
  end.

(** On Linux; without metadata the text for other platforms. *)
Definition cmd_stat (o : Os) (path : string) : Out :=
  match stat o path with
  | Some m =>
      text ("  File: " +:+ path +:+ nl
        +:+ "  Size: " +:+ pretty (msize m) +:+ "    Blocks: " +:+ pretty (blocks m)
        +:+ "    IO Block: " +:+ pretty (blksize m) +:+ nl
        +:+ "Device: " +:+ pretty (dev m) +:+ "/" +:+ pretty (rdev m) +:+ "    Inode: " +:+ pretty (ino m)
        +:+ "    Links: " +:+ pretty (nlink m) +:+ nl
        +:+ "Access: (" +:+ octal4 (Z.land (mode m) 4095) +:+ "/" +:+ debug m +:+ ")  Uid: " +:+ pretty (uid m)
        +:+ "  Gid: " +:+ pretty (gid m) +:+ nl) 0
  | None => text ("  File: " +:+ path +:+ nl +:+ "  (metadata unavailable on this platform)" +:+ nl) 1
  end.

(** The lines that contain the pattern, numbered from 1. *)
Definition matching (pattern : string) (ls : list string) : list (nat * string) :=
  filter (λ il, contains pattern il.2 = true) (zip (seq 1 (length ls)) ls).
Definition exit_of (m : nat) : Z := if (0 <? m)%nat then 0 else 1.
(** [fuel] bounds the depth of the directories: links can make it endless. *)
Fixpoint grep_walk (fuel : nat) (o : Os) (p pattern : string) (ln cnt : bool) : string * nat :=
  match fuel with
  | O => (EmptyString, 0%nat)
  | S fuel =>
      match dir o p with
      | Err _ => (EmptyString, 0%nat)
      | Ok names =>
          foldl (λ '(out, t) name,
            let f := path_join p name in
            if is_dir o f then let '(out', t') := grep_walk fuel o f pattern ln cnt in (out +:+ out', (t + t')%nat)
            else match read_to_string o f with
                 | Err _ => (out, t)
                 | Ok c =>
                     let ms := matching pattern (lines c) in
                     (if cnt then out
                      else out +:+ String.concat "" ((λ '(i, l),
                        f +:+ (if ln then ":" +:+ pretty i +:+ ":" else ":") +:+ l +:+ nl) <$> ms),
                      (t + length ms)%nat)
                 end) (EmptyString, 0%nat) names
      end
  end.
Definition cmd_grep (fuel : nat) (o : Os) (pattern path : string) (recursive ln cnt : bool) : Out :=
  if recursive then
    let '(out, total) := grep_walk fuel o path pattern ln cnt in
    text (if cnt then pretty total +:+ nl else out) (exit_of total)
  else
    match read_to_string o path with
    | Err e => text ("grep: " +:+ path +:+ ": " +:+ e +:+ nl) 2
    | Ok c =>
        let ms := matching pattern (lines c) in
        text (if cnt then path +:+ ":" +:+ pretty (length ms) +:+ nl
              else String.concat "" ((λ '(i, l), (if ln then path +:+ ":" +:+ pretty i +:+ ":" else "") +:+ l +:+ nl) <$> ms))
             (exit_of (length ms))
    end.

Definition opt_arg (name : string) (v : option string) : list string :=
  match v with Some v => [name; v] | None => [] end.
Definition cmd_find (o : Os) (path : string) (name type_ : option string) (maxdepth : Z) : Out :=
  run_program o "find" 1 (["/usr/bin/find"; path]
    ++ (if 0 <? maxdepth then ["-maxdepth"; pretty maxdepth] else []) ++ opt_arg "-name" name ++ opt_arg "-type" type_).
Definition cmd_tree (o : Os) (path : string) (depth : Z) (dirs_only : bool) : Out :=
  run_program o "tree" 1 (["/usr/bin/tree"]
    ++ (if 0 <? depth then ["-L"; pretty depth] else []) ++ flag dirs_only "-d" ++ [path]).
Definition cmd_du (o : Os) (path : string) (summarize : bool) (maxdepth : Z) : Out :=
  run_program o "du" 1 (["/usr/bin/du"; "-h"] ++ flag summarize "-s"
    ++ (if 0 <? maxdepth then ["--max-depth"; pretty maxdepth] else []) ++ [path]).
Definition cmd_df (o : Os) (human : bool) : Out := run_program o "df" 1 (["/usr/bin/df"] ++ flag human "-h").
Definition cmd_mount (o : Os) : Out := run_program o "mount" 1 ["/usr/bin/mount"].
Definition cmd_mkdir (o : Os) (recursive : bool) (paths : list string) : Out :=
  run_program o "mkdir" 1 (["/usr/bin/mkdir"] ++ flag recursive "-p" ++ paths).
Definition cmd_rm (o : Os) (recursive force : bool) (paths : list string) : Out :=
  run_program o "rm" 1 (["/usr/bin/rm"] ++ flag recursive "-r" ++ flag force "-f" ++ paths).
Definition cmd_mv (o : Os) (src dest : string) : Out := run_program o "mv" 1 ["/usr/bin/mv"; src; dest].
Definition cmd_cp (o : Os) (recursive : bool) (src dest : string) : Out :=
  run_program o "cp" 1 (["/usr/bin/cp"] ++ flag recursive "-r" ++ [src; dest]).
Definition cmd_chmod (o : Os) (mode : string) (paths : list string) : Out :=
  run_program o "chmod" 1 (["/usr/bin/chmod"; mode] ++ paths).
Definition cmd_chown (o : Os) (owner : string) (paths : list string) : Out :=
  run_program o "chown" 1 (["/usr/bin/chown"; owner] ++ paths).
Definition cmd_diff (o : Os) (file1 file2 : string) : Out :=
  run_program o "diff" 1 ["/usr/bin/diff"; "-u"; file1; file2].
Definition cmd_wc (o : Os) (ls words : bool) (paths : list string) : Out :=
  run_program o "wc" 1 (["/usr/bin/wc"] ++ flag ls "-l" ++ flag words "-w" ++ flag (negb ls && negb words) "-l" ++ paths).

(** [md5] is the function of the crate of that name. *)
Class Md5Crate := md5 : list byte → list byte.
Definition cmd_checksum `{Sha256Crate} `{Md5Crate} (o : Os) (path algorithm : string) : Out :=
  match read o path with
  | Err e => text (path +:+ ": " +:+ e +:+ nl) 1
  | Ok d =>
      let sum := if bool_decide (algorithm = "md5"%string) || bool_decide (algorithm = "md5sum"%string)
                 then md5 d else arr_bytes (sha256 d) in
      text (lower_hex sum +:+ "  " +:+ path +:+ nl) 0
  end.
