(* ===== verification/NativeSystem.v ===== *)
(** * NativeSystem: what the daemon tells about its machine

    Models crates/daemon/src/native_cmd/system.rs and exec.rs: the readers of /proc
    and /sys, and the programs that are started.  [kmsg] is what reading the
    kernel's log gives, read by read. *)
From Stdlib Require Import Floats.SpecFloat Ascii.
From S2P Require Import Prelude Text Lines Float Disk NativeFs.
#[local] Open Scope Z_scope.

(** An unreadable file is an empty one. *)
Definition read_proc (o : Os) (path : string) : string :=
  match read_to_string o path with Ok s => s | Err _ => EmptyString end.
(** The first line that starts with [k]. *)
Definition find_line (k s : string) : option string := head (filter (λ l, starts_with k l = true) (lines s)).
(** [split_whitespace().nth(i)] *)
Definition word (i : nat) (l : string) : option string := split_whitespace l !! i.
(** The number after a key of /proc/meminfo. *)
Definition kv (mem k : string) : Z :=
  default 0 (l ← find_line k mem; v ← word 1 l; parse_uint 64 v).
Definition unwrap_or_empty (r : result string string) : string := match r with Ok s => s | Err _ => EmptyString end.

(** ** exec.rs *)

Definition uptime_line (s : string) : string :=
  let secs := default (f64_of_Z 0) (w ← word 0 s; parse_f64 w) in
  let d := f64_to_u64 (fdiv secs (f64_of_Z 86400)) in
  let h := f64_to_u64 (fdiv (frem secs 86400) (f64_of_Z 3600)) in
  let m := f64_to_u64 (fdiv (frem secs 3600) (f64_of_Z 60)) in
  "up " +:+ pretty d +:+ " days, " +:+ pad 2 h +:+ ":" +:+ pad 2 m +:+ nl.
Definition cmd_uptime (o : Os) : Out := text (uptime_line (read_proc o "/proc/uptime")) 0.
Definition cmd_watch_fn (o : Os) (cmds : list string) : Out :=
  match run o ["/bin/sh"; "-c"; join " " cmds] with
  | Ok r =>
      (match stderr r with
       | [] => stdout r
       | _ => match stdout r with [] => stderr r | _ => stdout r ++ as_bytes nl ++ stderr r end
       end, code r)
  | Err e => text ("Watch error: " +:+ e +:+ nl) (-1)
  end.

(** ** system.rs *)

Definition cmd_hostname (o : Os) : Out := text (trim (read_proc o "/proc/sys/kernel/hostname")) 0.

Definition hfmt (s : Z) : string :=
  if s <? 1024 then pretty s +:+ "B" else
  let kb := s / 1024 in
  if kb <? 1024 then pretty kb +:+ "K" else
  let mb := kb / 1024 in
  if mb <? 1024 then pretty mb +:+ "." +:+ pretty (kb mod 1024 * 10 / 1024) +:+ "M"
  else pretty (mb / 1024) +:+ "." +:+ pretty (mb mod 1024 * 10 / 1024) +:+ "G".
(** The table of [cmd_free]: total, used, free and available bytes; swap total, used, free. *)
Definition free_text (human : bool) (mt mu mf ma st su sf : Z) : string :=
  let w := if human then 8%nat else 12%nat in
  let show z := pad_left w (if human then hfmt z else pretty z) in
  "              Mem:" +:+ nl
    +:+ pad_left w "total" +:+ " " +:+ pad_left w "used" +:+ " " +:+ pad_left w "free" +:+ " " +:+ pad_left w "avail" +:+ nl
    +:+ show mt +:+ " " +:+ show mu +:+ " " +:+ show mf +:+ " " +:+ show ma +:+ nl
    +:+ "              Swap: " +:+ show st +:+ " " +:+ show su +:+ " " +:+ show sf +:+ nl.
Definition free_of_mem (human : bool) (mem : string) : string :=
  let bytes k := wrap 64 (kv mem k * 1024) in
  let mt := bytes "MemTotal:" in let mf := bytes "MemFree:" in let ma := bytes "MemAvailable:" in
  let st := bytes "SwapTotal:" in let sf := bytes "SwapFree:" in
  free_text human mt (saturating_sub mt ma) mf ma st (saturating_sub st sf) sf.
Definition cmd_free (o : Os) (human : bool) : Out := text (free_of_mem human (read_proc o "/proc/meminfo")) 0.

Definition cmd_cpu (o : Os) : Out :=
  text (unlines (filter (λ l, starts_with "processor" l || starts_with "model name" l
                              || starts_with "cpu MHz" l || starts_with "cache size" l = true)
                   (lines (read_proc o "/proc/cpuinfo")))) 0.
Definition kernel (o : Os) (name : string) : string := read_proc o ("/proc/sys/kernel/" +:+ name).
Definition uname_text (o : Os) (all release machine : bool) : string :=
  if all then
    join " " ((λ n, trim (kernel o n)) <$> ["ostype"; "hostname"; "osrelease"; "version"; "arch"]) +:+ nl
  else if release then kernel o "osrelease"
  else if machine then kernel o "arch"
  else kernel o "ostype".
Definition cmd_uname (o : Os) (all release machine : bool) : Out := text (uname_text o all release machine) 0.
Definition cmd_whoami (o : Os) : Out :=
  text (match (match var o "USER" with Some u => Some u | None => var o "LOGNAME" end) with
        | Some u => (if decide (u = "") then "unknown" else u) +:+ nl
        | None => "unknown" +:+ nl
        end) 0.

(** The processes of /proc, in its order. *)
Definition pids (o : Os) : list Z :=
  match dir o "/proc" with Ok names => omap (parse_uint 32) names | Err _ => [] end.
Definition proc_file (o : Os) (pid : Z) (name : string) : string :=
  read_proc o ("/proc/" +:+ pretty pid +:+ "/" +:+ name).
Definition NUL : string := String (ascii_of_nat 0) "".
Definition TAB : ascii := ascii_of_nat 9.
(** Total and running processes, and the table of the twenty with the most processor time. *)
Definition proc_name (o : Os) (name : string) : string := "/proc/" +:+ name +:+ "/status".
Definition task_counts (o : Os) : Z * Z :=
  let names := match dir o "/proc" with Ok ns => filter (λ n, is_Some (parse_uint 32 n)) ns | Err _ => [] end in
  (wrap 32 (len names),
   wrap 32 (len (filter (λ n, match find_line "State:" (read_proc o (proc_name o n)) with
                              | Some l => contains "running" l | None => false end = true) names))).
(** Process, processor time, virtual and resident size. *)
Definition proc_usage (o : Os) (pid : Z) : option (Z * f64 * Z * Z) :=
  let f := split_whitespace (proc_file o pid "stat") in
  let num i := default 0 (w ← f !! i; parse_uint 64 w) in
  if (length f <? 24)%nat then None
  else Some (pid, f64_of_Z (wrap 64 (num 13%nat + num 14%nat)), num 22%nat, wrap 64 (num 23%nat * 4)).
Definition by_time (a b : Z * f64 * Z * Z) : comparison :=
  match SFcompare b.1.1.2 a.1.1.2 with Some c => c | None => Eq end.
Definition top_line (o : Os) (p : Z * f64 * Z * Z) : string :=
  let '(pid, _, vsz, rss) := p in
  let cl := proc_file o pid "cmdline" in
  let cmd := if decide (cl = "") then "[" +:+ pretty pid +:+ "]"
             else default "?" (word 0 (replace NUL " " cl)) in
  pad_left 5 (pretty pid) +:+ " ?        20   0 " +:+ pad_left 7 (pretty (vsz / 1024)) +:+ " "
    +:+ pad_left 7 (pretty (rss / 1024)) +:+ " ?    S   0.0  0.0   0:00.00 " +:+ cmd +:+ nl.
Definition cmd_top_snapshot (o : Os) : string :=
  let '(total, running) := task_counts o in
  let mem := read_proc o "/proc/meminfo" in
  let mt := kv mem "MemTotal:" / 1024 in let mf := kv mem "MemFree:" / 1024 in
  let ma := kv mem "MemAvailable:" / 1024 in
  let show z := pad_left 8 (format_fixed 1 (fdiv (f64_of_Z z) (f64_of_Z 1024))) in
  "top - native" +:+ nl +:+ nl
    +:+ "load average: " +:+ join " " (take 3 (split_whitespace (read_proc o "/proc/loadavg"))) +:+ nl +:+ nl
    +:+ "Tasks: " +:+ pretty total +:+ " total, " +:+ pretty running +:+ " running" +:+ nl
    +:+ "MiB Mem: " +:+ show mt +:+ " total, " +:+ show mf +:+ " free, " +:+ show (saturating_sub mt ma)
    +:+ " used, " +:+ show ma +:+ " avail" +:+ nl
    +:+ nl +:+ "  PID USER      PR  NI    VIRT    RES    SHR S  %CPU  %MEM     TIME+ COMMAND" +:+ nl
    +:+ String.concat "" (top_line o <$> take 20 (sort_by by_time (omap (proc_usage o) (pids o)))).

Definition ps_line (o : Os) (full : bool) (user : option string) (pid : Z) : string :=
  let status := proc_file o pid "status" in
  let cl := proc_file o pid "cmdline" in
  let st := default "?" (l ← find_line "State:" status; word 1 l) in
  let pn := trim (default "" (l ← find_line "Name:" status; split TAB l !! 1%nat)) in
  let cmd := trim (if decide (cl = "") then "[" +:+ pn +:+ "]" else replace NUL " " cl) in
  if negb full then
    pad_left 5 (pretty pid) +:+ " " +:+ pad_right 8 "?" +:+ " 00:00:00 " +:+ cmd +:+ nl
  else
    if match user with Some u => negb (bool_decide (pn = u)) | None => false end then "" else
    let f := split_whitespace (proc_file o pid "stat") in
    pad_right 8 "?" +:+ " " +:+ pad_left 5 (pretty pid) +:+ " " +:+ pad_left 5 "0.0" +:+ " " +:+ pad_left 5 "0.0"
      +:+ " " +:+ pad_left 7 (default "0" (f !! 22%nat)) +:+ " " +:+ pad_left 7 (default "0" (f !! 23%nat))
      +:+ " " +:+ pad_right 8 "?" +:+ " " +:+ pad_right 9 st +:+ " " +:+ pad_right 10 "00:00:00" +:+ " " +:+ cmd +:+ nl.
Definition cmd_ps (o : Os) (full : bool) (user : option string) (tree : bool) : Out :=
  if tree then text (cmd_top_snapshot o) 0 else
  match dir o "/proc" with
  | Err _ => text ("ps: /proc not available" +:+ nl) 1
  | Ok _ =>
      text ((if full then "USER       PID %CPU %MEM    VSZ    RSS TTY      STAT   START   TIME COMMAND"
             else "  PID TTY          TIME CMD") +:+ nl
              +:+ String.concat "" (ps_line o full user <$> pids o)) 0
  end.
Definition cmd_info (o : Os) : Out :=
  text (uname_text o true false false +:+ "---" +:+ nl
    +:+ match find_line "model name" (read_proc o "/proc/cpuinfo") with Some l => l +:+ nl | None => "" end
    +:+ "---" +:+ nl +:+ free_of_mem true (read_proc o "/proc/meminfo")
    +:+ "---" +:+ nl +:+ uptime_line (read_proc o "/proc/uptime")) 0.

(** The last [n] lines, if there are more and [n] is not 0. *)
Definition last_lines (n : Z) (s : string) : string :=
  let lv := lines s in
  if (0 <? n) && (Z.to_nat n <? length lv)%nat
  then join nl (drop (length lv - Z.to_nat n) lv) +:+ nl else s.
(** [kmsg]: what the reads of /dev/kmsg give until one fails; [None] if it does not open. *)
Definition cmd_dmesg (o : Os) (kmsg : option (list (list byte))) (n : Z) : Out :=
  let t := match kmsg with Some rs => String.concat "" (from_utf8_lossy <$> take 128 rs) | None => "" end in
  let t := if decide (t = "") then unwrap_or_empty (read_to_string o "/var/log/kern.log") else t in
  let t := if decide (t = "")
           then unlines (filter (λ l, contains "kernel:" l = true)
                  (lines (unwrap_or_empty (read_to_string o "/var/log/syslog")))) else t in
  let t := last_lines n t in
  if decide (t = "") then text ("dmesg: kernel log not available" +:+ nl) 1 else text t 0.

Definition block_size_text (size : Z) : string :=
  let in_units unit := format_fixed 1 (fdiv (fmul (f64_of_Z size) (f64_of_Z 512)) (f64_of_Z unit)) in
  if size =? 0 then "0"
  else if 2097152 <=? size then in_units 1073741824 +:+ "G"
  else if 2048 <=? size then in_units 1048576 +:+ "M"
  else in_units 1024 +:+ "K".
Definition cmd_lsblk (o : Os) : Out :=
  let line name :=
    let file f := trim (read_proc o (path_join (path_join "/sys/block" name) f)) in
    let size := default 0 (parse_uint 64 (file "size")) in
    pad_right 8 name +:+ " 0:0    0 " +:+ pad_left 7 (block_size_text size) +:+ " " +:+ file "ro" +:+ " disk" +:+ nl in
  text ("NAME    MAJ:MIN RM   SIZE RO TYPE MOUNTPOINT" +:+ nl
    +:+ match dir o "/sys/block" with Ok names => String.concat "" (line <$> names) | Err _ => "" end) 0.

Definition cmd_who (o : Os) : Out := run_program o "who" 1 ["/usr/bin/who"].
Definition cmd_kill (o : Os) (pid signal : Z) : Out :=
  run_program o "kill" 1 ["/usr/bin/kill"; "-" +:+ pretty signal; pretty pid].
Definition cmd_pgrep (o : Os) (name : string) (full count : bool) : Out :=
  match run o (["/usr/bin/pgrep"] ++ flag full "-f" ++ flag count "-c" ++ [name]) with
  | Ok r =>
      (if bool_decide (code r = Some 0) || bool_decide (code r = Some 1) then stdout r else stderr r, code r)
  | Err e => text ("pgrep error: " +:+ e +:+ nl) 1
  end.
Definition cmd_ssh_check (o : Os) : Out :=
  match run o ["/usr/bin/ssh"; "-V"] with
  | Ok r => text ("SSH available: " +:+ default "unknown" (head (lines (from_utf8_lossy (stderr r)))) +:+ nl) 0
  | Err e => text ("SSH not available: " +:+ e +:+ nl) 1
  end.
Definition cmd_last (o : Os) (n : Z) : Out :=
  run_program o "last" 1 (["/usr/bin/last"] ++ (if 0 <? n then ["-" +:+ pretty n] else [])).
