(* ===== verification/NativeAdmin.v ===== *)
(** * NativeAdmin: services, packages, the network

    Models network.rs, service.rs, pkg.rs, cron.rs and firewall.rs of
    crates/daemon/src/native_cmd/.  A command that changes the machine returns it. *)
From S2P Require Import Prelude Text Lines Frame Disk NativeFs NativeSystem.
From Stdlib Require Import Ascii.
#[local] Open Scope Z_scope.

(** ** network.rs *)

Definition hex_value (a : ascii) : option Z :=
  let n := Z.of_nat (nat_of_ascii a) in
  if (48 <=? n) && (n <=? 57) then Some (n - 48)
  else if (65 <=? n) && (n <=? 70) then Some (n - 55)
  else if (97 <=? n) && (n <=? 102) then Some (n - 87) else None.
Fixpoint parse_hex_digits (w acc : Z) (s : string) : option Z :=
  match s with
  | EmptyString => Some acc
  | String a s => d ← hex_value a; if acc * 16 + d <? 2 ^ w then parse_hex_digits w (acc * 16 + d) s else None
  end.
(** [uN::from_str_radix(s, 16).ok()] at width [w] *)
Definition parse_hex (w : Z) (s : string) : option Z :=
  match s with
  | EmptyString => None
  | String a s' =>
      if Ascii.eqb a "+"%char then match s' with EmptyString => None | _ => parse_hex_digits w 0 s' end
      else parse_hex_digits w 0 s
  end.
(** An address of /proc/net/tcp; [None]: a slice that cuts a character panics. *)
Definition hex2addr (s : string) : option string :=
  match split ":" s with
  | h :: p :: _ =>
      let port := default 0 (parse_hex 16 p) in
      if (String.length h =? 8)%nat then
        if forallb (λ i, char_boundary i h) [2; 4; 6]%nat then
          let b i := default 0 (parse_hex 8 (String.substring (2 * i) 2 h)) in
          Some (pretty (b 3%nat) +:+ "." +:+ pretty (b 2%nat) +:+ "." +:+ pretty (b 1%nat) +:+ "." +:+ pretty (b 0%nat)
                  +:+ ":" +:+ pretty port)
        else None
      else Some ("[" +:+ h +:+ "]:" +:+ pretty port)
  | _ => Some s
  end.
Definition cmd_arp (o : Os) : Out := text (read_proc o "/proc/net/arp") 0.
Definition net_header : string :=
  "Proto Recv-Q Send-Q Local Address           Foreign Address         State" +:+ nl.
Definition tcp_state (s : string) : string :=
  let v := default 0 (parse_hex 8 s) in if v =? 10 then "LISTEN" else if v =? 1 then "ESTABLISHED" else "OTHER".
(** A line of the table; the empty text for a line that is left out. *)
Definition net_line (proto : string) (state : string → string) (listening : bool) (line : string) : option string :=
  match split_whitespace line with
  | _ :: local :: remote :: st :: _ =>
      if listening && negb (bool_decide (state st = "LISTEN")) then Some "" else
      l ← hex2addr local; r ← hex2addr remote;
      Some (proto +:+ "    0      0 " +:+ pad_right 22 l +:+ " " +:+ pad_right 22 r +:+ " " +:+ state st +:+ nl)
  | _ => Some ""
  end.
Definition net_table (o : Os) (file proto : string) (state : string → string) (listening : bool) : option string :=
  rows ← mapM (net_line proto state listening) (drop 1 (lines (read_proc o file)));
  Some (String.concat "" rows).
(** [None]: the thread panics. *)
Definition cmd_netstat (o : Os) (tcp udp listening : bool) : option Out :=
  t ← (if tcp || (negb tcp && negb udp) then
         rows ← net_table o "/proc/net/tcp" "tcp" tcp_state listening; Some (net_header +:+ rows)
       else Some "");
  u ← (if udp then
         rows ← net_table o "/proc/net/udp" "udp" (λ _, "ESTABLISHED") false; Some (nl +:+ net_header +:+ rows)
       else Some "");
  Some (text (t +:+ u) 0).

Definition ports (start end_ : Z) : list Z := seqZ start (end_ - start + 1).
Definition cmd_portscan (o : Os) (host : string) (start end_ : Z) : Out :=
  text ("Scanning ports " +:+ pretty start +:+ "-" +:+ pretty end_ +:+ " on " +:+ host +:+ nl
    +:+ String.concat "" ((λ p, "Port " +:+ pretty p +:+ " is open" +:+ nl)
          <$> filter (λ p, accepts o (host +:+ ":" +:+ pretty p) = true) (ports start end_))) 0.
Definition cmd_dns (o : Os) (hostname : string) : Out :=
  match run o ["/usr/bin/getent"; "hosts"; hostname] with
  | Ok r => (stdout r, code r)
  | Err _ =>
      match run o ["/usr/bin/host"; hostname] with
      | Ok r => (stdout r, code r)
      | Err e => text ("dns lookup error: " +:+ e +:+ nl) 1
      end
  end.
Definition cmd_ip (o : Os) : Out :=
  let file name f := trim (read_proc o (path_join (path_join "/sys/class/net" name) f)) in
  let entry name :=
    "2: " +:+ name +:+ ": <" +:+ (if decide (file name "operstate" = "up") then "UP,LOWER_UP" else "DOWN")
      +:+ "> mtu " +:+ file name "mtu" +:+ nl +:+ "    link/ether " +:+ file name "address" +:+ nl in
  text ("1: lo: <LOOPBACK> mtu 65536" +:+ nl +:+ "    inet 127.0.0.1/8 scope host lo" +:+ nl
    +:+ match dir o "/sys/class/net" with
        | Ok names => String.concat "" (entry <$> filter (λ n, n ≠ "lo") names)
        | Err _ => ""
        end) 0.

(** ** service.rs *)

(** [v.dedup()] of a sorted vector *)
Fixpoint dedup (l : list string) : list string :=
  match l with
  | x :: (y :: _) as l' => if decide (x = y) then dedup l' else x :: dedup l'
  | _ => l
  end.
Definition service_suffix : string := ".service".
(** The processes whose command line contains [n]. *)
Definition running_pids (o : Os) (n : string) : list Z :=
  filter (λ p, match read_to_string o ("/proc/" +:+ pretty p +:+ "/cmdline") with
               | Ok c => contains n c | Err _ => false end = true) (pids o).
Definition is_running (o : Os) (n : string) : bool := negb (bool_decide (running_pids o n = [])).
Definition service_units (o : Os) : list string :=
  dedup (sort_by String.compare (mjoin ((λ d,
    match dir o d with Ok names => filter (λ n, ends_with service_suffix n = true) names | Err _ => [] end)
      <$> ["/etc/systemd/system"; "/lib/systemd/system"; "/run/systemd/system"]))).
Definition service_row (o : Os) (active failed : bool) (svc : string) : string :=
  let up := is_running o (trim_end_matches service_suffix svc) in
  if failed then ""
  else if up then "  " +:+ pad_right 20 svc +:+ " loaded active running" +:+ nl
  else if active then "" else "  " +:+ pad_right 20 svc +:+ " loaded inactive dead" +:+ nl.
Definition service_list (o : Os) (active failed : bool) : Out :=
  let out := "  UNIT                    LOAD   ACTIVE SUB" +:+ nl
    +:+ String.concat "" (service_row o active failed <$> service_units o) in
  text (if failed && (length (lines out) <=? 1)%nat then out +:+ "0 units listed." +:+ nl else out) 0.
(** The first unit file that can be read, with its path. *)
Definition unit_file (o : Os) (sf : string) : option (string * string) :=
  head (omap (λ p, match read_to_string o p with Ok c => Some (p, c) | Err _ => None end)
          ["/etc/systemd/system/" +:+ sf; "/lib/systemd/system/" +:+ sf]).
Definition service_status (o : Os) (name : string) : Out :=
  let c := trim_end_matches service_suffix name in
  let sf := c +:+ service_suffix in
  match unit_file o sf with
  | None => text ("Unit " +:+ c +:+ ".service could not be found." +:+ nl) 1
  | Some (p, content) =>
      text ("* " +:+ sf +:+ " - "
        +:+ default "" (head (omap (strip_prefix "Description=") (lines content))) +:+ nl
        +:+ "     Loaded: loaded (" +:+ p +:+ ")" +:+ nl
        +:+ (if is_running o c then "     Active: active (running)" else "     Active: inactive (dead)") +:+ nl
        +:+ match running_pids o c with pid :: _ => "   Main PID: " +:+ pretty pid +:+ nl | [] => "" end) 0
  end.
Definition systemctl (o : Os) (verb name : string) : Out :=
  run_program o "systemctl" 1 ["/usr/bin/systemctl"; verb; name].
Definition wants : string := "/etc/systemd/system/multi-user.target.wants/".
Definition cmd_service (o : Os) (action : ServiceActionType) : Out * Os :=
  match action with
  | SvcList active failed => (service_list o active failed, o)
  | SvcStatus name => (service_status o name, o)
  | SvcStart name => (systemctl o "start" name, o)
  | SvcStop name => (systemctl o "stop" name, o)
  | SvcRestart name => (systemctl o "restart" name, o)
  | SvcReload name => (systemctl o "reload" name, o)
  | SvcEnable name =>
      match filter (λ p, exists_ o p = true) ["/etc/systemd/system/" +:+ name; "/lib/systemd/system/" +:+ name] with
      | src :: _ =>
          let link := wants +:+ name in
          (text ("Created symlink " +:+ link +:+ " -> " +:+ src +:+ nl) 0, make_link src link o)
      | [] => (text ("Unit file for " +:+ name +:+ " not found" +:+ nl) 1, o)
      end
  | SvcDisable name =>
      let link := wants +:+ name in
      match remove_file link o with
      | (Ok _, o) => (text ("Removed symlink " +:+ link +:+ nl) 0, o)
      | (Err e, o) => (text ("Failed to remove symlink: " +:+ e +:+ nl) 1, o)
      end
  end.

(** The level of a priority's name or number. *)
Definition priority_level (p : string) : option Z :=
  let names := ["emerg"; "alert"; "crit"; "err"; "warning"; "notice"; "info"; "debug"] in
  head (omap (λ '(i, n), if decide (p = n ∨ p = pretty i) then Some i else None) (zip (seqZ 0 8) names)).
Definition shows_level (mp : Z) (line : string) : bool :=
  if mp <=? 3 then contains "error" line || contains "emerg" line || contains "crit" line
  else if mp <=? 5 then contains "warn" line || contains "notice" line else true.
Definition journal_line (unit_ priority : option string) (line : string) : bool :=
  match unit_ with Some u => contains (trim_end_matches service_suffix u) line | None => true end
  && match priority ≫= priority_level with Some mp => shows_level mp line | None => true end.
Definition cmd_journal (o : Os) (unit_ : option string) (n : Z) (priority : option string) : Out :=
  let out := String.concat "" ((λ path,
    match read_to_string o path with
    | Ok content => unlines (filter (λ l, journal_line unit_ priority l = true) (lines content))
    | Err _ => ""
    end) <$> ["/var/log/syslog"; "/var/log/messages"]) in
  let out := last_lines n out in
  text (if decide (out = "") then "No journal/log data available" +:+ nl else out) 0.

(** ** pkg.rs *)

(** What was last read of a package: name, version, architecture, description, status. *)
Record Package := mkPkg { pn : string; pv : string; pa : string; pd : string; ps : string }.
Definition no_pkg : Package := mkPkg "" "" "" "" "".
Definition pkg_field (p : Package) (line : string) : Package :=
  match strip_prefix "Package: " line with Some v => mkPkg v (pv p) (pa p) (pd p) (ps p) | None =>
  match strip_prefix "Version: " line with Some v => mkPkg (pn p) v (pa p) (pd p) (ps p) | None =>
  match strip_prefix "Architecture: " line with Some v => mkPkg (pn p) (pv p) v (pd p) (ps p) | None =>
  match strip_prefix "Description: " line with Some v => mkPkg (pn p) (pv p) (pa p) v (ps p) | None =>
  match strip_prefix "Status: " line with Some v => mkPkg (pn p) (pv p) (pa p) (pd p) v | None => p
  end end end end end.
(** The rows that [show] makes: one at each empty line after a name. *)
Fixpoint scan_pkgs (show : Package → string) (p : Package) (ls : list string) : string :=
  match ls with
  | [] => ""
  | l :: ls =>
      if bool_decide (l = "") && negb (bool_decide (pn p = ""))
      then show p +:+ scan_pkgs show (mkPkg "" (pv p) (pa p) (pd p) (ps p)) ls
      else scan_pkgs show (pkg_field p l) ls
  end.
Definition dpkg_status : string := "/var/lib/dpkg/status".
Definition pkg_flag (p : Package) : string :=
  if starts_with "install ok installed" (ps p) then "ii" else if contains "not-installed" (ps p) then "un" else "rc".
Definition pkg_row (p : Package) : string :=
  pad_right 5 (pkg_flag p) +:+ " " +:+ pad_right 20 (pn p) +:+ " " +:+ pad_right 16 (pv p) +:+ " "
    +:+ pad_right 12 (pa p) +:+ " " +:+ pd p +:+ nl.
Definition pkg_header : string :=
  unlines ["Desired=Unknown/Install/Remove/Purge/Hold";
    "| Status=Not/Inst/Conf-files/Unpacked/halF-conf/Half-inst/trig-aWait/Trig-pend";
    "|/ Err?=(none)/Reinst-required (Status,Err: uppercase=bad)";
    "||/ Name                 Version          Architecture Description";
    "+++-====================-================-============-============================================"].
(** [apt-get] with its two outputs one after the other. *)
Definition apt_get (o : Os) (args : list string) : Out :=
  match run o ("/usr/bin/apt-get" :: args) with
  | Ok r => (stdout r ++ stderr r, code r)
  | Err e => text ("apt-get error: " +:+ e +:+ nl) 1
  end.
Definition cmd_pkg (o : Os) (action : PkgActionType) : Out :=
  match action with
  | PkgList _ =>
      text (pkg_header +:+ match read_to_string o dpkg_status with
        | Ok st => scan_pkgs pkg_row no_pkg (lines st)
        | Err _ => "(dpkg database not found: /var/lib/dpkg/status)" +:+ nl
        end) 0
  | PkgSearch query =>
      let show p := if contains query (pn p) || contains query (pd p) then pn p +:+ " - " +:+ pd p +:+ nl else "" in
      let out := match read_to_string o dpkg_status with Ok st => scan_pkgs show no_pkg (lines st) | Err _ => "" end in
      text (if decide (out = "") then "No packages found matching '" +:+ query +:+ "'" +:+ nl else out) 0
  | PkgInstall name => apt_get o ["install"; "-y"; name]
  | PkgRemove name => apt_get o ["remove"; "-y"; name]
  | PkgUpdate => apt_get o ["update"]
  | PkgUpgrade => apt_get o ["upgrade"; "-y"]
  end.

(** ** cron.rs and firewall.rs *)

Definition crontab_path (o : Os) : string := "/var/spool/cron/crontabs/" +:+ default "root" (var o "USER").
Definition cmd_crontab (o : Os) (action : CrontabActionType) : Out * Os :=
  match action with
  | CronList =>
      (match read_to_string o (crontab_path o) with
       | Ok c => text c 0
       | Err _ =>
           match read_to_string o "/etc/crontab" with
           | Ok c => text ("# (from /etc/crontab, user crontab not found)" +:+ nl +:+ c) 0
           | Err _ => text ("no crontab for this user" +:+ nl) 1
           end
       end, o)
  | CronEdit => (text ("Use 'iexec crontab -e' for editing" +:+ nl) 0, o)
  | CronRemove =>
      match remove_file (crontab_path o) o with
      | (Ok _, o) => (text ("crontab removed" +:+ nl) 0, o)
      | (Err _, o) => (text ("no crontab to remove" +:+ nl) 1, o)
      end
  end.

(** The lines that are neither blank nor comments. *)
Definition rules (content : string) : string :=
  unlines (filter (λ l, starts_with "#" (trim l) = false ∧ trim l ≠ "") (lines content)).
Definition cmd_firewall (o : Os) (backend : string) : Out :=
  let section p content := "--- " +:+ p +:+ " ---" +:+ nl +:+ rules content in
  if decide (backend = "ufw") then
    text ("Status: " +:+ (if exists_ o "/etc/ufw" then
      "active" +:+ nl +:+ String.concat "" ((λ p,
        match read_to_string o p with Ok c => section p c | Err _ => "" end)
          <$> ["/etc/ufw/user.rules"; "/etc/ufw/before.rules"]) else "")) 0
  else
    let tables := String.concat "" ((λ p,
      match read_to_string o p with
      | Ok names => String.concat "" ((λ t, "Table: " +:+ t +:+ nl) <$> lines names)
      | Err _ => ""
      end) <$> ["/proc/net/ip_tables_names"; "/proc/net/ip6_tables_names"]) in
    let nft := "/etc/nftables.conf" in
    let conf := if exists_ o nft then
      match read_to_string o nft with Ok c => section nft c | Err _ => "" end else "" in
    let out := tables +:+ conf in
    text (if decide (out = "") then "(no iptables/nftables rules found via /proc)" +:+ nl else out) 0.
