(* ===== verification/NativeDocker.v ===== *)
(** * NativeDocker: the Docker client of the daemon

    Models crates/daemon/src/native_cmd/docker.rs, read with the names that its
    [docker_api] uses ([method], [path], [body]) for the parameters it declares
    with an underscore; as it stands the file compiles only where the loop is
    empty.  What a socket answers is an argument: [None] when there is no such
    socket, or it refuses the connection or the request, and otherwise the bytes
    until the stream ends.  The call waits for that end, which a server that
    keeps the connection, as HTTP/1.1 does unless told otherwise, never gives. *)
From S2P Require Import Prelude Text Lines Frame NativeFs.
From Stdlib Require Import Ascii.
#[local] Open Scope Z_scope.

Definition crlf : string := String CR (String LF "").
Definition quote : ascii := ascii_of_nat 34.
Definition backslash : ascii := ascii_of_nat 92.
Definition quoted (s : string) : string := String quote (s +:+ String quote "").

(** What follows the first [p] in [s]. *)
Fixpoint after (p s : string) : option string :=
  match strip_prefix p s with
  | Some r => Some r
  | None => match s with EmptyString => None | String _ s => after p s end
  end.

(** ** [docker_api] *)

Definition request (method path : string) (body : option string) : string :=
  match body with
  | Some b =>
      method +:+ " " +:+ path +:+ " HTTP/1.1" +:+ crlf +:+ "Host: localhost" +:+ crlf
        +:+ "Content-Type: application/json" +:+ crlf
        +:+ "Content-Length: " +:+ pretty (Z.of_nat (byte_len b)) +:+ crlf +:+ crlf +:+ b
  | None => method +:+ " " +:+ path +:+ " HTTP/1.1" +:+ crlf +:+ "Host: localhost" +:+ crlf +:+ crlf
  end.
Definition http_code (s : string) : Z :=
  default 500 (c ← split_whitespace (default "" (head (lines s))) !! 1%nat; parse_uint 32 c).
Definition response (resp : list byte) : Out :=
  let s := from_utf8_lossy resp in
  match after (crlf +:+ crlf) s with
  | Some body =>
      let code := http_code s in
      text ("HTTP " +:+ pretty code +:+ ": " +:+ body +:+ nl) (if code <? 400 then 0 else 1)
  | None => (resp, Some 0)
  end.
Definition sockets : list string := ["/var/run/docker.sock"; "/run/docker.sock"].
Definition docker_api (socket : string → list byte → option (list byte))
    (method path : string) (body : option string) : Out :=
  match omap (λ sock, socket sock (as_bytes (request method path body))) sockets with
  | resp :: _ => response resp
  | [] => text ("Docker socket not found at /var/run/docker.sock" +:+ nl) 1
  end.

(** ** [cmd_docker] *)

Section Docker.
(** The sockets at the first and at the second request, and how [Debug] prints a character that is not ASCII. *)
Variables (socket : nat → string → list byte → option (list byte)) (debug_char : list byte → list byte).

Definition hex_digit (n : Z) : byte := byte_of_Z (if n <? 10 then 48 + n else 87 + n).
(** A character as [Debug] of a text prints it. *)
Definition escape (c : list byte) : list byte :=
  match c with
  | [b] =>
      let n := Z_of_byte b in
      let slash x := [byte_of_Z 92; byte_of_Z x] in
      if n =? 0 then slash 48 else if n =? 9 then slash 116 else if n =? 10 then slash 110
      else if n =? 13 then slash 114 else if (n =? 34) || (n =? 92) then slash n
      else if (32 <=? n) && (n <? 127) then [b]
      else slash 117 ++ [byte_of_Z 123] ++ (if 16 <=? n then [hex_digit (n / 16)] else [])
             ++ [hex_digit (n mod 16); byte_of_Z 125]
  | _ => debug_char c
  end.
Definition debug_str (s : string) : string :=
  quoted (String.string_of_list_byte (mjoin (escape <$> chars (as_bytes s)))).
Definition debug_list (l : list string) : string := "[" +:+ join ", " (debug_str <$> l) +:+ "]".

(** The raw text of the source keeps the backslash before each quotation mark. *)
Definition slashed (s : string) : string := String backslash (String quote (s +:+ String backslash (String quote ""))).
Definition exec_body (cmd : list string) : string :=
  "{" +:+ slashed "AttachStdin" +:+ ":false," +:+ slashed "AttachStdout" +:+ ":true,"
    +:+ slashed "AttachStderr" +:+ ":true," +:+ slashed "Cmd" +:+ ":" +:+ debug_list cmd +:+ "}".
Definition start_body : string := "{" +:+ quoted "Detach" +:+ ":false," +:+ quoted "Tty" +:+ ":false}".
(** The text of the first field [Id] of the first answer, up to its quotation mark. *)
Definition exec_id (answer : string) : option string :=
  rest ← after (quoted "Id" +:+ ":" +:+ String quote "") answer; '(i, _) ← split_once quote rest; Some i.

Definition cmd_docker (action : DockerActionType) : Out :=
  let api := docker_api (socket 0%nat) in
  match action with
  | DockerPs all _ => api "GET" (if all then "/containers/json?all=true" else "/containers/json")%string None
  | DockerLogs name tail _ =>
      api "GET" ("/containers/" +:+ name +:+ "/logs?stderr=true&stdout=true&tail=" +:+ pretty tail) None
  | DockerStats _ => api "GET" "/containers/json?all=true"%string None
  | DockerExec container cmd _ =>
      let '(cr, _) := api "POST" ("/containers/" +:+ container +:+ "/exec") (Some (exec_body cmd)) in
      match exec_id (from_utf8_lossy cr) with
      | Some i => docker_api (socket 1%nat) "POST" ("/exec/" +:+ i +:+ "/start") (Some start_body)
      | None => (cr, Some 1)
      end
  | DockerInfo => api "GET" "/info"%string None
  | DockerImages => api "GET" "/images/json"%string None
  | DockerRm container force =>
      api "DELETE" (if force then "/containers/" +:+ container +:+ "?force=true" else "/containers/" +:+ container) None
  | DockerControl container action => api "POST" ("/containers/" +:+ container +:+ "/" +:+ action +:+ "/") None
  end.
End Docker.

(** ** What the client asks, and what it makes of the answer *)

Definition crlf2 : string := crlf +:+ crlf.
Lemma after_here p r : after p (p +:+ r) = Some r.
Proof.
  assert (E : strip_prefix p (p +:+ r) = Some r).
  { induction p as [|a p IH]; [done|]. rewrite str_cons_app. cbn [strip_prefix]. by rewrite Ascii.eqb_refl. }
  destruct (p +:+ r) eqn:Es; cbn [after]; by rewrite E.
Qed.
(** Headers without a carriage return are passed over. *)
Lemma after_char a s : Ascii.eqb CR a = false → after crlf2 (String a s) = after crlf2 s.
Proof. intros Ha. unfold crlf2, crlf. rewrite !str_cons_app, str_nil_app. cbn [after strip_prefix]. by rewrite Ha. Qed.
Lemma after_line l s : free_of CR l = true → after crlf2 (l +:+ s) = after crlf2 s.
Proof.
  induction l as [|a l IH]; [done|]. intros [Ha Hl]%andb_true_iff. apply negb_true_iff in Ha.
  rewrite str_cons_app, after_char by (by rewrite Ascii.eqb_sym). by apply IH.
Qed.
Lemma after_crlf a s : Ascii.eqb CR a = false → after crlf2 (crlf +:+ String a s) = after crlf2 (String a s).
Proof.
  intros Ha. unfold crlf. rewrite !str_cons_app, str_nil_app.
  assert (E : strip_prefix crlf2 (String CR (String LF (String a s))) = None).
  { unfold crlf2, crlf. rewrite !str_cons_app, str_nil_app. cbn [strip_prefix]. rewrite !Ascii.eqb_refl. by rewrite Ha. }
  transitivity (after crlf2 (String LF (String a s))); [|by rewrite after_char].
  change (match strip_prefix crlf2 (String CR (String LF (String a s))) with Some r => Some r | None => after crlf2 (String LF (String a s)) end = after crlf2 (String LF (String a s))).
  by rewrite E.
Qed.
(** A header line. *)
Lemma after_header l s : free_of CR l = true → l ≠ "" → after crlf2 (crlf +:+ l +:+ s) = after crlf2 s.
Proof.
  intros Hl Hne. destruct l as [|a l]; [done|]. pose proof Hl as [Ha _]%andb_true_iff. rewrite str_cons_app, after_crlf.
  - rewrite <-str_cons_app. by apply after_line.
  - rewrite Ascii.eqb_sym. by apply negb_true_iff.
Qed.

(** The server reads the body that was meant, if no carriage return is in the method and the path. *)
Lemma request_body method path b :
  free_of CR method = true → free_of CR path = true →
  after crlf2 (request method path (Some b)) = Some b.
Proof.
  intros Hm Hp. unfold request. pose proof (free_of_pretty CR (Z.of_nat (byte_len b)) eq_refl ltac:(lia)) as Hn. rewrite (after_line _ _ Hm), (after_line " "), (after_line _ _ Hp) by done.
  rewrite (after_line " HTTP/1.1"), !after_header by done. rewrite (after_line _ _ Hn), <-str_app_assoc. apply after_here.
Qed.
(** But nothing in the path is escaped: the name of a container with line breaks ends the request, and what follows
    it is a request of its own. *)
Lemma name_ends_request method path name tail_ rest :
  free_of CR method = true → free_of CR path = true → free_of CR name = true →
  after crlf2 (request method (path +:+ (name +:+ crlf2 +:+ rest) +:+ tail_) None) =
    Some (rest +:+ tail_ +:+ " HTTP/1.1" +:+ crlf +:+ "Host: localhost" +:+ crlf2).
Proof.
  intros Hm Hp Hn. unfold request. rewrite !str_app_assoc, (after_line _ _ Hm), after_line by done.
  rewrite (after_line _ _ Hp), (after_line _ _ Hn), after_here. done.
Qed.

(** The body of an exec begins with a brace and a backslash: it is not JSON, where a key or the closing brace comes next. *)
Lemma exec_body_is_not_json debug_char cmd :
  take 2 (as_bytes (exec_body debug_char cmd)) = [Byte.x7b; Byte.x5c].
Proof. reflexivity. Qed.

Lemma strip_cr_end s : strip_cr (s +:+ String CR "") = s.
Proof.
  induction s as [|a s IH]; [done|]. rewrite str_cons_app. cbn [strip_cr]. rewrite IH.
  destruct (s +:+ String CR "") eqn:E; [by apply str_app_ne in E|done].
Qed.
Lemma lines_crlf l s : free_of LF l = true → lines (l +:+ crlf +:+ s) = l :: lines s.
Proof.
  intros Hl. assert (E : l +:+ crlf +:+ s = (l +:+ String CR "") +:+ nl +:+ s) by (by rewrite !str_app_assoc).
  rewrite E, lines_cons, strip_cr_end; [done|]. rewrite free_of_app, Hl. done.
Qed.

(** An answer: its status line gives the exit code; what follows the empty line is printed. *)
Lemma response_exact status headers body w code :
  is_str (status +:+ crlf +:+ headers +:+ crlf2 +:+ body) →
  free_of CR status = true → free_of LF status = true → free_of CR headers = true →
  headers ≠ "" → split_whitespace status !! 1%nat = Some w → parse_uint 32 w = Some code →
  response (as_bytes (status +:+ crlf +:+ headers +:+ crlf2 +:+ body)) =
    text ("HTTP " +:+ pretty code +:+ ": " +:+ body +:+ nl) (if code <? 400 then 0 else 1).
Proof.
  intros Hs Hcr Hlf Hh Hne Hw Hc. unfold response. rewrite from_utf8_lossy_str by done.
  assert (E : after (crlf +:+ crlf) (status +:+ crlf +:+ headers +:+ crlf2 +:+ body) = Some body).
  { change (crlf +:+ crlf) with crlf2. rewrite (after_line _ _ Hcr), after_header by done. apply after_here. }
  rewrite E. assert (Hcode : http_code (status +:+ crlf +:+ headers +:+ crlf2 +:+ body) = code); [|by rewrite Hcode].
  unfold http_code. rewrite (lines_crlf _ _ Hlf). cbn [head hd_error default from_option id]. rewrite Hw. cbn [mbind option_bind]. by rewrite Hc.
Qed.

(** Without a socket that answers, every command says so and fails. *)
Lemma docker_unavailable debug_char action :
  cmd_docker (λ _ _ _, None) debug_char action = text ("Docker socket not found at /var/run/docker.sock" +:+ nl) 1.
Proof. by destruct action. Qed.
(** The second socket is asked when the first does not answer. *)
Lemma docker_second_socket socket method path body resp :
  socket "/var/run/docker.sock"%string (as_bytes (request method path body)) = None →
  socket "/run/docker.sock"%string (as_bytes (request method path body)) = Some resp →
  docker_api socket method path body = response resp.
Proof. intros E1 E2. unfold docker_api, sockets. cbn [omap list_omap]. by rewrite E1, E2. Qed.
