(* ===== verification/Native.v ===== *)
(** * Native: the dispatcher of the native commands

    Models crates/daemon/src/native_cmd/dispatch.rs over NativeFs, NativeSystem,
    NativeAdmin and NativeDocker: a command gives its output, its exit code and the
    machine after it; [None] is a panic of its thread.  What the sockets of Docker
    answer and what is read from the kernel's log are arguments ([Outside]); so is the
    fuel of a recursive search, the depth of the directories. *)
From S2P Require Import Prelude Text Lines Frame Disk Identity NativeFs NativeSystem NativeAdmin NativeDocker.
#[local] Open Scope Z_scope.

Record Outside := mkOutside {
  kmsg : option (list (list byte));
  socket : nat → string → list byte → option (list byte);
  debug_char : list byte → list byte;
  depth : nat
}.

(** [OpenOptions] and [write_all]: appending does not create the file. *)
Definition write_file (path : string) (data : list byte) (append : bool) (o : Os) : Out * Os :=
  let d := disk o in
  let put bs := set_disk (mkDisk (<[path := bs]> (files d)) (dir_fault d) (write_fault d)) o in
  let open_error e := (text ("open error: " +:+ e +:+ nl) 1, o) in
  let write old :=
    match Disk.write_fault d path with
    | None => (text ("ok" +:+ nl) 0, put (old ++ data))
    | Some (e, None) => open_error e
    | Some (e, Some n) => (text ("write error: " +:+ e +:+ nl) 1, put (old ++ take n data))
    end in
  if append
  then match files d !! path with Some old => write old | None => open_error ENOENT end
  else write [].
(** [fs::write], reporting its error after [name]. *)
Definition overwrite (name path : string) (data : list byte) (o : Os) : Out * Os :=
  match Disk.write path data (disk o) with
  | (Ok _, d) => (text ("ok" +:+ nl) 0, set_disk d o)
  | (Err e, d) => (text (name +:+ " error: " +:+ e +:+ nl) 1, set_disk d o)
  end.
Definition sed (path pattern replacement : string) (o : Os) : Out * Os :=
  match read_to_string o path with
  | Err e => (text ("read error: " +:+ e +:+ nl) 1, o)
  | Ok c => overwrite "write" path (as_bytes (replace pattern replacement c)) o
  end.
Definition read_file (path : string) (o : Os) : Out :=
  match read_to_string o path with
  | Ok c => text c 0
  | Err e => text ("read error: " +:+ e +:+ nl) 1
  end.

Section Dispatch.
Context `{Sha256Crate} `{Md5Crate}.
Definition run_native_cmd (e : Outside) (cmd : NativeCmdType) (o : Os) : option (Out * Os) :=
  let pure out := Some (out, o) in
  match cmd with
  | Ls path long all => pure (cmd_ls o path long all)
  | Cat path => pure (cmd_cat o path)
  | Head path n => pure (cmd_head o path n)
  | Tail path n _ _ => pure (cmd_tail o path n)
  | Stat path => pure (cmd_stat o path)
  | Uptime => pure (cmd_uptime o)
  | Hostname => pure (cmd_hostname o)
  | Free human => pure (cmd_free o human)
  | Cpu => pure (cmd_cpu o)
  | Uname all release machine => pure (cmd_uname o all release machine)
  | Whoami => pure (cmd_whoami o)
  | Ps full user tree => pure (cmd_ps o full user tree)
  | Info => pure (cmd_info o)
  | Arp => pure (cmd_arp o)
  | Netstat tcp udp _ listening => out ← cmd_netstat o tcp udp listening; pure out
  | PortScan host start end_ _ => pure (cmd_portscan o host start end_)
  | Top _ _ => pure (text (cmd_top_snapshot o) 0)
  | Grep pattern path recursive ln cnt => pure (cmd_grep (depth e) o pattern path recursive ln cnt)
  | Dmesg n _ => pure (cmd_dmesg o (kmsg e) n)
  | Lsblk => pure (cmd_lsblk o)
  | Mount => pure (cmd_mount o)
  | Who => pure (cmd_who o)
  | Kill pid signal => pure (cmd_kill o pid signal)
  | Pgrep name full count => pure (cmd_pgrep o name full count)
  | Dns hostname _ => pure (cmd_dns o hostname)
  | Ssh => pure (cmd_ssh_check o)
  | Mkdir recursive paths => pure (cmd_mkdir o recursive paths)
  | Rm recursive force paths => pure (cmd_rm o recursive force paths)
  | Mv src dest => pure (cmd_mv o src dest)
  | Cp recursive src dest => pure (cmd_cp o recursive src dest)
  | Chmod mode paths => pure (cmd_chmod o mode paths)
  | Chown owner paths => pure (cmd_chown o owner paths)
  | DiffCmd file1 file2 => pure (cmd_diff o file1 file2)
  | Wc ls words paths => pure (cmd_wc o ls words paths)
  | Find path name type_ maxdepth => pure (cmd_find o path name type_ maxdepth)
  | Tree path depth dirs_only => pure (cmd_tree o path depth dirs_only)
  | Du path summarize maxdepth => pure (cmd_du o path summarize maxdepth)
  | Df human _ => pure (cmd_df o human)
  | Last n => pure (cmd_last o n)
  | Ip _ _ _ => pure (cmd_ip o)
  | Service action => Some (cmd_service o action)
  | Journal unit_ _ n priority _ => pure (cmd_journal o unit_ n priority)
  | Pkg action => pure (cmd_pkg o action)
  | Docker action => pure (cmd_docker (socket e) (debug_char e) action)
  | Crontab action => Some (cmd_crontab o action)
  | Firewall backend => pure (cmd_firewall o backend)
  | Checksum path algorithm => pure (cmd_checksum o path algorithm)
  | BatchContent ls _ => pure (text (join nl ls) 0)
  | Watch _ cmds => pure (cmd_watch_fn o cmds)
  | WriteFile path data append => Some (write_file path data append o)
  | Sed path pattern replacement _ _ => Some (sed path pattern replacement o)
  | ReadFile path => pure (read_file path o)
  | Touch path => Some (overwrite "touch" path [] o)
  | Pkill name signal => pure (run_program o "pkill" 1 ["/usr/bin/pkill"; "-f"; pretty signal; name])
  | ShellExec cmd _ => pure (run_program o "shell" 1 ["/bin/sh"; "-c"; cmd])
  end.
End Dispatch.
