(* ===== verification/NativeProofs.v ===== *)
(** * NativeProofs: what the native commands do

    The commands that show and change files, the parsers of /proc and of the
    package database, and the pull of a file by lan-linkctl, which runs one. *)
From Stdlib Require Import Ascii.
From S2P Require Import Prelude Text Lines Frame Stream RateLimit Connection.
From S2P Require Import Identity Ctl CtlProofs Disk NativeFs NativeSystem NativeAdmin Native.
#[local] Open Scope Z_scope.

(** ** Showing files *)

(** Head and tail show complementary parts: of a text of N lines, the first k and the
    last N - k are all of it, and a text whose lines end with line feeds is shown as it is. *)
Theorem head_tail_exact o path c k :
  read_to_string o path = Ok c → 0 <= k <= len (lines c) →
  (cmd_head o path k).1 ++ (cmd_tail o path (len (lines c) - k)).1 = as_bytes (unlines (lines c))
  ∧ (∀ ls, Forall clean ls → c = unlines ls → unlines (lines c) = c).
Proof.
  intros Hc Hk. unfold cmd_head, cmd_tail. rewrite Hc. split.
  - cbn [fst text]. rewrite <-as_bytes_app, <-unlines_app. do 2 f_equal.
    etransitivity; [|apply (take_drop (Z.to_nat k))]. f_equal.
    case_match eqn:E; [apply Nat.leb_le in E|apply Nat.leb_gt in E]; f_equal; lia.
  - intros ls Hls ->. by rewrite lines_unlines.
Qed.

(** The exit code of a search tells whether a line matches, and its count how many. *)
Theorem grep_exact fuel o pattern path ln c :
  read_to_string o path = Ok c →
  let n := length (filter (λ l, contains pattern l = true) (lines c)) in
  cmd_grep fuel o pattern path false ln true = text (path +:+ ":" +:+ pretty n +:+ nl) (if (n =? 0)%nat then 1 else 0)
  ∧ (cmd_grep fuel o pattern path false ln false).2 = Some (if (n =? 0)%nat then 1 else 0)
  ∧ (cmd_grep fuel o pattern path false false false).1
      = as_bytes (unlines (filter (λ l, contains pattern l = true) (lines c))).
Proof.
  intros Hc n. unfold cmd_grep. rewrite Hc.
  assert (Hm : ∀ k ls, snd <$> filter (λ il : nat * string, contains pattern il.2 = true) (zip (List.seq k (length ls)) ls)
    = filter (λ l, contains pattern l = true) ls).
  { intros k ls. revert k. induction ls as [|l ls IH]; intros k; [done|]. cbn [length List.seq zip zip_with].
    rewrite !filter_cons. cbn [snd]. case_decide; cbn; by rewrite IH. }
  assert (Hn : length (matching pattern (lines c)) = n).
  { unfold n. rewrite <-(Hm 1%nat), length_fmap. done. }
  rewrite Hn. assert (He : exit_of n = if (n =? 0)%nat then 1 else 0) by by destruct n.
  rewrite He. split_and!; [done..|]. cbn [text fst]. f_equal. rewrite <-(Hm 1%nat).
  change (filter (λ il : nat * string, contains pattern il.2 = true) (zip (List.seq 1 (length (lines c))) (lines c)))
    with (matching pattern (lines c)). clear.
  induction (matching pattern (lines c)) as [|[i l] ms IH]; [done|]. cbn [fmap list_fmap unlines snd].
  rewrite <-IH. destruct ms as [|[j l'] ms]; [by rewrite !str_nil_app, str_app_nil_r|].
  cbn [fmap list_fmap String.concat]. by rewrite !str_nil_app, !str_app_assoc.
Qed.

(** ** Changing files *)

Section Files.
Context `{Sha256Crate} `{Md5Crate}.

(** Replacing in a file is literal: if the file is text and can be written, [Sed] leaves the text in
    which the occurrences of the pattern, from the left and without overlap, are replaced, whatever its
    flags say, and changes no other file; a file that is not text is an error and stays. *)
Theorem sed_exact e path pattern replacement global regex o :
  pattern ≠ ""%string → write_fault (disk o) path = None →
  match read_to_string o path with
  | Err m => run_native_cmd e (Sed path pattern replacement global regex) o
      = Some (text ("read error: " +:+ m +:+ nl) 1, o)
  | Ok c => ∃ r o', run_native_cmd e (Sed path pattern replacement global regex) o = Some (text ("ok" +:+ nl) 0, o')
      ∧ replaced pattern replacement c r ∧ (∀ r', replaced pattern replacement c r' → r' = r)
      ∧ files (disk o') = <[path := as_bytes r]> (files (disk o))
  end.
Proof.
  intros Hp Hw. cbn [run_native_cmd]. unfold sed. destruct (read_to_string o path) as [c|m]; [|done].
  unfold overwrite. rewrite write_ok by done. eexists _, _. split; [done|].
  split; [by apply replace_replaced|]. split; [|done]. intros r' Hr. by eapply replaced_unique.
Qed.

(** Writing, appending and touching, when the disk does not fail: writing leaves exactly the data, appending
    adds them to a file that exists and fails on one that does not, and touching empties a file,
    whatever it held; the other files stay, and [Cat] shows what was written. *)
Theorem write_commands_exact e path data append o :
  write_fault (disk o) path = None → read_fault o path = None →
  let old : option (list byte) := if append : bool then files (disk o) !! path else Some [] in
  match old with
  | None => run_native_cmd e (WriteFile path data append) o = Some (text ("open error: " +:+ ENOENT +:+ nl) 1, o)
  | Some old => ∃ o', run_native_cmd e (WriteFile path data append) o = Some (text ("ok" +:+ nl) 0, o')
      ∧ files (disk o') = <[path := old ++ data]> (files (disk o))
      ∧ run_native_cmd e (Cat path) o' = Some ((old ++ data, Some 0), o')
  end
  ∧ ∃ o', run_native_cmd e (Touch path) o = Some (text ("ok" +:+ nl) 0, o')
      ∧ files (disk o') = <[path := []]> (files (disk o)).
Proof.
  intros Hw Hr old. split.
  - assert (Hput : ∀ bs, cmd_cat (set_disk (mkDisk (<[path := bs]> (files (disk o))) (dir_fault (disk o)) (write_fault (disk o))) o) path
      = (bs, Some 0)) by (intros bs; unfold cmd_cat, read; cbn; by rewrite Hr, lookup_insert_eq).
    unfold old. cbn [run_native_cmd]. unfold write_file. rewrite Hw. destruct append.
    + destruct (files (disk o) !! path) as [bs|]; [|done]. eexists. split_and!; [done..|]. by rewrite Hput.
    + eexists. split_and!; [done..|]. by rewrite Hput.
  - cbn [run_native_cmd]. unfold overwrite. rewrite write_ok by done. by eexists.
Qed.
End Files.

(** ** Parsers *)

(** A byte as two hexadecimal digits, in capitals. *)
Definition hex_digit (n : Z) : ascii := ascii_of_nat (Z.to_nat (if n <? 10 then 48 + n else 55 + n)).
Definition hex2 (z : Z) : string := String (hex_digit (z / 16)) (String (hex_digit (z mod 16)) "").
(** How the kernel prints an address and a port, on a little-endian machine. *)
Definition kernel_addr (a b c d port : Z) : string :=
  hex2 d +:+ hex2 c +:+ hex2 b +:+ hex2 a +:+ ":" +:+ hex2 (port / 256) +:+ hex2 (port mod 256).

Lemma hex_digit_facts n :
  0 <= n < 16 → hex_value (hex_digit n) = Some n ∧ utf8_cont (byte_of_ascii (hex_digit n)) = false
    ∧ Ascii.eqb (hex_digit n) ":" = false ∧ Ascii.eqb (hex_digit n) "+" = false.
Proof.
  intros Hn. assert (Hin : Z.to_nat n ∈ List.seq 0 16) by (apply elem_of_seq; lia).
  rewrite <-(Z2Nat.id n) by lia. revert Hin. generalize (Z.to_nat n). apply Forall_forall.
  cbn. repeat constructor.
Qed.
Lemma hex_split z w : 0 <= z < 256 → 8 <= w → 0 <= z / 16 < 16 ∧ 0 <= z mod 16 < 16 ∧ z < 2 ^ w.
Proof.
  intros Hz Hw. assert (2 ^ 8 <= 2 ^ w) by (apply Z.pow_le_mono_r; lia).
  Z.to_euclidean_division_equations; lia.
Qed.
Lemma parse_hex2 w acc z s :
  0 <= z < 256 → 0 <= acc → acc * 256 + z < 2 ^ w →
  parse_hex_digits w acc (hex2 z +:+ s) = parse_hex_digits w (acc * 256 + z) s.
Proof.
  intros Hz Ha Hb. destruct (hex_split z 8 Hz ltac:(lia)) as (Hq & Hr & _).
  unfold hex2. rewrite !str_cons_app, str_nil_app. cbn [parse_hex_digits].
  rewrite (proj1 (hex_digit_facts _ Hq)), (proj1 (hex_digit_facts _ Hr)). cbn [mbind option_bind].
  assert (E : (acc * 16 + z / 16) * 16 + z mod 16 = acc * 256 + z) by (Z.to_euclidean_division_equations; lia).
  rewrite (proj2 (Z.ltb_lt _ _)) by (Z.to_euclidean_division_equations; lia). cbn [mbind option_bind].
  rewrite E. by rewrite (proj2 (Z.ltb_lt _ _)) by lia.
Qed.
Lemma parse_hex_hex2 w z s :
  0 <= z < 256 → parse_hex w (hex2 z +:+ s) = parse_hex_digits w 0 (hex2 z +:+ s).
Proof.
  intros Hz. destruct (hex_split z 8 Hz ltac:(lia)) as (Hq & _). unfold hex2, parse_hex.
  rewrite str_cons_app. by rewrite (proj2 (proj2 (proj2 (hex_digit_facts _ Hq)))).
Qed.
Lemma free_of_hex2 z : 0 <= z < 256 → free_of ":" (hex2 z) = true.
Proof.
  intros Hz. destruct (hex_split z 8 Hz ltac:(lia)) as (Hq & Hr & _). cbn [hex2 free_of].
  by rewrite (proj1 (proj2 (proj2 (hex_digit_facts _ Hq)))), (proj1 (proj2 (proj2 (hex_digit_facts _ Hr)))).
Qed.

(** The addresses of /proc/net/tcp are read as the kernel prints them: [hex2addr] gives the dotted
    address and the port for every address and port. *)
Theorem hex2addr_exact a b c d port :
  0 <= a < 256 → 0 <= b < 256 → 0 <= c < 256 → 0 <= d < 256 → 0 <= port < 65536 →
  hex2addr (kernel_addr a b c d port) =
    Some (pretty a +:+ "." +:+ pretty b +:+ "." +:+ pretty c +:+ "." +:+ pretty d +:+ ":" +:+ pretty port).
Proof.
  intros Ha Hb Hc Hd Hp.
  assert (Hp1 : 0 <= port / 256 < 256) by (Z.to_euclidean_division_equations; lia).
  assert (Hp2 : 0 <= port mod 256 < 256) by (Z.to_euclidean_division_equations; lia).
  set (h := hex2 d +:+ hex2 c +:+ hex2 b +:+ hex2 a). set (p := hex2 (port / 256) +:+ hex2 (port mod 256)).
  assert (Hk : kernel_addr a b c d port = h +:+ String ":" p) by done. rewrite Hk. clear Hk. unfold hex2addr.
  assert (Hh : free_of ":" h = true) by (unfold h; by rewrite !free_of_app, !free_of_hex2).
  assert (Hpf : free_of ":" p = true) by (unfold p; by rewrite !free_of_app, !free_of_hex2).
  rewrite split_app, split_free by done.
  assert (Hport : parse_hex 16 p = Some port).
  { unfold p. rewrite parse_hex_hex2 by done. rewrite parse_hex2 by lia.
    rewrite <-(str_app_nil_r (hex2 (port mod 256))), parse_hex2 by lia. cbn. f_equal.
    Z.to_euclidean_division_equations; lia. }
  assert (Hbyte : ∀ z, 0 <= z < 256 → parse_hex 8 (hex2 z) = Some z).
  { intros z Hz. rewrite <-(str_app_nil_r (hex2 z)), parse_hex_hex2, parse_hex2 by lia. done. }
  rewrite Hport. change (String.length h =? 8)%nat with true. cbv iota.
  assert (Hcb : forallb (λ i, char_boundary i h) [2; 4; 6]%nat = true).
  { destruct (hex_split c 8 Hc ltac:(lia)) as (Hqc & _), (hex_split b 8 Hb ltac:(lia)) as (Hqb & _),
      (hex_split a 8 Ha ltac:(lia)) as (Hqa & _).
    cbn [forallb]. unfold char_boundary, byte_len.
    change (as_bytes h !! 2%nat) with (Some (byte_of_ascii (hex_digit (c / 16)))).
    change (as_bytes h !! 4%nat) with (Some (byte_of_ascii (hex_digit (b / 16)))).
    change (as_bytes h !! 6%nat) with (Some (byte_of_ascii (hex_digit (a / 16)))). cbv iota.
    by rewrite (proj1 (proj2 (hex_digit_facts _ Hqc))), (proj1 (proj2 (hex_digit_facts _ Hqb))),
      (proj1 (proj2 (hex_digit_facts _ Hqa))). }
  rewrite Hcb. cbv zeta.
  change (String.substring (2 * 3) 2 h) with (hex2 a). change (String.substring (2 * 2) 2 h) with (hex2 b).
  change (String.substring (2 * 1) 2 h) with (hex2 c). change (String.substring (2 * 0) 2 h) with (hex2 d).
  by rewrite !Hbyte.
Qed.

(** The lines of a package's entry: whatever was read before, they give [p]. *)
Definition entry_of (ls : list string) (p : Package) : Prop :=
  (∀ q, foldl pkg_field q ls = p) ∧ Forall (λ l, l ≠ ""%string ∧ clean l) ls ∧ pn p ≠ ""%string.
Lemma scan_entry show ls p q rest :
  entry_of ls p →
  scan_pkgs show q (ls ++ ""%string :: rest) = show p +:+ scan_pkgs show (mkPkg "" (pv p) (pa p) (pd p) (ps p)) rest.
Proof.
  intros (Hf & Hls & Hp). specialize (Hf q). revert q Hf.
  induction Hls as [|l ls [Hl _] _ IH]; intros q Hf.
  - cbn in Hf. subst q. cbn [app scan_pkgs]. rewrite bool_decide_true, bool_decide_false by done. done.
  - cbn [app scan_pkgs foldl] in *. rewrite bool_decide_false by done. by apply IH.
Qed.

(** The package list is complete: if every entry of the database has the five fields and ends with an
    empty line, the list has one row for each package, in order, with its own fields. *)
Theorem pkg_list_exact o installed es :
  Forall (λ e : list string * Package, entry_of e.1 e.2) es →
  read_to_string o dpkg_status = Ok (unlines (mjoin ((λ e, e.1 ++ [""%string]) <$> es))) →
  cmd_pkg o (PkgList installed) = text (pkg_header +:+ String.concat "" (pkg_row ∘ snd <$> es)) 0.
Proof.
  intros Hes Hr. cbn [cmd_pkg]. rewrite Hr. rewrite lines_unlines.
  2: { apply Forall_forall. intros l Hl. apply list_elem_of_join in Hl as (ls & Hl & Hls).
       apply list_elem_of_fmap in Hls as (e & E & He). subst ls.
       rewrite Forall_forall in Hes. destruct (Hes e He) as (_ & Hls & _). rewrite Forall_forall in Hls.
       apply elem_of_app in Hl as [Hl| ->%list_elem_of_singleton]; [by apply Hls|done]. }
  do 2 f_equal. generalize no_pkg. clear Hr.
  induction Hes as [|[ls p] es He _ IH]; intros q; [done|]. cbn [fmap list_fmap mjoin list_join fst].
  rewrite <-app_assoc. cbn [app]. rewrite (scan_entry _ _ _ _ _ He), IH. cbn [compose snd].
  destruct es as [|e es]; [by cbn; rewrite str_app_nil_r|]. done.
Qed.

(** ** Pulling a file *)

Section Pull.
Context `{BufCrateOk} `{AeadCrateOk} `{FileCodecOk} `{!AeadTotal} `{Sha256Crate} `{Md5Crate}.

(** C24: Pulling a file, the client and the daemon and its file system together, on a network that loses nothing
    and delivers at once ([lan]) and a daemon that serves nobody else meanwhile and reads at once; on an established
    connection with nothing left to read, while the daemon has counted fewer than 30 commands of the
    address in the minute, for a path that fits into a datagram and a content (or error text) of at
    most 50000 bytes, and a positive timeout.  A text file of at
    most 1383 bytes arrives as it is.  The error text for a file that cannot be read, or that is not
    text, is written to the local file in place of the content, with success.  And what is
    longer, if what arrives of its datagram does not decrypt, leaves an empty file, with success. *)
Theorem pull_exact psk me server c l T n q i path timeout fuel w e o :
  u64_ok c →
  let content := match read_to_string o path with
                 | Ok s => as_bytes s | Err m => as_bytes ("read error: " +:+ m +:+ nl) end in
  let native := fst <$> run_native_cmd e (ReadFile path) o in
  linked me c l T n w → 0 <= n < CMD_RATE_LIMIT → inbox w = [] → u32_ok i → len content <= 50000 →
  (20 + length (as_bytes path) <= MAX_PAYLOAD)%nat → 0 < timeout → (2 <= fuel)%nat →
  (∀ seq pkt, control_datagram c psk seq (ExecChunk i 0 content) = Some pkt →
     (MAX_PACKET < length pkt)%nat → open_packet psk (take MAX_PACKET pkt) = None) →
  ∃ ctx' w', cmd_pull (H3 := lan psk me server native) fuel i path timeout (ctx psk server c q, w) =
    Some (Ok (Some (if decide (length content <= 1383)%nat then content else [])), (ctx', w')).
Proof.
  intros Hc content native. intros.
  apply (pull_native psk me server native c Hc l T n q i path timeout content
    (Some (if is_ok (read_to_string o path) then 0 else 1))); try done.
  - unfold native, content. cbn. unfold read_file. by destruct (read_to_string o path).
  - intros z. destruct (is_ok _); intros [= <-]; lia.
Qed.
End Pull.

(** ** Witnesses *)

Definition sample_os (fs : gmap string (list byte)) : Os :=
  mkOs (mkDisk fs (λ _, None) (λ _, None)) ∅ (λ _, None) (λ _, None) (λ _, Err "none"%string) (λ _, None) (λ _, None)
    (λ _, None) (λ _, Err "none"%string) (λ _, false).
Definition no_outside : Outside := mkOutside None (λ _ _ _, None) (λ c, c) 0.
#[local] Instance sample_sha : Sha256Crate := λ _, zero32.
#[local] Instance sample_md5 : Md5Crate := λ _, [].

Lemma sed_exact_witness :
  ∃ r o', run_native_cmd no_outside (Sed "f" "a" "bb" true true) (sample_os {[ "f"%string := as_bytes "xaa" ]})
      = Some (text ("ok" +:+ nl) 0, o')
    ∧ replaced "a" "bb" "xaa" r ∧ files (disk o') !! "f"%string = Some (as_bytes r).
Proof.
  pose proof (sed_exact no_outside "f" "a" "bb" true true (sample_os {[ "f"%string := as_bytes "xaa" ]}) ltac:(done) eq_refl)
    as (r & o' & E & Hr & _ & Hf).
  exists r, o'. split; [exact E|]. split; [exact Hr|]. by rewrite Hf, lookup_insert_eq.
Defined.
Lemma write_commands_exact_witness :
  run_native_cmd no_outside (WriteFile "new" [Byte.x41] true) (sample_os ∅)
    = Some (text ("open error: " +:+ ENOENT +:+ nl) 1, sample_os ∅).
Proof. exact (proj1 (write_commands_exact no_outside "new" [Byte.x41] true (sample_os ∅) eq_refl eq_refl)). Defined.
Lemma hex2addr_exact_witness : hex2addr "0100007F:1F90" = Some "127.0.0.1:8080"%string.
Proof. apply (hex2addr_exact 127 0 0 1 8080); lia. Defined.

Definition sample_entry : list string :=
  ["Package: vim"; "Status: install ok installed"; "Version: 9"; "Architecture: amd64"; "Description: editor"]%string.
Definition sample_pkg : Package := mkPkg "vim" "9" "amd64" "editor" "install ok installed".
Lemma pkg_list_exact_witness :
  cmd_pkg (sample_os {[ dpkg_status := as_bytes (unlines (sample_entry ++ [""%string])) ]}) (PkgList true)
    = text (pkg_header +:+ pkg_row sample_pkg) 0.
Proof.
  apply (pkg_list_exact _ true [(sample_entry, sample_pkg)]); [|reflexivity].
  repeat constructor; try done.
Defined.

#[local] Existing Instance CtlProofs.file_codec.
#[local] Existing Instance CtlProofs.file_codec_ok.
#[local] Existing Instance CtlProofs.tag_aead_total.
Definition pull_os : Os := sample_os {[ "/tmp/bin"%string := [Byte.xff] ]}.
#[local] Instance pull_lan : Network Net :=
  lan sample_psk here there (fst <$> run_native_cmd no_outside (ReadFile "/tmp/bin") pull_os).
Lemma pull_exact_witness :
  let text := as_bytes ("read error: stream did not contain valid UTF-8" +:+ nl) in
  ∃ ctx' w', cmd_pull 2 7 "/tmp/bin" 300 (CtlProofs.ctx sample_psk there 42 1, linked_net) =
    Some (Ok (Some (if decide (length text <= 1383)%nat then text else [])), (ctx', w')).
Proof.
  apply (pull_exact sample_psk here there 42 0 0 1 1 7 "/tmp/bin" 300 2 linked_net no_outside pull_os); try done.
  - split_and!; try done. by eexists.
  - vm_compute; lia.
  - intros seq pkt E Hlen. exfalso.
    match type of E with control_datagram _ _ _ ?m = _ =>
      destruct (sealed_carries sample_psk 42 ltac:(done) seq m) as (pkt' & E' & hd & _ & _ & _ & _ & _ & _ & Hl & _);
        [by vm_compute|] end.
    rewrite E in E'. injection E' as ->. rewrite Hl, codec_length in Hlen by done. vm_compute in Hlen. lia.
Defined.
