(* ===== verification/Shell.v ===== *)
(** * Shell: streaming process execution

    Models crates/shell/src/lib.rs and the task that drives it,
    [run_exec_task] of crates/daemon/src/main.rs.  The threads of a
    [StreamingExec] (two readers and a waiter) and the process are the actions
    [act] of one state; the mutex around the child is free or held by the
    waiter.  [Sys] composes it with the task's [select!] loop and the daemon's
    [Host]; one bridge thread moves chunks to the task, its [recv] and [send]
    are one action because nothing lies between them. *)
From S2P Require Import Prelude Frame Stream RateLimit Connection Daemon.

(** The two streams; 0 = stdout, 1 = stderr. *)
Inductive Which := Stdout | Stderr.
#[export] Instance Which_eq : EqDecision Which.
Proof. solve_decision. Defined.
Definition stream_no (i : Which) : Z := match i with Stdout => 0 | Stderr => 1 end.
Definition StreamChunk : Type := Z * list byte.
Definition BUF_SIZE : nat := 4096.

(** ** State *)

(** A reader thread: in [read], with a chunk to send, or ended. *)
Inductive Reader := Reading | Holding (data : list byte) | Finished.
(** A pipe with its reader.  [written] is all that was ever written to it. *)
Record Pipe := mkPipe { written : list byte; unread : list byte; is_open : bool; reader : Reader }.

(** The waiter before [lock], in [wait] with the lock and the child, with the
    code after the lock is released, and after [done_tx] is dropped. *)
Inductive Waiter := Starting | Waiting | Reaped (code : option Z) | Gone.

Record StreamingExec := mkExec {
  (** The process: [None] while it runs, then its exit code if it has one. *)
  proc : option (option Z);
  signalled : bool;
  (** The child is in its mutex; the waiter holds the mutex when [Waiting]. *)
  child : bool;
  waiter : Waiter;
  out_pipe : Pipe;
  err_pipe : Pipe;
  (** The two channels, whether their receivers are in the struct, and whether
      the first one still has a receiver. *)
  queue : list StreamChunk;
  chunks_rx : bool;
  rx_alive : bool;
  done_queue : list (option Z);
  done_rx : bool;
  (** What was written to stdin, and whether it is open. *)
  stdin : list byte * bool
}.

Definition set_proc v s := mkExec v (signalled s) (child s) (waiter s) (out_pipe s) (err_pipe s)
  (queue s) (chunks_rx s) (rx_alive s) (done_queue s) (done_rx s) (stdin s).
Definition set_signalled v s := mkExec (proc s) v (child s) (waiter s) (out_pipe s) (err_pipe s)
  (queue s) (chunks_rx s) (rx_alive s) (done_queue s) (done_rx s) (stdin s).
Definition set_waiter c w dq s := mkExec (proc s) (signalled s) c w (out_pipe s) (err_pipe s)
  (queue s) (chunks_rx s) (rx_alive s) dq (done_rx s) (stdin s).
Definition set_queue q rx alive s := mkExec (proc s) (signalled s) (child s) (waiter s) (out_pipe s)
  (err_pipe s) q rx alive (done_queue s) (done_rx s) (stdin s).
Definition set_done dq rx s := mkExec (proc s) (signalled s) (child s) (waiter s) (out_pipe s) (err_pipe s)
  (queue s) (chunks_rx s) (rx_alive s) dq rx (stdin s).
Definition set_stdin v s := mkExec (proc s) (signalled s) (child s) (waiter s) (out_pipe s) (err_pipe s)
  (queue s) (chunks_rx s) (rx_alive s) (done_queue s) (done_rx s) v.
Definition pipe (i : Which) (s : StreamingExec) : Pipe :=
  match i with Stdout => out_pipe s | Stderr => err_pipe s end.
Definition set_pipe (i : Which) (p : Pipe) (s : StreamingExec) : StreamingExec :=
  mkExec (proc s) (signalled s) (child s) (waiter s)
    (match i with Stdout => p | _ => out_pipe s end) (match i with Stderr => p | _ => err_pipe s end)
    (queue s) (chunks_rx s) (rx_alive s) (done_queue s) (done_rx s) (stdin s).

(** [StreamingExec::spawn], once [sh -c cmd] has started. *)
Definition fresh_pipe : Pipe := mkPipe [] [] true Reading.
Definition spawn : StreamingExec :=
  mkExec None false true Starting fresh_pipe fresh_pipe [] true true [] true ([], true).

(** ** The threads and the process *)

Inductive Action :=
(** The process, or one that shares its pipe, writes or closes; it exits. *)
| Writes (i : Which) (data : list byte) | Closes (i : Which) | Exits (code : option Z)
(** A reader gets [n] bytes or an error, and sends. *)
| Reads (i : Which) (n : nat) | ReadFails (i : Which) | Sends (i : Which)
(** The waiter locks and takes the child; [wait] returns and the lock is
    released; it sends the code. *)
| Locks | Reaps | Reports.

(** [None]: the action cannot happen now. *)
Definition act (a : Action) (s : StreamingExec) : option StreamingExec :=
  match a with
  | Writes i data =>
      let p := pipe i s in
      if is_open p
      then Some (set_pipe i (mkPipe (written p ++ data) (unread p ++ data) true (reader p)) s) else None
  | Closes i =>
      let p := pipe i s in Some (set_pipe i (mkPipe (written p) (unread p) false (reader p)) s)
  | Exits code => match proc s with None => Some (set_proc (Some code) s) | Some _ => None end
  | Reads i n =>
      let p := pipe i s in
      match reader p with
      | Reading =>
          if (n =? 0)%nat then
            match unread p with
            | [] => if is_open p then None else Some (set_pipe i (mkPipe (written p) [] false Finished) s)
            | _ => None
            end
          else if (n <=? BUF_SIZE)%nat && (n <=? length (unread p))%nat then
            Some (set_pipe i (mkPipe (written p) (drop n (unread p)) (is_open p) (Holding (take n (unread p)))) s)
          else None
      | _ => None
      end
  | ReadFails i =>
      let p := pipe i s in
      match reader p with
      | Reading => Some (set_pipe i (mkPipe (written p) (unread p) (is_open p) Finished) s)
      | _ => None
      end
  | Sends i =>
      let p := pipe i s in
      match reader p with
      | Holding data =>
          if rx_alive s
          then Some (set_queue (queue s ++ [(stream_no i, data)]) (chunks_rx s) true
                 (set_pipe i (mkPipe (written p) (unread p) (is_open p) Reading) s))
          else Some (set_pipe i (mkPipe (written p) (unread p) (is_open p) Finished) s)
      | _ => None
      end
  | Locks =>
      match waiter s with
      | Starting => Some (set_waiter false (if child s then Waiting else Reaped None) (done_queue s) s)
      | _ => None
      end
  | Reaps =>
      match waiter s, proc s with
      | Waiting, Some code => Some (set_waiter (child s) (Reaped code) (done_queue s) s)
      | _, _ => None
      end
  | Reports =>
      match waiter s with
      | Reaped code => Some (set_waiter (child s) Gone (done_queue s ++ [code]) s)
      | _ => None
      end
  end.

(** ** The methods *)

Definition try_poll_chunk (s : StreamingExec) : option StreamChunk * StreamingExec :=
  if chunks_rx s then
    match queue s with
    | [] => (None, s)
    | c :: q => (Some c, set_queue q true (rx_alive s) s)
    end
  else (None, s).
(** [Some None]: the sender is gone, or the process has no code. *)
Definition try_wait (s : StreamingExec) : option (option Z) * StreamingExec :=
  if done_rx s then
    match done_queue s with
    | code :: q => (Some code, set_done q true s)
    | [] => (match waiter s with Gone => Some None | _ => None end, s)
    end
  else (None, s).
(** [None]: [recv] waits. *)
Definition wait (s : StreamingExec) : option (option Z * StreamingExec) :=
  if done_rx s then
    match done_queue s with
    | code :: q => Some (code, set_done q true s)
    | [] => match waiter s with Gone => Some (None, s) | _ => None end
    end
  else Some (None, s).
Definition take_chunks_rx (s : StreamingExec) : bool * StreamingExec :=
  (chunks_rx s, set_queue (queue s) false (rx_alive s) s).
Definition take_done_rx (s : StreamingExec) : bool * StreamingExec :=
  (done_rx s, set_done (done_queue s) false s).
(** [None]: the mutex is held.  A child still in the mutex was never waited
    for, so the signal reaches it. *)
Definition kill (s : StreamingExec) : option StreamingExec :=
  match waiter s with
  | Waiting => None
  | _ => Some (if child s then set_signalled true s else s)
  end.
(** [fault]: after how many bytes [write_all] fails; then stdin stays open. *)
Definition write_stdin (fault : option nat) (data : list byte) (close : bool) (s : StreamingExec)
    : bool * StreamingExec :=
  let '(sent, is_open) := stdin s in
  if is_open then
    match fault with
    | Some n => (false, set_stdin (sent ++ take n data, true) s)
    | None => (true, set_stdin (sent ++ data, negb close) s)
    end
  else (true, s).

(** ** The task *)

(** [run_exec_task] is at its [select!], or inside [se.kill()], after which it
    goes on or ends; or it has ended. *)
Inductive Control := Selecting | Killing (ends : bool) | Ended.
Record Sys := mkSys { se : StreamingExec; pc : Control; daemon : Host }.

Inductive TaskAction :=
| Thread (a : Action)
(** The bridge moves a chunk; [select!] takes a chunk, the code, a command;
    [kill] returns. *)
| Bridge | TakeChunk | TakeDone | TakeCommand (fault : option nat) | KillReturns
(** The daemon passes a command to some task. *)
| Receives (id : Z) (cmd : ExecCmd).

Section Task.
Context `{BufCrate} `{AeadCrate} `{ControlCodec}.
Variable psk : Psk.
Variable k : nat.

(** [run_exec_task] of task [k], and the threads under it. *)
Definition task_act (a : TaskAction) (s : Sys) : option Sys :=
  let h := daemon s in
  match a with
  | Thread a => (λ e, mkSys e (pc s) h) <$> act a (se s)
  | Receives id cmd => Some (mkSys (se s) (pc s) (send_exec id cmd h))
  | Bridge =>
      match queue (se s) with
      | c :: q =>
          match tasks h !! k with
          | Some t => Some (mkSys (set_queue q (chunks_rx (se s)) (rx_alive (se s)) (se s)) (pc s)
                              (put_task k t (inbox t) (chunks t ++ [c]) h))
          | None => Some (mkSys (set_queue [] (chunks_rx (se s)) false (se s)) (pc s) h)
          end
      | [] => None
      end
  | TakeChunk =>
      match pc s, tasks h !! k with
      | Selecting, Some t =>
          match chunks t with
          | [] => None
          | _ => Some (mkSys (se s) Selecting (run_task psk k Forward h))
          end
      | _, _ => None
      end
  | TakeDone =>
      match pc s, done_queue (se s) with
      | Selecting, code :: q =>
          Some (mkSys (set_done q (done_rx (se s)) (se s)) Ended (run_task psk k (Exited code) h))
      | _, _ => None
      end
  | TakeCommand fault =>
      match pc s, tasks h !! k with
      | Selecting, Some t =>
          match inbox t with
          | Stdin data close :: _ =>
              Some (mkSys (write_stdin fault data close (se s)).2 Selecting (run_task psk k Command h))
          | Signal _ :: _ => Some (mkSys (se s) (Killing false) (run_task psk k Command h))
          | [] =>
              if sender_alive k h then None
              else Some (mkSys (se s) (Killing true) (run_task psk k Command h))
          end
      | _, _ => None
      end
  | KillReturns =>
      match pc s with
      | Killing ends => (λ e, mkSys e (if ends then Ended else Selecting) h) <$> kill (se s)
      | _ => None
      end
  end.
Definition task_step (s s' : Sys) : Prop := ∃ a, task_act a s = Some s'.

(** The state in which a task starts. *)
Definition started (h : Host) : Sys := mkSys (take_done_rx (take_chunks_rx spawn).2).2 Selecting h.
End Task.
