(* ===== verification/ShellProofs.v ===== *)
(** * ShellProofs: the theorems about streaming execution *)
From S2P Require Import Prelude Frame Stream RateLimit Connection Daemon DaemonProofs Shell.

(** ** The invariant of a StreamingExec in use *)

(** A use of the struct: a thread acts and no [read] fails, or a method is
    called.  What was polled is kept. *)
Definition no_failure (a : Action) : Prop := match a with ReadFails _ => False | _ => True end.
Inductive uses : list StreamChunk * StreamingExec → list StreamChunk * StreamingExec → Prop :=
| uses_thread a got s s' : no_failure a → act a s = Some s' → uses (got, s) (got, s')
| uses_poll got c s s' : try_poll_chunk s = (Some c, s') → uses (got, s) (got ++ [c], s')
| uses_try_wait got r s s' : try_wait s = (r, s') → uses (got, s) (got, s')
| uses_kill got s s' : kill s = Some s' → uses (got, s) (got, s')
| uses_stdin got fault data close s : uses (got, s) (got, (write_stdin fault data close s).2).
Definition used (got : list StreamChunk) (s : StreamingExec) : Prop := rtc uses ([], spawn) (got, s).

Definition data_of (i : Which) (cs : list StreamChunk) : list byte :=
  mjoin (snd <$> filter (λ c, c.1 = stream_no i) cs).
Definition held (p : Pipe) : list byte := match reader p with Holding data => data | _ => [] end.
Definition chunk_ok (c : StreamChunk) : Prop := (1 ≤ length c.2 ≤ BUF_SIZE)%nat.

Record stream_ok (i : Which) (got : list StreamChunk) (s : StreamingExec) : Prop := {
  so_data : written (pipe i s) = data_of i got ++ data_of i (queue s) ++ held (pipe i s) ++ unread (pipe i s);
  so_held : ∀ data, reader (pipe i s) = Holding data → chunk_ok (stream_no i, data);
  so_end : reader (pipe i s) = Finished → unread (pipe i s) = [] ∧ is_open (pipe i s) = false
}.
(** The code on its way is the process's, it is sent once, and the child
    leaves the mutex with the waiter. *)
Definition wait_ok (s : StreamingExec) : Prop :=
  match waiter s with
  | Starting => child s = true ∧ done_queue s = []
  | Waiting => child s = false ∧ done_queue s = []
  | Reaped c => child s = false ∧ done_queue s = [] ∧ proc s = Some c
  | Gone => child s = false ∧ ∃ c, proc s = Some c ∧ (done_queue s = [c] ∨ done_queue s = [])
  end.
Record exec_ok (got : list StreamChunk) (s : StreamingExec) : Prop := {
  eo_streams : ∀ i, stream_ok i got s;
  eo_chunks : Forall chunk_ok (got ++ queue s);
  eo_wait : wait_ok s;
  eo_live : chunks_rx s = true ∧ rx_alive s = true ∧ done_rx s = true
}.

Lemma data_of_app i cs cs' : data_of i (cs ++ cs') = data_of i cs ++ data_of i cs'.
Proof. unfold data_of. by rewrite filter_app, fmap_app, join_app. Qed.
Lemma data_of_one i j data : data_of i [(stream_no j, data)] = match i, j with Stdout, Stdout | Stderr, Stderr => data | _, _ => [] end.
Proof. unfold data_of. destruct i, j; cbn; case_decide; try done; cbn; by rewrite ?app_nil_r. Qed.
Lemma data_of_cons i c cs : data_of i (c :: cs) = data_of i [c] ++ data_of i cs.
Proof. apply (data_of_app i [c]). Qed.

Lemma fresh_exec_ok : exec_ok [] spawn.
Proof. split; [|constructor|by split|done]. by intros []; split. Qed.

(** The pipe of one stream changes, and what it holds still follows what was sent. *)
Definition pipe_ok (i : Which) (cs : list StreamChunk) (p : Pipe) : Prop :=
  written p = data_of i cs ++ held p ++ unread p
  ∧ (∀ data, reader p = Holding data → chunk_ok (stream_no i, data))
  ∧ (reader p = Finished → unread p = [] ∧ is_open p = false).
Lemma stream_pipe i got s : stream_ok i got s ↔ pipe_ok i (got ++ queue s) (pipe i s).
Proof.
  unfold pipe_ok. rewrite data_of_app, <-app_assoc. split; [by intros []|by intros (? & ? & ?); split].
Qed.
Lemma pipe_set i p s : pipe i (set_pipe i p s) = p.
Proof. by destruct i. Qed.
Lemma pipe_set_ne i j p s : i ≠ j → pipe j (set_pipe i p s) = pipe j s.
Proof. by destruct i, j. Qed.
Lemma set_pipe_ok i p got s : exec_ok got s → pipe_ok i (got ++ queue s) p → exec_ok got (set_pipe i p s).
Proof.
  intros [Hs Hc Hw Hl] Hp. split; [|done..]. intros j. apply stream_pipe.
  destruct (decide (i = j)) as [<-|Hne]; [by rewrite pipe_set|].
  rewrite pipe_set_ne by done. apply (proj1 (stream_pipe j got s)), Hs.
Qed.
Lemma get_pipe_ok i got s : exec_ok got s → pipe_ok i (got ++ queue s) (pipe i s).
Proof. intros [Hs _ _ _]. apply (proj1 (stream_pipe i got s)), Hs. Qed.

(** Nothing but the process, the waiter and stdin changes. *)
Lemma exec_ok_same got s s' :
  (out_pipe s', err_pipe s', queue s', chunks_rx s', rx_alive s', done_rx s')
    = (out_pipe s, err_pipe s, queue s, chunks_rx s, rx_alive s, done_rx s) →
  wait_ok s' → exec_ok got s → exec_ok got s'.
Proof.
  intros [= H1 H2 H3 H4 H5 H6] Hw [Hs Hc _ Hl]. split; rewrite ?H3, ?H4, ?H5, ?H6; try done.
  intros i. apply stream_pipe. rewrite H3. replace (pipe i s') with (pipe i s) by (destruct i; cbn; congruence).
  apply (proj1 (stream_pipe i got s)), Hs.
Qed.

(** A chunk is queued, and leaves the reader. *)
Lemma send_ok i data got s : exec_ok got s → reader (pipe i s) = Holding data →
  exec_ok got (set_queue (queue s ++ [(stream_no i, data)]) (chunks_rx s) true
    (set_pipe i (mkPipe (written (pipe i s)) (unread (pipe i s)) (is_open (pipe i s)) Reading) s)).
Proof.
  intros Hok Hr. pose proof Hok as [Hs Hc Hw Hl]. pose proof (get_pipe_ok i got s Hok) as (Hd & Hh & _).
  split; [| |done|by destruct Hl as (? & ? & ?)].
  - intros j. apply stream_pipe. cbn [queue set_queue]. rewrite app_assoc.
    change (pipe j (set_queue _ _ _ ?s')) with (pipe j s').
    destruct (decide (i = j)) as [<-|Hne].
    + rewrite pipe_set. split; [|by split]. unfold held in *; cbn. rewrite Hr in Hd.
      rewrite data_of_app, data_of_one, Hd, <-app_assoc. by destruct i.
    + rewrite pipe_set_ne by done. destruct (get_pipe_ok j got s Hok) as (Hd' & ? & ?). split; [|done].
      rewrite data_of_app, data_of_one. destruct i, j; try done; by rewrite app_nil_r.
  - cbn [queue set_queue]. rewrite app_assoc. apply Forall_app. split; [done|]. constructor; [by apply Hh|done].
Qed.

Lemma read_ok i n got s : exec_ok got s → reader (pipe i s) = Reading → n ≠ 0%nat →
  (n ≤ BUF_SIZE)%nat → (n ≤ length (unread (pipe i s)))%nat →
  exec_ok got (set_pipe i (mkPipe (written (pipe i s)) (drop n (unread (pipe i s))) (is_open (pipe i s))
    (Holding (take n (unread (pipe i s))))) s).
Proof.
  intros Hok Hr Hn Hb Hl. pose proof (get_pipe_ok i got s Hok) as (Hd & _ & _).
  apply set_pipe_ok; [done|]. unfold pipe_ok, held in *. cbn. rewrite Hr in Hd. rewrite take_drop. split_and!; [done| |done].
  intros data [= <-]. unfold chunk_ok. cbn. rewrite length_take. lia.
Qed.

Lemma act_ok a got s s' : no_failure a → act a s = Some s' → exec_ok got s → exec_ok got s'.
Proof.
  intros Ha E Hok. pose proof Hok as [Hs Hc Hw Hl]. unfold wait_ok in Hw.
  destruct a; cbn in E; try done.
  - pose proof (get_pipe_ok i got s Hok) as (Hd & Hh & He).
    destruct (is_open (pipe i s)) eqn:Ho; [|done]. injection E as <-. apply set_pipe_ok; [done|].
    split_and!; [|done|]; cbn.
    + unfold held in *. cbn. by rewrite Hd, !app_assoc.
    + intros Hf. by destruct (He Hf).
  - injection E as <-. pose proof (get_pipe_ok i got s Hok) as (Hd & Hh & He). apply set_pipe_ok; [done|].
    split_and!; [done..|]. intros Hf. by destruct (He Hf).
  - destruct (proc s) eqn:Hp; [done|]. injection E as <-. apply (exec_ok_same got s); try done.
    unfold wait_ok; cbn. destruct (waiter s); naive_solver.
  - destruct (reader (pipe i s)) eqn:Hr; try done. destruct n as [|n].
    + cbn in E. destruct (unread (pipe i s)) eqn:Hu; [|done]. destruct (is_open (pipe i s)); [done|]. injection E as <-.
      apply set_pipe_ok; [done|]. pose proof (get_pipe_ok i got s Hok) as (Hd & _ & _).
      unfold pipe_ok, held in *. cbn. rewrite Hd, Hr, Hu. by split_and!.
    + cbn [Nat.eqb] in E. destruct (_ && _) eqn:Hb; [|done]. injection E as <-.
      apply andb_prop in Hb as [H1 H2]. apply Nat.leb_le in H1, H2. by apply read_ok.
  - destruct (reader (pipe i s)) eqn:Hr; try done. destruct Hl as (? & Hl & ?). rewrite Hl in E. injection E as <-.
    by apply send_ok.
  - destruct (waiter s); try done. injection E as <-. destruct Hw as [-> Hw]. by apply (exec_ok_same got s).
  - destruct (waiter s); try done. destruct (proc s) eqn:Hp; [|done]. injection E as <-.
    apply (exec_ok_same got s); try done. by destruct Hw.
  - destruct (waiter s); try done. injection E as <-. apply (exec_ok_same got s); try done.
    destruct Hw as (Hc' & Hd & Hp). unfold wait_ok; cbn. rewrite Hd. naive_solver.
Qed.

Lemma poll_ok got c s s' : try_poll_chunk s = (Some c, s') → exec_ok got s → exec_ok (got ++ [c]) s'.
Proof.
  intros E [Hs Hc Hw (H1 & H2 & H3)]. unfold try_poll_chunk in E. rewrite H1 in E.
  destruct (queue s) as [|c' q] eqn:Hq; [done|]. injection E as -> <-.
  split; [|by rewrite <-app_assoc|done|done].
  intros i. apply stream_pipe. cbn [queue set_queue]. rewrite <-app_assoc. cbn [app]. rewrite <-Hq. apply (proj1 (stream_pipe i got s)), Hs.
Qed.
Lemma try_wait_ok got r s s' : try_wait s = (r, s') → exec_ok got s → exec_ok got s'.
Proof.
  intros E Hok. pose proof Hok as [Hs Hc Hw (H1 & H2 & H3)]. unfold try_wait in E. rewrite H3 in E.
  destruct (done_queue s) eqn:Hd; [by injection E as _ <-|]. injection E as _ <-.
  apply (exec_ok_same got s); [by cbn; rewrite H3| |done].
  unfold wait_ok in *; cbn. rewrite Hd in Hw. destruct (waiter s); naive_solver.
Qed.

Lemma used_ok got s : used got s → exec_ok got s.
Proof.
  intros Hu. unfold used in Hu. remember (([] : list StreamChunk), spawn) as x eqn:Ex. remember (got, s) as y eqn:Ey.
  assert (exec_ok x.1 x.2) as Hx by (subst; apply fresh_exec_ok).
  assert (exec_ok y.1 y.2); [|by subst]. clear Ex Ey. induction Hu as [|x y z Hxy _ IH]; [done|]. apply IH.
  destruct Hxy as [a got' s1 s2 Ha E|got' c s1 s2 E|got' r s1 s2 E|got' s1 s2 E|got' fault data close s1]; cbn in *.
  - by eapply act_ok.
  - by eapply poll_ok.
  - by eapply try_wait_ok.
  - unfold kill in E. destruct (waiter s1) eqn:Hw; try done; injection E as <-; destruct (child s1); try done;
      apply (exec_ok_same got' s1); try done; by destruct Hx.
  - unfold write_stdin. destruct (stdin s1) as [sent []], fault; try done; cbn;
      apply (exec_ok_same got' s1); try done; by destruct Hx.
Qed.

(** ** Theorems *)

(** C26: What is polled of a stream is, in order and without a gap, what was written to it, in chunks of
    1 to 4096 bytes; and it is all of it once the reader has ended and the channel is empty.  No
    order holds between the two streams. *)
Theorem output_exact got s : used got s →
  Forall chunk_ok got ∧ ∀ i, data_of i got `prefix_of` written (pipe i s)
  ∧ (reader (pipe i s) = Finished → queue s = [] →
     is_open (pipe i s) = false ∧ data_of i got = written (pipe i s)).
Proof.
  intros [Hs Hc _ _]%used_ok. split; [by apply Forall_app in Hc as [? _]|]. intros i.
  destruct (Hs i) as [Hd _ He]. split; [by eexists|]. intros Hf Hq. destruct (He Hf) as [Hu Ho]. split; [done|].
  rewrite Hd, Hq, Hu. unfold held. rewrite Hf. cbn. by rewrite app_nil_r.
Qed.

(** The exit code is told to one caller: [try_wait] gives nothing until the waiter has reported,
    then the code of the process, and from then on that the process ended without a code. *)
Theorem exit_code_told_once got s : used got s →
  match waiter s with
  | Gone => ∃ c s', proc s = Some c
      ∧ try_wait s = (Some (match done_queue s with [] => None | _ => c end), s')
      ∧ try_wait s' = (Some None, s')
  | _ => try_wait s = (None, s)
  end.
Proof.
  intros [_ _ Hw (_ & _ & Hr)]%used_ok. unfold wait_ok, try_wait in *. rewrite Hr.
  destruct (waiter s) eqn:E; [by destruct Hw as [_ ->]|by destruct Hw as [_ ->]|by destruct Hw as (_ & -> & _)|].
  destruct Hw as (_ & c & Hp & [Hq|Hq]); rewrite Hq; exists c; eexists; split_and!; try done; cbn; by rewrite ?Hr, ?Hq, ?E.
Qed.

(** [kill] sends a signal only before the waiter has taken the child.  While the waiter waits, it
    blocks; when it returns, the process has already exited and nothing is done. *)
Theorem kill_comes_too_late got s : used got s →
  match waiter s with
  | Starting => kill s = Some (set_signalled true s)
  | Waiting => kill s = None
  | _ => kill s = Some s ∧ proc s ≠ None
  end.
Proof.
  intros [_ _ Hw _]%used_ok. unfold wait_ok, kill in *.
  destruct (waiter s); [by destruct Hw as [-> _]|done|by destruct Hw as (-> & _ & ->)|].
  by destruct Hw as (-> & c & -> & _).
Qed.

(** ** The task *)

Section Task.
Context `{BufCrate} `{AeadCrate} `{ControlCodec}.
Variable psk : Psk.
Variable k : nat.

Lemma act_proc a s s' : act a s = Some s' → proc s' = None → proc s = None.
Proof.
  destruct a; cbn; repeat (case_match; try done); intros [= <-]; cbn; first [done|by destruct i|congruence].
Qed.
Lemma write_stdin_frame fault data close s :
  proc (write_stdin fault data close s).2 = proc s ∧ waiter (write_stdin fault data close s).2 = waiter s.
Proof. unfold write_stdin. destruct (stdin s) as [sent []], fault; done. Qed.
(** An action that can happen now: every case of its guard. *)
Ltac crush := repeat (case_match; try done); intros [= <-]; cbn in *; try done; try congruence.
Lemma task_act_proc a s s' : task_act psk k a s = Some s' → proc (se s') = None → proc (se s) = None.
Proof.
  destruct a as [a| | | |fault| |]; cbn.
  - destruct (act a (se s)) eqn:E; [|done]. intros [= <-]; cbn. by eapply act_proc.
  - crush.
  - crush.
  - crush.
  - crush; by rewrite (proj1 (write_stdin_frame _ _ _ _)).
  - destruct (pc s); try done. unfold kill. destruct (waiter (se s)), (child (se s)); crush.
  - by intros [= <-].
Qed.
(** While the waiter waits, what a thread does leaves it waiting or needs the exit. *)
Lemma act_waiting a s s' : act a s = Some s' → waiter s = Waiting → proc s' = None →
  waiter s' = Waiting ∧ signalled s' = signalled s.
Proof.
  intros E Hw Hp. pose proof (act_proc _ _ _ E Hp) as Hp0. revert E. destruct a; cbn; rewrite ?Hw, ?Hp0;
    repeat (case_match; try done); intros [= <-]; cbn in *; first [done|by destruct i|congruence].
Qed.
Lemma send_exec_trace id cmd h : trace (send_exec id cmd h) = trace h.
Proof. unfold send_exec. by repeat case_match. Qed.

(** C27: A signal wedges the task.  If it is taken while the process runs and its waiter waits, then
    until the process exits the task sends nothing more of its output, takes no further
    command, and the process gets no signal. *)
Theorem signal_waits_for_exit s s' ends :
  waiter (se s) = Waiting → pc s = Killing ends → rtc (task_step psk k) s s' → proc (se s') = None →
  pc s' = Killing ends ∧ signalled (se s') = signalled (se s) ∧ trace (daemon s') = trace (daemon s)
  ∧ kill (se s') = None.
Proof.
  intros Hw Hk Hr. induction Hr as [s1|s1 s2 s3 [a E] Hr IH]; intros Hp.
  { split_and!; try done. unfold kill. by rewrite Hw. }
  assert (proc (se s2) = None) as Hp2.
  { clear -Hr Hp. induction Hr as [|x y z [b Eb] _ IH]; [done|]. by eapply task_act_proc, IH. }
  cut (waiter (se s2) = Waiting ∧ pc s2 = Killing ends ∧ signalled (se s2) = signalled (se s1)
       ∧ trace (daemon s2) = trace (daemon s1)).
  { intros (? & ? & <- & <-). by apply IH. }
  destruct a as [a| | | |fault| |]; cbn in E; rewrite ?Hk in E; try done.
  - destruct (act a (se s1)) eqn:Ea; [|done]. injection E as <-. cbn in *.
    by destruct (act_waiting _ _ _ Ea Hw Hp2) as [? ->].
  - repeat (case_match; try done); by injection E as <-.
  - unfold kill in E. by rewrite Hw in E.
  - injection E as <-. cbn. by rewrite send_exec_trace.
Qed.

(** ** Refinement of the daemon's tasks *)

(** A task whose channel also holds the chunks [q]. *)
Definition more (q : list StreamChunk) (t : ExecTask) : ExecTask :=
  mkTask (task_id t) (task_conn t) (task_route t) (task_seq t) (task_cmd t) (inbox t) (chunks t ++ q).
Definition add_chunks (q : list StreamChunk) (h : Host) : Host := set_tasks (alter (more q) k (tasks h)) h.
(** The host as the daemon's model sees it: what is still in the channel of
    the readers counts as waiting for the task. *)
Definition view (s : Sys) : Host := add_chunks (queue (se s)) (daemon s).

Lemma insert_alter_eq {A} (f : A → A) x (m : gmap nat A) : <[k := x]> (alter f k m) = <[k := x]> m.
Proof.
  apply map_eq. intros j. destruct (decide (k = j)) as [<-|Hne]; [by rewrite !lookup_insert_eq|].
  by rewrite !lookup_insert_ne, lookup_alter_ne by done.
Qed.
Lemma delete_alter_eq {A} (f : A → A) (m : gmap nat A) : delete k (alter f k m) = delete k m.
Proof.
  apply map_eq. intros j. destruct (decide (k = j)) as [<-|Hne]; [by rewrite !lookup_delete_eq|].
  by rewrite !lookup_delete_ne, lookup_alter_ne by done.
Qed.
Lemma reply_set_tasks r c l m ts h : reply_on psk r c l m (set_tasks ts h) = set_tasks ts (reply_on psk r c l m h).
Proof.
  destruct r; unfold reply_on, reply_udp, reply_tcp, next_seq, send_control, tcp_send; cbn; by case_match.
Qed.
Lemma reply_tasks r c l m h : tasks (reply_on psk r c l m h) = tasks h.
Proof.
  destruct r; unfold reply_on, reply_udp, reply_tcp, next_seq, send_control, tcp_send; cbn; by case_match.
Qed.
Lemma add_nothing q h : tasks h !! k = None → add_chunks q h = h.
Proof. intros E. unfold add_chunks. rewrite alter_id; [by destruct h|]. intros t. by rewrite E. Qed.
Lemma tasks_add q h : tasks (add_chunks q h) !! k = more q <$> tasks h !! k.
Proof. apply lookup_alter_eq. Qed.
Lemma add_put q t i c h : add_chunks q (put_task k t i c h) = put_task k t i (c ++ q) (add_chunks q h).
Proof. unfold add_chunks, put_task, set_tasks; cbn. by rewrite alter_insert_eq, insert_alter_eq. Qed.
Lemma add_reply q r c l m h : add_chunks q (reply_on psk r c l m h) = reply_on psk r c l m (add_chunks q h).
Proof. unfold add_chunks. by rewrite reply_set_tasks, reply_tasks. Qed.
Lemma add_drop q h : add_chunks q (set_tasks (delete k (tasks h)) h) = set_tasks (delete k (tasks (add_chunks q h))) (add_chunks q h).
Proof.
  rewrite add_nothing by apply lookup_delete_eq. unfold add_chunks, set_tasks; cbn. by rewrite delete_alter_eq.
Qed.

Lemma add_emit q e h : add_chunks q (emit e h) = emit e (add_chunks q h).
Proof. done. Qed.

(** What the task does to the host, it does with any further chunks behind its own. *)
Lemma add_forward q t h : tasks h !! k = Some t → chunks t ≠ [] →
  add_chunks q (run_task psk k Forward h) = run_task psk k Forward (add_chunks q h).
Proof.
  intros Ht Hc. unfold run_task. rewrite tasks_add, Ht. cbn. destruct (chunks t) as [|[i data] cs] eqn:E; [done|].
  cbn. by rewrite add_reply, add_put.
Qed.
Lemma add_exited q code h : add_chunks q (run_task psk k (Exited code) h) = run_task psk k (Exited code) (add_chunks q h).
Proof.
  unfold run_task. rewrite tasks_add. destruct (tasks h !! k) as [t|] eqn:Ht; [|done]. cbn.
  by rewrite add_drop, add_reply.
Qed.
Lemma add_command q h : add_chunks q (run_task psk k Command h) = run_task psk k Command (add_chunks q h).
Proof.
  unfold run_task. rewrite tasks_add. destruct (tasks h !! k) as [t|] eqn:Ht; [|done]. cbn.
  destruct (inbox t) as [|[data close|signo] rest].
  - change (sender_alive k (add_chunks q h)) with (sender_alive k h). destruct (sender_alive k h); [done|].
    by rewrite add_emit, add_drop.
  - by rewrite add_emit, add_put.
  - by rewrite add_emit, add_put.
Qed.
Lemma add_send q id cmd h : add_chunks q (send_exec id cmd h) = send_exec id cmd (add_chunks q h).
Proof.
  unfold send_exec. change (exec_map (add_chunks q h)) with (exec_map h). destruct (exec_map h !! id) as [j|]; [|done].
  destruct (decide (k = j)) as [<-|Hne].
  - rewrite tasks_add. destruct (tasks h !! k) as [t|]; [|done]. cbn. by rewrite add_put.
  - unfold add_chunks at 2. cbn [tasks set_tasks]. rewrite lookup_alter_ne by done.
    destruct (tasks h !! j) as [t|]; [|done]. unfold add_chunks, put_task, set_tasks; cbn. by rewrite alter_insert_ne.
Qed.
Lemma act_queue a s s' : act a s = Some s' → queue s' = queue s ∨ ∃ i data, queue s' = queue s ++ [(i, data)].
Proof.
  destruct a; cbn; repeat (case_match; try done); intros [= <-]; cbn; first [by left|by right; eauto|by left; destruct i].
Qed.

(** C25: The threads, the bridge and the [select!] loop do to the host only what the daemon's model of a
    task does: each of their actions is invisible, or one task event, or the arrival of a
    command. *)
Theorem task_refines_daemon a s s' : task_act psk k a s = Some s' →
  view s' = view s ∨ (∃ ev, view s' = run_task psk k ev (view s)) ∨ ∃ id cmd, view s' = send_exec id cmd (view s).
Proof.
  unfold view. destruct a as [a| | | |fault| |id cmd]; cbn.
  - destruct (act a (se s)) as [e|] eqn:E; [|done]. intros [= <-]. cbn.
    destruct (act_queue _ _ _ E) as [->|(i & data & ->)]; [by left|].
    destruct (tasks (daemon s) !! k) as [t|] eqn:Ht; [|left; by rewrite !add_nothing].
    right; left. exists (Output i data). unfold run_task. rewrite tasks_add, Ht. cbn.
    unfold add_chunks, put_task, set_tasks; cbn. rewrite insert_alter_eq. f_equal.
    apply map_eq. intros j. destruct (decide (k = j)) as [<-|Hne].
    + rewrite lookup_alter_eq, lookup_insert_eq, Ht. cbn. unfold more. by rewrite app_assoc.
    + by rewrite lookup_alter_ne, lookup_insert_ne.
  - destruct (queue (se s)) as [|c q] eqn:Hq; [done|]. destruct (tasks (daemon s) !! k) as [t|] eqn:Ht; intros [= <-]; left; cbn.
    + rewrite add_put, <-app_assoc. unfold add_chunks, put_task, set_tasks; cbn. rewrite insert_alter_eq. f_equal.
      apply map_eq. intros j. destruct (decide (k = j)) as [<-|Hne].
      * by rewrite lookup_alter_eq, lookup_insert_eq, Ht.
      * by rewrite lookup_alter_ne, lookup_insert_ne.
    + by rewrite !add_nothing.
  - destruct (pc s); try done. destruct (tasks (daemon s) !! k) as [t|] eqn:Ht; [|done].
    destruct (chunks t) eqn:Hc; [done|]. intros [= <-]. right; left. exists Forward. cbn.
    apply (add_forward _ t); [done|by rewrite Hc].
  - destruct (pc s); try done. destruct (done_queue (se s)) as [|code rest]; [done|]. intros [= <-]. right; left.
    exists (Exited code). apply add_exited.
  - destruct (pc s); try done. destruct (tasks (daemon s) !! k) as [t|] eqn:Ht; [|done].
    intros E. right; left. exists Command. rewrite <-add_command.
    revert E. repeat (case_match; try done); intros [= <-]; try done. 
    f_equal. unfold write_stdin. by repeat case_match.
  - destruct (pc s); try done. unfold kill. intros E. left. revert E.
    destruct (waiter (se s)), (child (se s)); cbn; try done; by intros [= <-].
  - intros [= <-]. right; right. exists id, cmd. apply add_send.
Qed.
End Task.

(** ** Witnesses *)

(** [printf hi]: the process prints, its output is read and polled, it exits. *)
Definition acts (ls : list Action) (s : StreamingExec) : StreamingExec := foldl (λ s a, default s (act a s)) s ls.
Definition hi : list byte := as_bytes "hi".
Definition printed : StreamingExec :=
  acts [Locks; Writes Stdout hi; Reads Stdout 2; Sends Stdout] spawn.
Definition closing : list Action := [Closes Stdout; Exits (Some 0); Reads Stdout 0; Reaps; Reports].
Definition polled : StreamingExec := (try_poll_chunk printed).2.

Ltac one_act a := eapply rtc_l; [eapply (uses_thread a); [exact I|reflexivity]|].
Lemma printed_used : used [] printed.
Proof. unfold used. one_act Locks. one_act (Writes Stdout hi). one_act (Reads Stdout 2). one_act (Sends Stdout). apply rtc_refl. Qed.
Lemma ended_used : used [(0, hi)] (acts closing polled).
Proof.
  unfold used. transitivity (([] : list StreamChunk), printed); [apply printed_used|].
  eapply rtc_l; [by apply (uses_poll [] (0, hi) printed polled)|]. one_act (Closes Stdout). one_act (Exits (Some 0)).
  one_act (Reads Stdout 0). one_act Reaps. one_act Reports. apply rtc_refl.
Qed.

Lemma output_exact_witness : data_of Stdout [(0, hi)] = hi ∧ written (out_pipe (acts closing polled)) = hi.
Proof.
  destruct (output_exact [(0, hi)] (acts closing polled) ended_used) as [_ Hs].
  destruct (Hs Stdout) as [_ He]. destruct (He eq_refl eq_refl) as [_ E]. split; [done|exact (eq_sym E)].
Defined.
Lemma exit_code_told_once_witness :
  ∃ c s', proc (acts closing polled) = Some c ∧ try_wait (acts closing polled) = (Some c, s')
    ∧ try_wait s' = (Some None, s').
Proof. exact (exit_code_told_once [(0, hi)] (acts closing polled) ended_used). Defined.
Lemma kill_comes_too_late_witness : kill printed = None ∧ kill (acts closing polled) = Some (acts closing polled).
Proof.
  split; [exact (kill_comes_too_late [] printed printed_used)|].
  exact (proj1 (kill_comes_too_late [(0, hi)] (acts closing polled) ended_used)).
Defined.

(** A task that has output to send takes a signal. *)
Definition wedged : Sys :=
  mkSys printed (Killing false) (run_task sample_psk 0 Command (send_exec 1 (Signal 9) printing)).
Definition still_running : Sys := mkSys (acts [Writes Stdout hi] printed) (Killing false) (daemon wedged).
Lemma signal_waits_for_exit_witness :
  trace (daemon still_running) = trace (daemon wedged) ∧ kill (se still_running) = None.
Proof.
  destruct (signal_waits_for_exit sample_psk 0 wedged still_running false eq_refl eq_refl) as (_ & _ & H & H'); [|done|done].
  apply rtc_once. by exists (Thread (Writes Stdout hi)).
Defined.
Lemma task_refines_daemon_witness :
  let s := mkSys printed Selecting printing in
  ∃ s', task_act sample_psk 0 TakeChunk s = Some s' ∧
  (view 0 s' = view 0 s ∨ (∃ ev, view 0 s' = run_task sample_psk 0 ev (view 0 s))
   ∨ ∃ id cmd, view 0 s' = send_exec id cmd (view 0 s)).
Proof.
  eexists. split; [vm_compute; reflexivity|].
  apply (task_refines_daemon sample_psk 0 TakeChunk). vm_compute. reflexivity.
Defined.
