(* ===== verification/Tui.v ===== *)
(** * Tui: the terminal panel of lan-linkctl

    Models crates/ctl/src/tui.rs: the state of the panel, its line editor, its
    commands, its history and completion, the keys of [run_app] and the lines
    that [ui] shows.  A string is its UTF-8 bytes and the cursor is an index of
    them, as in the code: an operation is [None] when it panics, which [insert]
    and [remove] do away from the bounds of a character.  The height of the output
    area is an argument: ratatui computes it. *)
From Stdlib Require Import Ascii.
From S2P Require Import Prelude Text Lines.

(** ** Strings by byte index *)

Definition string_bytes := String.string_of_list_byte.
(** [s.insert(i, c)], [s.remove(i)]: the whole character at [i] goes. *)
Definition str_insert (i : nat) (c s : string) : option string :=
  if char_boundary i s
  then Some (string_bytes (take i (as_bytes s) ++ as_bytes c ++ drop i (as_bytes s))) else None.
Definition str_remove (i : nat) (s : string) : option string :=
  if char_boundary i s
  then match chars (drop i (as_bytes s)) with
       | c :: cs => Some (string_bytes (take i (as_bytes s) ++ mjoin cs))
       | [] => None
       end
  else None.
(** [s.to_lowercase()] as far as it can start an ASCII word: the Kelvin sign is the only
    character outside ASCII whose lower case is in it, the others stay. *)
Definition lower_char (c : list byte) : list byte :=
  match c with
  | [b] => [if in_range 0x41 0x5A b then byte_of_Z (Z_of_byte b + 32) else b]
  | [Byte.xe2; Byte.x84; Byte.xaa] => [Byte.x6b]
  | _ => c
  end.
Definition to_lowercase (s : string) : string := string_bytes (mjoin (lower_char <$> chars (as_bytes s))).
(** [c.is_alphanumeric()] on ASCII. *)
Definition ascii_alphanumeric (b : byte) : bool :=
  in_range 0x30 0x39 b || in_range 0x41 0x5A b || in_range 0x61 0x7A b.

(** ** State *)

Record NodeInfo := mkNode { node_name : string; node_addr : string }.
Record TuiApp := mkTui {
  history : list string;
  history_idx : option nat;
  input : string;
  cursor : nat;
  output : list string;
  scroll : nat;
  nodes : list NodeInfo;
  selected_node : nat;
  completions : list string;
  (** Stored and never read. *)
  completion_idx : nat;
  show_completions : bool
}.

Definition NODES : list (string * string) :=
  [("tuanzi", "192.168.31.244:9876"); ("rk1", "107.174.92.188:9876"); ("rk2", "23.238.57.141:9876");
   ("lv1", "96.9.225.57:9876"); ("lv2", "173.249.199.86:9876"); ("lv3", "108.171.195.161:9876");
   ("xh", "47.108.166.171:9876")]%string.
Definition BUILTIN_CMDS : list string :=
  ["help"; "exit"; "clear"; "node"; "exec"; "push"; "pull"; "cat"; "tail"; "ls"; "ps"; "free"; "df"; "uptime";
   "hostname"; "info"; "service"; "docker"; "pkg"]%string.

Definition set_input (i : string) (c : nat) (a : TuiApp) : TuiApp :=
  mkTui (history a) (history_idx a) i c (output a) (scroll a) (nodes a) (selected_node a) (completions a) (completion_idx a) (show_completions a).
Definition set_history (h : list string) (i : option nat) (a : TuiApp) : TuiApp :=
  mkTui h i (input a) (cursor a) (output a) (scroll a) (nodes a) (selected_node a) (completions a) (completion_idx a) (show_completions a).
Definition set_output (o : list string) (s : nat) (a : TuiApp) : TuiApp :=
  mkTui (history a) (history_idx a) (input a) (cursor a) o s (nodes a) (selected_node a) (completions a) (completion_idx a) (show_completions a).
Definition set_node (n : nat) (a : TuiApp) : TuiApp :=
  mkTui (history a) (history_idx a) (input a) (cursor a) (output a) (scroll a) (nodes a) n (completions a) (completion_idx a) (show_completions a).
Definition set_show (b : bool) (a : TuiApp) : TuiApp :=
  mkTui (history a) (history_idx a) (input a) (cursor a) (output a) (scroll a) (nodes a) (selected_node a) (completions a) (completion_idx a) b.

Definition new : TuiApp :=
  let nodes := (λ e, mkNode e.1 e.2) <$> NODES in
  let first := default (mkNode "" "") (head nodes) in
  mkTui [] None "" 0
    ["lan-linkctl TUI — 交互式远程终端";
     pretty (length nodes) +:+ " 个节点已配置。输入 help 查看命令。";
     "当前节点: " +:+ node_name first +:+ " (" +:+ node_addr first +:+ ")";
     ""]%string
    0 nodes 0 BUILTIN_CMDS 0 false.

(** ** The line editor *)

Definition add_output (line : string) (a : TuiApp) : TuiApp :=
  let o := output a ++ [line] in set_output o (length o - 1) a.
Definition add_outputs (ls : list string) (a : TuiApp) : TuiApp := foldl (flip add_output) a ls.

Definition insert_char (c : string) (a : TuiApp) : option TuiApp :=
  (λ s, set_input s (S (cursor a)) a) <$> str_insert (cursor a) c (input a).
Definition delete_char (a : TuiApp) : option TuiApp :=
  match cursor a with
  | O => Some a
  | S c => (λ s, set_input s c a) <$> str_remove c (input a)
  end.
Definition move_left (a : TuiApp) : TuiApp := set_input (input a) (cursor a - 1) a.
Definition move_right (a : TuiApp) : TuiApp :=
  if (cursor a <? byte_len (input a))%nat then set_input (input a) (S (cursor a)) a else a.

(** ** History and completion *)

Definition history_up (a : TuiApp) : option TuiApp :=
  match history a with
  | [] => Some a
  | _ =>
      let idx := match history_idx a with
                 | Some i => if (0 <? i)%nat then Some (i - 1)%nat else None
                 | None => Some (length (history a) - 1)%nat
                 end in
      match idx with
      | None => Some a
      | Some idx => (λ s, set_input s (byte_len s) (set_history (history a) (Some idx) a)) <$> history a !! idx
      end
  end.
Definition history_down (a : TuiApp) : option TuiApp :=
  match history_idx a with
  | None => Some a
  | Some i =>
      if (i + 1 <? length (history a))%nat
      then (λ s, set_input s (byte_len s) (set_history (history a) (Some (i + 1)%nat) a)) <$> history a !! (i + 1)%nat
      else Some (set_input "" 0 (set_history (history a) None a))
  end.
Definition tab_complete (a : TuiApp) : TuiApp :=
  if (byte_len (input a) =? 0)%nat then a else
  let prefix := to_lowercase (default ""%string (head (split_whitespace (input a)))) in
  match filter (λ c, starts_with prefix c = true) (completions a) with
  | [] => a
  | [m] =>
      let s := if forallb ascii_alphanumeric (as_bytes m) then m +:+ " " else m in
      set_show false (set_input s (byte_len s) a)
  | _ => set_show (negb (show_completions a)) a
  end.

(** ** Commands *)

Definition whoami : string := "win".
Definition current_node (a : TuiApp) : option NodeInfo := nodes a !! selected_node a.
Definition node_names (a : TuiApp) : string := String.concat ", " (node_name <$> nodes a).
Definition help_lines : list string :=
  [" 内置命令:";
   "  help              — 显示此帮助";
   "  exit/quit         — 退出 TUI";
   "  clear/cls         — 清屏";
   "  node <name>       — 切换节点 (tab 补全)";
   "  exec <cmd>        — 远程执行命令";
   "  push -l <本地> -r <远端> — 上传文件";
   "  pull -r <远端> -l <本地> — 下载文件";
   "  cat <path>        — 查看文件";
   "  tail <path>       — 查看文件末尾";
   "  ls [path]         — 列出目录";
   "  ps                — 进程列表";
   "  free              — 内存使用";
   "  df                — 磁盘使用";
   ""]%string.
Definition find_node (name : string) (a : TuiApp) : option nat :=
  fst <$> list_find (λ n, node_name n = name) (nodes a).

(** The [match] on the first word. *)
Definition run_command (parts : list string) (a : TuiApp) : option TuiApp :=
  let word := default ""%string (head parts) in
  if bool_decide (word = "exit" ∨ word = "quit")%string then Some a
  else if bool_decide (word = "clear" ∨ word = "cls")%string then Some (set_output [] (scroll a) a)
  else if bool_decide (word = "help")%string then
    let a := add_outputs help_lines a in Some (add_output (" 节点: " +:+ node_names a) a)
  else if bool_decide (word = "node")%string then
    match parts with
    | _ :: name :: _ =>
        match find_node name a with
        | Some idx =>
            let a := set_node idx a in
            (λ n, add_output ("切换到节点: " +:+ node_name n +:+ " (" +:+ node_addr n +:+ ")") a) <$> current_node a
        | None => Some (add_output ("未知节点: " +:+ name) a)
        end
    | _ =>
        (λ n, add_output ("可用节点: " +:+ node_names a)
                (add_output ("当前节点: " +:+ node_name n +:+ " (" +:+ node_addr n +:+ ")") a)) <$> current_node a
    end
  else Some (add_output "(执行中...)" a).

Definition submit (a : TuiApp) : option TuiApp :=
  let cmd := trim (input a) in
  if (byte_len cmd =? 0)%nat then Some a else
  let a := set_history (history a ++ [cmd]) None a in
  n ← current_node a;
  let a := add_output (whoami +:+ "@" +:+ node_name n +:+ "> " +:+ cmd) a in
  match split_whitespace cmd with
  | [] => None
  | parts => (λ a, set_show false (set_input "" 0 a)) <$> run_command parts a
  end.

(** ** The keys of [run_app] *)

Inductive KeyCode :=
| Char (c : string) | Enter | Backspace | Left | Right | Up | Down | Tab | PageUp | PageDown | Home | End | OtherKey.
(** A pressed key, and whether control is held. *)
Record KeyEvent := mkKey { code : KeyCode; control : bool }.

(** [Some None]: the panel is left. *)
Definition handle_key (key : KeyEvent) (a : TuiApp) : option (option TuiApp) :=
  let last_line := (length (output a) - 1)%nat in
  match code key with
  | Char c =>
      if control key && bool_decide (c = "c")%string then Some (Some (add_output "^C" a))
      else if control key && bool_decide (c = "d")%string then Some None
      else Some <$> insert_char c a
  | Enter =>
      if bool_decide (trim (input a) = "exit" ∨ trim (input a) = "quit")%string then Some None
      else Some <$> submit a
  | Backspace => Some <$> delete_char a
  | Left => Some (Some (move_left a))
  | Right => Some (Some (move_right a))
  | Up => Some <$> history_up a
  | Down => Some <$> history_down a
  | Tab => Some (Some (tab_complete a))
  | PageUp => Some (Some (set_output (output a) (scroll a - 10) a))
  | PageDown => Some (Some (set_output (output a) (min (scroll a + 10) last_line) a))
  | Home => Some (Some (set_output (output a) 0 a))
  | End => Some (Some (set_output (output a) last_line a))
  | OtherKey => Some (Some a)
  end.
(** The keys until one leaves the panel. *)
Fixpoint run_app (keys : list KeyEvent) (a : TuiApp) : option (option TuiApp) :=
  match keys with
  | [] => Some (Some a)
  | key :: keys =>
      match handle_key key a with
      | Some (Some a) => run_app keys a
      | r => r
      end
  end.

(** ** What [ui] shows *)

Definition start_line (output_height : nat) (a : TuiApp) : nat :=
  if (length (output a) <? scroll a + output_height)%nat
  then if (output_height <? length (output a))%nat then length (output a) - output_height else 0
  else scroll a.
(** The lines given to the output widget. *)
Definition visible (output_height : nat) (a : TuiApp) : list string :=
  take output_height (drop (start_line output_height a) (output a)).
(** The column of the cursor. *)
Definition cursor_x (a : TuiApp) : Z := wrap 16 (2 + Z.of_nat (cursor a)).
