(* ===== verification/TuiProofs.v ===== *)
(** * TuiProofs: the theorems about the terminal panel *)
From Stdlib Require Import Ascii.
From S2P Require Import Prelude Text Lines Tui.

#[local] Arguments string_bytes : simpl never.
#[local] Arguments as_bytes : simpl never.

(** ** ASCII text *)

Definition ascii (s : string) : Prop := Forall (λ b, in_range 0 0x7F b = true) (as_bytes s).
#[global] Instance ascii_dec s : Decision (ascii s) := _.

Lemma bytes_string_bytes bs : as_bytes (string_bytes bs) = bs.
Proof. apply String.list_byte_of_string_of_list_byte. Qed.
Lemma ascii_no_cont b : in_range 0 0x7F b = true → utf8_cont b = false.
Proof. unfold utf8_cont, in_range. lia. Qed.
Lemma ascii_chars bs : Forall (λ b, in_range 0 0x7F b = true) bs → chars bs = (λ b, [b]) <$> bs.
Proof.
  induction 1 as [|b bs Hb Hbs IH]; [done|]. change (b :: bs) with ([b] ++ bs) at 1. rewrite (chars_first [b] bs); [by rewrite IH| |].
  - cbn. by rewrite ascii_no_cont.
  - destruct Hbs as [|b' bs Hb' _]; [done|]. cbn. by rewrite ascii_no_cont.
Qed.
Lemma ascii_boundary i s : ascii s → (i ≤ byte_len s)%nat → char_boundary i s = true.
Proof.
  intros Ha Hi. unfold char_boundary. destruct (as_bytes s !! i) as [b|] eqn:E.
  - rewrite ascii_no_cont, orb_true_r; [done|]. by apply (Forall_lookup_1 _ _ _ _ Ha E).
  - apply lookup_ge_None in E. apply Nat.eqb_eq. unfold byte_len in *. lia.
Qed.
Lemma ascii_sub s t : ascii s → (∀ b, b ∈ as_bytes t → b ∈ as_bytes s) → ascii t.
Proof. unfold ascii. rewrite !Forall_forall. auto. Qed.
Lemma ascii_bytes bs bs' : Forall (λ b, in_range 0 0x7F b = true) bs → (∀ b, b ∈ bs' → b ∈ bs) → ascii (string_bytes bs').
Proof. unfold ascii. rewrite bytes_string_bytes, !Forall_forall. auto. Qed.
Lemma ascii_trim s : ascii s → ascii (trim s).
Proof.
  intros Hs. apply (ascii_bytes (as_bytes s)); [done|]. intros b Hb.
  assert (b ∈ trim_left (as_bytes s)) as Hl.
  { destruct (trim_right_prefix (trim_left (as_bytes s))) as (w & E & _). rewrite E. apply elem_of_app. by left. }
  unfold trim_left in Hl. rewrite <-(take_drop (default 0%nat (last (filter (λ n, white_space (take n (as_bytes s)) = true)
    (List.seq 0 (S (length (as_bytes s))))))) (as_bytes s)). apply elem_of_app. by right.
Qed.

(** ** The line editor *)

(** The line is ASCII and the cursor is in it. *)
Definition line_ok (a : TuiApp) : Prop := ascii (input a) ∧ (cursor a ≤ byte_len (input a))%nat.
Definition ascii_char (c : string) : Prop := ascii c ∧ byte_len c = 1%nat.

Lemma insert_ascii c a : line_ok a → ascii_char c →
  insert_char c a = Some (set_input (string_bytes (take (cursor a) (as_bytes (input a)) ++ as_bytes c
    ++ drop (cursor a) (as_bytes (input a)))) (S (cursor a)) a).
Proof. intros [Ha Hc] _. unfold insert_char, str_insert. by rewrite ascii_boundary. Qed.
Lemma delete_ascii a n : line_ok a → cursor a = S n →
  delete_char a = Some (set_input (string_bytes (take n (as_bytes (input a)) ++ drop (S n) (as_bytes (input a)))) n a).
Proof.
  intros [Ha Hc] Hn. unfold delete_char, str_remove. rewrite Hn, ascii_boundary by (done || lia).
  assert (n < length (as_bytes (input a)))%nat as Hl by (unfold byte_len in Hc; lia).
  apply lookup_lt_is_Some in Hl as [b Hb]. rewrite (drop_S _ b) by done.
  assert (Forall (λ b, in_range 0 0x7F b = true) (b :: drop (S n) (as_bytes (input a)))) as Hf.
  { rewrite <-drop_S by done. by apply Forall_drop. }
  rewrite (ascii_chars _ Hf). cbn. do 3 f_equal. inversion Hf as [|? ? _ Hf']; subst.
  f_equal. rewrite <-(ascii_chars _ Hf'). apply chars_join.
Qed.

(** The line editor as text before and after the cursor. *)
Definition zip (a : TuiApp) : list byte * list byte :=
  (take (cursor a) (as_bytes (input a)), drop (cursor a) (as_bytes (input a))).
Definition zedit (k : KeyCode) (z : list byte * list byte) : list byte * list byte :=
  let '(before, after) := z in
  let n := (length before - 1)%nat in
  match k with
  | Char c => (before ++ as_bytes c, after)
  | Backspace => (take n before, after)
  | Left => (take n before, drop n before ++ after)
  | Right => (before ++ take 1 after, drop 1 after)
  | _ => z
  end.
Definition edits (k : KeyCode) : Prop :=
  match k with Char c => ascii_char c | Backspace | Left | Right => True | _ => False end.

Lemma edit_key k a : line_ok a → edits k →
  ∃ a', handle_key (mkKey k false) a = Some (Some a') ∧ zip a' = zedit k (zip a) ∧ line_ok a'
    ∧ a' = set_input (input a') (cursor a') a.
Proof.
  intros Hok Hk. pose proof Hok as [Ha Hc]. unfold zip, byte_len in *.
  assert (length (take (cursor a) (as_bytes (input a))) = cursor a) as Hl by (rewrite length_take; lia).
  destruct k as [c| | | | | | | | | | | |]; try done; cbn [handle_key code control andb].
  - rewrite (insert_ascii c a Hok Hk). eexists. split; [done|]. cbn. rewrite bytes_string_bytes.
    destruct Hk as [Hac Hlc]. unfold byte_len in Hlc. split_and!; [| |done].
    + replace (S (cursor a)) with (length (take (cursor a) (as_bytes (input a)) ++ as_bytes c)) by (rewrite length_app; lia).
      by rewrite app_assoc, take_app_length, drop_app_length.
    + split.
      * unfold ascii in *. cbn. rewrite bytes_string_bytes, !Forall_app. split_and!; [by apply Forall_take|done|by apply Forall_drop].
      * unfold byte_len. cbn. rewrite bytes_string_bytes, !length_app, length_drop. lia.
  - cbn. rewrite Hl. destruct (cursor a) as [|n] eqn:Hn.
    + unfold delete_char. rewrite Hn. exists a. rewrite Hn. split_and!; try done. destruct a; cbn in *; by subst.
    + rewrite (delete_ascii a n) by done. eexists. split; [done|]. cbn. rewrite bytes_string_bytes.
      assert (length (take n (as_bytes (input a))) = n) as Hl' by (rewrite length_take; lia).
      split_and!; [| |done].
      * rewrite take_app_le, take_take, drop_app_ge, Hl' by lia.
        replace (n - 0)%nat with n by lia. rewrite take_take, !Nat.min_l by lia.
        rewrite Nat.sub_diag, drop_0. done.
      * split; [|unfold byte_len; cbn; rewrite bytes_string_bytes, length_app; lia].
        unfold ascii in *; cbn. rewrite bytes_string_bytes, Forall_app. split; [by apply Forall_take|by apply Forall_drop].
  - eexists. split; [done|]. cbn. rewrite Hl. split_and!; [| |done].
    + rewrite take_take, Nat.min_l by lia. f_equal.
      rewrite <-(take_drop (cursor a) (as_bytes (input a))) at 1. rewrite drop_app_le by lia. done.
    + split; cbn; [done|unfold byte_len; lia].
  - unfold move_right, byte_len. destruct (Nat.ltb_spec (cursor a) (length (as_bytes (input a)))) as [Hlt|Hge].
    + eexists. split; [done|]. cbn. split_and!; [| |done].
      * rewrite drop_drop. f_equal; [|f_equal; lia]. rewrite take_take_drop. f_equal. lia.
      * split; cbn; [done|unfold byte_len; lia].
    + eexists. split; [done|]. cbn. rewrite (drop_ge (as_bytes (input a)) (cursor a)) by lia. cbn. rewrite app_nil_r. split_and!; try done. by destruct a.
Qed.

(** On ASCII text the editor is the text before and after the cursor: a typed character is added
    before it, Backspace takes the last one before it, the arrows move one character across
    it.  No key panics, nothing but the line changes, and the line stays ASCII with the cursor in
    it. *)
Theorem editor_exact ks a : line_ok a → Forall edits ks →
  ∃ a', run_app ((λ k, mkKey k false) <$> ks) a = Some (Some a') ∧ zip a' = foldl (λ z k, zedit k z) (zip a) ks
    ∧ line_ok a' ∧ a' = set_input (input a') (cursor a') a.
Proof.
  intros Hok Hks. revert a Hok. induction Hks as [|k ks Hk _ IH]; intros a Hok.
  { exists a. split_and!; try done. by destruct a. }
  destruct (edit_key k a Hok Hk) as (a1 & E1 & Hz & Hok1 & Ea).
  destruct (IH a1 Hok1) as (a2 & E2 & Hz2 & Hok2 & Ea2). exists a2. cbn [fmap list_fmap run_app foldl]. rewrite E1, E2, <-Hz.
  split_and!; try done. rewrite Ea2, Ea. done.
Qed.

(** ** Characters outside ASCII *)

Lemma boundary_starts i s : char_boundary i s = true → i ≠ 0%nat ∨ starts_char (as_bytes s) = true →
  starts_char (drop i (as_bytes s)) = true ∧ (i ≤ length (as_bytes s))%nat.
Proof.
  unfold char_boundary, byte_len. destruct (as_bytes s !! i) as [b|] eqn:E.
  - intros Hb Hi. split; [|apply lookup_lt_Some in E; lia]. rewrite (drop_S _ b) by done.
    destruct i as [|i]; [destruct Hi as [?|Hi]; [done|]; by rewrite <-(drop_0 (as_bytes s)), (drop_S _ b) in Hi|done].
  - intros Hb%Nat.eqb_eq _. subst i. by rewrite drop_all.
Qed.
Lemma inside_char bs c bs' j : one_char c = true → (0 < j < length c)%nat →
  char_boundary (length bs + j) (string_bytes (bs ++ c ++ bs')) = false.
Proof.
  intros Hc Hj. unfold char_boundary. rewrite bytes_string_bytes.
  rewrite lookup_app_r by lia. replace (length bs + j - length bs)%nat with j by lia. rewrite lookup_app_l by lia.
  destruct (lookup_lt_is_Some_2 c j) as [b Hb]; [lia|]. rewrite Hb.
  destruct c as [|b0 t]; [done|]. cbn in Hc. apply andb_prop in Hc as [_ Ht].
  destruct j as [|j]; [lia|]. cbn in Hb. rewrite forallb_forall in Ht.
  rewrite Ht; [by destruct (length bs)|]. apply list_elem_of_In. by eapply list_elem_of_lookup_2.
Qed.

(** The cursor moves one byte for each character.  After a character of more than one byte is
    typed, the next character typed panics, whatever it is, and Backspace undoes the
    character exactly. *)
Theorem wide_character_panics c a a' : insert_char c a = Some a' → one_char (as_bytes c) = true →
  (1 < byte_len c)%nat → starts_char (as_bytes (input a)) = true →
  (∀ c' key, code key = Char c' → control key = false → handle_key key a' = None) ∧ delete_char a' = Some a.
Proof.
  intros E Hc Hl Hs. unfold insert_char, str_insert in E.
  destruct (char_boundary (cursor a) (input a)) eqn:Hb; [|done]. injection E as <-.
  assert (starts_char (drop (cursor a) (as_bytes (input a))) = true ∧ (cursor a ≤ length (as_bytes (input a)))%nat) as [Hd Hle]
    by (apply boundary_starts; tauto).
  assert (length (take (cursor a) (as_bytes (input a))) = cursor a) as Ht by (rewrite length_take; lia).
  split.
  - intros c' key Hk Hctl. unfold handle_key. rewrite Hk, Hctl. cbn [andb].
    unfold insert_char, str_insert. cbn [cursor input set_input].
    replace (S (cursor a)) with (length (take (cursor a) (as_bytes (input a))) + 1)%nat by lia.
    by rewrite inside_char by (done || unfold byte_len in Hl; lia).
  - unfold delete_char, str_remove. cbn [cursor input set_input]. rewrite bytes_string_bytes.
    rewrite take_app_length', drop_app_length', chars_first by done.
    assert (char_boundary (cursor a) (string_bytes (take (cursor a) (as_bytes (input a)) ++ as_bytes c ++ drop (cursor a) (as_bytes (input a)))) = true) as ->.
    { unfold char_boundary. rewrite bytes_string_bytes, lookup_app_r, Ht, Nat.sub_diag by lia.
      destruct (as_bytes c) as [|b t]; [done|]. cbn in Hc |- *. apply andb_prop in Hc as [-> _]. apply orb_true_r. }
    cbn. rewrite chars_join, take_drop, as_bytes_of. by destruct a.
Qed.

(** ** History *)

Fixpoint presses (n : nat) (f : TuiApp → option TuiApp) (a : TuiApp) : option TuiApp :=
  match n with O => Some a | S n => presses n f a ≫= f end.
Definition recalled (i : nat) (s : string) (a : TuiApp) : TuiApp :=
  set_input s (byte_len s) (set_history (history a) (Some i) a).

Lemma up_nth a j : history_idx a = None → (0 < j ≤ length (history a))%nat →
  ∃ s, history a !! (length (history a) - j)%nat = Some s
    ∧ presses j history_up a = Some (recalled (length (history a) - j) s a).
Proof.
  intros Hn. induction j as [|j IH]; [lia|]. intros Hj.
  destruct (lookup_lt_is_Some_2 (history a) (length (history a) - S j)) as [s Hs]; [lia|]. exists s. split; [done|].
  cbn [presses]. destruct j as [|j].
  - cbn. unfold history_up. rewrite Hn. destruct (history a) eqn:Hh; [done|]. rewrite <-Hh in *. by rewrite Hs.
  - destruct IH as (s' & Hs' & ->); [lia|]. cbn [mbind option_bind]. unfold history_up. cbn [history history_idx recalled set_input set_history].
    destruct (history a) eqn:Hh; [done|]. rewrite <-Hh in *.
    destruct (Nat.ltb_spec 0 (length (history a) - S j)); [|lia].
    replace (length (history a) - S j - 1)%nat with (length (history a) - S (S j))%nat by lia. by rewrite Hs.
Qed.
Lemma down_nth a i s j : (i + j < length (history a))%nat → history a !! i = Some s →
  ∃ s', history a !! (i + j)%nat = Some s' ∧ presses j history_down (recalled i s a) = Some (recalled (i + j) s' a).
Proof.
  intros Hj Hs. induction j as [|j IH]; [exists s; rewrite Nat.add_0_r; by split|].
  destruct IH as (s' & Hs' & E); [lia|]. destruct (lookup_lt_is_Some_2 (history a) (i + S j)) as [s2 Hs2]; [lia|].
  exists s2. split; [done|]. cbn [presses]. rewrite E. cbn [mbind option_bind]. unfold history_down. cbn [history history_idx recalled set_input set_history].
  destruct (Nat.ltb_spec (i + j + 1) (length (history a))); [|lia].
  replace (i + j + 1)%nat with (i + S j)%nat by lia. by rewrite Hs2.
Qed.

(** The arrows walk the history: the [j]-th Up shows the [j]-th newest command with the cursor
    behind it, one more at the oldest changes nothing, [k] times Down go back [k] commands; and
    one Down from the newest gives an empty line, not the line that was being typed. *)
Theorem history_exact a j k : history_idx a = None → (0 < j ≤ length (history a))%nat → (k < j)%nat →
  let n := length (history a) in
  ∃ s s', history a !! (n - j)%nat = Some s ∧ history a !! (n - j + k)%nat = Some s'
  ∧ presses j history_up a = Some (recalled (n - j) s a)
  ∧ (j = n → history_up (recalled (n - j) s a) = Some (recalled (n - j) s a))
  ∧ presses k history_down (recalled (n - j) s a) = Some (recalled (n - j + k) s' a)
  ∧ (k = (j - 1)%nat → history_down (recalled (n - j + k) s' a) = Some (set_input "" 0 a)).
Proof.
  intros Hn Hj Hk n. destruct (up_nth a j Hn Hj) as (s & Hs & Eu).
  destruct (down_nth a (n - j) s k) as (s' & Hs' & Ed); [lia|done|]. exists s, s'. split_and!; try done.
  - intros ->. unfold history_up. cbn. destruct (history a) eqn:Hh; [done|]. fold n. by rewrite Nat.sub_diag.
  - intros ->. unfold history_down. cbn [history history_idx recalled set_input set_history]. fold n. destruct (Nat.ltb_spec (n - j + (j - 1) + 1) n); [lia|].
    unfold recalled, set_input, set_history. cbn. by destruct a; cbn in *; subst.
Qed.

(** ** A session *)

Record tui_ok (a : TuiApp) : Prop := {
  to_line : line_ok a;
  to_history : Forall ascii (history a);
  to_idx : ∀ i, history_idx a = Some i → (i < length (history a))%nat;
  to_node : is_Some (current_node a);
  to_completions : completions a = BUILTIN_CMDS
}.
(** The same but for the output and the menu. *)
Lemma tui_ok_same a a' : (history a', history_idx a', input a', cursor a', nodes a', selected_node a', completions a')
    = (history a, history_idx a, input a, cursor a, nodes a, selected_node a, completions a) → tui_ok a → tui_ok a'.
Proof.
  destruct a, a'. cbn. intros [= -> -> -> -> -> -> ->] [H1 H2 H3 H4 H5]. by split.
Qed.
Lemma tui_ok_input s c a : ascii s → (c ≤ byte_len s)%nat → tui_ok a → tui_ok (set_input s c a).
Proof. intros Hs Hc []. by split; [split|..]. Qed.
Lemma tui_ok_history h i a : Forall ascii h → (∀ j, i = Some j → (j < length h)%nat) → tui_ok a → tui_ok (set_history h i a).
Proof. intros Hh Hi []. by split. Qed.
Lemma tui_ok_output o s a : tui_ok a → tui_ok (set_output o s a).
Proof. by apply tui_ok_same. Qed.
Lemma add_outputs_ok ls a : tui_ok a → tui_ok (add_outputs ls a).
Proof. revert a. induction ls as [|l ls IH]; intros a Ha; [done|]. by apply IH, tui_ok_output. Qed.
Lemma tui_ok_show b a : tui_ok a → tui_ok (set_show b a).
Proof. by apply tui_ok_same. Qed.

Lemma find_node_Some name a i : find_node name a = Some i → is_Some (nodes a !! i).
Proof.
  unfold find_node. destruct (list_find _ _) as [[j x]|] eqn:E; [|done]. intros [= <-].
  apply list_find_Some in E as [E _]. by eexists.
Qed.
Lemma run_command_ok parts a : tui_ok a → ∃ a', run_command parts a = Some a' ∧ tui_ok a'.
Proof.
  intros Ha. unfold run_command. repeat case_bool_decide.
  - by eexists.
  - eexists. split; [done|]. by apply tui_ok_output.
  - eexists. split; [done|]. by apply tui_ok_output, add_outputs_ok.
  - destruct Ha as [Hl Hh Hi [n Hn] Hc] eqn:E. destruct parts as [|w [|name ws]].
    1,2: rewrite Hn; eexists; split; [done|]; by apply tui_ok_output, tui_ok_output.
    destruct (find_node name a) as [i|] eqn:Ef; [|eexists; split; [done|]; by apply tui_ok_output].
    apply find_node_Some in Ef as [n' Hn']. unfold current_node at 1. cbn [nodes selected_node set_node]. rewrite Hn'.
    eexists. split; [done|]. apply tui_ok_output. by split; [..|exists n'|].
  - eexists. split; [done|]. by apply tui_ok_output.
Qed.
Lemma submit_ok a : tui_ok a → ∃ a', submit a = Some a' ∧ tui_ok a'.
Proof.
  intros Ha. unfold submit. destruct (byte_len (trim (input a)) =? 0)%nat eqn:Hz; [by eexists|].
  pose proof Ha as [[Hl _] Hh Hi [n Hn] Hc]. change (current_node (set_history ?h ?i a)) with (current_node a).
  rewrite Hn. cbn [mbind option_bind]. destruct (split_whitespace (trim (input a))) as [|w ws] eqn:Hw.
  { apply trim_words in Hw. by rewrite Hw in Hz. }
  match goal with |- context [run_command _ ?x] => destruct (run_command_ok (w :: ws) x) as (a' & -> & Ha') end.
  { apply tui_ok_output, tui_ok_history; [|done|done]. apply Forall_app. split; [done|]. constructor; [by apply ascii_trim|done]. }
  eexists. split; [done|]. apply tui_ok_show, tui_ok_input; [by constructor|cbn; lia|done].
Qed.
Lemma history_up_ok a : tui_ok a → ∃ a', history_up a = Some a' ∧ tui_ok a'.
Proof.
  intros Ha. unfold history_up. destruct (history a) as [|x h] eqn:Hh; [by eexists|]. rewrite <-Hh.
  pose proof Ha as [_ Hf Hi _ _].
  assert (length (history a) ≠ 0%nat) as Hn by by rewrite Hh.
  set (idx := match history_idx a with Some i => _ | None => _ end).
  assert (∀ i, idx = Some i → (i < length (history a))%nat) as Hidx.
  { intros i. unfold idx. destruct (history_idx a) as [j|]; [|intros [= <-]; lia].
    specialize (Hi j eq_refl). destruct (Nat.ltb_spec 0 j); intros [=]; lia. }
  destruct idx as [i|]; [|by eexists]. destruct (lookup_lt_is_Some_2 (history a) i) as [s Hs]; [by apply Hidx|].
  rewrite Hs. eexists. split; [done|].
  apply tui_ok_input; [by apply (Forall_lookup_1 _ _ _ _ Hf Hs)|done|]. apply tui_ok_history; [done| |done].
  intros j [= <-]. by apply Hidx.
Qed.
Lemma history_down_ok a : tui_ok a → ∃ a', history_down a = Some a' ∧ tui_ok a'.
Proof.
  intros Ha. unfold history_down. destruct (history_idx a) as [i|] eqn:Hi; [|by eexists]. pose proof Ha as [_ Hf _ _ _].
  destruct (Nat.ltb_spec (i + 1) (length (history a))) as [Hlt|_].
  - destruct (lookup_lt_is_Some_2 _ _ Hlt) as [s Hs]. rewrite Hs. eexists. split; [done|].
    apply tui_ok_input; [by apply (Forall_lookup_1 _ _ _ _ Hf Hs)|done|]. apply tui_ok_history; [done| |done]. by intros j [= <-].
  - eexists. split; [done|]. apply tui_ok_input; [by constructor|cbn; lia|]. by apply tui_ok_history.
Qed.
Lemma builtin_ascii : Forall (λ m, ascii m ∧ ascii (m +:+ " ")) BUILTIN_CMDS.
Proof. by apply (bool_decide_unpack _). Qed.
Lemma tab_ok a : tui_ok a → tui_ok (tab_complete a).
Proof.
  intros Ha. unfold tab_complete. destruct (_ =? 0)%nat; [done|]. cbv zeta.
  match goal with |- context [filter ?P (completions a)] => destruct (filter P (completions a)) as [|m [|m' ms]] eqn:Ef end.
  - done.
  - apply tui_ok_show, tui_ok_input; [|done|done].
    pose proof (list_elem_of_here m []) as Hm. rewrite <-Ef in Hm. apply list_elem_of_filter in Hm as [_ Hm].
    rewrite (to_completions a Ha) in Hm.
    pose proof builtin_ascii as Hb. rewrite Forall_forall in Hb. destruct (Hb m Hm). by destruct (forallb _ _).
  - by apply tui_ok_show.
Qed.
Lemma handle_key_ok key a : tui_ok a → (∀ c, code key = Char c → ascii_char c) →
  ∃ r, handle_key key a = Some r ∧ ∀ a', r = Some a' → tui_ok a'.
Proof.
  intros Ha Hc. assert (∀ f, (∃ a', f = Some a' ∧ tui_ok a') → ∃ r, Some <$> f = Some r ∧ ∀ a', r = Some a' → tui_ok a') as Hlift.
  { intros f (a' & -> & Ha'). eexists. split; [done|]. by intros ? [= <-]. }
  assert (∀ f, tui_ok f → ∃ r, Some (Some f) = Some r ∧ ∀ a', r = Some a' → tui_ok a') as Hpure.
  { intros f Hf. eexists. split; [done|]. by intros ? [= <-]. }
  assert (∀ k, edits k → ∃ a', handle_key (mkKey k false) a = Some (Some a') ∧ tui_ok a') as Hedit.
  { intros k Hk. destruct (edit_key k a (to_line a Ha) Hk) as (a' & E & _ & [H1 H2] & Ea). exists a'. split; [done|].
    rewrite Ea. by apply tui_ok_input. }
  unfold handle_key. destruct (code key) as [c| | | | | | | | | | | |] eqn:Ek.
  - destruct (_ && _); [by apply Hpure, tui_ok_output|]. destruct (_ && _); [by eexists|].
    destruct (Hedit (Char c)) as (a' & E & Ha'); [by apply Hc|]. cbn in E. rewrite E. by apply Hpure.
  - destruct (bool_decide _); [by eexists|]. by apply Hlift, submit_ok.
  - destruct (Hedit Backspace I) as (a' & E & Ha'). cbn in E. rewrite E. by apply Hpure.
  - destruct (Hedit Left I) as (a' & E & Ha'). cbn in E. rewrite E. by apply Hpure.
  - destruct (Hedit Right I) as (a' & E & Ha'). cbn in E. rewrite E. by apply Hpure.
  - by apply Hlift, history_up_ok.
  - by apply Hlift, history_down_ok.
  - by apply Hpure, tab_ok.
  - by apply Hpure, tui_ok_output.
  - by apply Hpure, tui_ok_output.
  - by apply Hpure, tui_ok_output.
  - by apply Hpure, tui_ok_output.
  - by apply Hpure.
Qed.

(** A session whose typed characters are ASCII never panics, whatever the keys and their order:
    the cursor stays in the line, the history index in the history, the node in the list. *)
Theorem ascii_session_never_panics keys :
  Forall (λ key, ∀ c, code key = Char c → ascii_char c) keys →
  ∃ r, run_app keys new = Some r ∧ ∀ a, r = Some a → tui_ok a.
Proof.
  intros Hk. assert (tui_ok new) as Hn.
  { split; [by repeat constructor|constructor|done|by eexists|done]. }
  revert Hn. generalize new. induction Hk as [|key keys Hkey _ IH]; intros a Ha; cbn [run_app].
  { eexists. split; [done|]. by intros ? [= <-]. }
  destruct (handle_key_ok key a Ha Hkey) as ([a'|] & -> & Hr); [|by eexists]. apply IH. by apply Hr.
Qed.

(** ** Commands *)

(** What Enter does with a command.  It goes to the history, the line is emptied; [node NAME]
    selects a known node and nothing else selects one; and a command that is not one of the
    panel's own adds its echo and one line that says it is running to the output, and nothing
    else happens: no command is run on any node. *)
Theorem commands_exact a w ws n : split_whitespace (trim (input a)) = w :: ws → current_node a = Some n →
  let cmd := trim (input a) in
  (∀ name i, w = "node"%string → head ws = Some name → find_node name a = Some i → is_Some (nodes a !! i)) ∧
  ∃ a', submit a = Some a' ∧ history a' = history a ++ [cmd] ∧ history_idx a' = None ∧ input a' = ""%string ∧ cursor a' = 0%nat
  ∧ nodes a' = nodes a
  ∧ selected_node a' =
      (if decide (w = "node")%string then default (selected_node a) (head ws ≫= λ name, find_node name a) else selected_node a)
  ∧ (w ∉ ["exit"; "quit"; "clear"; "cls"; "help"; "node"]%string →
     output a' = output a ++ [whoami +:+ "@" +:+ node_name n +:+ "> " +:+ cmd; "(执行中...)"%string]).
Proof.
  intros Hw Hn cmd. split; [intros name i _ _; apply find_node_Some|].
  unfold submit. fold cmd. fold cmd in Hw.
  destruct (byte_len cmd =? 0)%nat eqn:Hz.
  { apply Nat.eqb_eq in Hz. unfold byte_len in Hz. apply nil_length_inv in Hz.
    unfold split_whitespace in Hw. by rewrite Hz in Hw. }
  change (current_node (set_history ?h ?i a)) with (current_node a). rewrite Hn. cbn [mbind option_bind]. rewrite Hw.
  set (a1 := add_output _ _).
  assert (∃ a2, run_command (w :: ws) a1 = Some a2 ∧ history a2 = history a1 ∧ history_idx a2 = history_idx a1 ∧ nodes a2 = nodes a1
    ∧ selected_node a2 = (if decide (w = "node")%string then default (selected_node a) (head ws ≫= λ name, find_node name a) else selected_node a)
    ∧ (w ∉ ["exit"; "quit"; "clear"; "cls"; "help"; "node"]%string → output a2 = output a1 ++ ["(执行中...)"%string]))
    as (a2 & -> & H1 & H2 & H3 & H4 & H5).
  { unfold run_command. cbv zeta. replace (default ""%string (head (w :: ws))) with w by done. repeat case_bool_decide.
    - eexists. split_and!; try done; [case_decide; [naive_solver|done]|set_solver].
    - eexists. split_and!; try done; [case_decide; [naive_solver|done]|set_solver].
    - eexists. subst w. split_and!; try done. set_solver.
    - subst w. destruct ws as [|name ws].
      + change (current_node a1) with (current_node a). rewrite Hn. eexists. split_and!; try done. set_solver.
      + change (find_node name a1) with (find_node name a). destruct (find_node name a) as [i|] eqn:Ef.
        * destruct (find_node_Some _ _ _ Ef) as [n' Hn']. unfold current_node at 1. cbn [nodes selected_node set_node].
          change (nodes a1) with (nodes a). rewrite Hn'. eexists. split_and!; try done; [by cbn; rewrite Ef|set_solver].
        * eexists. split_and!; try done; [by cbn; rewrite Ef|set_solver].
    - eexists. split_and!; try done. by case_decide. }
  eexists. split; [done|]. cbn. rewrite H1, H2, H3, H4. split_and!; try done.
  intros Hx. rewrite (H5 Hx). cbn. by rewrite <-app_assoc.
Qed.

(** ** The output area *)

Section Panel.
(** The lines that a widget of a height shows of those it is given: the borders take two rows. *)
Variable rows : nat → list string → list string.
Hypothesis bordered : ∀ h ls, rows h ls = take (h - 2) ls.

(** Once the output has as many lines as the area has rows, borders included, its last two lines
    are never shown, at any scroll position. *)
Theorem newest_lines_hidden h a : (2 ≤ h ≤ length (output a))%nat →
  ∃ k, (k + (h - 2) + 2 ≤ length (output a))%nat
    ∧ rows h (visible h a) = take (h - 2) (drop k (output a)) ∧ length (rows h (visible h a)) = (h - 2)%nat.
Proof.
  intros Hh. exists (start_line h a). unfold visible. rewrite bordered, take_take, Nat.min_l by lia.
  assert (start_line h a + h ≤ length (output a))%nat.
  { unfold start_line. destruct (Nat.ltb_spec (length (output a)) (scroll a + h)); [|lia].
    destruct (Nat.ltb_spec h (length (output a))); lia. }
  split_and!; [lia|done|]. rewrite length_take, length_drop. lia.
Qed.
End Panel.

(** ** Witnesses *)

Definition typed (c : string) : KeyEvent := mkKey (Char c) false.
Definition typing (s : string) : TuiApp := set_input s (byte_len s) new.
Definition e_acute : string := string_bytes [Byte.xc3; Byte.xa9].

Lemma editor_exact_witness : ∃ a', run_app [typed "a"; typed "b"; mkKey Left false; typed "c"] new = Some (Some a')
  ∧ zip a' = (as_bytes "ac", as_bytes "b").
Proof.
  destruct (editor_exact [Char "a"; Char "b"; Left; Char "c"] new) as (a' & E & Hz & _).
  - by split; [constructor|cbn; lia].
  - repeat constructor.
  - exists a'. split; [exact E|exact Hz].
Defined.
Lemma wide_character_panics_witness : ∃ a', insert_char e_acute new = Some a' ∧ handle_key (typed "x") a' = None ∧ delete_char a' = Some new.
Proof.
  eexists. split; [vm_compute; reflexivity|].
  edestruct (wide_character_panics e_acute new) as [H H']; [vm_compute; reflexivity|reflexivity|vm_compute; lia|reflexivity|].
  split; [by apply (H "x"%string)|exact H'].
Defined.
Lemma history_exact_witness :
  presses 2 history_up (set_history ["ls"; "ps"]%string None new) = Some (recalled 0 "ls" (set_history ["ls"; "ps"]%string None new)).
Proof.
  destruct (history_exact (set_history ["ls"; "ps"]%string None new) 2 1 eq_refl) as (s & s' & Hs & _ & E & _);
    [cbn; lia|lia|]. cbn in Hs. injection Hs as <-. exact E.
Defined.
Lemma ascii_session_never_panics_witness : ∃ r, run_app [typed "l"; mkKey Tab false; mkKey Enter false; mkKey Up false] new = Some r.
Proof.
  edestruct (ascii_session_never_panics [typed "l"; mkKey Tab false; mkKey Enter false; mkKey Up false]) as (r & E & _); [|by exists r].
  apply Forall_cons. split; [intros c [= <-]; by split; [repeat constructor|]|]. repeat (apply Forall_cons; split; [done|]). done.
Defined.
Lemma commands_exact_witness : ∃ a', submit (typing "exec ls") = Some a'
  ∧ output a' = output new ++ ["win@tuanzi> exec ls"; "(执行中...)"]%string.
Proof.
  destruct (commands_exact (typing "exec ls") "exec" ["ls"%string] (mkNode "tuanzi" "192.168.31.244:9876") eq_refl eq_refl)
    as (_ & a' & E & _ & _ & _ & _ & _ & _ & Ho).
  exists a'. split; [exact E|]. apply Ho. set_solver.
Defined.
Lemma newest_lines_hidden_witness : ∃ k, (k + (3 - 2) + 2 ≤ length (output new))%nat
    ∧ take 1 (visible 3 new) = take (3 - 2) (drop k (output new)).
Proof.
  destruct (newest_lines_hidden (λ h ls, take (h - 2) ls) (λ _ _, eq_refl) 3 new) as (k & H1 & H2 & _); [cbn; lia|].
  exists k. split; [exact H1|exact H2].
Defined.
