(* ===== verification/Cli.v ===== *)
(** * Cli: the command line of lan-linkctl

    Models what crates/ctl/src/main.rs does around the protocol of Ctl: the
    subcommands, the key and the address they use, the native command each of them
    becomes, batches, watching, following and interactive execution.  What is
    printed is the result: the stream (1 is the error output) and the bytes.  The
    parser of IPv6 socket addresses is an argument. *)
From Stdlib Require Import Ascii.
From S2P Require Import Prelude Frame Stream Connection Identity Float Text Lines Ctl.

(** ** The subcommands *)

Module ServiceAction.
Inductive t :=
| List (active failed : bool)
| Status (name : string)
| Start (name : string)
| Stop (name : string)
| Restart (name : string)
| Reload (name : string)
| Enable (name : string)
| Disable (name : string).
End ServiceAction.

Module PkgAction.
Inductive t :=
| List (installed : bool)
| Search (query : string)
| Install (name : string)
| Remove (name : string)
| Update
| Upgrade.
End PkgAction.

Module DockerAction.
Inductive t :=
| Ps (all running : bool)
| Logs (name : string) (tail : Z) (follow : bool)
| Stats (interval_secs : Z)
| Exec (container : string) (interactive : bool) (cmd : list string)
| Info
| Images
| Rm (container : string) (force : bool)
| Control (container action : string).
End DockerAction.

Module CrontabAction.
Inductive t := List | Edit | Remove.
End CrontabAction.

Module Cmd.
Inductive t :=
| Exec (cmd : list string) (timeout : Z)
| Iexec (cmd : list string) (timeout : Z)
| Shell (timeout : Z)
| Batch (file : string) (timeout : Z) (parallel : bool) (jobs : Z)
| Watch (interval_secs : Z) (cmd : list string)
| Push (local remote : string)
| Pull (remote local : string) (timeout : Z)
| Ls (path : string) (long all : bool)
| Cat (path : string)
| Tail (path : string) (lines : Z) (follow : bool) (follow_secs : Z)
| Head (path : string) (lines : Z)
| Find (path : string) (name type_ : option string) (maxdepth : Z)
| Grep (pattern path : string) (recursive line_number count : bool)
| Du (path : string) (summarize : bool) (maxdepth : Z)
| Df (human all : bool)
| Tree (path : string) (depth : Z) (dirs_only : bool)
| Stat (path : string)
| Mkdir (recursive : bool) (paths : list string)
| Rm (recursive force : bool) (paths : list string)
| Mv (src dest : string)
| Cp (recursive : bool) (src dest : string)
| Chmod (mode : string) (paths : list string)
| Chown (owner : string) (paths : list string)
| Lsblk
| Mount
| Diff (file1 file2 : string)
| Wc (lines words : bool) (paths : list string)
| Ps (full : bool) (user : option string) (tree : bool)
| Kill (pid signal : Z)
| Pgrep (name : string) (full count : bool)
| Pkill (name : string) (signal : Z)
| Top (interval_secs iterations : Z)
| Ping (count : Z)
| Netstat (tcp udp numeric listening : bool)
| Ip (addr route link : bool)
| PortScan (host : string) (start_port end_port timeout_ms : Z)
| Arp
| Dns (hostname : string) (type_ : option string)
| Info
| Uname (all release machine : bool)
| Uptime
| Hostname
| Whoami
| Who
| Last (lines : Z)
| Free (human : bool)
| Cpu
| Dmesg (lines : Z) (level : option string)
| Service (action : ServiceAction.t)
| Journal (unit_ : option string) (follow : bool) (lines : Z) (priority since : option string)
| Pkg (action : PkgAction.t)
| Docker (action : DockerAction.t)
| Crontab (action : CrontabAction.t)
| Firewall (backend : string)
| Ssh
| Checksum (path algorithm : string)
| Signal (id signal : Z)
| Status
| Version
| WriteFile (path data : string) (append : bool)
| Sed (path pattern replacement : string) (global regex : bool)
| Touch (path : string)
| Tui (timeout : Z).
End Cmd.

(** [addr] and [psk] are options of every subcommand; the [vpn] flag only prints a line. *)
Record Cli := mkCli { addr : string; psk : option string; vpn : bool; command : Cmd.t }.

(** ** The native command of a subcommand *)

Definition service_action (a : ServiceAction.t) : ServiceActionType :=
  match a with
  | ServiceAction.List active failed => SvcList active failed
  | ServiceAction.Status name => SvcStatus name
  | ServiceAction.Start name => SvcStart name
  | ServiceAction.Stop name => SvcStop name
  | ServiceAction.Restart name => SvcRestart name
  | ServiceAction.Reload name => SvcReload name
  | ServiceAction.Enable name => SvcEnable name
  | ServiceAction.Disable name => SvcDisable name
  end.
Definition pkg_action (a : PkgAction.t) : PkgActionType :=
  match a with
  | PkgAction.List installed => PkgList installed
  | PkgAction.Search query => PkgSearch query
  | PkgAction.Install name => PkgInstall name
  | PkgAction.Remove name => PkgRemove name
  | PkgAction.Update => PkgUpdate
  | PkgAction.Upgrade => PkgUpgrade
  end.
(** [running] and the interval are dropped. *)
Definition docker_action (a : DockerAction.t) : DockerActionType :=
  match a with
  | DockerAction.Ps all _ => DockerPs all false
  | DockerAction.Logs name tail follow => DockerLogs name tail follow
  | DockerAction.Stats _ => DockerStats 0
  | DockerAction.Exec container interactive cmd => DockerExec container cmd interactive
  | DockerAction.Info => DockerInfo
  | DockerAction.Images => DockerImages
  | DockerAction.Rm container force => DockerRm container force
  | DockerAction.Control container action => DockerControl container action
  end.
Definition crontab_action (a : CrontabAction.t) : CrontabActionType :=
  match a with
  | CrontabAction.List => CronList
  | CrontabAction.Edit => CronEdit
  | CrontabAction.Remove => CronRemove
  end.

(** The subcommands that are one native command. *)
Definition native_of (c : Cmd.t) : option NativeCmdType :=
  match c with
  | Cmd.Exec cmd timeout => Some (ShellExec (join " " cmd) (wrap 32 timeout))
  | Cmd.Ls path long all => Some (Ls path long all)
  | Cmd.Cat path => Some (Cat path)
  | Cmd.Tail path lines false _ => Some (Tail path lines false 0)
  | Cmd.Head path lines => Some (Head path lines)
  | Cmd.Find path name type_ maxdepth => Some (Find path name type_ maxdepth)
  | Cmd.Grep pattern path recursive line_number count => Some (Grep pattern path recursive line_number count)
  | Cmd.Du path summarize maxdepth => Some (Du path summarize maxdepth)
  | Cmd.Df human all => Some (Df human all)
  | Cmd.Tree path depth dirs_only => Some (Tree path depth dirs_only)
  | Cmd.Stat path => Some (Stat path)
  | Cmd.Mkdir recursive paths => Some (Mkdir recursive paths)
  | Cmd.Rm recursive force paths => Some (Rm recursive force paths)
  | Cmd.Mv src dest => Some (Mv src dest)
  | Cmd.Cp recursive src dest => Some (Cp recursive src dest)
  | Cmd.Chmod mode paths => Some (Chmod mode paths)
  | Cmd.Chown owner paths => Some (Chown owner paths)
  | Cmd.Lsblk => Some Lsblk
  | Cmd.Mount => Some Mount
  | Cmd.Diff file1 file2 => Some (DiffCmd file1 file2)
  | Cmd.Wc lines words paths => Some (Wc lines words paths)
  | Cmd.Ps full user tree => Some (Ps full user tree)
  | Cmd.Kill pid signal => Some (Kill pid signal)
  | Cmd.Pgrep name full count => Some (Pgrep name full count)
  | Cmd.Pkill name signal => Some (Pkill name signal)
  | Cmd.Netstat tcp udp numeric listening => Some (Netstat tcp udp numeric listening)
  | Cmd.Ip addr route link => Some (Ip addr route link)
  | Cmd.PortScan host start_port end_port timeout_ms => Some (PortScan host start_port end_port timeout_ms)
  | Cmd.Arp => Some Arp
  | Cmd.Dns hostname type_ => Some (Dns hostname type_)
  | Cmd.Info => Some Info
  | Cmd.Uname all release machine => Some (Uname all release machine)
  | Cmd.Uptime => Some Uptime
  | Cmd.Hostname => Some Hostname
  | Cmd.Whoami => Some Whoami
  | Cmd.Who => Some Who
  | Cmd.Last lines => Some (Last lines)
  | Cmd.Free human => Some (Free human)
  | Cmd.Cpu => Some Cpu
  | Cmd.Dmesg lines level => Some (Dmesg lines level)
  | Cmd.Service action => Some (Service (service_action action))
  | Cmd.Journal unit_ follow lines priority since => Some (Journal unit_ follow lines priority since)
  | Cmd.Pkg action => Some (Pkg (pkg_action action))
  | Cmd.Docker action => Some (Docker (docker_action action))
  | Cmd.Crontab action => Some (Crontab (crontab_action action))
  | Cmd.Firewall backend => Some (Firewall backend)
  | Cmd.Ssh => Some Ssh
  | Cmd.Checksum path algorithm => Some (Checksum path algorithm)
  | Cmd.WriteFile path data append => Some (WriteFile path (as_bytes data) append)
  | Cmd.Sed path pattern replacement global regex => Some (Sed path pattern replacement global regex)
  | Cmd.Touch path => Some (Touch path)
  | _ => None
  end.

(** ** The key *)

(** The option, the variable LAN_LINK_PSK, the file /etc/lan-link/psk; [None]: the program exits
    with code 1. *)
Definition resolve_psk (psk_arg env : option string) (file : result string string) : option string :=
  match psk_arg, env, file with
  | Some hex, _, _ => Some hex
  | None, Some hex, _ => Some hex
  | None, None, Ok hex => let trimmed := trim hex in if decide (trimmed = ""%string) then None else Some trimmed
  | None, None, Err _ => None
  end.

(** ** Addresses *)

(** Decimal digits: at most [max] of them and no zero before another when [max] is given. *)
Definition all_digits (s : string) : bool :=
  forallb (λ b, in_range 0x30 0x39 b) (as_bytes s) && negb (bool_decide (s = ""%string)).
Definition octet (s : string) : option Z :=
  if all_digits s && (String.length s <=? 3)%nat && (negb (starts_with "0" s) || bool_decide (s = "0"%string))
  then parse_uint 8 s else None.
Definition port_number (s : string) : option Z := if all_digits s then parse_uint 16 s else None.
(** [Ipv4Addr] and [SocketAddrV4] from text, and the text of an address. *)
Definition parse_ipv4 (s : string) : option Z :=
  match split "." s with
  | [a; b; c; d] =>
      a ← octet a; b ← octet b; c ← octet c; d ← octet d;
      Some (a * 2 ^ 24 + b * 2 ^ 16 + c * 2 ^ 8 + d)
  | _ => None
  end.
Definition show_ipv4 (z : Z) : string :=
  pretty (z / 2 ^ 24) +:+ "." +:+ pretty (z / 2 ^ 16 mod 256) +:+ "." +:+ pretty (z / 2 ^ 8 mod 256) +:+ "." +:+ pretty (z mod 256).

Section Address.
(** [SocketAddrV6] from text, and the text of its address. *)
Variable parse_v6 : string → option SocketAddr.
Variable show_v6 : IpAddr → string.

Definition parse_socket_addr (s : string) : option SocketAddr :=
  match split ":" s with
  | [h; p] => h ← parse_ipv4 h; p ← port_number p; Some (mkAddr (V4 h) p)
  | _ => parse_v6 s
  end.
Definition show_ip (i : IpAddr) : string := match i with V4 z => show_ipv4 z | _ => show_v6 i end.
(** [rsplitn(2, ':')]: after and before the last colon. *)
Definition rsplit_once (c : ascii) (s : string) : option (string * string) :=
  match rev (split c s) with
  | [] | [_] => None
  | l :: before => Some (l, join (String c "") (rev before))
  end.
(** The host and the port that [addr] names. *)
Definition host_port (addr : string) : string * option Z :=
  match parse_socket_addr addr with
  | Some sa => (show_ip (ip sa), Some (port sa))
  | None =>
      match rsplit_once ":" addr with
      | Some (p, h) => (h, parse_uint 16 p)
      | None => (addr, None)
      end
  end.
(** The addresses that the UDP phase tries, in order, and the text of the one that TCP tries. *)
Definition udp_addresses (addr : string) : list SocketAddr :=
  let '(host, fixed) := host_port addr in
  let ports := match fixed with Some p => [p] | None => PORT_CANDIDATES end in
  omap (λ p, parse_socket_addr (host +:+ ":" +:+ pretty p)) ports.
Definition tcp_address (addr : string) : string :=
  let '(host, fixed) := host_port addr in
  host +:+ ":" +:+ pretty (default (default 0 (head PORT_CANDIDATES)) fixed).
End Address.

(** ** Standard input *)

(** [read_line] of a new [BufReader] over the reads that standard input will give: the bytes to
    the first line feed.  What the last read gave after it is lost with the reader.  No reads
    left, or an empty one, is the end of the input. *)
Fixpoint line_bytes (acc : list byte) (reads : list (list byte)) : list byte * list (list byte) :=
  match reads with
  | [] => (acc, [])
  | [] :: reads => (acc, reads)
  | r :: reads =>
      match list_find (λ b, b = Byte.x0a) r with
      | Some (i, _) => (acc ++ take (S i) r, reads)
      | None => line_bytes (acc ++ r) reads
      end
  end.
(** [None] for an error: the end of the input, or bytes that are not text. *)
Definition read_stdin_line (reads : list (list byte)) : option string * list (list byte) :=
  let '(bs, reads) := line_bytes [] reads in
  (match bs with
   | [] => None
   | _ =>
       s ← from_utf8 bs;
       Some (if decide (last bs = Some Byte.x0d) then String.string_of_list_byte (removelast bs) else s)
   end, reads).

(** ** Running a subcommand *)

Definition Printed : Type := list (Z * list byte).
Definition println (s : string) : Printed := [(0, as_bytes (s +:+ nl))].
Definition eprintln (s : string) : Printed := [(1, as_bytes (s +:+ nl))].
(** What was printed, and the error that a subcommand ends with. *)
Definition Outcome : Type := Printed * option string.

(** What [select!] takes next in an interactive execution: a message or the end of its timeout,
    a line, or the end of the whole time.  [Lost]: a read that was under way when a message came
    ends, and its bytes go with the reader that was dropped. *)
Inductive Interaction := Received | Typed | Lost | TimeUp.

(** The commands of a batch file, which are not comments and not blank. *)
Definition batch_lines (content : string) : list string :=
  filter (λ l, trim l ≠ "" ∧ starts_with "#" (trim l) = false) (lines content).
Definition batch_header (i n : nat) (line : string) : string :=
  "--- [" +:+ pretty i +:+ "/" +:+ pretty n +:+ "] " +:+ line +:+ " ---".

Section Client.
Context `{BufCrate} `{AeadCrate} `{ControlCodec} `{HexCrate} {W : Type} `{Network W}.
Open Scope act_scope.
(** The seconds since the epoch, and the local files. *)
Variable wall_clock : W → Z.
Variable read_file : string → result (list byte) string.

(** [native_run] with its last line: the exit code is printed, and is not the one of the program. *)
Definition native_printed (fuel : nat) (id : Z) (cmd : NativeCmdType) (timeout : Z) : act (Ctx * W) Printed :=
  do! r := native_run fuel id cmd timeout in
  ret (r.2 ++ match r.1 with Some (Some c) => eprintln ("[exit " +:+ pretty c +:+ "]") | _ => [] end).

(** The outcome of what prints only after it can fail; and of what comes after [out] was printed. *)
Definition ends {A} (print : A → Printed) (m : act (Ctx * W) A) : act (Ctx * W) Outcome :=
  do! r := attempt m in ret match r with Ok a => (print a, None) | Err err => ([], Some err) end.
Definition after_printing (out : Printed) (m : act (Ctx * W) Outcome) : act (Ctx * W) Outcome :=
  do! r := m in ret (out ++ r.1, r.2).
(** [m], and if it did not fail, [k]. *)
Definition and_then (m k : act (Ctx * W) Outcome) : act (Ctx * W) Outcome :=
  do! r := m in match r with (out, Some err) => ret (out, Some err) | (out, None) => after_printing out k end.

(** [drain_exec_interactive]; the reads of standard input that are left are returned too. *)
Fixpoint drain_exec_interactive (events : list Interaction) (id : Z) (deadline : Instant) (reads : list (list byte))
    (out : Printed) : act (Ctx * W) (Outcome * list (list byte)) :=
  match events with
  | [] => ret (out, None, reads)
  | ev :: events =>
      do! now := ask (λ _ w, net_now w) in
      let remaining := duration_since deadline now in
      if remaining =? 0 then do! _ := attempt (send_control (ExecSignal id 15)) in ret (out, None, reads) else
      match ev with
      | Received =>
          do! r := attempt (recv_control (Z.min remaining (from_secs 1))) in
          match r with
          | Ok (Some (ExecChunk i stream chunk)) =>
              drain_exec_interactive events id deadline reads
                (if i =? id then out ++ [(if stream =? 1 then 1 else 0, chunk)] else out)
          | Ok (Some (ExecDone i code)) =>
              if i =? id
              then ret (out ++ match code with Some c => eprintln (" [exit " +:+ pretty c +:+ "]") | None => [] end, None, reads)
              else drain_exec_interactive events id deadline reads out
          | _ => drain_exec_interactive events id deadline reads out
          end
      | Typed =>
          let '(line, reads) := read_stdin_line reads in
          do! r := attempt (send_control (match line with
                                          | Some l => ExecStdin id (as_bytes l) false
                                          | None => ExecStdin id [] true
                                          end)) in
          match r with
          | Err err => ret (out, Some err, reads)
          | Ok _ => drain_exec_interactive events id deadline reads out
          end
      | Lost => drain_exec_interactive events id deadline (drop 1 reads) out
      | TimeUp => do! _ := sleep remaining in ret (out, None, reads)
      end
  end.

(** A batch on one connection: the command at index [i] of [n] has the identifier [i + 1]. *)
Fixpoint batch (fuel i n : nat) (lines : list string) (timeout : Z) : act (Ctx * W) Outcome :=
  match lines with
  | [] => ret (println ("Batch complete: " +:+ pretty i +:+ " ok"), None)
  | l :: lines =>
      after_printing (println (batch_header (S i) n l))
        (and_then (ends (λ p, p) (native_printed fuel (Z.of_nat i + 1) (ShellExec l (wrap 32 timeout)) timeout))
           (batch fuel (S i) n lines timeout))
  end.
(** [rounds] rounds of a watch, which has no end, and of a top. *)
Definition round_header (n : Z) (w : W) : Printed :=
  println ("=== [" +:+ pretty n +:+ "] " +:+ now_str (wall_clock w) +:+ " ===").
Fixpoint watch (fuel rounds : nat) (n interval : Z) (cmd : string) : act (Ctx * W) Outcome :=
  match rounds with
  | O => ret ([], None)
  | S rounds =>
      do! header := ask (λ _ w, round_header n w) in
      after_printing header
        (and_then (ends (λ p, p) (native_printed fuel 1 (ShellExec cmd 30) 30))
           (do! _ := sleep (from_secs interval) in watch fuel rounds (wrap 32 (n + 1)) interval cmd))
  end.
Fixpoint top (fuel rounds : nat) (n interval : Z) : act (Ctx * W) Outcome :=
  match rounds with
  | O => ret ([], None)
  | S rounds =>
      do! header := ask (λ _ w, round_header n w) in
      after_printing header
        (and_then (ends (λ p, p) (native_printed fuel 1 (Top interval 1) 30))
           (do! _ := (match rounds with O => ret tt | _ => sleep (from_secs interval) end) in
            top fuel rounds (n + 1) interval))
  end.

(** The replies of [Cmd.Ping] at the times that [cmd_ping] took, and the report of all; microseconds are whole. *)
Definition ping_replies (target : string) (lat : list Duration) : Printed :=
  mjoin ((λ d, println ("Reply from " +:+ target +:+ ": time="
                          +:+ format_fixed 2 (fmul (as_secs_f64 d) (f64_of_Z 1000)) +:+ "ms")) <$> lat).
Definition ping_report (count : Z) (lat : list Duration) : Printed :=
  let micros := (λ d, d / 1000) <$> lat in
  let sum := foldr Z.add 0 micros in
  let min_ := match micros with [] => 0 | m :: ms => foldr Z.min m ms end in
  let max_ := foldr Z.max 0 micros in
  let ms z := fdiv (f64_of_Z z) (f64_of_Z 1000) in
  let avg := fdiv (f64_of_Z sum) (f64_of_Z (len lat)) in
  println ("--- " +:+ pretty count +:+ " ping statistics ---")
  ++ println (pretty count +:+ " packets transmitted, " +:+ pretty (len lat) +:+ " received")
  ++ println ("min/avg/max = " +:+ format_fixed 2 (ms min_) +:+ "/" +:+ format_fixed 2 (fdiv avg (f64_of_Z 1000))
                +:+ "/" +:+ format_fixed 2 (ms max_) +:+ " ms").

(** What a subcommand finds around it: the fuel of the waits, the rounds of a watch, the
    interactions and the reads of standard input, a random number, the text of an address, and the
    writing of a local file with its directory. *)
Record Around := mkAround {
  fuel : nat; rounds : nat; events : list Interaction; reads : list (list byte); random : Z;
  show_addr : SocketAddr → string; write_file : string → list byte → W → result unit string * W
}.
Definition from_result {A} (r : result A string) : act (Ctx * W) A :=
  match r with Ok a => ret a | Err e => fail e end.
Definition interactive (e : Around) (cmd : string) (timeout : Z) : act (Ctx * W) Outcome :=
  do! _ := send_control (NativeSpawn 1 (ShellExec cmd (wrap 32 timeout))) in
  do! now := ask (λ _ w, net_now w) in
  do! r := drain_exec_interactive (events e) 1 (now + from_secs timeout) (reads e) [] in ret r.1.
Definition pull (e : Around) (remote local : string) (timeout : Z) : act (Ctx * W) Printed :=
  do! start := ask (λ _ w, net_now w) in
  do! r := cmd_pull (fuel e) (random e) remote timeout in
  match r with
  | None => ret []
  | Some data =>
      do! _ := io (write_file e local data) in
      do! now := ask (λ _ w, net_now w) in
      let elapsed := duration_since now start / 10 ^ 9 in
      ret (eprintln ("Pulled " +:+ pretty (len data) +:+ " bytes -> " +:+ local +:+ " ("
             +:+ human_speed (if 0 <? elapsed then len data / elapsed else 0) +:+ "/s)"))
  end.

(** A subcommand that needs a connection, on it; its native command if it is one.  An [Err] is one
    before anything was printed.  The progress of a push is not modelled. *)
Definition run (e : Around) (c : Cmd.t) : act (Ctx * W) Outcome :=
  match native_of c with
  | Some cmd => ends (λ p, p) (native_printed (fuel e) 1 cmd 30)
  | None =>
      match c with
      | Cmd.Iexec cmd timeout => interactive e (join " " cmd) timeout
      | Cmd.Shell timeout => interactive e "bash" timeout
      | Cmd.Batch file timeout _ _ =>
          do! content := from_result (let? d := read_file file in ok_or (from_utf8 d) "stream did not contain valid UTF-8"%string) in
          let ls := batch_lines content in batch (fuel e) 0 (length ls) ls timeout
      | Cmd.Watch interval cmd => watch (fuel e) (rounds e) 1 interval (join " " cmd)
      | Cmd.Push local remote =>
          do! data := from_result (read_file local) in
          ends (λ _, eprintln "") (cmd_push (fuel e) (random e) data remote)
      | Cmd.Pull remote local timeout => ends (λ p, p) (pull e remote local timeout)
      | Cmd.Tail path lines _ follow_secs =>
          let secs := if 0 <? follow_secs then follow_secs else 2 in
          do! _ := send_control (NativeSpawn 1 (Tail path lines true secs)) in
          do! now := ask (λ _ w, net_now w) in
          ends snd (drain_exec (fuel e) 1 (now + from_secs (Z.max (wrap 64 (secs * 2)) 3600)) [])
      | Cmd.Top interval iterations => top (fuel e) (Z.to_nat iterations) 1 interval
      | Cmd.Ping count =>
          do! target := ask (λ c _, show_addr e (remote c)) in
          do! r := cmd_ping (Z.to_nat count) [] in
          ret (ping_replies target r.1 ++ match r.2 with None => ping_report count r.1 | Some _ => [] end, r.2)
      | Cmd.Signal id signal => ends (λ _, []) (send_control (ExecSignal id signal))
      | Cmd.Status =>
          do! c := ask (λ c _, c) in
          ret (println ("Connected to " +:+ show_addr e (remote c) +:+ " (conn_id=" +:+ pretty (ctx_conn c) +:+ ")"), None)
      | _ => ret ([], None)
      end
  end.

(** The tasks of a parallel batch, each on a connection of its own, one after the other in the order
    in which they come to their ends; [connect] gives the connection of a task.  A task that
    fails prints its error, and no other one notices. *)
Fixpoint parallel_batch (connect : W → option (result Ctx string * W)) (fuel n : nat) (timeout : Z)
    (tasks : list (nat * string)) (w : W) : option (Printed * W) :=
  match tasks with
  | [] => Some ([], w)
  | (i, l) :: tasks =>
      match connect w with
      | None => None
      | Some (Err err, w) =>
          match parallel_batch connect fuel n timeout tasks w with
          | Some (out, w) => Some (eprintln ("Parallel batch #" +:+ pretty (S i) +:+ " error: " +:+ err) ++ out, w)
          | None => None
          end
      | Some (Ok c, w) =>
          match native_printed fuel (wrap 32 (Z.of_nat i + 1)) (ShellExec l (wrap 32 timeout)) timeout (c, w) with
          | None => None
          | Some (r, (_, w)) =>
              match parallel_batch connect fuel n timeout tasks w with
              | Some (out, w) =>
                  Some (println (batch_header (S i) n l) ++ match r with Ok p => p | Err _ => [] end ++ out, w)
              | None => None
              end
          end
      end
  end.

(** [main], after the arguments are parsed.  [connect hex w] is [Ctx.new] with the address of the
    command line; [order] is the order of the tasks of a parallel batch.  [None] is a panic; an error is reported
    after what was printed. *)
Definition main (e : Around) (connect : string → W → option (result Ctx string * W)) (order : list nat)
    (env_psk : option string) (psk_file : result string string) (cli : Cli) (w : W) : option (Outcome * W) :=
  match resolve_psk (psk cli) env_psk psk_file with
  | None => Some ([], Some "错误: 未设置 PSK。请通过 --psk 参数、LAN_LINK_PSK 环境变量或 /etc/lan-link/psk 文件提供 32 字节 hex 密钥"%string, w)
  | Some hex =>
      let vpn_line := if vpn cli then println "VPN mode: routing through VPN mesh (TODO)" else [] in
      let on_connection k :=
        match connect hex w with
        | None => None
        | Some (Err err, w) => Some (vpn_line, Some err, w)
        | Some (Ok c, w) =>
            match k (c, w) with
            | None => None
            | Some (Err err, (_, w)) => Some (vpn_line, Some err, w)
            | Some (Ok r, (_, w)) => Some (vpn_line ++ r.1, r.2, w)
            end
        end in
      match command cli with
      | Cmd.Version => Some (vpn_line ++ println "lan-linkctl 0.3.0", None, w)
      | Cmd.Tui _ => Some (vpn_line, None, w)
      | Cmd.Batch file timeout true jobs =>
          if 1 <? jobs then
            match (let? d := read_file file in ok_or (from_utf8 d) "stream did not contain valid UTF-8"%string) with
            | Err err => Some (vpn_line, Some err, w)
            | Ok content =>
                let ls := batch_lines content in
                match parallel_batch (connect hex) (fuel e) (length ls) timeout
                        (omap (λ i, (λ l, (i, l)) <$> ls !! i) order) w with
                | None => None
                | Some (out, w) => Some (vpn_line ++ out, None, w)
                end
            end
          else on_connection (run e (command cli))
      | c => on_connection (run e c)
      end
  end.
End Client.
