(* ===== verification/CliProofs.v ===== *)
(** * CliProofs: what a subcommand of lan-linkctl prints

    The command line composed with the protocol, the daemon and its native
    commands over the network of CtlProofs; the addresses it tries; and what
    becomes of lines that are typed ahead. *)
From Stdlib Require Import Ascii.
From S2P Require Import Prelude Disk Frame Stream RateLimit Connection Daemon DaemonProofs Identity Text Lines Float Ctl CtlProofs.
From S2P Require Import NativeFs NativeSystem NativeAdmin Native NativeProofs Cli.

(** ** One native command *)

Section Command.
Context `{BufCrateOk} `{AeadCrateOk} `{FileCodecOk} `{!AeadTotal} `{HexCrate} `{Sha256Crate} `{Md5Crate}.
Variable psk : Psk.
Variables (me server : SocketAddr) (c : Z).
Hypothesis Hc : u64_ok c.

Definition exit_line (code : option Z) : Printed :=
  match code with Some z => eprintln ("[exit " +:+ pretty z +:+ "]") | None => [] end.

Section Network.
Variable native : option (list byte * option Z).
#[local] Instance net : Network Net := network psk me server native.
Notation ctx := (CtlProofs.ctx psk server c).
Notation linked := (CtlProofs.linked me c).

Lemma wait_message fuel id deadline out q w r w' :
  clock w < deadline → (∀ t, Ctl.recv_control t (ctx q, w) = Some (Ok r, (ctx q, w'))) →
  drain_exec (S fuel) id deadline out (ctx q, w) =
    match r with
    | Some (ExecChunk i stream chunk) =>
        drain_exec fuel id deadline (if i =? id then out ++ [(stream, chunk)] else out) (ctx q, w')
    | Some (ExecDone i code) =>
        if i =? id then Some (Ok (Some code, out), (ctx q, w')) else drain_exec fuel id deadline out (ctx q, w')
    | _ => drain_exec fuel id deadline out (ctx q, w')
    end.
Proof.
  intros Hd Hr. cbn [drain_exec]. unfold bind at 1, ask. cbn [fst snd net_now net network lan].
  rewrite (proj2 (Z.eqb_neq _ _)) by (unfold duration_since; lia). unfold bind at 1, attempt. rewrite Hr.
  destruct r as [[]|]; try done. by case_match.
Qed.

(** Within the quota: the output if it fits into a datagram, and the exit code. *)
Lemma command_answered l T n q i cmd out code timeout fuel w :
  native = Some (out, code) → linked l T n w → 0 <= n < CMD_RATE_LIMIT → CtlProofs.inbox w = [] →
  u32_ok i → (∀ z, code = Some z → - 2 ^ 31 <= z < 2 ^ 31) → len out <= 50000 →
  deserialize (serialize (NativeCmd i cmd)) = Some (NativeCmd i cmd) →
  (length (serialize (NativeCmd i cmd)) <= MAX_PAYLOAD)%nat → 0 < timeout → (2 <= fuel)%nat →
  (∀ seq pkt, control_datagram c psk seq (ExecChunk i 0 out) = Some pkt →
     (MAX_PACKET < length pkt)%nat → open_packet psk (take MAX_PACKET pkt) = None) →
  ∃ q' w', native_printed fuel i cmd timeout (ctx q, w) =
    Some (Ok ((if decide (length out <= 1383)%nat then [(0, out)] else []) ++ exit_line code), (ctx q', w')).
Proof.
  intros Hnat Hw Hn Hib Hi Hcode Hout Hrt Hl Hto Hf Hcut.
  destruct (native_answered psk me server native c Hc l T n q i cmd out code w)
    as (w1 & seq & pkt1 & pkt2 & E1 & Hclk & Hib1 & Epkt1 & Hpkt1 & Hpkt2); try done.
  change (network psk me server native) with net in *. destruct fuel as [|[|fuel]]; [lia..|].
  exists (wrap 32 (q + 1)), (mkNet (clock w1) (ep w1) (hst w1) []).
  unfold native_printed, native_run, bind at 1 2. rewrite E1. unfold bind at 1, ask. cbn [fst snd net_now net network lan].
  assert (Ht : clock w1 < clock w1 + from_secs timeout) by (unfold from_secs; lia).
  assert (Hchunk : ∀ t, Ctl.recv_control t (ctx (wrap 32 (q + 1)), w1) = Some (Ok _, (_, _)))
    by (intros t; exact (output_received psk me server native c t _ i out w1 seq pkt1 [pkt2] Hib1 Epkt1 Hpkt1 Hi Hout (Hcut _ _ Epkt1))).
  rewrite (wait_message _ _ _ _ _ w1 _ _ Ht Hchunk).
  assert (Hdone : ∀ t, Ctl.recv_control t (ctx (wrap 32 (q + 1)), mkNet (clock w1) (ep w1) (hst w1) [pkt2])
    = Some (Ok (Some (ExecDone i code)), (ctx (wrap 32 (q + 1)), mkNet (clock w1) (ep w1) (hst w1) []))).
  { intros t. apply (recv_carries psk me server native c t _ _ pkt2 [] (mkNet (clock w1) (ep w1) (hst w1) [pkt2])); [done|done|done|destruct code; cbn; unfold MAX_PAYLOAD; lia]. }
  assert (E2 : ∀ o, drain_exec (S fuel) i (clock w1 + from_secs timeout) o
      (ctx (wrap 32 (q + 1)), mkNet (clock w1) (ep w1) (hst w1) [pkt2])
    = Some (Ok (Some code, o), (ctx (wrap 32 (q + 1)), mkNet (clock w1) (ep w1) (hst w1) []))).
  { intros o. rewrite (wait_message _ _ _ _ _ (mkNet (clock w1) (ep w1) (hst w1) [pkt2]) _ _ Ht Hdone). by rewrite Z.eqb_refl. }
  case_decide; rewrite ?Z.eqb_refl, E2; unfold ret; cbn [fst snd]; by destruct code.
Qed.

(** Beyond the quota a message changes nothing. *)
Lemma refused l T n q m w : linked l T n w → CMD_RATE_LIMIT <= n < 2 ^ 31 → inbox w = [] →
  deserialize (serialize m) = Some m → (length (serialize m) <= MAX_PAYLOAD)%nat →
  ∃ w', Ctl.send_control m (ctx q, w) = Some (Ok tt, (ctx (wrap 32 (q + 1)), w'))
    ∧ clock w' = clock w ∧ linked l T (n + 1) w' ∧ hst w' = hst w ∧ inbox w' = [].
Proof.
  intros Hw Hn Hib Hm Hl.
  destruct (send_read psk me server native c Hc l T n q m w Hw) as (w' & E & Hclk & Hw' & Hp); [unfold CMD_RATE_LIMIT in Hn; lia|done..|].
  unfold pass in Hp. rewrite (proj2 (Z.ltb_ge _ _)) in Hp by lia. destruct Hp as [Hh Hi].
  exists w'. by rewrite Hh, Hi.
Qed.
(** The signals at the end of the time. *)
Lemma signals l T n q w (deadline : Instant) fuel id out :
  linked l T n w → CMD_RATE_LIMIT <= n < 2 ^ 31 - 1 → inbox w = [] → u32_ok id → deadline = clock w →
  clock w + from_millis 500 <= T + from_secs 60 →
  ∃ q' w', drain_exec (S fuel) id deadline out (ctx q, w) = Some (Ok (Some None, out), (ctx q', w'))
    ∧ clock w' = clock w + from_millis 500 ∧ hst w' = hst w.
Proof.
  intros Hw Hn Hib Hi Hd Ht. cbn [drain_exec]. unfold bind at 1, ask. cbn [fst snd net_now net network lan].
  rewrite (proj2 (Z.eqb_eq _ _)) by (unfold duration_since; lia).
  assert (Hsig : ∀ z, u32_ok z → file_msg (ExecSignal id z)) by done.
  destruct (refused l T n q (ExecSignal id 15) w) as (w1 & E1 & Hc1 & Hw1 & Hh1 & Hi1);
    [done|unfold CMD_RATE_LIMIT in *; lia|done|by apply codec_roundtrip|by rewrite codec_length by done; cbn; unfold MAX_PAYLOAD; lia|].
  unfold bind at 1, attempt. rewrite E1. unfold bind at 1, sleep. cbn [fst snd net_sleep net network lan].
  destruct (refused l T (n + 1) (wrap 32 (q + 1)) (ExecSignal id 9) (mkNet (clock w1 + from_millis 500) (ep w1) (hst w1) (inbox w1)))
    as (w2 & E2 & Hc2 & _ & Hh2 & _); [|unfold CMD_RATE_LIMIT in *; lia|done|by apply codec_roundtrip|by rewrite codec_length by done; cbn; unfold MAX_PAYLOAD; lia|].
  { apply linked_wait; [done|unfold CMD_RATE_LIMIT in *; lia|]. destruct Hw as (_ & _ & HT). unfold from_millis in *. lia. }
  unfold bind at 1. rewrite E2. eexists _, w2. split; [done|]. cbn in Hc2, Hh2. by rewrite Hc2, Hh2, Hc1, Hh1.
Qed.
(** Waits of two seconds that bring nothing. *)
Lemma drain_times_out l T n k fuel id out : ∀ q w deadline,
  linked l T n w → CMD_RATE_LIMIT <= n < 2 ^ 31 - 1 → inbox w = [] → u32_ok id →
  deadline = clock w + Z.of_nat k * from_secs 2 → deadline + from_millis 500 <= T + from_secs 60 → (k < fuel)%nat →
  ∃ q' w', drain_exec fuel id deadline out (ctx q, w) = Some (Ok (Some None, out), (ctx q', w'))
    ∧ clock w' = deadline + from_millis 500 ∧ hst w' = hst w.
Proof.
  revert fuel. induction k as [|k IH]; intros [|fuel] q w deadline Hw Hn Hib Hi Hd Ht Hf; [lia| |lia|].
  - destruct (signals l T n q w deadline fuel id out) as (q' & w' & E & Hclk & Hh); try done; [unfold from_secs in *; lia..|].
    exists q', w'. split_and!; [done| |done]. unfold from_secs in *. lia.
  - cbn [drain_exec]. unfold bind at 1, ask. cbn [fst snd net_now net network lan].
    rewrite (proj2 (Z.eqb_neq _ _)) by (unfold duration_since, from_secs in *; lia).
    replace (Z.min (duration_since deadline (clock w)) (from_secs 2)) with (from_secs 2)
      by (unfold duration_since, from_secs in *; lia).
    unfold bind at 1, attempt. unfold Ctl.recv_control, bind, ask. cbn [fst via_tcp CtlProofs.ctx].
    unfold recv_parsed, bind, io. cbn [snd fst recv_from net network lan]. unfold receive. rewrite Hib.
    destruct (IH fuel q (mkNet (clock w + from_secs 2) (ep w) (hst w) []) deadline) as (q' & w' & E & Hclk & Hh);
      [..|exists q', w'; by split_and!]; try done.
    + apply linked_wait; [done|unfold CMD_RATE_LIMIT in *; lia|]. destruct Hw as (_ & _ & HT).
      unfold from_millis, from_secs in *. lia.
    + cbn [clock]. unfold from_secs in *. lia.
    + lia.
Qed.
End Network.

(** C23: A subcommand that is one native command, from the command line to the file system of the daemon
    and back, on a network that loses nothing and delivers at once ([lan]) and a daemon that serves nobody
    else meanwhile and whose commands end at once.  On an established connection with nothing left to
    read, while the daemon has counted fewer than 30 commands of the address in the minute, and if the
    request fits into a datagram and is read back as it was written, the output has at most 50000 bytes and the
    exit code is an [i32], the client prints what the command printed if that fits into a
    datagram, 1383 bytes, nothing if it is longer and what arrives does not decrypt, and then its
    exit code; the program's own exit code is that of a success in every case. *)
Theorem command_exact oe o wall files e cl cmd out code o' l T n q w :
  native_of cl = Some cmd → run_native_cmd oe cmd o = Some (out, code, o') →
  let native := fst <$> run_native_cmd oe cmd o in
  linked me c l T n w → 0 <= n < CMD_RATE_LIMIT → inbox w = [] →
  (∀ z, code = Some z → - 2 ^ 31 <= z < 2 ^ 31) → len out <= 50000 →
  deserialize (serialize (NativeCmd 1 cmd)) = Some (NativeCmd 1 cmd) →
  (length (serialize (NativeCmd 1 cmd)) <= MAX_PAYLOAD)%nat → (2 <= fuel e)%nat →
  (∀ seq pkt, control_datagram c psk seq (ExecChunk 1 0 out) = Some pkt →
     (MAX_PACKET < length pkt)%nat → open_packet psk (take MAX_PACKET pkt) = None) →
  ∃ q' w', run (H3 := lan psk me server native) wall files e cl (ctx psk server c q, w) =
    Some (Ok ((if decide (length out <= 1383)%nat then [(0, out)] else []) ++ exit_line code, None), (ctx psk server c q', w')).
Proof.
  intros Hcl Hrun native Hw Hn Hib Hcode Hout Hrt Hl Hf Hcut. unfold run. rewrite Hcl.
  destruct (command_answered native l T n q 1 cmd out code 30 (fuel e) w) as (q' & w' & E); try done.
  { unfold native. by rewrite Hrun. }
  exists q', w'. change (lan psk me server native) with (net native) in E |- *. unfold ends, bind at 1, attempt. by rewrite E.
Qed.

(** When the daemon has counted thirty commands of the address in the minute, a subcommand is not run,
    and the client does not say so: whatever its timeout is, it waits thirty seconds, prints
    nothing and ends as after a success, and the daemon has not changed. *)
Theorem quota_swallows_command native wall files e cl cmd l T n q w :
  native_of cl = Some cmd → linked me c l T n w → CMD_RATE_LIMIT <= n < 2 ^ 31 - 2 → inbox w = [] →
  clock w + from_secs 31 <= T + from_secs 60 →
  deserialize (serialize (NativeCmd 1 cmd)) = Some (NativeCmd 1 cmd) →
  (length (serialize (NativeCmd 1 cmd)) <= MAX_PAYLOAD)%nat → (16 <= fuel e)%nat →
  ∃ q' w', run (H3 := lan psk me server native) wall files e cl (ctx psk server c q, w) = Some (Ok ([], None), (ctx psk server c q', w'))
    ∧ hst w' = hst w ∧ clock w' = clock w + from_secs 30 + from_millis 500.
Proof.
  intros Hcl Hw Hn Hib Ht Hrt Hl Hf. unfold run. rewrite Hcl. unfold ends, bind at 1, attempt, native_printed, native_run, bind at 1 2.
  destruct (refused native l T n q (NativeCmd 1 cmd) w) as (w1 & E1 & Hc1 & Hw1 & Hh1 & Hi1); try done; [lia|].
  change (lan psk me server native) with (net native). rewrite E1. unfold bind at 1, ask. cbn [fst snd net_now net network lan].
  destruct (drain_times_out native l T (n + 1) 15 (fuel e) 1 [] (wrap 32 (q + 1)) w1 (clock w1 + from_secs 30))
    as (q' & w' & E & Hclk & Hh); try done; [unfold CMD_RATE_LIMIT, from_secs, from_millis in *; lia..|].
  exists q', w'. change (lan psk me server native) with (net native). rewrite E. cbn. by rewrite Hclk, Hh, Hc1.
Qed.
End Command.

(** ** Addresses *)

Lemma digit_value_range a d : digit_value a = Some d → in_range 0x30 0x39 (byte_of_ascii a) = true.
Proof. destruct a as [[] [] [] [] [] [] [] []]; vm_compute; congruence. Qed.
Lemma parse_digits_range w acc s z : parse_digits w acc s = Some z → forallb (λ b, in_range 0x30 0x39 b) (as_bytes s) = true.
Proof.
  revert acc. induction s as [|a s IH]; intros acc; [done|]. cbn [parse_digits]. rewrite as_bytes_cons.
  intros (d & Hd & Hz)%bind_Some. cbn [forallb]. rewrite (digit_value_range _ _ Hd).
  case_match; [|done]. by apply (IH (acc * 10 + d)).
Qed.
Lemma port_pretty p : fits 16 p → port_number (pretty p) = Some p.
Proof.
  intros Hp. destruct (parse_digits_pretty 16 p Hp) as [Hd Hl]. unfold port_number, all_digits.
  rewrite (parse_digits_range _ _ _ _ Hd), bool_decide_eq_false_2; [by apply parse_uint_pretty|].
  intros E. rewrite E in Hl. by inversion Hl.
Qed.
Lemma octet_pretty z : 0 <= z < 256 → octet (pretty z) = Some z.
Proof.
  assert (H : forallb (λ n, bool_decide (octet (pretty (Z.of_nat n)) = Some (Z.of_nat n))) (List.seq 0 256) = true)
    by (vm_compute; reflexivity).
  rewrite forallb_forall in H. intros Hz. specialize (H (Z.to_nat z)).
  rewrite Z2Nat.id in H by lia. specialize (H ltac:(apply in_seq; lia)). by apply bool_decide_eq_true_1 in H.
Qed.

(** The decimal notation of an address, and the number it stands for. *)
Definition dotted (a b c d : Z) : string := pretty a +:+ "." +:+ pretty b +:+ "." +:+ pretty c +:+ "." +:+ pretty d.
Definition bits_of (a b c d : Z) : Z := a * 2 ^ 24 + b * 2 ^ 16 + c * 2 ^ 8 + d.
Definition octets (a b c d : Z) : Prop := 0 <= a < 256 ∧ 0 <= b < 256 ∧ 0 <= c < 256 ∧ 0 <= d < 256.

Lemma parse_dotted a b c d : octets a b c d → parse_ipv4 (dotted a b c d) = Some (bits_of a b c d).
Proof.
  intros (Ha & Hb & Hc & Hd). unfold parse_ipv4, dotted.
  change ("." +:+ ?x) with (String "." x) in *.
  rewrite !str_cons_app, !str_nil_app.
  rewrite !split_app, split_free by (apply free_of_pretty; [done|lia]).
  by rewrite !octet_pretty.
Qed.
Lemma show_dotted a b c d : octets a b c d → show_ipv4 (bits_of a b c d) = dotted a b c d.
Proof.
  intros (Ha & Hb & Hc & Hd). unfold show_ipv4, dotted, bits_of.
  replace ((a * 2 ^ 24 + b * 2 ^ 16 + c * 2 ^ 8 + d) / 2 ^ 24) with a by (Z.to_euclidean_division_equations; lia).
  replace ((a * 2 ^ 24 + b * 2 ^ 16 + c * 2 ^ 8 + d) / 2 ^ 16 mod 256) with b by (Z.to_euclidean_division_equations; lia).
  replace ((a * 2 ^ 24 + b * 2 ^ 16 + c * 2 ^ 8 + d) / 2 ^ 8 mod 256) with c by (Z.to_euclidean_division_equations; lia).
  by replace ((a * 2 ^ 24 + b * 2 ^ 16 + c * 2 ^ 8 + d) mod 256) with d by (Z.to_euclidean_division_equations; lia).
Qed.

(** What the parser and the printer of IPv6 addresses promise: an address with a port is in brackets,
    and an address alone has more than one colon and no bracket. *)
Section Addresses.
Variable parse_v6 : string → option SocketAddr.
Variable show_v6 : IpAddr → string.
Definition brackets : Prop := ∀ s, starts_with "[" s = false → parse_v6 s = None.
Definition colons : Prop := ∀ bits,
  (3 <= length (split ":" (show_v6 (V6 bits))))%nat ∧ starts_with "[" (show_v6 (V6 bits)) = false.

Lemma parse_with_port h p : free_of ":" h = true → fits 16 p →
  parse_socket_addr parse_v6 (h +:+ ":" +:+ pretty p) = (λ z, mkAddr (V4 z) p) <$> parse_ipv4 h.
Proof.
  intros Hh Hp. unfold parse_socket_addr. rewrite str_cons_app, str_nil_app, split_app, split_free by
    (done || (apply free_of_pretty; [done|unfold fits in *; lia])).
  rewrite port_pretty by done. by destruct (parse_ipv4 h).
Qed.
Lemma parse_without_port h : free_of ":" h = true → parse_socket_addr parse_v6 h = parse_v6 h.
Proof. intros Hh. unfold parse_socket_addr. by rewrite split_free. Qed.
Lemma split_nonempty c s : split c s ≠ [].
Proof. destruct s; cbn [split]; [done|]. repeat case_match; done. Qed.
Lemma split_length c x y : length (split c (x +:+ String c y)) = (length (split c x) + length (split c y))%nat.
Proof.
  induction x as [|a x IH]; [rewrite str_nil_app; cbn [split]; by rewrite Ascii.eqb_refl|].
  rewrite str_cons_app. cbn [split]. destruct (Ascii.eqb a c); [cbn [length]; by rewrite IH|].
  pose proof (split_nonempty c x). destruct (split c (x +:+ String c y)) eqn:E1, (split c x) eqn:E2; cbn [length] in *; try done.
Qed.

(** The host and the port of the three kinds of address. *)
Lemma host_port_free h : brackets → free_of ":" h = true → starts_with "[" h = false →
  host_port parse_v6 show_v6 h = (h, None).
Proof.
  intros Hb Hh Hs. unfold host_port, rsplit_once. by rewrite parse_without_port, Hb, split_free.
Qed.
Lemma host_port_name h p : free_of ":" h = true → fits 16 p → parse_ipv4 h = None →
  host_port parse_v6 show_v6 (h +:+ ":" +:+ pretty p) = (h, Some p).
Proof.
  intros Hh Hp Hn. unfold host_port, rsplit_once. rewrite parse_with_port, Hn by done. cbn [fmap option_fmap option_map].
  rewrite str_cons_app, str_nil_app, split_app, split_free by
    (done || (apply free_of_pretty; [done|unfold fits in *; lia])).
  cbn [rev app join]. by rewrite parse_uint_pretty.
Qed.
Lemma dotted_free a b c d : octets a b c d → free_of ":" (dotted a b c d) = true ∧ starts_with "[" (dotted a b c d) = false.
Proof.
  intros (Ha & Hb & Hc & Hd). split.
  - unfold dotted. rewrite !free_of_app, !free_of_pretty by (done || lia). done.
  - assert (Hf : free_of "[" (dotted a b c d) = true)
      by (unfold dotted; rewrite !free_of_app, !free_of_pretty by (done || lia); done).
    destruct (dotted a b c d) as [|x s]; [done|]. apply andb_true_iff in Hf as [Hx%negb_true_iff%Ascii.eqb_neq _].
    cbn [starts_with]. by destruct (Ascii.eqb_spec "[" x) as [<-|].
Qed.
Lemma not_v4 h p : brackets → (3 <= length (split ":" h))%nat → starts_with "[" h = false →
  parse_socket_addr parse_v6 (h +:+ ":" +:+ p) = None.
Proof.
  intros Hb Hl Hs. assert (E : parse_v6 (h +:+ ":" +:+ p) = None).
  { apply Hb. destruct h as [|x h]; [cbn in Hl; lia|]. unfold starts_with in *. rewrite str_cons_app. cbn in *. done. }
  unfold parse_socket_addr. pose proof (split_length ":" h p) as H.
  change (h +:+ String ":" p) with (h +:+ ":" +:+ p) in H.
  assert (length (split ":" p) ≠ 0%nat) by (intros ?%nil_length_inv; by eapply split_nonempty).
  destruct (split ":" (h +:+ ":" +:+ p)) as [|? [|? [|]]]; cbn [length] in H; [done|done|lia|done].
Qed.

(** The ports of the daemon one by one. *)
Lemma ports f g : (∀ p, fits 16 p → f p = Some (g p : SocketAddr)) → omap f PORT_CANDIDATES = g <$> PORT_CANDIDATES.
Proof. intros Hf. unfold PORT_CANDIDATES. cbn [omap list_omap fmap list_fmap]. by rewrite !Hf by (unfold fits; lia). Qed.
Lemma no_ports f : (∀ p, fits 16 p → f p = @None SocketAddr) → omap f PORT_CANDIDATES = [].
Proof. intros Hf. unfold PORT_CANDIDATES. cbn [omap list_omap]. by rewrite !Hf by (unfold fits; lia). Qed.

(** The addresses that the client tries.  A dotted address with a port is tried alone, and without a
    port it is tried with the ten ports of the daemon in their order; TCP tries the first.  For a
    host name, with a port or without, and for an IPv6 address, whose brackets are lost, nothing is
    tried over UDP. *)
Theorem addresses_exact :
  brackets → colons →
  (∀ a b c d p, octets a b c d → fits 16 p →
     udp_addresses parse_v6 show_v6 (dotted a b c d +:+ ":" +:+ pretty p) = [mkAddr (V4 (bits_of a b c d)) p]
     ∧ tcp_address parse_v6 show_v6 (dotted a b c d +:+ ":" +:+ pretty p) = dotted a b c d +:+ ":" +:+ pretty p)
  ∧ (∀ a b c d, octets a b c d →
       udp_addresses parse_v6 show_v6 (dotted a b c d) = mkAddr (V4 (bits_of a b c d)) <$> PORT_CANDIDATES
       ∧ tcp_address parse_v6 show_v6 (dotted a b c d) = dotted a b c d +:+ ":9876")
  ∧ (∀ host, free_of ":" host = true → starts_with "[" host = false → parse_ipv4 host = None →
       udp_addresses parse_v6 show_v6 host = []
       ∧ ∀ p, fits 16 p → udp_addresses parse_v6 show_v6 (host +:+ ":" +:+ pretty p) = [])
  ∧ (∀ s sa, parse_socket_addr parse_v6 s = Some sa → (∃ bits, ip sa = V6 bits) →
       udp_addresses parse_v6 show_v6 s = []).
Proof.
  intros Hb Hc. split_and!.
  - intros a b c d p Ho Hp. destruct (dotted_free _ _ _ _ Ho) as [Hf _].
    unfold udp_addresses, tcp_address, host_port. rewrite parse_with_port, parse_dotted by done.
    cbn [fmap option_fmap option_map show_ip ip port default]. rewrite show_dotted by done. split; [|done].
    cbn [omap list_omap]. by rewrite parse_with_port, parse_dotted.
  - intros a b c d Ho. destruct (dotted_free _ _ _ _ Ho) as [Hf Hs].
    unfold udp_addresses, tcp_address. rewrite host_port_free by done. split; [|done].
    apply ports. intros p Hp. by rewrite parse_with_port, parse_dotted.
  - intros host Hf Hs Hn. assert (Hnone : ∀ p, fits 16 p → parse_socket_addr parse_v6 (host +:+ ":" +:+ pretty p) = None)
      by (intros p Hp; by rewrite parse_with_port, Hn).
    unfold udp_addresses. rewrite host_port_free by done. split; [by apply no_ports|].
    intros p Hp. rewrite host_port_name by done. cbn [omap list_omap]. by rewrite Hnone.
  - intros s sa Hsa [bits Hbits]. unfold udp_addresses, host_port. rewrite Hsa, Hbits. cbn [show_ip omap list_omap].
    destruct (Hc bits). by rewrite not_v4.
Qed.
End Addresses.

(** ** Lines typed ahead *)

(** The lines of [n] turns of an interactive execution. *)
Fixpoint typed (n : nat) (reads : list (list byte)) : list (option string) :=
  match n with
  | O => []
  | S n => let '(line, reads) := read_stdin_line reads in line :: typed n reads
  end.

Lemma line_bytes_first pre l rest reads : ∀ acc,
  Forall (λ r, r ≠ [] ∧ Byte.x0a ∉ r) pre → Byte.x0a ∉ l →
  line_bytes acc (pre ++ (l ++ Byte.x0a :: rest) :: reads) = (acc ++ mjoin pre ++ l ++ [Byte.x0a], reads).
Proof.
  induction pre as [|r pre IH]; intros acc Hpre Hl.
  - cbn [app line_bytes mjoin list_join].
    destruct (l ++ Byte.x0a :: rest) eqn:E; [by apply app_nil in E as [_ ?]|]. rewrite <- E.
    assert (list_find (λ b, b = Byte.x0a) (l ++ Byte.x0a :: rest) = Some (length l, Byte.x0a)) as ->.
    { apply list_find_Some. split_and!; [by apply list_lookup_middle|done|].
      intros j y Hy Hj ->. rewrite lookup_app_l in Hy by done. by apply Hl, (list_elem_of_lookup_2 _ j). }
    replace (l ++ Byte.x0a :: rest) with ((l ++ [Byte.x0a]) ++ rest) by by rewrite <-(assoc_L (++)).
    by rewrite take_app_length' by (rewrite length_app; cbn; lia).
  - apply Forall_cons in Hpre as [[Hne Hr] Hpre]. cbn [app line_bytes].
    destruct r as [|b r]; [done|]. rewrite (proj2 (list_find_None _ _)).
    + rewrite IH by done. cbn [mjoin list_join]. by rewrite !(assoc_L (++)).
    + apply Forall_forall. by intros x Hx ->.
Qed.

(** A turn takes the input up to its first line feed, over as many reads as that needs, and what the
    last of these reads holds after the line feed is lost: of several lines that are pasted or
    piped at once the program receives the first, and then the end of its input.  A carriage
    return before the line feed is sent. *)
Theorem pasted_lines_lost pre l rest reads s :
  Forall (λ r, r ≠ [] ∧ Byte.x0a ∉ r) pre → Byte.x0a ∉ l → from_utf8 (mjoin pre ++ l ++ [Byte.x0a]) = Some s →
  read_stdin_line (pre ++ (l ++ Byte.x0a :: rest) :: reads) = (Some s, reads)
  ∧ ∀ n, typed (S n) (pre ++ [l ++ Byte.x0a :: rest]) = Some s :: replicate n None.
Proof.
  intros Hpre Hl Hs.
  assert (Hread : ∀ reads, read_stdin_line (pre ++ (l ++ Byte.x0a :: rest) :: reads) = (Some s, reads)).
  { intros rs. unfold read_stdin_line. rewrite line_bytes_first, app_nil_l, Hs by done.
    destruct (mjoin pre ++ l ++ [Byte.x0a]) eqn:E; [by destruct (mjoin pre), l|]. rewrite <- E.
    by rewrite !(assoc_L (++)), last_snoc. }
  split; [done|]. intros n. cbn [typed]. rewrite Hread. f_equal. induction n as [|n IH]; [done|]. cbn. by rewrite IH.
Qed.

(** ** Witnesses *)

Lemma pasted_lines_lost_witness :
  typed 3 [[Byte.x61]; [Byte.x62; Byte.x0a; Byte.x63; Byte.x0a]] = [Some ("ab" +:+ nl); None; None].
Proof.
  apply (pasted_lines_lost [[Byte.x61]] [Byte.x62] [Byte.x63; Byte.x0a] [] _);
    [apply Forall_singleton; split| |reflexivity]; done || set_solver.
Defined.
Definition sample_show (i : IpAddr) : string := "::1".
Lemma addresses_exact_witness :
  udp_addresses (λ _, None) sample_show "10.0.0.7:9876" = [mkAddr (V4 (bits_of 10 0 0 7)) 9876]
  ∧ udp_addresses (λ _, None) sample_show "router.lan" = [].
Proof.
  destruct (addresses_exact (λ _, None) sample_show) as (H1 & _ & H3 & _); [done|intros bits; split; [cbn; lia|done]|].
  split; [apply (H1 10 0 0 7 9876); [unfold octets; lia|unfold fits; lia]|by apply H3].
Defined.

#[local] Existing Instance CtlProofs.file_codec.
#[local] Existing Instance CtlProofs.file_codec_ok.
#[local] Existing Instance CtlProofs.tag_aead_total.
#[local] Existing Instance NativeProofs.sample_md5.
Definition cat_os : Os := NativeProofs.sample_os {[ "/etc/motd"%string := [Byte.x68; Byte.x69] ]}.
Definition around : Around (W := Net) :=
  mkAround 16 0 [] [] 7 (λ _, "there"%string) (λ _ _ w, (Ok tt, w)).
Lemma command_exact_witness :
  ∃ q' w', run (H3 := lan sample_psk here there (fst <$> run_native_cmd NativeProofs.no_outside (Cat "/etc/motd") cat_os))
    (λ _, 0) (λ _, Err "none"%string) around (Cmd.Cat "/etc/motd") (CtlProofs.ctx sample_psk there 42 1, linked_net)
    = Some (Ok ([(0, [Byte.x68; Byte.x69])] ++ exit_line (Some 0), None), (CtlProofs.ctx sample_psk there 42 q', w')).
Proof.
  apply (command_exact sample_psk here there 42 ltac:(done) NativeProofs.no_outside cat_os (λ _, 0) (λ _, Err "none"%string)
    around (Cmd.Cat "/etc/motd") (Cat "/etc/motd") [Byte.x68; Byte.x69] (Some 0) cat_os 0 0 1 1 linked_net); try done.
  - split_and!; try done. by eexists.
  - by intros z [= <-].
  - vm_compute; lia.
  - cbn; lia.
  - intros seq pkt E Hlen. exfalso.
    match type of E with control_datagram _ _ _ ?m = _ =>
      destruct (sealed_carries sample_psk 42 ltac:(done) seq m) as (pkt' & E' & hd & _ & _ & _ & _ & _ & _ & Hl & _);
        [by vm_compute|] end.
    rewrite E in E'. injection E' as ->. rewrite Hl, codec_length in Hlen by done. vm_compute in Hlen. lia.
Defined.
Definition full_net : Net :=
  mkNet 0 (mkEndpoint {[ 42 := set_state Established (Connection.new 0 42 here 0) ]} (mkLimiter ∅ {[ ip here := (0, 30) ]}))
    (mkHost [0] ∅ 0 ∅ ∅ ∅ ∅ []) [].
Lemma quota_swallows_command_witness :
  ∃ q' w', run (H3 := lan sample_psk here there None) (λ _, 0) (λ _, Err "none"%string) around (Cmd.Cat "/etc/motd")
    (CtlProofs.ctx sample_psk there 42 1, full_net) = Some (Ok ([], None), (CtlProofs.ctx sample_psk there 42 q', w'))
    ∧ hst w' = hst full_net ∧ clock w' = clock full_net + from_secs 30 + from_millis 500.
Proof.
  apply (quota_swallows_command sample_psk here there 42 ltac:(done) None (λ _, 0) (λ _, Err "none"%string) around
    (Cmd.Cat "/etc/motd") (Cat "/etc/motd") 0 0 30 1 full_net); try done.
  - split_and!; try done. by eexists.
  - vm_compute; lia.
Defined.
