(* ===== verification/StartUp.v ===== *)
(** * StartUp: the start of lan-linkd

    Models the start of crates/daemon/src/main.rs: the key, the sockets, the VPN
    router, and the daemon of Daemon in its first state.  What binding a socket
    gives and the random key are the [Environment]; the command line is read
    already.  The text that is printed is a list of lines. *)
From Stdlib Require Import Ascii.
From S2P Require Import Prelude Disk Text Lines Frame Stream Identity Address Relay Daemon Cli.
From S2P Require LanRouter VpnRouter.

Definition PSK_PATH : string := "/etc/lan-link/psk".

Record Args := mkArgs {
  port : Z; psk : option string; discovery : bool; vpn_port : Z; node_name : option string; vpn : bool; tcp : bool
}.

Section StartUp.
Context `{HexCrate} `{Sha256Crate}.

(** ** The key *)

(** What is in the key file, if it is a key: 64 bytes, without a line feed. *)
Definition stored_key (d : Disk) : option Psk :=
  existing ← files d !! PSK_PATH;
  if (length existing =? 64)%nat
  then bytes ← hex_decode (String.string_of_list_byte (take 64 existing)); to_arr32 bytes else None.
(** The key, what is printed, and the disk with the key file; [None] is a panic. *)
Definition load_or_generate_psk (generated : Psk) (args : Args) (d : Disk) : option (Psk * list string * Disk) :=
  match psk args with
  | Some hex_str => key ← (bytes ← hex_decode hex_str; to_arr32 bytes); Some (key, [], d)
  | None =>
      match stored_key d with
      | Some key => Some (key, [], d)
      | None =>
          let hex := hex_encode (arr_bytes generated) in
          Some (generated, ["PSK=" +:+ hex], (write PSK_PATH (as_bytes hex) d).2)
      end
  end.

(** ** The VPN router *)

(** The name of the node, and its identifier, which is a hash of the name and the key. *)
Definition resolve_name (args : Args) (d : Disk) : string :=
  match node_name args with
  | Some name => name
  | None =>
      match bytes ← files d !! "/etc/hostname"%string; s ← from_utf8 bytes; Some (trim s) with
      | Some s => if decide (s = ""%string) then "unknown"%string else s
      | None => "unknown"%string
      end
  end.
Definition node_id (name : string) (key : Psk) : NodeID := NodeID.from_bytes (sha256 (as_bytes name ++ arr_bytes key)).
Definition Vpn : Type := VpnRouter.VpnRouter (L := LanRouter.LanRouter) (R := MemAddressResolver).
Definition start_vpn (bound : bool) (args : Args) (key : Psk) (d : Disk) : result unit Router.RouterError * Vpn :=
  let name := resolve_name args d in
  let id := node_id name key in
  VpnRouter.start bound
    (VpnRouter.with_port name id MemAddressResolver.new None (RelayManager.new id) (vpn_port args)).

(** ** The start *)

(** An error of a socket, whether the port of the relay could be bound, and the random key. *)
Record Environment := mkEnvironment {
  bind_main : option string; bind_relay : bool; bind_heartbeat : option string; bind_send : option string;
  generated : Psk
}.
(** The router is dropped once it has started; its threads go on. *)
Record Started := mkStarted {
  key : Psk; announces : bool; router : option (result unit Router.RouterError * Vpn); listens_tcp : bool; daemon : Daemon
}.
Definition start_up (e : Environment) (args : Args) (now : Instant) (d : Disk)
    : option (result Started string * list string * Disk) :=
  '(key, printed, d) ← load_or_generate_psk (generated e) args d;
  Some (let? _ := match bind_main e with Some err => Err err | None => Ok tt end in
        let router := if vpn args then Some (start_vpn (bind_relay e) args key d) else None in
        let? _ := match bind_heartbeat e with Some err => Err err | None => Ok tt end in
        let? _ := match bind_send e with Some err => Err err | None => Ok tt end in
        Ok (mkStarted key (discovery args) router (tcp args) (Daemon.start now)), printed, d).
End StartUp.

(** ** The key on disk *)

(** Hexadecimal text is visible. *)
Class HexVisible `{HexCrate} : Prop := hex_visible s b : hex_decode s = Some b → Forall visible (as_bytes s).

Section Theorems.
Context `{HexCrateOk} `{!HexVisible} `{Sha256Crate}.

(** What lan-linkctl, started on the same machine with no key, takes from the key file. *)
Definition client_key (d : Disk) : option (list byte) :=
  hex ← resolve_psk None None
    (match files d !! PSK_PATH with
     | Some bytes => ok_or (from_utf8 bytes) "stream did not contain valid UTF-8"%string
     | None => Err "No such file or directory"%string
     end);
  hex_decode hex.

Lemma client_reads d bs w k :
  files d !! PSK_PATH = Some (bs ++ w) → bs ≠ [] → hex_decode (String.string_of_list_byte bs) = Some k →
  white_space w = true → utf8_valid w = true → client_key d = Some k.
Proof.
  intros Hf Hne Hk Hw Hu. pose proof (hex_visible _ _ Hk) as Hv. unfold as_bytes in Hv.
  rewrite String.list_byte_of_string_of_list_byte in Hv.
  unfold client_key, from_utf8. rewrite Hf, visible_utf8, Hu by done. cbn [ok_or resolve_psk]. rewrite trim_visible by done.
  rewrite decide_False; [done|]. intros E%(f_equal as_bytes). unfold as_bytes in E.
  by rewrite String.list_byte_of_string_of_list_byte in E.
Qed.
Lemma stored_read d k : stored_key d = Some k → client_key d = Some (arr_bytes k).
Proof.
  unfold stored_key. intros (bs & Hf & Hb)%bind_Some. destruct (length bs =? 64)%nat eqn:Hl; [|done].
  apply Nat.eqb_eq in Hl. rewrite take_ge in Hb by lia. apply bind_Some in Hb as (l & Hd & Hk%to_arr32_Some).
  subst l. apply (client_reads d bs []); rewrite ?app_nil_r; try done. by intros ->.
Qed.
Lemma encoded_length k : length (as_bytes (hex_encode (arr_bytes k))) = 64%nat.
Proof. by rewrite as_bytes_length, hex_length, length_arr_bytes. Qed.
Lemma written_stored d k : files d !! PSK_PATH = Some (as_bytes (hex_encode (arr_bytes k))) → stored_key d = Some k.
Proof.
  intros Hf. unfold stored_key. rewrite Hf. cbn [mbind option_bind]. rewrite encoded_length. cbn [Nat.eqb].
  rewrite take_ge by (by rewrite encoded_length). unfold as_bytes.
  rewrite String.string_of_list_byte_of_string, hex_decode_encode. apply to_arr32_arr_bytes.
Qed.

(** The key survives a restart: what a start without a key on its command line used, stored or
    new, the next start loads, whatever its random key is, and prints nothing; and a client on the
    same machine takes the same key from the file. *)
Theorem key_survives_restart args g1 g2 d k out d' :
  psk args = None → write_fault d PSK_PATH = None → load_or_generate_psk g1 args d = Some (k, out, d') →
  load_or_generate_psk g2 args d' = Some (k, [], d') ∧ client_key d' = Some (arr_bytes k).
Proof.
  intros Hp Hw. unfold load_or_generate_psk. rewrite Hp.
  assert (∀ d, stored_key d = Some k →
    match stored_key d with Some key => Some (key, [], d)
    | None => Some (g2, ["PSK=" +:+ hex_encode (arr_bytes g2)], (write PSK_PATH (as_bytes (hex_encode (arr_bytes g2))) d).2) end
    = Some (k, [], d) ∧ client_key d = Some (arr_bytes k)) as Hk
    by (intros d0 E; rewrite E; split; [done|by apply stored_read]).
  destruct (stored_key d) as [k0|] eqn:E; intros [= <- <- <-]; apply Hk; [done|].
  apply written_stored. rewrite (Disk.write_ok _ _ _ Hw). apply lookup_insert_eq.
Qed.
(** A line feed after the key in the key file, as an editor or echo leaves it, costs the key: a client
    on the same machine still reads it, but the next start of the daemon replaces it by a random
    one, and clients that were given the old key are locked out. *)
Theorem newline_replaces_key args g d k :
  psk args = None → write_fault d PSK_PATH = None →
  files d !! PSK_PATH = Some (as_bytes (hex_encode (arr_bytes k) +:+ nl)) →
  client_key d = Some (arr_bytes k)
  ∧ ∃ out d', load_or_generate_psk g args d = Some (g, out, d') ∧ client_key d' = Some (arr_bytes g).
Proof.
  intros Hp Hw Hf. rewrite as_bytes_app in Hf. split.
  - apply (client_reads d _ _ _ Hf); [|unfold as_bytes; by rewrite String.string_of_list_byte_of_string, hex_decode_encode|done|done].
    intros E. pose proof (encoded_length k) as Hl. by rewrite E in Hl.
  - unfold load_or_generate_psk, stored_key. rewrite Hp, Hf. cbn [mbind option_bind].
    rewrite length_app, encoded_length. cbn [Nat.eqb]. eexists _, _. split; [done|].
    apply stored_read, written_stored. rewrite (Disk.write_ok _ _ _ Hw). apply lookup_insert_eq.
Qed.
End Theorems.

(** ** Witnesses *)

Lemma hex_value_visible a z : hex_value a = Some z → visible (byte_of_ascii a).
Proof. destruct a as [[] [] [] [] [] [] [] []]; vm_compute; congruence. Qed.
#[local] Instance std_hex_visible : HexVisible.
Proof.
  assert (H : ∀ n s b, (String.length s <= n)%nat → of_hex s = Some b → Forall visible (as_bytes s)).
  { induction n as [|n IH]; intros [|a [|a' s]] b Hl; try done; cbn in Hl; [lia..|].
    cbn [of_hex]. rewrite !as_bytes_cons. intros (x & Hx & (y & Hy & (bs & Hs & _)%bind_Some)%bind_Some)%bind_Some.
    repeat constructor; [by eapply hex_value_visible..|]. apply (IH s bs); [lia|done]. }
  intros s b. by apply (H (String.length s)).
Qed.
Definition sample_args : Args := mkArgs 9876 None true 9877 None false true.
Definition new_key : Psk := sha256 [Byte.x01].
Lemma key_survives_restart_witness :
  let d' := disk_with PSK_PATH (as_bytes (hex_encode (arr_bytes new_key))) in
  load_or_generate_psk zero32 sample_args d' = Some (new_key, [], d') ∧ client_key d' = Some (arr_bytes new_key).
Proof.
  apply (key_survives_restart sample_args new_key zero32 empty_disk new_key ["PSK=" +:+ hex_encode (arr_bytes new_key)]); reflexivity.
Defined.
Lemma newline_replaces_key_witness :
  let d := disk_with PSK_PATH (as_bytes (hex_encode (arr_bytes zero32) +:+ nl)) in
  client_key d = Some (arr_bytes zero32)
  ∧ ∃ out d', load_or_generate_psk new_key sample_args d = Some (new_key, out, d') ∧ client_key d' = Some (arr_bytes new_key).
Proof. apply newline_replaces_key; reflexivity. Defined.
