(* ===== verification/ShellExec.v ===== *)
(** * ShellExec: running a program to its end

    Models [exec] and [exec_with_input] of crates/shell/src/lib.rs: a child that
    writes to two pipes and reads from a third, each of a capacity, and the
    parent that writes all of the input, then reads all of one pipe, then all
    of the other, then waits.  The child is the list of what it does, one byte
    at a time; its pipes close when it exits. *)
From S2P Require Import Prelude Shell.

(** A byte to a stream; a byte from the standard input, or its end. *)
Inductive Act := Put (i : Which) (b : byte) | Get.
#[export] Instance Act_eq : EqDecision Act.
Proof. solve_decision. Defined.

Record ExecResult := mkExecResult { exit_code : Z; stdout : string; stderr : string }.

(** Where the parent is. *)
Inductive Phase := WriteIn (rest : list byte) | ReadOut | ReadErr | Wait | Done (r : result ExecResult string).

Record Run := mkRun {
  script : list Act; input : list byte; input_open : bool;
  out_q : list byte; err_q : list byte; got_out : list byte; got_err : list byte; phase : Phase
}.

Section Exec.
(** How much a pipe holds, and the exit code of the child if no signal ends it. *)
Variable capacity : nat.
Variable code : option Z.

Definition put (i : Which) (b : byte) (r : Run) : option (list byte * list byte) :=
  match i with
  | Stdout => if (length (out_q r) <? capacity)%nat then Some (out_q r ++ [b], err_q r) else None
  | Stderr => if (length (err_q r) <? capacity)%nat then Some (out_q r, err_q r ++ [b]) else None
  end.
(** [None]: it is blocked, or has exited. *)
Definition child_step (r : Run) : option Run :=
  match script r with
  | [] => None
  | Put i b :: s =>
      '(oq, eq) ← put i b r;
      Some (mkRun s (input r) (input_open r) oq eq (got_out r) (got_err r) (phase r))
  | Get :: s =>
      match input r, input_open r with
      | [], true => None
      | inp, open => Some (mkRun s (drop 1 inp) open (out_q r) (err_q r) (got_out r) (got_err r) (phase r))
      end
  end.

Definition set_phase (p : Phase) (r : Run) : Run :=
  mkRun (script r) (input r) (input_open r) (out_q r) (err_q r) (got_out r) (got_err r) p.
Definition close_input (r : Run) : Run :=
  mkRun (script r) (input r) false (out_q r) (err_q r) (got_out r) (got_err r) (phase r).
(** [read_to_string] at the end of the stream. *)
Definition at_end (text : list byte) (next : Phase) (r : Run) : Run :=
  set_phase (if utf8_valid text then next else Done (Err "stream did not contain valid UTF-8"%string)) r.
Definition exited (r : Run) : bool := match script r with [] => true | _ => false end.
Definition parent_step (r : Run) : option Run :=
  match phase r with
  | WriteIn [] => Some (set_phase ReadOut (close_input r))
  | WriteIn (b :: rest) =>
      if exited r then Some (set_phase (Done (Err "Broken pipe (os error 32)"%string)) r)
      else if (length (input r) <? capacity)%nat
      then Some (mkRun (script r) (input r ++ [b]) (input_open r) (out_q r) (err_q r) (got_out r) (got_err r) (WriteIn rest))
      else None
  | ReadOut =>
      match out_q r with
      | [] => if exited r then Some (at_end (got_out r) ReadErr r) else None
      | q => Some (mkRun (script r) (input r) (input_open r) [] (err_q r) (got_out r ++ q) (got_err r) ReadOut)
      end
  | ReadErr =>
      match err_q r with
      | [] => if exited r then Some (at_end (got_err r) Wait r) else None
      | q => Some (mkRun (script r) (input r) (input_open r) (out_q r) [] (got_out r) (got_err r ++ q) ReadErr)
      end
  | Wait =>
      if exited r
      then Some (set_phase (Done (Ok (mkExecResult (default (-1) code) (String.string_of_list_byte (got_out r))
                                        (String.string_of_list_byte (got_err r))))) (close_input r))
      else None
  | Done _ => None
  end.

(** A run: [true] is a step of the child. *)
Definition step (child : bool) (r : Run) : option Run := if child then child_step r else parent_step r.
Fixpoint run (turns : list bool) (r : Run) : option Run :=
  match turns with [] => Some r | t :: turns => r ← step t r; run turns r end.

Definition exec (script : list Act) : Run := mkRun script [] true [] [] [] [] ReadOut.
Definition exec_with_input (script : list Act) (stdin_data : list byte) : Run :=
  mkRun script [] true [] [] [] [] (WriteIn stdin_data).

(** ** What the child writes *)

Definition written_to (i : Which) (s : list Act) : list byte :=
  omap (λ a, match a with Put j b => if decide (i = j) then Some b else None | Get => None end) s.
Definition result_of (s : list Act) : result ExecResult string :=
  if utf8_valid (written_to Stdout s) && utf8_valid (written_to Stderr s)
  then Ok (mkExecResult (default (-1) code) (String.string_of_list_byte (written_to Stdout s))
             (String.string_of_list_byte (written_to Stderr s)))
  else Err "stream did not contain valid UTF-8"%string.

(** ** Lemmas *)

(** What a property of runs has to be kept by. *)
Lemma run_invariant (P : Run → Prop) turns r r' :
  (∀ t r r', P r → step t r = Some r' → P r') → P r → run turns r = Some r' → P r'.
Proof.
  intros Hs. revert r. induction turns as [|t turns IH]; intros r Hr; cbn [run]; [by intros [= ->]|].
  intros (r1 & E & Hrun)%bind_Some. eapply IH, Hrun. by eapply Hs.
Qed.

(** While standard output is read: a child that still has to read, or that has more to write to the
    other pipe than it holds, cannot exit. *)
Definition stuck_on_stdin (r : Run) : Prop := phase r = ReadOut ∧ input r = [] ∧ input_open r = true ∧ Get ∈ script r.
Definition stuck_on_stderr (r : Run) : Prop :=
  (phase r = ReadOut ∨ ∃ rest, phase r = WriteIn rest)
  ∧ (length (err_q r) <= capacity)%nat ∧ (capacity < length (err_q r) + length (written_to Stderr (script r)))%nat.

Lemma stdin_stays t r r' : stuck_on_stdin r → step t r = Some r' → stuck_on_stdin r'.
Proof.
  intros (Hp & Hi & Ho & Hg). destruct t; cbn [step].
  - unfold child_step. destruct (script r) as [|[i b|] s]; [done| |by rewrite Hi, Ho].
    intros ([oq eq] & _ & [= <-])%bind_Some. split_and!; try done. cbn. by apply elem_of_cons in Hg as [|].
  - unfold parent_step. rewrite Hp. destruct (out_q r) as [|b q]; [|by intros [= <-]].
    unfold exited. destruct (script r); [by apply elem_of_nil in Hg|done].
Qed.
Lemma stderr_stays t r r' : stuck_on_stderr r → step t r = Some r' → stuck_on_stderr r'.
Proof.
  intros (Hp & Hl & Hc). destruct t; cbn [step].
  - unfold child_step. destruct (script r) as [|[i b|] s]; [done| |].
    + intros ([oq eq] & Hput & [= <-])%bind_Some. unfold put in Hput. destruct i; case_match eqn:Hlt; try done; injection Hput as <- <-.
      * by split_and!.
      * apply Nat.ltb_lt in Hlt. split; [done|]. change (written_to Stderr (Put Stderr b :: s)) with (b :: written_to Stderr s) in Hc.
        cbn [err_q script length] in Hc |- *. rewrite length_app. cbn [length]. lia.
    + destruct (input r), (input_open r); intros [= <-]; by split_and!.
  - assert (Hex : exited r = false).
    { unfold exited. destruct (script r); [cbn in Hc; lia|done]. }
    unfold parent_step. rewrite Hex. destruct Hp as [Hp|[rest Hp]]; rewrite Hp.
    + destruct (out_q r); intros [= <-]. split_and!; [by left|done..].
    + destruct rest as [|b rest]; [intros [= <-]; split_and!; [by left|done..]|].
      case_match; intros [= <-]. split_and!; [right; by eexists|done..].
Qed.

(** [exec] never returns for a program that reads its standard input, which is open and stays so, and
    neither it nor [exec_with_input] returns for one that writes more to its standard error than
    a pipe holds: the parent reads all of the standard output first, and the program waits. *)
Theorem exec_hangs s data turns r :
  (run turns (exec s) = Some r → Get ∈ s ∨ (capacity < length (written_to Stderr s))%nat → ∀ x, phase r ≠ Done x)
  ∧ (run turns (exec_with_input s data) = Some r → (capacity < length (written_to Stderr s))%nat → ∀ x, phase r ≠ Done x).
Proof.
  assert (Herr : ∀ r0, stuck_on_stderr r0 → run turns r0 = Some r → ∀ x, phase r ≠ Done x).
  { intros r0 H0 Hrun x. pose proof (run_invariant _ _ _ _ stderr_stays H0 Hrun) as ([Hp|[rest Hp]] & _); by rewrite Hp. }
  split; [intros Hrun [Hg|Hc] x|intros Hrun Hc].
  - pose proof (run_invariant stuck_on_stdin turns (exec s) r stdin_stays ltac:(done) Hrun) as [Hp _]. by rewrite Hp.
  - by apply (Herr (exec s)); [split_and!; [by left|cbn; lia|]|].
  - by apply (Herr (exec_with_input s data)); [split_and!; [right; by eexists|cbn; lia|]|].
Qed.

(** The state of [exec] for a child that does not read and does not fill the second pipe. *)
Definition exec_inv (s : list Act) (r : Run) : Prop :=
  Get ∉ script r
  ∧ got_out r ++ out_q r ++ written_to Stdout (script r) = written_to Stdout s
  ∧ got_err r ++ err_q r ++ written_to Stderr (script r) = written_to Stderr s
  ∧ match phase r with
    | WriteIn _ => False
    | ReadOut => got_err r = []
    | ReadErr => script r = [] ∧ out_q r = [] ∧ utf8_valid (got_out r) = true
    | Wait => script r = [] ∧ out_q r = [] ∧ err_q r = [] ∧ utf8_valid (got_out r) = true ∧ utf8_valid (got_err r) = true
    | Done x => x = result_of s
    end.
Definition phase_no (p : Phase) : nat :=
  match p with WriteIn rest => 4 + length rest | ReadOut => 3 | ReadErr => 2 | Wait => 1 | Done _ => 0 end.
Definition measure (r : Run) : nat :=
  2 * length (script r) + length (out_q r) + length (err_q r) + phase_no (phase r).

Lemma exec_inv_step s t r r' : exec_inv s r → step t r = Some r' → exec_inv s r'.
Proof.
  intros (Hg & Ho & He & Hp). destruct t; cbn [step].
  - unfold child_step. destruct (script r) as [|[i b|] sc] eqn:Hs; [done| |by destruct Hg; left].
    intros ([oq eq] & Hput & [= <-])%bind_Some. apply not_elem_of_cons in Hg as [_ Hg].
    unfold put in Hput. destruct i; case_match; try done; injection Hput as <- <-; (split; [done|]); cbn in *.
    all: split_and!; [by rewrite <-?(assoc_L (++))|by rewrite <-?(assoc_L (++))|].
    all: destruct (phase r); try done; by destruct Hp.
  - unfold parent_step, exited. destruct (phase r) as [rest| | | |x] eqn:Hph; [done|..|done].
    + destruct (out_q r) as [|b q] eqn:Hq; [|intros [= <-]; split_and!; try done; cbn; by rewrite <-?(assoc_L (++))].
      destruct (script r) eqn:Hs; [|done]. intros [= <-]. unfold at_end, set_phase. rewrite Hs, Hq in *. rewrite Hp in He.
      cbn in Ho, He. rewrite !app_nil_r in *. split_and!; cbn; rewrite ?Hs, ?Hq, ?Hp; cbn; rewrite ?app_nil_r; try done.
      destruct (utf8_valid (got_out r)) eqn:Hu; [done|]. unfold result_of. by rewrite <-Ho, Hu.
    + destruct Hp as (Hs & Hq & Hu). rewrite Hs, Hq in *. cbn in Ho, He. rewrite !app_nil_r in *.
      destruct (err_q r) as [|b q] eqn:Hq'; intros [= <-].
      * unfold at_end, set_phase. split_and!; cbn; rewrite ?Hs, ?Hq, ?Hq'; cbn; rewrite ?app_nil_r in *; try done.
        destruct (utf8_valid (got_err r)) eqn:Hu'; [done|]. unfold result_of. by rewrite <-Ho, Hu, <-He, Hu'.
      * split_and!; cbn; rewrite ?Hs, ?Hq; cbn; rewrite ?app_nil_r; done.
    + destruct Hp as (Hs & Hq & Hq' & Hu & Hu'). rewrite Hs, Hq, Hq' in *. cbn in Ho, He. rewrite !app_nil_r in *.
      intros [= <-]. unfold set_phase, close_input. split_and!; cbn; rewrite ?Hs, ?Hq, ?Hq'; cbn; rewrite ?app_nil_r; try done.
      unfold result_of. by rewrite <-Ho, <-He, Hu, Hu'.
Qed.
Lemma measure_step t r r' : step t r = Some r' → (measure r' < measure r)%nat.
Proof.
  unfold measure. destruct t; cbn [step].
  - unfold child_step. destruct (script r) as [|[i b|] s]; [done| |].
    + intros ([oq eq] & Hput & [= <-])%bind_Some. unfold put in Hput.
      destruct i; case_match; try done; injection Hput as <- <-; cbn; rewrite length_app; cbn; lia.
    + destruct (input r), (input_open r); intros [= <-]; cbn; lia.
  - unfold parent_step, at_end. destruct (phase r) as [[|b rest]| | | |]; [..|done].
    + intros [= <-]. cbn. lia.
    + repeat case_match; intros [= <-]; cbn; lia.
    + destruct (out_q r) eqn:Hq; [repeat case_match|]; intros [= <-]; cbn; rewrite ?Hq; cbn; lia.
    + destruct (err_q r) eqn:Hq; [repeat case_match|]; intros [= <-]; cbn; rewrite ?Hq; cbn; lia.
    + case_match; intros [= <-]. cbn. lia.
Qed.
Lemma run_length turns r r' : run turns r = Some r' → (length turns + measure r' <= measure r)%nat.
Proof.
  revert r. induction turns as [|t turns IH]; intros r; cbn [run]; [intros [= ->]; cbn; lia|].
  intros (r1 & E%measure_step & Hr%IH)%bind_Some. cbn [length]. lia.
Qed.

Lemma exec_moves s r : (0 < capacity)%nat → (length (written_to Stderr s) <= capacity)%nat → exec_inv s r →
  (∀ x, phase r ≠ Done x) → ∃ t r', step t r = Some r'.
Proof.
  intros Hc Hl (Hg & _ & He & Hp) Hnd. unfold step, child_step, parent_step, exited.
  destruct (phase r) as [rest| | | |x] eqn:Hph; [done|..|by destruct (Hnd x)].
  - destruct (out_q r) as [|b q] eqn:Hq; [|by exists false; eexists].
    destruct (script r) as [|[[] b|] sc] eqn:Hs; [by exists false; eexists|..|by destruct Hg; left]; exists true; unfold put.
    + rewrite Hq, (proj2 (Nat.ltb_lt _ _)) by (cbn; lia). by eexists.
    + rewrite Hp in He. change (written_to Stderr (Put Stderr b :: sc)) with (b :: written_to Stderr sc) in He.
      apply (f_equal length) in He. rewrite !length_app in He. cbn [length] in He.
      rewrite (proj2 (Nat.ltb_lt _ _)) by lia. by eexists.
  - destruct Hp as (-> & _). exists false. destruct (err_q r); by eexists.
  - destruct Hp as (-> & _). exists false. by eexists.
Qed.

(** C30: [exec] of a program that does not read and whose standard error fits into a pipe, however much
    it writes to its standard output and however the two interleave: a run is never blocked before
    its end and has no more than [2 n + 3] steps, and its end is the exit code, -1 if there is none,
    with all of both outputs, or the error if one of them is not text. *)
Theorem exec_exact s turns r :
  (0 < capacity)%nat → Get ∉ s → (length (written_to Stderr s) <= capacity)%nat → run turns (exec s) = Some r →
  (length turns <= 2 * length s + 3)%nat
  ∧ ((∀ x, phase r ≠ Done x) → ∃ t r', step t r = Some r')
  ∧ ∀ x, phase r = Done x → x = result_of s.
Proof.
  intros Hc Hg Hl Hrun.
  assert (Hi : exec_inv s r) by (apply (run_invariant (exec_inv s) turns (exec s)); [apply exec_inv_step|by split_and!|done]).
  split_and!.
  - apply run_length in Hrun. unfold measure in Hrun at 2. cbn in Hrun. lia.
  - by apply (exec_moves s).
  - destruct Hi as (_ & _ & _ & Hp). intros x Hx. by rewrite Hx in Hp.
Qed.
End Exec.

(** ** Witnesses *)

Definition greeting : list Act := [Put Stderr Byte.x65; Put Stdout Byte.x68; Put Stdout Byte.x69].
Definition turns : list bool := [true; true; false; true; false; false; false; false; false].
Lemma exec_exact_witness :
  ∃ r x, run 1 (Some 0) turns (exec greeting) = Some r ∧ phase r = Done x
    ∧ x = Ok (mkExecResult 0 "hi" "e").
Proof.
  eexists _, _. split; [vm_compute; reflexivity|]. split; [reflexivity|].
  eapply (exec_exact 1 (Some 0) greeting turns); [lia|by apply (bool_decide_eq_true_1 _)|vm_compute; lia|vm_compute; reflexivity|reflexivity].
Defined.
Lemma exec_hangs_witness : ∀ x, phase (exec [Get]) ≠ Done x.
Proof. apply (proj1 (exec_hangs 1 (Some 0) [Get] [] [] (exec [Get])) eq_refl). left. by left. Defined.
