(* ===== verification/Video.v ===== *)
(** * Video: the stubs of screen capture and encoding

    Models crates/video/src: the data, the two traits as classes, and their stub
    implementations; the one for Windows makes black frames, the one for Linux
    makes none, and the encoders give nothing. *)
From S2P Require Import Prelude.

Record VideoConfig := mkConfig {
  monitor_index : Z; cfg_width : Z; cfg_height : Z; fps : Z; bitrate_kbps : Z; codec : string
}.
Record VideoFrame := mkFrame { frame_width : Z; frame_height : Z; data : list byte; format : string; pts : Z }.
Record EncodedPacket := mkPacket { packet_data : list byte; keyframe : bool; packet_pts : Z; dts : Z }.

Class VideoCapture (C : Type) := {
  capture : C → option VideoFrame * C;
  dimensions : C → Z * Z
}.
Class VideoEncoder (E : Type) := {
  encode : VideoFrame → E → option EncodedPacket * E;
  flush : E → list EncodedPacket * E
}.

(** ** Capture *)

Record DxgiCapture := mkDxgi { width : Z; height : Z; frame_count : Z }.
Module DxgiCapture.
Definition new (_monitor_index width height : Z) : DxgiCapture := mkDxgi width height 0.
(** The size is computed in 32 bits and the time in 64. *)
Definition capture (c : DxgiCapture) : option VideoFrame * DxgiCapture :=
  let size := wrap 32 (wrap 32 (width c * height c) * 4) in
  let count := wrap 64 (frame_count c + 1) in
  (Some (mkFrame (width c) (height c) (replicate (Z.to_nat size) Byte.x00) "bgra" (wrap 64 (count * 1000000) / 60)),
   mkDxgi (width c) (height c) count).
End DxgiCapture.
#[export] Instance dxgi_capture : VideoCapture DxgiCapture := {
  capture := DxgiCapture.capture; dimensions c := (width c, height c)
}.

Inductive DrmCapture := mkDrm.
Module DrmCapture.
Definition new : result DrmCapture string := Ok mkDrm.
End DrmCapture.
#[export] Instance drm_capture : VideoCapture DrmCapture := {
  capture c := (None, c); dimensions _ := (0, 0)
}.

(** ** Encoding *)

Record NvencEncoder := mkNvenc { nvenc_config : VideoConfig; encoded_frames : Z }.
Module NvencEncoder.
Definition new (config : VideoConfig) : NvencEncoder := mkNvenc config 0.
End NvencEncoder.
#[export] Instance nvenc_encoder : VideoEncoder NvencEncoder := {
  encode _ e := (None, e); flush e := ([], e)
}.
Record SoftwareEncoder := mkSoftware { software_config : VideoConfig }.
Module SoftwareEncoder.
Definition new (config : VideoConfig) : SoftwareEncoder := mkSoftware config.
End SoftwareEncoder.
#[export] Instance software_encoder : VideoEncoder SoftwareEncoder := {
  encode _ e := (None, e); flush e := ([], e)
}.

(** ** A sequence of frames *)

Fixpoint frames `{VideoCapture C} (n : nat) (c : C) : list VideoFrame :=
  match n with
  | O => []
  | S n => let '(f, c) := capture c in match f with Some f => f :: frames n c | None => frames n c end
  end.

Lemma frames_from w h k n :
  0 <= w → 0 <= h → w * h * 4 < 2 ^ 32 → (Z.of_nat k + Z.of_nat n) * 1000000 < 2 ^ 64 →
  frames n (mkDxgi w h (Z.of_nat k)) =
    (λ i, mkFrame w h (replicate (Z.to_nat (w * h * 4)) Byte.x00) "bgra" (Z.of_nat i * 1000000 / 60)) <$> seq (S k) n.
Proof.
  intros Hw Hh Hs. revert k. induction n as [|n IH]; intros k Hn; [done|].
  cbn [frames seq fmap list_fmap]. cbn [capture dxgi_capture]. unfold DxgiCapture.capture. cbn [width height frame_count].
  assert (0 <= w * h) by nia. unfold wrap. rewrite (Z.mod_small (w * h)), (Z.mod_small (w * h * 4)), (Z.mod_small (Z.of_nat k + 1)),
    (Z.mod_small ((Z.of_nat k + 1) * 1000000)) by lia. replace (Z.of_nat k + 1) with (Z.of_nat (S k)) by lia.
  f_equal. apply IH. lia.
Qed.
(** The stub for Windows: the frames have the size of the screen, and the n-th one the time n/60 s. *)
Theorem dxgi_frames w h n :
  0 <= w → 0 <= h → w * h * 4 < 2 ^ 32 → Z.of_nat n * 1000000 < 2 ^ 64 →
  frames n (DxgiCapture.new 0 w h) =
    (λ i, mkFrame w h (replicate (Z.to_nat (w * h * 4)) Byte.x00) "bgra" (Z.of_nat i * 1000000 / 60)) <$> seq 1 n.
Proof. intros. by apply (frames_from w h 0). Qed.
