(* ===== verification/DaemonParts.v ===== *)
(** * DaemonParts: the handlers of lan-linkd in the pieces between which others come

    Daemon takes a handler as one step.  A native command runs in a thread of its own while
    its handler waits (crates/daemon/src/main.rs, [spawn_blocking] in
    [handle_control] and [handle_control_tcp]), each answer draws its number only
    when it is its turn, and a process that was started runs as a task before its
    start is answered.  Here such a handler is cut there: what it does first
    ([begin]), what it then waits for or owes ([Work]), and the answers one
    by one.  Every other handler stays one piece.  [pstep] is the daemon in
    these pieces: the UDP loop and the TCP side each finish what they have begun
    before they handle anything else; the tasks and the end of a client come in
    between.  A run of pieces with nothing in between is the step of Daemon
    ([parts_make_handlers]). *)
From S2P Require Import Prelude Frame Stream RateLimit Connection Daemon DaemonProofs.

(** What a handler of the connection [c] still has to do: it waits for a native command, answered on the
    counter [l], with [failed] for output should its thread fail; or it owes answers. *)
Inductive Work :=
| Running (c : Z) (l : nat) (id : Z) (failed : list byte)
| Owing (c : Z) (msgs : list (nat * ControlMsg)).
Definition owing (c : Z) (msgs : list (nat * ControlMsg)) : option Work :=
  match msgs with [] => None | _ => Some (Owing c msgs) end.

(** The answers of a native command that has ended. *)
Definition native_answers (env : Env) (id : Z) (failed : list byte) (l : nat) : list (nat * ControlMsg) :=
  let '(out, exit) := default (failed, Some 1) (native_result env) in
  [(l, ExecChunk id 0 out); (l, ExecDone id exit)].

(** The two sides of the daemon. *)
Inductive Side := Udp | Tcp.
Definition route (s : Side) (p : SocketAddr) : Route := match s with Udp => ViaUdp p | Tcp => ViaTcp end.

(** [or_insert_with]: the first client that names a connection is registered for it. *)
Definition register (c : Z) (p : SocketAddr) (h : Host) : Host :=
  match tcp_conns h !! c with Some _ => h | None => set_tcp_conns (<[c := p]> (tcp_conns h)) h end.

(** The table of [handle_tcp_frame]. *)
Lemma register_table c p h : register c p h =
  set_tcp_conns (match tcp_conns h !! c with Some _ => tcp_conns h | None => <[c := p]> (tcp_conns h) end) h.
Proof. unfold register. case_match; [|done]. by destruct h. Qed.

Section Parts.
Context `{BufCrate} `{AeadCrate} `{ControlCodec}.
Variable psk : Psk.

(** The messages whose handling comes in pieces: what follows the first, and the host after it. *)
Definition deferred (env : Env) (s : Side) (p : SocketAddr) (msg : ControlMsg) (c : Z) (l : nat) (h : Host)
    : option (Work * Host) :=
  let start id cmd :=
    if spawn_ok env then Some (Owing c [(l, ExecStarted id)], put_exec c (route s p) l id cmd h) else None in
  match msg with
  | Exec id cmd => start id cmd
  | NativeCmd id _ => Some (Running c l id (as_bytes ("NativeCmd: spawn_blocking failed" +:+ newline)), h)
  | NativeSpawn id cmd =>
      match spawn_command cmd, s with
      | Some cmd_str, _ => start id cmd_str
      | None, Tcp => Some (Running c l id (as_bytes ("spawn_blocking failed" +:+ newline)), h)
      | None, Udp => None
      end
  | _ => None
  end.

(** A packet that is a control message: the endpoint after the checks in front of [handle_control],
    the message, the connection and its counter. *)
Definition control_of (s : Side) (now : Instant) (data : list byte) (p : SocketAddr) (ep : Endpoint)
    : option (Endpoint * ControlMsg * Z * nat) :=
  header ← decode_header data;
  match pkt_type header with
  | Data =>
      let c := conn_id header in
      conn ← connections ep !! c;
      if negb (is_established conn && match s with Udp => bool_decide (peer conn = p) | Tcp => true end) then None else
      if (length data <=? HEADER_SIZE)%nat then None else
      plaintext ← decrypt psk (nonce header) (drop HEADER_SIZE data);
      let ep := update_conn (touch now) c ep in
      if stream_id header =? StreamId.as_u16 Control then
        let '(ok, rl) := RateLimiter.check_cmd now (ip p) (limiter ep) in
        if negb ok then None else
        msg ← deserialize plaintext;
        Some (mkEndpoint (connections ep) rl, msg, c, send_seq conn)
      else None
  | _ => None
  end.

(** The first piece of a handler; all of it, if nothing is to follow. *)
Definition packet (s : Side) (now : Instant) (env : Env) (data : list byte) (p : SocketAddr) (ep : Endpoint) (h : Host)
    : Endpoint * Host :=
  match s with
  | Udp => handle_packet_inner psk now env data p ep h
  | Tcp => handle_packet_tcp psk now env data p ep h
  end.
Definition begin (s : Side) (now : Instant) (env : Env) (data : list byte) (p : SocketAddr) (ep : Endpoint) (h : Host)
    : Endpoint * Host * option Work :=
  match control_of s now data p ep with
  | Some (ep', msg, c, l) =>
      match deferred env s p msg c l h with
      | Some (w, h') => (ep', h', Some w)
      | None => (packet s now env data p ep h, None)
      end
  | None => (packet s now env data p ep h, None)
  end.
(** The same for a frame that a TCP client sent: its connection is registered first. *)
Definition begin_frame (now : Instant) (env : Env) (data : list byte) (p : SocketAddr) (ep : Endpoint) (h : Host)
    : Endpoint * Host * option Work :=
  match decode_header data with
  | None => (ep, h, None)
  | Some header => begin Tcp now env data p ep (register (conn_id header) p h)
  end.

(** ** The daemon in pieces *)

(** The UDP loop and the TCP side, each with what it has begun. *)
Record Parts := mkParts { whole : Daemon; in_udp : option (SocketAddr * Work); in_tcp : option Work }.

Inductive pstep : Parts → Parts → Prop :=
| pstep_datagram now env data p d t :
    let r := begin Udp now env data p (udp d) (host d) in
    pstep (mkParts d None t) (mkParts (on_udp r.1 d) (pair p <$> r.2) t)
| pstep_frame now env data p d u :
    let r := begin_frame now env data p (tcp d) (host d) in
    pstep (mkParts d u None) (mkParts (on_tcp r.1 d) u r.2)
| pstep_udp_ends env p c l id failed d t :
    pstep (mkParts d (Some (p, Running c l id failed)) t) (mkParts d (Some (p, Owing c (native_answers env id failed l))) t)
| pstep_tcp_ends env c l id failed d u :
    pstep (mkParts d u (Some (Running c l id failed))) (mkParts d u (Some (Owing c (native_answers env id failed l))))
| pstep_udp_answers p c l m ms d t :
    pstep (mkParts d (Some (p, Owing c ((l, m) :: ms))) t)
      (mkParts (on_host (reply_udp psk c p l m (host d)) d) (pair p <$> owing c ms) t)
| pstep_tcp_answers c l m ms d u :
    pstep (mkParts d u (Some (Owing c ((l, m) :: ms)))) (mkParts (on_host (reply_tcp psk c l m (host d)) d) u (owing c ms))
| pstep_close p d u t : pstep (mkParts d u t) (mkParts (on_host (close_tcp p (host d)) d) u t)
| pstep_tick now d t : pstep (mkParts d None t) (mkParts (tick now d) None t)
| pstep_task k ev d u t : pstep (mkParts d u t) (mkParts (on_host (run_task psk k ev (host d)) d) u t).

Definition parts_reachable (x : Parts) : Prop := ∃ now, rtc pstep (mkParts (start now) None None) x.

(** ** The pieces of a handler make the handler *)

Definition handle_on (s : Side) (env : Env) (msg : ControlMsg) (c : Z) (p : SocketAddr) (l : nat) (h : Host) : Host :=
  match s with Udp => handle_msg psk env msg c p l h | Tcp => handle_msg_tcp psk env msg c l h end.
Definition answer_all (s : Side) (p : SocketAddr) (c : Z) (ms : list (nat * ControlMsg)) (h : Host) : Host :=
  foldl (λ h a, reply_on psk (route s p) c a.1 a.2 h) h ms.
(** The connection of some work, and all its answers. *)
Definition work_conn (w : Work) : Z := match w with Running c _ _ _ | Owing c _ => c end.
Definition owed (env : Env) (w : Work) : list (nat * ControlMsg) :=
  match w with Running _ l id failed => native_answers env id failed l | Owing _ ms => ms end.

Lemma run_native_answers env s p c l id failed h :
  run_native psk env failed c (route s p) l id h = answer_all s p c (native_answers env id failed l) h.
Proof. unfold run_native, native_answers. by destruct (default _ _). Qed.
Lemma spawn_answers env s p c l id cmd h : spawn_ok env = true →
  spawn_exec psk env c (route s p) l id cmd h = answer_all s p c [(l, ExecStarted id)] (put_exec c (route s p) l id cmd h).
Proof. intros E. unfold spawn_exec. by rewrite E. Qed.
Lemma deferred_whole env s p msg c l h w h' :
  deferred env s p msg c l h = Some (w, h') →
  work_conn w = c ∧ handle_on s env msg c p l h = answer_all s p c (owed env w) h'.
Proof.
  intros Hd. unfold deferred, handle_on in *.
  destruct msg, s; try done; cbn [handle_msg handle_msg_tcp]; repeat (case_match; try done); simplify_eq;
    (split; [done|]); 
    first [by apply (run_native_answers env Udp p)|by apply (run_native_answers env Tcp p)
          |by apply (spawn_answers env Udp p)|by apply (spawn_answers env Tcp p)].
Qed.
Lemma control_whole s now data p ep ep' msg c l : control_of s now data p ep = Some (ep', msg, c, l) →
  (∀ env h, packet s now env data p ep h = (ep', handle_on s env msg c p l h))
  ∧ (∃ hd, decode_header data = Some hd ∧ conn_id hd = c)
  ∧ ∃ conn rl, connections ep !! c = Some conn ∧ send_seq conn = l
      ∧ ep' = mkEndpoint (alter (touch now) c (connections ep)) rl.
Proof.
  unfold control_of. intros (hd & Hhd & Hc)%bind_Some. destruct (pkt_type hd) eqn:Ht; try done.
  apply bind_Some in Hc as (conn & Hconn & Hc). case_match eqn:Hest; [done|]. case_match eqn:Hlen; [done|].
  apply bind_Some in Hc as (pt & Hpt & Hc). case_match eqn:Hst; [|done].
  case_match eqn:Hrl. case_match eqn:Hok; [done|]. apply bind_Some in Hc as (m & Hm & [= <- <- <- <-]). split_and!.
  - intros env h. destruct s; cbn [packet]; unfold handle_packet_inner, handle_packet_tcp;
      rewrite Hhd, Ht, Hconn; rewrite ?andb_true_r in Hest; rewrite Hest, Hlen, Hpt, Hst, Hrl, Hok;
      unfold handle_control, handle_control_tcp; by rewrite Hm.
  - by eauto.
  - by eauto 10.
Qed.

Lemma begin_whole s now env data p ep h :
  let r := begin s now env data p ep h in
  match r.2 with
  | None => packet s now env data p ep h = r.1
  | Some w => ∀ env', native_result env' = native_result env ∨ (∃ c ms, w = Owing c ms) →
      packet s now env data p ep h = (r.1.1, answer_all s p (work_conn w) (owed env' w) r.1.2)
  end.
Proof.
  unfold begin. destruct (control_of s now data p ep) as [[[[ep' msg] c] l]|] eqn:Hc; [|done].
  destruct (deferred env s p msg c l h) as [[w h']|] eqn:Hd; [|done]. cbn [fst snd]. intros env' He.
  destruct (control_whole _ _ _ _ _ _ _ _ _ Hc) as (Hw & _). rewrite Hw.
  destruct (deferred_whole _ _ _ _ _ _ _ _ _ Hd) as [<- ->]. do 2 f_equal.
  destruct He as [E|(c' & ms & ->)]; [|done]. unfold owed, native_answers. by rewrite E.
Qed.

(** What a first piece does to the tables. *)
Lemma begin_endpoint s now env data p ep h : (begin s now env data p ep h).1.1 = (packet s now env data p ep h).1.
Proof.
  pose proof (begin_whole s now env data p ep h) as Hw. cbv zeta in Hw. destruct (begin _ _ _ _ _ _ _).2; [|by rewrite Hw].
  rewrite (Hw env); [done|by left].
Qed.
Lemma begin_evolves s now env data p ep h :
  arcs_ok ep h → ep_evolves ep h (begin s now env data p ep h).1.
Proof.
  intros Ha. assert (Hp : ep_evolves ep h (packet s now env data p ep h)).
  { destruct s; [by apply packet_inner_evolves|by apply packet_tcp_evolves]. }
  unfold begin. destruct (control_of s now data p ep) as [[[[ep' msg] c] l]|] eqn:Hc; [|done].
  destruct (deferred env s p msg c l h) as [[w h']|] eqn:Hd; [|done]. cbn [fst].
  apply control_whole in Hc as (_ & _ & conn & rl & Hconn & <- & ->).
  apply ep_evolves_update; [apply keeps_touch|]. apply Ha in Hconn. unfold deferred in Hd.
  repeat (case_match; try done); simplify_eq; try apply ext_refl; by apply ext_put_exec.
Qed.

(** The answers of a side, one after the other. *)
Lemma udp_answers p c ms t : ∀ d,
  rtc pstep (mkParts d (pair p <$> owing c ms) t) (mkParts (on_host (answer_all Udp p c ms (host d)) d) None t).
Proof.
  induction ms as [|[l m] ms IH]; intros d; cbn; [destruct d; apply rtc_refl|].
  eapply rtc_l; [apply pstep_udp_answers|]. apply (IH (on_host _ d)).
Qed.
Lemma tcp_answers p c ms u : ∀ d,
  rtc pstep (mkParts d u (owing c ms)) (mkParts (on_host (answer_all Tcp p c ms (host d)) d) u None).
Proof.
  induction ms as [|[l m] ms IH]; intros d; cbn; [destruct d; apply rtc_refl|].
  eapply rtc_l; [apply pstep_tcp_answers|]. apply (IH (on_host _ d)).
Qed.

(** Some work from its beginning to its end. *)
Lemma udp_works env p w d t : owed env w ≠ [] →
  rtc pstep (mkParts d (Some (p, w)) t) (mkParts (on_host (answer_all Udp p (work_conn w) (owed env w) (host d)) d) None t).
Proof.
  intros Hne. destruct w as [c l id failed|c ms]; cbn [owed work_conn] in *.
  - eapply rtc_l; [apply (pstep_udp_ends env)|]. replace (Some (p, _)) with (pair p <$> owing c (native_answers env id failed l)).
    + apply udp_answers.
    + unfold native_answers. by destruct (default _ _).
  - replace (Some (p, _)) with (pair p <$> owing c ms) by by destruct ms. apply udp_answers.
Qed.
Lemma tcp_works env p w d u : owed env w ≠ [] →
  rtc pstep (mkParts d u (Some w)) (mkParts (on_host (answer_all Tcp p (work_conn w) (owed env w) (host d)) d) u None).
Proof.
  intros Hne. destruct w as [c l id failed|c ms]; cbn [owed work_conn] in *.
  - eapply rtc_l; [apply (pstep_tcp_ends env)|]. replace (Some _) with (owing c (native_answers env id failed l)).
    + apply tcp_answers.
    + unfold native_answers. by destruct (default _ _).
  - replace (Some _) with (owing c ms) by by destruct ms. apply tcp_answers.
Qed.
Lemma begin_owed s now env data p ep h w : (begin s now env data p ep h).2 = Some w → owed env w ≠ [].
Proof.
  unfold begin. destruct (control_of s now data p ep) as [[[[ep' msg] c] l]|]; [|done].
  destruct (deferred env s p msg c l h) as [[w' h']|] eqn:Hd; [|done]. intros [= ->].
  unfold deferred in Hd. repeat (case_match; try done); simplify_eq; try done;
    unfold owed, native_answers; by destruct (default _ _).
Qed.

(** A handler with nothing in between its pieces. *)
Lemma datagram_parts now env data p d t :
  rtc pstep (mkParts d None t) (mkParts (on_udp (handle_packet_inner psk now env data p (udp d) (host d)) d) None t).
Proof.
  eapply rtc_l; [apply (pstep_datagram now env data p)|]. cbv zeta.
  pose proof (begin_whole Udp now env data p (udp d) (host d)) as Hw.
  pose proof (begin_owed Udp now env data p (udp d) (host d)) as Ho.
  destruct (begin Udp now env data p (udp d) (host d)) as [[ep h] [w|]]; cbn in *; [|rewrite Hw; apply rtc_refl].
  rewrite (Hw env) by by left. apply (udp_works env p w (on_udp (ep, h) d)). by apply Ho.
Qed.
Lemma frame_parts now env data p d u :
  rtc pstep (mkParts d u None) (mkParts (on_tcp (handle_tcp_frame psk now env data p (tcp d) (host d)) d) u None).
Proof.
  eapply rtc_l; [apply (pstep_frame now env data p)|]. cbv zeta. unfold begin_frame, handle_tcp_frame.
  destruct (decode_header data) as [hd|]; [|apply rtc_refl]. rewrite <-register_table. set (h0 := register _ _ _).
  pose proof (begin_whole Tcp now env data p (tcp d) h0) as Hw. pose proof (begin_owed Tcp now env data p (tcp d) h0) as Ho.
  destruct (begin Tcp now env data p (tcp d) h0) as [[ep h] [w|]]; cbn in *; [|rewrite Hw; apply rtc_refl].
  rewrite (Hw env) by by left. apply (tcp_works env p w (on_tcp (ep, h) d)). by apply Ho.
Qed.

(** Every run of the daemon taken handler by handler is one of it taken in pieces. *)
Theorem parts_make_handlers d d' : dstep psk d d' → rtc pstep (mkParts d None None) (mkParts d' None None).
Proof.
  intros [now env data p|now env data p|p|now|k ev].
  - apply datagram_parts.
  - apply frame_parts.
  - apply rtc_once, pstep_close.
  - apply rtc_once, pstep_tick.
  - apply rtc_once, pstep_task.
Qed.
Corollary handlers_in_parts d : Daemon.reachable psk d → parts_reachable (mkParts d None None).
Proof.
  intros (now & Hr). exists now. induction Hr as [|d1 d2 d3 Hs _ IH]; [apply rtc_refl|].
  etransitivity; [by apply parts_make_handlers|exact IH].
Qed.
End Parts.
