(* ===== verification/TcpTasks.v ===== *)
(** * TcpTasks: the tasks of lan-linkd and the locks they wait for

    Models how crates/daemon/src/main.rs runs [handle_tcp_client] for each client
    and [run_exec_task_tcp] for each process: each is a task with a program
    counter, and what a task does between two points where it may wait is one
    step.  The locks are those of the source: the limiter, the connections, the
    table of the TCP connections, and one for the stream of each client; a task
    that holds a lock is one whose program counter says so.  The work of a
    handler and of a task is that of Daemon and DaemonParts; what it sends is kept until the
    locks for sending are taken.  An answer after a native command or to the start of a process
    draws its number when it is its turn, in a step of its own, while tasks draw theirs from the
    same counter.  A native command runs in a thread of its own, and the reader waits for it with
    the limiter and the connections locked.  The UDP loop is a task too: it waits for
    native commands, and meanwhile takes neither a datagram nor a tick; it needs no lock, and what
    it draws a number for it sends at once.  Which waiting task gets a free lock is left open. *)
From S2P Require Import Prelude Frame Stream RateLimit Connection Daemon DaemonParts.

#[export] Instance SocketAddr_countable : Countable SocketAddr.
Proof. refine (inj_countable' (λ a, (ip a, port a)) (λ '(i, p), mkAddr i p) _). by intros []. Defined.

Inductive Task := Reader (p : SocketAddr) | Forwarder (k : nat) | Loop.
#[export] Instance Task_eq_dec : EqDecision Task.
Proof. solve_decision. Defined.
#[export] Instance Task_countable : Countable Task.
Proof.
  refine (inj_countable' (λ t, match t with Reader p => inl (Some p) | Loop => inl None | Forwarder k => inr k end)
    (λ s, match s with inl (Some p) => Reader p | inl None => Loop | inr k => Forwarder k end) _). by intros [].
Defined.

Inductive Lock := Limiter | Connections | TcpConns | Stream (p : SocketAddr).
#[export] Instance Lock_eq_dec : EqDecision Lock.
Proof. solve_decision. Defined.

(** What is to be sent on a connection: a frame, or an answer whose number is not drawn. *)
Inductive Out := Frame (f : list byte) | Answer (l : nat) (m : ControlMsg).

(** Where a task is.  A reader waits for its stream to read a length or a frame, reads it, registers
    its connection, takes the limiter and the connections, waits for a native command, and sends
    [out] on the connection [c]; at the end it cleans up.  A forwarder selects, and sends.  To send,
    a task waits for the table, then for the stream of the client [q] that is registered, and
    writes.  The UDP loop waits for a packet, or does the work it has begun for [p]. *)
Inductive Pc :=
| ToLength | InLength
| ToBody (n : nat) | InBody (n : nat)
| ToRegister (frame : list byte) | ToLimiter (frame : list byte) | ToConnections (frame : list byte)
| Runs (c : Z) (l : nat) (id : Z) (failed : list byte)
| Selecting
| Sending (c : Z) (out : list Out)
| ToStream (c : Z) (out : list Out) (f : list byte) (q : SocketAddr)
| InStream (c : Z) (out : list Out) (f : list byte) (q : SocketAddr)
| InLoop (p : SocketAddr) (w : Work)
| ToClean | Ended.

(** The clients: what arrived of each and is not read, which closed their side, and which do not read
    what they are sent, so that a write to them waits. *)
Record Sys := mkSys {
  pcs : gmap Task Pc;
  arrived : gmap SocketAddr (list byte);
  closed : gset SocketAddr;
  full : gset SocketAddr;
  daemon : Daemon
}.

Definition set_pc (t : Task) (c : Pc) (s : Sys) : Sys :=
  mkSys (<[t := c]> (pcs s)) (arrived s) (closed s) (full s) (daemon s).
Definition set_arrived (p : SocketAddr) (bs : list byte) (s : Sys) : Sys :=
  mkSys (pcs s) (<[p := bs]> (arrived s)) (closed s) (full s) (daemon s).
Definition set_daemon (d : Daemon) (s : Sys) : Sys :=
  mkSys (pcs s) (arrived s) (closed s) (full s) d.
Definition pc (t : Task) (s : Sys) : Pc :=
  default (match t with Reader _ => Ended | Forwarder _ | Loop => Selecting end) (pcs s !! t).
Definition unread (p : SocketAddr) (s : Sys) : list byte := default [] (arrived s !! p).

(** ** Locks *)

Definition is_reader (t : Task) : bool := match t with Reader _ => true | _ => false end.
Definition holds (t : Task) (c : Pc) (l : Lock) : bool :=
  match l, c with
  | Limiter, (ToConnections _ | Runs _ _ _ _ | Sending _ _ | ToStream _ _ _ _ | InStream _ _ _ _) => is_reader t
  | Connections, (Runs _ _ _ _ | Sending _ _ | ToStream _ _ _ _ | InStream _ _ _ _) => is_reader t
  | TcpConns, (ToStream _ _ _ _ | InStream _ _ _ _) => true
  | Stream p, (InLength | InBody _) => bool_decide (t = Reader p)
  | Stream p, InStream _ _ _ q => bool_decide (q = p)
  | _, _ => false
  end.
Definition is_free (l : Lock) (s : Sys) : Prop := map_Forall (λ t c, holds t c l = false) (pcs s).
#[export] Instance is_free_dec l s : Decision (is_free l s).
Proof. unfold is_free. apply _. Defined.

(** ** The work of a task, with its frames set aside *)

Definition set_trace (v : list Effect) (h : Host) : Host :=
  mkHost (counters h) (tasks h) (next_task h) (exec_map h) (tcp_conns h) (transfers h) (disk h) v.
Definition not_tcp (e : Effect) : Prop := match e with SentTcp _ _ => False | _ => True end.
#[export] Instance not_tcp_dec e : Decision (not_tcp e).
Proof. destruct e; apply _. Defined.
Definition tcp_data (e : Effect) : option (list byte) := match e with SentTcp _ f => Some f | _ => None end.

(** The work for a connection runs on a host where it is registered, for no client in particular;
    what it sent there are the frames to send. *)
Definition nowhere : SocketAddr := mkAddr (V4 0) 0.
Definition aside (c : Z) (h : Host) : Host := set_tcp_conns {[c := nowhere]} h.
Definition news (h h' : Host) : list Effect := drop (length (trace h)) (trace h').
Definition put_back (h h' : Host) : Host :=
  set_trace (trace h ++ filter not_tcp (news h h')) (set_tcp_conns (tcp_conns h) h').
Definition frames (h h' : Host) : list (list byte) := omap tcp_data (news h h').

Section Tasks.
Context `{BufCrate} `{AeadCrate} `{ControlCodec}.
Variable psk : Psk.

(** ** Actions *)

Inductive Action :=
(** A client connects, sends bytes, closes its side, stops and goes on reading. *)
| Connects (p : SocketAddr) | Arrives (p : SocketAddr) (bs : list byte) | Closes (p : SocketAddr)
| Fills (p : SocketAddr) | Drains (p : SocketAddr)
(** A datagram, a tick, and output of a process. *)
| Datagram (now : Instant) (env : Env) (data : list byte) (p : SocketAddr) | Tick (now : Instant)
| Prints (k : nat) (stream : Z) (data : list byte)
(** The [select!] of a forwarder, and a step of a task. *)
| Takes (k : nat) (ev : TaskEvent) | Steps (t : Task) (now : Instant) (env : Env).

(** [read_exact] of [n] bytes by the reader of [p]: [None] while it waits; [Some None] when the
    client closed before. *)
Definition read_exact (p : SocketAddr) (n : nat) (s : Sys) : option (option (list byte) * Sys) :=
  if (n <=? length (unread p s))%nat
  then Some (Some (take n (unread p s)), set_arrived p (drop n (unread p s)) s)
  else if decide (p ∈ closed s) then Some (None, s) else None.

Definition on_host (f : Host → Host) (s : Sys) : Sys := set_daemon (Daemon.on_host (f (host (daemon s))) (daemon s)) s.

(** [tcp_send], for a reader and for a forwarder. *)
Definition send_step (t : Task) (s : Sys) : option Sys :=
  match pc t s with
  | Sending c (Answer l m :: out) =>
      let '(n, h) := next_seq l (host (daemon s)) in
      Some (set_pc t (Sending c (Frame (tcp_frame (build_control_packet_tcp c psk n m)) :: out)) (on_host (λ _, h) s))
  | Sending c (Frame f :: out) =>
      if decide (is_free TcpConns s)
      then Some (match tcp_conns (host (daemon s)) !! c with
                 | Some q => set_pc t (ToStream c out f q) s
                 | None => set_pc t (Sending c out) s
                 end)
      else None
  | ToStream c out f q => if decide (is_free (Stream q) s) then Some (set_pc t (InStream c out f q) s) else None
  | InStream c out f q =>
      if decide (q ∈ full s) then None
      else Some (set_pc t (Sending c out) (on_host (emit (SentTcp q f)) s))
  | _ => None
  end.

(** Where a reader goes with what it has begun for the connection [c]: the frames of a handler of one piece,
    or the work that follows. *)
Definition begun (c : Z) (fs : list (list byte)) (w : option Work) : Pc :=
  match w with
  | None => Sending c (Frame <$> fs)
  | Some (Running c l id failed) => Runs c l id failed
  | Some (Owing c ms) => Sending c ((λ a, Answer a.1 a.2) <$> ms)
  end.

(** A step of [handle_tcp_client]. *)
Definition reader_step (p : SocketAddr) (now : Instant) (env : Env) (s : Sys) : option Sys :=
  let t := Reader p in
  match pc t s with
  | ToLength => if decide (is_free (Stream p) s) then Some (set_pc t InLength s) else None
  | InLength =>
      '(bs, s) ← read_exact p 4 s;
      Some (match bs with
            | None => set_pc t ToClean s
            | Some bs =>
                let n := of_be bs in
                if (n =? 0) || (Z.of_nat (MAX_PACKET + 4) <? n) then set_pc t ToClean s
                else set_pc t (ToBody (Z.to_nat n)) s
            end)
  | ToBody n => if decide (is_free (Stream p) s) then Some (set_pc t (InBody n) s) else None
  | InBody n =>
      '(bs, s) ← read_exact p n s;
      Some (match bs with
            | None => set_pc t ToClean s
            | Some frame =>
                match decode_header frame with
                | None => set_pc t ToLength s
                | Some _ => set_pc t (ToRegister frame) s
                end
            end)
  | ToRegister frame =>
      if decide (is_free TcpConns s)
      then h ← decode_header frame; Some (set_pc t (ToLimiter frame) (on_host (register (conn_id h) p) s))
      else None
  | ToLimiter frame => if decide (is_free Limiter s) then Some (set_pc t (ToConnections frame) s) else None
  | ToConnections frame =>
      if decide (is_free Connections s) then
        h ← decode_header frame;
        let d := daemon s in
        let '(ep, h', w) := begin psk Tcp now env frame p (tcp d) (aside (conn_id h) (host d)) in
        Some (set_pc t (begun (conn_id h) (frames (host d) h') w) (set_daemon (on_tcp (ep, put_back (host d) h') d) s))
      else None
  | Runs c l id failed =>
      Some (set_pc t (Sending c ((λ a, Answer a.1 a.2) <$> native_answers env id failed l)) s)
  | Sending _ [] => Some (set_pc t ToLength s)
  | ToClean => if decide (is_free TcpConns s) then Some (set_pc t Ended (on_host (close_tcp p) s)) else None
  | _ => send_step t s
  end.
(** A step of [run_exec_task_tcp] outside its [select!]. *)
Definition forwarder_step (k : nat) (s : Sys) : option Sys :=
  let t := Forwarder k in
  match pc t s with
  | Sending _ [] => Some (set_pc t Selecting s)
  | _ => send_step t s
  end.

(** A step of the UDP loop while it handles a datagram: the native command ends, or an answer is sent. *)
Definition loop_step (env : Env) (s : Sys) : option Sys :=
  match pc Loop s with
  | InLoop p (Running c l id failed) => Some (set_pc Loop (InLoop p (Owing c (native_answers env id failed l))) s)
  | InLoop p (Owing c ((l, m) :: ms)) => Some (set_pc Loop (InLoop p (Owing c ms)) (on_host (reply_udp psk c p l m) s))
  | InLoop p (Owing c []) => Some (set_pc Loop Selecting s)
  | _ => None
  end.

Definition takes (k : nat) (ev : TaskEvent) (s : Sys) : option Sys :=
  match pc (Forwarder k) s, tasks (host (daemon s)) !! k with
  | Selecting, Some t =>
      let h := host (daemon s) in
      let h' := run_task psk k ev (aside (task_conn t) h) in
      Some (set_pc (Forwarder k) (Sending (task_conn t) (Frame <$> frames h h'))
              (on_host (λ _, put_back h h') s))
  | _, _ => None
  end.

Definition act (a : Action) (s : Sys) : option Sys :=
  match a with
  | Connects p =>
      match pc (Reader p) s with
      | Ended => Some (mkSys (<[Reader p := ToLength]> (pcs s)) (<[p := []]> (arrived s))
                         (closed s ∖ {[p]}) (full s ∖ {[p]}) (daemon s))
      | _ => None
      end
  | Arrives p bs => if decide (p ∈ closed s) then None else Some (set_arrived p (unread p s ++ bs) s)
  | Closes p => Some (mkSys (pcs s) (arrived s) ({[p]} ∪ closed s) (full s) (daemon s))
  | Fills p => Some (mkSys (pcs s) (arrived s) (closed s) ({[p]} ∪ full s) (daemon s))
  | Drains p => Some (mkSys (pcs s) (arrived s) (closed s) (full s ∖ {[p]}) (daemon s))
  | Datagram now env data p =>
      match pc Loop s with
      | Selecting =>
          let d := daemon s in
          let r := begin psk Udp now env data p (udp d) (host d) in
          Some (set_pc Loop (match r.2 with Some w => InLoop p w | None => Selecting end) (set_daemon (on_udp r.1 d) s))
      | _ => None
      end
  | Tick now => match pc Loop s with Selecting => Some (set_daemon (tick now (daemon s)) s) | _ => None end
  | Prints k stream data => Some (on_host (run_task psk k (Output stream data)) s)
  | Takes k ev => match ev with Output _ _ => None | _ => takes k ev s end
  | Steps (Reader p) now env => reader_step p now env s
  | Steps (Forwarder k) _ _ => forwarder_step k s
  | Steps Loop _ env => loop_step env s
  end.

(** A run: actions one after the other. *)
Fixpoint run (as_ : list Action) (s : Sys) : option Sys :=
  match as_ with [] => Some s | a :: as_ => s ← act a s; run as_ s end.
Definition start (now : Instant) : Sys := mkSys ∅ ∅ ∅ ∅ (Daemon.start now).
Definition reachable (s : Sys) : Prop := ∃ now as_, run as_ (start now) = Some s.
End Tasks.
