(* ===== verification/TcpTasksProofs.v ===== *)
(** * TcpTasksProofs: what the locks of lan-linkd's TCP side guarantee

    The daemon's invariant holds although handlers and tasks interleave at every
    point where they wait, and a lock has at most one holder. *)
From S2P Require Import Prelude Frame Stream RateLimit Connection Daemon DaemonProofs DaemonParts TcpTasks.

(** ** Program counters and locks *)

Lemma pc_set t c s t' : pc t' (set_pc t c s) = if decide (t' = t) then c else pc t' s.
Proof.
  unfold pc, set_pc. cbn [pcs]. case_decide as E; [subst; by rewrite lookup_insert_eq|by rewrite lookup_insert_ne].
Qed.
Lemma pc_same t c s : pc t (set_pc t c s) = c.
Proof. rewrite pc_set. by rewrite decide_True. Qed.
Lemma pc_other t c s t' : t' ≠ t → pc t' (set_pc t c s) = pc t' s.
Proof. intros. rewrite pc_set. by rewrite decide_False. Qed.
Lemma free_iff l s : is_free l s ↔ ∀ t, holds t (pc t s) l = false.
Proof.
  unfold is_free, map_Forall, pc. split.
  - intros Hf t. destruct (pcs s !! t) eqn:E; [by apply Hf|]. destruct t, l; done.
  - intros Hf t c E. specialize (Hf t). by rewrite E in Hf.
Qed.

(** At most one task holds a lock. *)
Definition exclusive (s : Sys) : Prop :=
  ∀ l t1 t2, holds t1 (pc t1 s) l = true → holds t2 (pc t2 s) l = true → t1 = t2.
(** The tasks take only locks that are free. *)
Definition may (t : Task) (c : Pc) (s : Sys) : Prop :=
  ∀ l, holds t c l = true → holds t (pc t s) l = true ∨ is_free l s.

Lemma exclusive_set t c s : exclusive s → may t c s → exclusive (set_pc t c s).
Proof.
  intros He Hm l t1 t2. rewrite !pc_set.
  assert (Ho : ∀ t', t' ≠ t → holds t c l = true → holds t' (pc t' s) l = true → False).
  { intros t' Hne Hc Ht'. destruct (Hm l Hc) as [Ht|Hf]; [by apply Hne, (He l)|].
    rewrite free_iff in Hf. by rewrite Hf in Ht'. }
  destruct (decide (t1 = t)) as [->|H1], (decide (t2 = t)) as [->|H2]; intros E1 E2; [done| | |by apply (He l)].
  - destruct (Ho t2 H2 E1 E2).
  - destruct (Ho t1 H1 E2 E1).
Qed.

Section Tasks.
Context `{BufCrate} `{AeadCrate} `{ControlCodec}.
Variable psk : Psk.

(** The counters that a task can have; a frame that is registered has a header, and only a reader has
    answers whose number is not drawn. *)
Definition is_frame (o : Out) : Prop := match o with Frame _ => True | Answer _ _ => False end.
Definition sensible (t : Task) (c : Pc) : Prop :=
  match t, c with
  | Reader _, (Selecting | InLoop _ _) => False
  | Reader _, (ToRegister f | ToLimiter f | ToConnections f) => is_Some (decode_header f)
  | Reader _, _ => True
  | Forwarder _, Selecting => True
  | Forwarder _, (Sending _ out | ToStream _ out _ _ | InStream _ out _ _) => Forall is_frame out
  | Loop, (Selecting | InLoop _ _) => True
  | _, _ => False
  end.
Definition all_sensible (s : Sys) : Prop := ∀ t, sensible t (pc t s).

(** What a step does: a task moves on, to a counter that it may have, or an action of its surroundings. *)
Inductive moved (s : Sys) : Sys → Prop :=
| moved_task t c s' : pcs s' = <[t := c]> (pcs s) → may t c s → sensible t c → moved s s'
| moved_none s' : pcs s' = pcs s → moved s s'.

Lemma pc_pcs s s' t : pcs s' = pcs s → pc t s' = pc t s.
Proof. unfold pc. by intros ->. Qed.
Lemma pc_insert s s' t c t' : pcs s' = <[t := c]> (pcs s) → pc t' s' = if decide (t' = t) then c else pc t' s.
Proof. intros E. rewrite <-pc_set. by apply pc_pcs. Qed.

Lemma may_keeps t c s : (∀ l, holds t c l = true → holds t (pc t s) l = true) → may t c s.
Proof. intros Hk l Hl. left. by apply Hk. Qed.
Lemma may_takes t c s l0 : is_free l0 s → (∀ l, holds t c l = true → holds t (pc t s) l = true ∨ l = l0) → may t c s.
Proof. intros Hf Hk l Hl. destruct (Hk l Hl) as [?| ->]; [by left|by right]. Qed.

Ltac no_new_lock Hpc := apply may_keeps; rewrite Hpc; intros []; done.
Ltac new_lock Hpc Hf :=
  apply (may_takes _ _ _ _ Hf); rewrite Hpc; intros []; cbn; intros Hl;
    first [done|by left|by right|apply bool_decide_eq_true in Hl; right; congruence].
Ltac moves t c := eapply (moved_task _ t c); [done| |done].

Lemma send_moved t s s' : all_sensible s → send_step psk t s = Some s' → moved s s'.
Proof.
  intros Hs. specialize (Hs t). unfold send_step.
  destruct (pc t s) as [| | | | | | | | |c [|[f|l m] out]|c out f q|c out f q| | |] eqn:Hpc; try done.
  - case_decide as Hf; [|done]. intros [= <-]. assert (Ho : sensible t (Sending c out)).
    { destruct t; try done. by apply Forall_cons in Hs as [_ ?]. }
    case_match; [eapply (moved_task _ t (ToStream c out f _))|eapply (moved_task _ t (Sending c out))]; try done;
      [new_lock Hpc Hf|no_new_lock Hpc].
  - destruct t as [p|k|]; try done; [|by apply Forall_cons in Hs as [[] _]].
    case_match. intros [= <-]. eapply moved_task; [done|no_new_lock Hpc|done].
  - case_decide as Hf; [|done]. intros [= <-]. eapply (moved_task _ t (InStream c out f q)); [done|new_lock Hpc Hf|by destruct t].
  - case_decide; [done|]. intros [= <-]. eapply (moved_task _ t (Sending c out)); [done|no_new_lock Hpc|by destruct t].
Qed.
Lemma read_pcs p n s r : read_exact p n s = Some r → pcs r.2 = pcs s.
Proof. unfold read_exact. repeat case_match; intros [= <-]; done. Qed.
Lemma reader_moved p now env s s' :
  all_sensible s → reader_step psk p now env s = Some s' → moved s s'.
Proof.
  intros Ha. pose proof (Ha (Reader p)) as Hs. unfold reader_step.
  destruct (pc (Reader p) s) as [| |n|n|f|f|f|c l i fb| |c [|f out]|c out f q|c out f q| | |] eqn:Hpc; try (by apply send_moved); try done.
  - case_decide as Hf; [|done]. intros [= <-]. moves (Reader p) InLength. new_lock Hpc Hf.
  - intros ([bs s1] & Hr & Hb)%bind_Some. apply read_pcs in Hr. cbn in Hr.
    repeat case_match; injection Hb as <-; eapply moved_task; [by rewrite <-Hr| |done|by rewrite <-Hr| |done|by rewrite <-Hr| |done]; no_new_lock Hpc.
  - case_decide as Hf; [|done]. intros [= <-]. moves (Reader p) (InBody n). new_lock Hpc Hf.
  - intros ([bs s1] & Hr & Hb)%bind_Some. apply read_pcs in Hr. cbn in Hr.
    repeat case_match; injection Hb as <-; eapply moved_task; try (by rewrite <-Hr); try done; try no_new_lock Hpc. by eexists.
  - case_decide as Hf; [|done]. intros (h & Hh & [= <-])%bind_Some. moves (Reader p) (ToLimiter f). no_new_lock Hpc.
  - case_decide as Hf; [|done]. intros [= <-]. moves (Reader p) (ToConnections f). new_lock Hpc Hf.
  - case_decide as Hf; [|done]. intros (h & Hh & Hb)%bind_Some. destruct (begin _ _ _ _ _ _ _ _) as [[ep h'] w].
    injection Hb as <-. eapply moved_task; [done| |by destruct w as [[]|]]. destruct w as [[]|]; new_lock Hpc Hf.
  - intros [= <-]. eapply moved_task; [done|no_new_lock Hpc|done].
  - intros [= <-]. moves (Reader p) ToLength. no_new_lock Hpc.
  - case_decide as Hf; [|done]. intros [= <-]. moves (Reader p) Ended. no_new_lock Hpc.
Qed.
Lemma loop_moved env s s' : loop_step psk env s = Some s' → moved s s'.
Proof.
  unfold loop_step. destruct (pc Loop s) as [| | | | | | | | | | | |p [c l i fb|c [|[l m] ms]]| |] eqn:Hpc; try done;
    intros [= <-]; (eapply (moved_task _ Loop); [done|no_new_lock Hpc|done]).
Qed.
Lemma act_moved a s s' : all_sensible s → act psk a s = Some s' → moved s s'.
Proof.
  intros Hs. destruct a as [p|p bs|p|p|p|now env data p|now|k str data|k ev|[p|k|] now env]; cbn [act].
  - destruct (pc (Reader p) s) eqn:Hpc; try done. intros [= <-]. moves (Reader p) ToLength. no_new_lock Hpc.
  - case_decide; [done|]. intros [= <-]. by apply moved_none.
  - intros [= <-]. by apply moved_none.
  - intros [= <-]. by apply moved_none.
  - intros [= <-]. by apply moved_none.
  - destruct (pc Loop s) eqn:Hpc; try done. intros [= <-].
    eapply (moved_task _ Loop); [done| |by case_match]. apply may_keeps. intros []; by case_match.
  - case_match; try done. intros [= <-]. by apply moved_none.
  - intros [= <-]. by apply moved_none.
  - destruct ev as [| | |]; [done|..]; unfold takes; destruct (pc (Forwarder k) s) eqn:Hpc; try done;
      (destruct (tasks _ !! k); [|done]); intros [= <-]; (eapply moved_task; [done|no_new_lock Hpc|]); apply Forall_fmap, Forall_true; done.
  - by apply reader_moved.
  - unfold forwarder_step. destruct (pc (Forwarder k) s) as [| | | | | | | | |c [|f out]|c out f q|c out f q| | |] eqn:Hpc;
      try (by apply send_moved). intros [= <-]. moves (Forwarder k) Selecting. no_new_lock Hpc.
  - apply loop_moved.
Qed.

(** What every action keeps, every run keeps. *)
Lemma run_keeps (P : Sys → Prop) as_ s s' :
  (∀ a s s', P s → act psk a s = Some s' → P s') → P s → run psk as_ s = Some s' → P s'.
Proof.
  intros Ha. revert s. induction as_ as [|a as_ IH]; intros s Hs; cbn [run]; [by intros [= ->]|].
  intros (s1 & E & Hr)%bind_Some. eapply IH, Hr. by eapply Ha.
Qed.

Record ok (s : Sys) : Prop := { ok_exclusive : exclusive s; ok_sensible : all_sensible s }.
Lemma ok_start now : ok (start now).
Proof. split; [by intros [] [] []|by intros []]. Qed.
Lemma ok_act a s s' : ok s → act psk a s = Some s' → ok s'.
Proof.
  intros [He Hs] Ha. destruct (act_moved a s s' Hs Ha) as [t c s' E Hm Hc|s' E].
  - split.
    + pose proof (exclusive_set t c s He Hm) as He'. intros l t1 t2.
      rewrite !(pc_insert _ _ _ _ _ E), <-!pc_set. apply He'.
    + intros t'. rewrite (pc_insert _ _ _ _ _ E). case_decide; [by subst|apply Hs].
  - split; [intros l t1 t2|intros t]; rewrite !(pc_pcs _ _ _ E); [apply He|apply Hs].
Qed.
Lemma ok_reachable s : reachable psk s → ok s.
Proof. intros (now & as_ & Hr). eapply run_keeps; [apply ok_act|apply ok_start|exact Hr]. Qed.

(** ** The invariant of the daemon *)

Lemma ext_put_back c h h' : ext (aside c h) h' → ext h (put_back h h').
Proof.
  intros He. eapply ext_trans; [apply (ext_tcp_conns {[c := nowhere]})|]. eapply ext_trans; [exact He|].
  by apply ext_frame.
Qed.
Lemma ep_put_back c ep h r : ep_evolves ep (aside c h) r → ep_evolves ep h (r.1, put_back h r.2).
Proof. intros [He Hc]. split; [by eapply ext_put_back|exact Hc]. Qed.
(** What changes only the host. *)
Lemma inv_ext d h : inv d → ext (host d) h → inv (Daemon.on_host h d).
Proof. intros I He. apply (inv_evolves true d); [done|by apply ep_evolves_refl|done|apply I]. Qed.

Lemma ext_register c p h : ext h (register c p h).
Proof. unfold register. case_match; [apply ext_refl|apply ext_tcp_conns]. Qed.
Lemma send_inv t s s' : send_step psk t s = Some s' → inv (daemon s) → inv (daemon s').
Proof.
  unfold send_step. intros Hs I. repeat (case_match; try done); injection Hs as <-; try exact I.
  - apply inv_ext; [done|]. match goal with E : next_seq ?l ?h = _ |- _ => pose proof (ext_next_seq l h) as He; by rewrite E in He end.
  - apply inv_ext; [done|apply ext_emit].
Qed.
(** The first piece of a handler. *)
Lemma begin_inv now env data p d : inv d → inv (on_udp (begin psk Udp now env data p (udp d) (host d)).1 d).
Proof.
  intros I. apply (inv_evolves true d); [done| |done|]; cbn.
  - rewrite <-surjective_pairing. apply begin_evolves, (inv_arcs _ true I).
  - rewrite begin_endpoint. apply (packet_inner_size psk), I.
Qed.
Lemma read_daemon p n s r : read_exact p n s = Some r → daemon r.2 = daemon s.
Proof. unfold read_exact. repeat case_match; intros [= <-]; done. Qed.
Lemma reader_inv p now env s s' : reader_step psk p now env s = Some s' → inv (daemon s) → inv (daemon s').
Proof.
  unfold reader_step. intros Hs I. destruct (pc (Reader p) s) as [| |n|n|f|f|f|c l i fb| |c [|f out]|c out f q|c out f q| | |];
    try (by eapply send_inv); try (case_decide; [|done]).
  - by injection Hs as <-.
  - apply bind_Some in Hs as ([bs s1] & Hr & Hb). apply read_daemon in Hr. cbn in Hr. rewrite <-Hr in I.
    repeat case_match; by injection Hb as <-.
  - by injection Hs as <-.
  - apply bind_Some in Hs as ([bs s1] & Hr & Hb). apply read_daemon in Hr. cbn in Hr. rewrite <-Hr in I.
    repeat case_match; by injection Hb as <-.
  - apply bind_Some in Hs as (h & Hh & [= <-]). apply inv_ext; [done|apply ext_register].
  - by injection Hs as <-.
  - apply bind_Some in Hs as (h & Hh & Hb).
    pose proof (begin_evolves psk Tcp now env f p (tcp (daemon s)) (aside (conn_id h) (host (daemon s))) (inv_arcs _ false I)) as He.
    destruct (begin _ _ _ _ _ _ _ _) as [[ep h'] w]. injection Hb as <-. cbn [daemon set_pc set_daemon].
    apply (inv_evolves false (daemon s)); [done| |done|apply I]. by apply (ep_put_back (conn_id h)) in He.
  - by injection Hs as <-.
  - by injection Hs as <-.
  - injection Hs as <-. apply inv_ext; [done|apply ext_tcp_conns].
Qed.
Lemma act_inv a s s' : act psk a s = Some s' → inv (daemon s) → inv (daemon s').
Proof.
  destruct a as [p|p bs|p|p|p|now env data p|now|k str data|k ev|[p|k|] now env]; cbn [act]; intros Ha I.
  - case_match; try done. by injection Ha as <-.
  - case_decide; [done|]. by injection Ha as <-.
  - by injection Ha as <-.
  - by injection Ha as <-.
  - by injection Ha as <-.
  - case_match; try done. injection Ha as <-. by apply begin_inv.
  - case_match; try done. injection Ha as <-. by apply tick_inv.
  - injection Ha as <-. apply inv_ext; [done|apply ext_run_task].
  - unfold takes in Ha. repeat (case_match; try done); injection Ha as <-; (apply inv_ext; [done|]);
      eapply ext_put_back, ext_run_task.
  - by eapply reader_inv.
  - unfold forwarder_step in Ha. repeat (case_match; try done); try (by eapply send_inv). by injection Ha as <-.
  - unfold loop_step in Ha. repeat (case_match; try done); injection Ha as <-; try done.
    apply inv_ext; [done|apply ext_reply_udp].
Qed.

(** C8: The invariant of the daemon holds at every point where a handler or a task waits, whatever the
    interleaving is; a lock has at most one holder; and a reader that registers or handles a frame
    has one with a header. *)
Theorem locked_invariant s : reachable psk s → inv (daemon s) ∧ exclusive s ∧ ∀ t, sensible t (pc t s).
Proof.
  intros Hr. destruct (ok_reachable s Hr) as [He Hs]. split_and!; [|done..].
  destruct Hr as (now & as_ & Hr).
  refine (run_keeps (λ s, inv (daemon s)) as_ (start now) s _ (start_inv now) Hr).
  intros a s0 s1 I Ha. by eapply act_inv.
Qed.
End Tasks.

(** ** Witness *)

(** A client has connected, and its handler reads. *)
Definition one_client : Sys :=
  default (start 0) (run sample_psk [Connects cl; Steps (Reader cl) 0 all_ok] (start 0)).
Lemma one_client_reachable : reachable sample_psk one_client.
Proof. by exists 0, [Connects cl; Steps (Reader cl) 0 all_ok]. Qed.
Lemma locked_invariant_witness :
  inv (daemon one_client) ∧ exclusive one_client ∧ ∀ t, sensible t (pc t one_client).
Proof. apply (locked_invariant sample_psk), one_client_reachable. Defined.
