(* ===== verification/TcpServed.v ===== *)
(** * TcpServed: a client of lan-linkd's TCP side that no other task disturbs

    Such a client is served as by [handle_tcp_frame] of Daemon in one piece: its
    handler takes the locks, does the work, sends the answers and comes back to
    reading, in as many steps as there are points where it may wait.  This ties
    the steps of TcpTasks to the handlers, whose properties are proved of the
    whole frame. *)
From S2P Require Import Prelude Frame Stream RateLimit Connection Daemon DaemonProofs DaemonParts TcpTasks TcpTasksProofs.

(** ** The host with the frames set aside, and the host of the handler *)

Section Twin.
Context `{BufCrate} `{AeadCrate} `{ControlCodec}.
Variables (psk : Psk) (T : list Effect) (m : gmap Z SocketAddr) (c : Z) (p : SocketAddr).
Hypothesis registered : m !! c = Some p.

(** The same host, but for where the connection [c] leads: what [a] sent nowhere, [b] sent to [p]. *)
Definition twin (a b : Host) : Prop :=
  tcp_conns a = {[c := nowhere]} ∧
  ∃ fs, trace a = T ++ (SentTcp nowhere <$> fs) ∧ b = set_trace (T ++ (SentTcp p <$> fs)) (set_tcp_conns m a).

Lemma twin_start h : T = trace h → m = tcp_conns h → twin (aside c h) h.
Proof. intros E1 E2. split; [done|]. exists []. cbn. rewrite app_nil_r. split; [by rewrite E1|]. rewrite E1, E2. by destruct h. Qed.

(** Operations that do not look at the table and do not send. *)
Definition local (f : Host → Host) : Prop :=
  ∀ h, tcp_conns (f h) = tcp_conns h ∧ trace (f h) = trace h ∧
    ∀ v m, f (set_trace v (set_tcp_conns m h)) = set_trace v (set_tcp_conns m (f h)).
Lemma twin_local f a b : local f → twin a b → twin (f a) (f b).
Proof.
  intros Hf [Hc (fs & Ht & ->)]. destruct (Hf a) as (E1 & E2 & E3). split; [congruence|].
  exists fs. split; [congruence|apply E3].
Qed.
Lemma twin_tcp_send data a b : twin a b → twin (tcp_send c data a) (tcp_send c data b).
Proof.
  intros [Hc (fs & Ht & ->)]. unfold tcp_send. cbn [tcp_conns set_trace set_tcp_conns].
  rewrite registered, Hc, lookup_singleton_eq. split; [done|]. exists (fs ++ [tcp_frame data]).
  unfold emit, set_trace, set_tcp_conns. cbn. rewrite Ht, !fmap_app, <-!app_assoc. done.
Qed.
Lemma twin_counters a b : twin a b → counters b = counters a.
Proof. by intros [_ (fs & _ & ->)]. Qed.
Lemma twin_reply l msg a b : twin a b → twin (reply_tcp psk c l msg a) (reply_tcp psk c l msg b).
Proof.
  intros Ht. unfold reply_tcp, next_seq. rewrite (twin_counters a b Ht). apply twin_tcp_send.
  pose proof (twin_counters a b Ht) as E. destruct Ht as [Hc (fs & Ht & ->)]. split; [done|]. by exists fs.
Qed.
Lemma twin_spawn env l i cmd a b :
  twin a b → twin (spawn_exec psk env c ViaTcp l i cmd a) (spawn_exec psk env c ViaTcp l i cmd b).
Proof.
  intros Ht. unfold spawn_exec. case_match; [|by apply twin_reply]. apply twin_reply.
  destruct Ht as [Hc (fs & Ht & ->)]. split; [done|]. by exists fs.
Qed.
Lemma twin_native env fb l i a b :
  twin a b → twin (run_native psk env fb c ViaTcp l i a) (run_native psk env fb c ViaTcp l i b).
Proof. intros Ht. unfold run_native. destruct (default _ _). by do 2 apply twin_reply. Qed.
Lemma twin_send_exec i cmd a b : twin a b → twin (send_exec i cmd a) (send_exec i cmd b).
Proof. apply twin_local. intros h. unfold send_exec. cbn. repeat case_match; done. Qed.
Lemma twin_file_push env i path sz l a b : twin a b →
  twin (match file_push env i path sz a with Some a => reply_tcp psk c l (FileAck i 0) a | None => a end)
       (match file_push env i path sz b with Some b => reply_tcp psk c l (FileAck i 0) b | None => b end).
Proof.
  intros Ht. unfold file_push. destruct (open_ok env); [|done]. apply twin_reply.
  destruct Ht as [Hc (fs & Ht & ->)]. split; [done|]. by exists fs.
Qed.
Lemma twin_file_chunk env i off ch l a b : twin a b →
  twin (match file_chunk env i off ch a with (a, Some k) => reply_tcp psk c l (FileAck i k) a | (a, None) => a end)
       (match file_chunk env i off ch b with (b, Some k) => reply_tcp psk c l (FileAck i k) b | (b, None) => b end).
Proof.
  intros Ht. assert (Hb : twin (file_chunk env i off ch a).1 (file_chunk env i off ch b).1 ∧
    (file_chunk env i off ch b).2 = (file_chunk env i off ch a).2).
  { split; [revert Ht; apply (twin_local (λ h, (file_chunk env i off ch h).1)); intros h|destruct Ht as [_ (fs & _ & ->)]];
      unfold file_chunk; cbn; repeat case_match; done. }
  destruct (file_chunk env i off ch a) as [a' [k|]], (file_chunk env i off ch b) as [b' k'], Hb as [Hb E];
    cbn in E; subst k'; [by apply twin_reply|done].
Qed.
Lemma twin_handle_msg env msg l a b : twin a b → twin (handle_msg_tcp psk env msg c l a) (handle_msg_tcp psk env msg c l b).
Proof.
  intros Ht. destruct msg; cbn [handle_msg_tcp]; auto using twin_spawn, twin_send_exec, twin_native, twin_file_push, twin_file_chunk.
  - case_match; auto using twin_reply.
  - case_match; auto using twin_spawn, twin_native.
Qed.
Lemma twin_packet now env data ep a b hd : decode_header data = Some hd → conn_id hd = c → twin a b →
  let ra := handle_packet_tcp psk now env data p ep a in
  let rb := handle_packet_tcp psk now env data p ep b in
  rb.1 = ra.1 ∧ twin ra.2 rb.2.
Proof.
  intros Hhd Hc Ht. unfold handle_packet_tcp. rewrite Hhd, Hc. destruct (pkt_type hd); try done.
  - destruct (RateLimiter.check_syn _ _ _) as [[] rl]; [|done]. cbn [negb connections].
    destruct (connections ep !! c) as [x|]; [case_decide; [|done]; split; [done|by apply twin_tcp_send]|].
    unfold new_connection. cbn. rewrite (twin_counters a b Ht). split; [done|]. apply twin_tcp_send.
    destruct Ht as [? (fs & Ht & ->)]. split; [done|]. by exists fs.
  - repeat (case_match; try done). split; [done|]. cbn [snd]. unfold handle_control_tcp. case_match; [by apply twin_handle_msg|done].
Qed.

(** What comes back from the host set aside is what the handler did, without its frames. *)
Lemma twin_back h a b : T = trace h → m = tcp_conns h → twin a b →
  trace (put_back h a) = trace h ∧ b = set_trace (trace h ++ (SentTcp p <$> frames h a)) (put_back h a).
Proof.
  intros E1 E2 [Hc (fs & Ht & ->)]. unfold put_back, frames, news. rewrite Ht, E1, drop_app_length, E2.
  assert (omap tcp_data (SentTcp nowhere <$> fs) = fs ∧ filter not_tcp (SentTcp nowhere <$> fs) = []) as [-> ->].
  { clear. induction fs as [|f fs [IH1 IH2]]; [done|]. cbn. by rewrite IH1. }
  split; [apply app_nil_r|done].
Qed.
End Twin.

Section Tasks.
Context `{BufCrate} `{AeadCrate} `{ControlCodec}.
Variable psk : Psk.

(** The locks that the handler of [p] takes to handle a frame. *)
Definition to_handle (p : SocketAddr) (l : Lock) : Prop := match l with Stream q => q = p | _ => True end.
(** No other task holds one. *)
Definition undisturbed (p : SocketAddr) (s : Sys) : Prop :=
  ∀ t l, t ≠ Reader p → to_handle p l → holds t (pc t s) l = false.

(** The handler of one piece, from the host set aside. *)
Lemma packet_back p now env frame ep h hd :
  decode_header frame = Some hd → tcp_conns h !! conn_id hd = Some p →
  let r := (packet psk Tcp now env frame p ep (aside (conn_id hd) h), @None Work) in
  handle_packet_tcp psk now env frame p ep h =
    (r.1.1, match r.2 with
            | None => set_trace (trace (put_back h r.1.2) ++ (SentTcp p <$> frames h r.1.2)) (put_back h r.1.2)
            | Some w => answer_all psk Tcp p (conn_id hd) (owed env w) (put_back h r.1.2)
            end).
Proof.
  intros Hhd Hc r. subst r. cbn [fst snd packet].
  destruct (twin_packet psk (trace h) (tcp_conns h) (conn_id hd) p Hc now env frame ep (aside (conn_id hd) h) h hd Hhd eq_refl)
    as [E1 Htw]; [by apply twin_start|].
  destruct (twin_back _ _ _ _ h _ _ eq_refl eq_refl Htw) as [Htr E2].
  rewrite Htr, <-E2, <-E1. apply surjective_pairing.
Qed.

Section Client.
Variables (p : SocketAddr) (s : Sys).
(** The state in which the reader of [p] is at [c], with [bs] unread and the daemon [d]. *)
Definition put (c : Pc) (bs : list byte) (d : Daemon) : Sys :=
  mkSys (<[Reader p := c]> (pcs s)) (<[p := bs]> (arrived s)) (closed s) (full s) d.

Lemma put_set_pc c c' bs d : set_pc (Reader p) c' (put c bs d) = put c' bs d.
Proof. unfold set_pc, put. cbn. by rewrite insert_insert_eq. Qed.
Lemma put_set_arrived c bs bs' d : set_arrived p bs' (put c bs d) = put c bs' d.
Proof. unfold set_arrived, put. cbn. by rewrite insert_insert_eq. Qed.
Lemma put_set_daemon c bs d d' : set_daemon d' (put c bs d) = put c bs d'.
Proof. done. Qed.
Lemma put_pc c bs d : pc (Reader p) (put c bs d) = c.
Proof. unfold pc, put. cbn. by rewrite lookup_insert_eq. Qed.
Lemma put_pc_other t c bs d : t ≠ Reader p → pc t (put c bs d) = pc t s.
Proof. intros. unfold pc, put. cbn. by rewrite lookup_insert_ne. Qed.
Lemma put_unread c bs d : unread p (put c bs d) = bs.
Proof. unfold unread, put. cbn. by rewrite lookup_insert_eq. Qed.
Lemma put_free c bs d l : undisturbed p s → to_handle p l → holds (Reader p) c l = false → is_free l (put c bs d).
Proof.
  intros Hu Hl Hc. apply free_iff. intros t. destruct (decide (t = Reader p)) as [->|Hne]; [by rewrite put_pc|].
  rewrite put_pc_other by done. by apply Hu.
Qed.
Lemma put_read n c bs d : (n ≤ length bs)%nat → read_exact p n (put c bs d) = Some (Some (take n bs), put c (drop n bs) d).
Proof.
  intros. unfold read_exact. rewrite put_unread, put_set_arrived. destruct (Nat.leb_spec n (length bs)); [done|lia].
Qed.
Lemma put_self c : pc (Reader p) s = c → c ≠ Ended → is_Some (arrived s !! p) → s = put c (unread p s) (daemon s).
Proof.
  unfold pc, unread, put. intros <- Hne [bs Hbs]. rewrite Hbs. destruct (pcs s !! Reader p) as [c|] eqn:E; [|done].
  cbn [default from_option id]. rewrite !insert_id by done. by destruct s.
Qed.

(** One step of the reader, by its counter. *)
Hypothesis Hu : undisturbed p s.
Variables (now : Instant) (env : Env).
Abbreviation step := (reader_step psk p now env).
Ltac steps := unfold reader_step; rewrite put_pc; rewrite ?decide_True by (by apply put_free); rewrite ?put_set_pc.

Lemma step_lock_length bs d : step (put ToLength bs d) = Some (put InLength bs d).
Proof. by steps. Qed.
Lemma step_lock_body n bs d : step (put (ToBody n) bs d) = Some (put (InBody n) bs d).
Proof. by steps. Qed.
Lemma step_length frame rest d :
  fits 32 (len frame) → (0 < length frame ≤ MAX_PACKET + 4)%nat →
  step (put InLength (tcp_frame frame ++ rest) d) = Some (put (ToBody (length frame)) (frame ++ rest) d).
Proof.
  intros Hf Hl. steps. unfold tcp_frame. rewrite <-app_assoc, wrap_id by done.
  rewrite put_read by (rewrite length_app, length_be_bytes; lia).
  rewrite take_app_length', drop_app_length' by (by rewrite length_be_bytes). cbn -[Z.of_nat Z.to_nat set_pc put of_be MAX_PACKET Nat.add].
  rewrite of_be_be_bytes_id by done. unfold MAX_PACKET, HEADER_SIZE, MAX_PAYLOAD in Hl.
  rewrite (proj2 (Z.eqb_neq _ _)), (proj2 (Z.ltb_ge _ _)) by (unfold MAX_PACKET, HEADER_SIZE, MAX_PAYLOAD; lia). cbn [orb].
  by rewrite put_set_pc, Nat2Z.id.
Qed.
Lemma step_body frame rest hd d :
  decode_header frame = Some hd →
  step (put (InBody (length frame)) (frame ++ rest) d) = Some (put (ToRegister frame) rest d).
Proof.
  intros Hhd. steps. rewrite put_read by (rewrite length_app; lia). cbn.
  rewrite take_app_length, drop_app_length, Hhd. by rewrite put_set_pc.
Qed.
Lemma step_register frame hd bs d :
  decode_header frame = Some hd →
  step (put (ToRegister frame) bs d) = Some (put (ToLimiter frame) bs (Daemon.on_host (register (conn_id hd) p (host d)) d)).
Proof. intros Hhd. steps. rewrite Hhd. cbn. unfold on_host. by rewrite put_set_daemon, put_set_pc. Qed.
Lemma step_limiter frame bs d : step (put (ToLimiter frame) bs d) = Some (put (ToConnections frame) bs d).
Proof. by steps. Qed.
Lemma step_handle frame hd bs d :
  decode_header frame = Some hd →
  let r := begin psk Tcp now env frame p (tcp d) (aside (conn_id hd) (host d)) in
  step (put (ToConnections frame) bs d) =
    Some (put (begun (conn_id hd) (frames (host d) r.1.2) r.2) bs (on_tcp (r.1.1, put_back (host d) r.1.2) d)).
Proof.
  intros Hhd r. subst r. steps. rewrite Hhd. cbn [mbind option_bind daemon put].
  destruct (begin _ _ _ _ _ _ _ _) as [[ep h'] w]. by rewrite put_set_daemon, put_set_pc.
Qed.
Lemma step_command c l i fb bs d :
  step (put (Runs c l i fb) bs d) = Some (put (Sending c ((λ a, Answer a.1 a.2) <$> native_answers env i fb l)) bs d).
Proof. by steps. Qed.

(** One step of sending to the client itself: three for each frame, after one for its number. *)
Lemma step_number c l m out bs d :
  step (put (Sending c (Answer l m :: out)) bs d) =
    let '(n, h) := next_seq l (host d) in
    Some (put (Sending c (Frame (tcp_frame (build_control_packet_tcp c psk n m)) :: out)) bs (Daemon.on_host h d)).
Proof. steps. unfold send_step. rewrite put_pc. cbn [daemon put]. case_match. unfold on_host. by rewrite put_set_daemon, put_set_pc. Qed.
Lemma step_next c f out bs d :
  tcp_conns (host d) !! c = Some p →
  step (put (Sending c (Frame f :: out)) bs d) = Some (put (ToStream c out f p) bs d).
Proof. intros Hc. steps. unfold send_step. rewrite put_pc, decide_True by (by apply put_free). cbn [daemon put]. by rewrite Hc, put_set_pc. Qed.
Lemma step_lock_stream c out f bs d :
  step (put (ToStream c out f p) bs d) = Some (put (InStream c out f p) bs d).
Proof. steps. unfold send_step. rewrite put_pc, decide_True by (by apply put_free). by rewrite put_set_pc. Qed.
Lemma step_write c out f bs d :
  p ∉ full s → step (put (InStream c out f p) bs d) = Some (put (Sending c out) bs (Daemon.on_host (emit (SentTcp p f) (host d)) d)).
Proof. intros Hp. steps. unfold send_step. rewrite put_pc, decide_False by done. unfold on_host. by rewrite put_set_daemon, put_set_pc. Qed.
Lemma step_done c bs d : step (put (Sending c []) bs d) = Some (put ToLength bs d).
Proof. by steps. Qed.

Abbreviation steps_of n := (replicate n (Steps (Reader p) now env)).
Lemma run_step n s1 s2 : step s1 = Some s2 → run psk (steps_of (S n)) s1 = run psk (steps_of n) s2.
Proof. intros E. cbn [replicate run act]. by rewrite E. Qed.

(** What is to be sent leaves in order. *)
Definition sent (c : Z) (h : Host) (o : Out) : Host :=
  match o with Frame f => emit (SentTcp p f) h | Answer l m => reply_tcp psk c l m h end.
Lemma run_frame n c f out bs d :
  p ∉ full s → tcp_conns (host d) !! c = Some p →
  run psk (steps_of (S (S (S n)))) (put (Sending c (Frame f :: out)) bs d) =
    run psk (steps_of n) (put (Sending c out) bs (Daemon.on_host (emit (SentTcp p f) (host d)) d)).
Proof.
  intros Hp Hc. erewrite run_step by (by apply step_next). erewrite run_step by apply step_lock_stream.
  by erewrite run_step by (by apply step_write).
Qed.
Lemma run_sends c bs out :
  p ∉ full s → ∀ d, tcp_conns (host d) !! c = Some p →
  ∃ n, run psk (steps_of n) (put (Sending c out) bs d) =
    Some (put ToLength bs (Daemon.on_host (foldl (sent c) (host d) out) d)).
Proof.
  intros Hp. induction out as [|[f|l m] out IH]; intros d Hc; cbn [foldl sent].
  - exists 1%nat. rewrite (run_step 0 _ _ (step_done c bs d)). by destruct d.
  - destruct (IH (Daemon.on_host (emit (SentTcp p f) (host d)) d) Hc) as [n Hn].
    exists (S (S (S n))). by rewrite run_frame.
  - pose proof (step_number c l m out bs d) as Hstep. unfold reply_tcp.
    assert (Hc' : tcp_conns (next_seq l (host d)).2 !! c = Some p) by done.
    destruct (next_seq l (host d)) as [q h]. cbn [snd] in Hc'. unfold tcp_send. rewrite Hc'.
    destruct (IH (Daemon.on_host (emit (SentTcp p (tcp_frame (build_control_packet_tcp c psk q m))) h) d) Hc') as [n Hn].
    exists (S (S (S (S n)))). rewrite (run_step _ _ _ Hstep). by rewrite run_frame.
Qed.
Lemma sent_frames c fs h : foldl (sent c) h (Frame <$> fs) = set_trace (trace h ++ (SentTcp p <$> fs)) h.
Proof.
  revert h. induction fs as [|f fs IH]; intros h; cbn; [rewrite app_nil_r; by destruct h|].
  rewrite IH. cbn. by rewrite <-app_assoc.
Qed.
Lemma sent_answers c ms h : foldl (sent c) h ((λ a, Answer a.1 a.2) <$> ms) = answer_all psk Tcp p c ms h.
Proof. revert h. induction ms as [|a ms IH]; intros h; [done|]. cbn. apply IH. Qed.

(** What was begun is brought to its end. *)
Lemma run_begun c bs fs w d :
  p ∉ full s → tcp_conns (host d) !! c = Some p → (∀ w', w = Some w' → work_conn w' = c) →
  ∃ n, run psk (steps_of n) (put (begun c fs w) bs d) =
    Some (put ToLength bs (Daemon.on_host
      (match w with
       | None => set_trace (trace (host d) ++ (SentTcp p <$> fs)) (host d)
       | Some w => answer_all psk Tcp p c (owed env w) (host d)
       end) d)).
Proof.
  intros Hp Hc Hw. destruct w as [w|].
  - specialize (Hw _ eq_refl). destruct w as [c' l i fb|c' ms]; cbn [work_conn begun owed] in *; subst c'.
    + destruct (run_sends c bs ((λ a, Answer a.1 a.2) <$> native_answers env i fb l) Hp d Hc) as [n Hn].
      exists (S n). erewrite run_step by apply step_command. by rewrite Hn, sent_answers.
    + destruct (run_sends c bs ((λ a, Answer a.1 a.2) <$> ms) Hp d Hc) as [n Hn]. exists n. by rewrite Hn, sent_answers.
  - cbn [begun]. destruct (run_sends c bs (Frame <$> fs) Hp d Hc) as [n Hn]. exists n. by rewrite Hn, sent_frames.
Qed.

(** A frame is read and handled in seven steps. *)
Lemma run_handles frame rest hd d :
  fits 32 (len frame) → (0 < length frame ≤ MAX_PACKET + 4)%nat → decode_header frame = Some hd →
  let c := conn_id hd in
  let h := register c p (host d) in
  let r := begin psk Tcp now env frame p (tcp d) (aside c h) in
  run psk (steps_of 7) (put ToLength (tcp_frame frame ++ rest) d) =
    Some (put (begun c (frames h r.1.2) r.2) rest (on_tcp (r.1.1, put_back h r.1.2) d)).
Proof.
  intros Hf Hl Hhd c h r.
  erewrite run_step by apply step_lock_length. erewrite run_step by (by apply step_length).
  erewrite run_step by apply step_lock_body. erewrite run_step by (by eapply step_body).
  erewrite run_step by (by eapply step_register). erewrite run_step by apply step_limiter.
  erewrite run_step by (by eapply step_handle). done.
Qed.
(** What has no header is read in four. *)
Lemma run_skips frame rest d :
  fits 32 (len frame) → (0 < length frame ≤ MAX_PACKET + 4)%nat → decode_header frame = None →
  run psk (steps_of 4) (put ToLength (tcp_frame frame ++ rest) d) = Some (put ToLength rest d).
Proof.
  intros Hf Hl Hhd. erewrite run_step by apply step_lock_length. erewrite run_step by (by apply step_length).
  erewrite run_step by apply step_lock_body. erewrite run_step; [done|].
  steps. rewrite put_read by (rewrite length_app; lia). cbn. rewrite take_app_length, drop_app_length, Hhd. by rewrite put_set_pc.
Qed.

End Client.

Lemma run_app as1 as2 s s1 : run psk as1 s = Some s1 → run psk (as1 ++ as2) s = run psk as2 s1.
Proof.
  revert s. induction as1 as [|a as1 IH]; intros s; cbn; [by intros [= ->]|].
  destruct (act psk a s); [|done]. cbn. apply IH.
Qed.

Lemma register_lookup c p h : (tcp_conns h !! c = None ∨ tcp_conns h !! c = Some p) → tcp_conns (register c p h) !! c = Some p.
Proof. unfold register. intros [E|E]; rewrite E; [apply lookup_insert_eq|done]. Qed.

(** The steps of the handler of [p] read [frame], leave the daemon as [handle_tcp_frame] does, and come
    back to where the next one is read. *)
Definition served (p : SocketAddr) (now : Instant) (env : Env) (frame rest : list byte) (s : Sys) : Prop :=
  ∃ n s', run psk (replicate n (Steps (Reader p) now env)) s = Some s' ∧
    daemon s' = on_tcp (handle_tcp_frame psk now env frame p (tcp (daemon s)) (host (daemon s))) (daemon s) ∧
    pc (Reader p) s' = ToLength ∧ unread p s' = rest ∧ ∀ t, t ≠ Reader p → pc t s' = pc t s.
Lemma served_by n p now env frame rest s d :
  run psk (replicate n (Steps (Reader p) now env)) s = Some (put p s ToLength rest d) →
  d = on_tcp (handle_tcp_frame psk now env frame p (tcp (daemon s)) (host (daemon s))) (daemon s) →
  served p now env frame rest s.
Proof.
  intros Hr ->. eexists n, _. split; [exact Hr|]. split; [done|]. split_and!; [apply put_pc|apply put_unread|].
  intros t Ht. by apply put_pc_other.
Qed.
Lemma waits_put p s frame rest : pc (Reader p) s = ToLength → unread p s = tcp_frame frame ++ rest →
  s = put p s ToLength (tcp_frame frame ++ rest) (daemon s).
Proof.
  intros Hpc Hun. rewrite <-Hun. apply put_self; try done. unfold unread in Hun. destruct (arrived s !! p); [done|].
  apply (f_equal length) in Hun. unfold tcp_frame in Hun. rewrite !length_app, length_be_bytes in Hun. cbn in Hun. lia.
Qed.

(** The first piece on the host set aside, and what follows it, make the handler. *)
Lemma deferred_aside env p msg c l h :
  match deferred env Tcp p msg c l h with
  | None => deferred env Tcp p msg c l (aside c h) = None
  | Some (w, h1) => ∃ h2, deferred env Tcp p msg c l (aside c h) = Some (w, h2) ∧ put_back h h2 = h1 ∧ tcp_conns h1 = tcp_conns h
  end.
Proof.
  assert (Hb : ∀ h1 h2, h2 = aside c h1 → tcp_conns h1 = tcp_conns h → trace h1 = trace h → put_back h h2 = h1).
  { intros h1 h2 -> E1 E2. unfold put_back, news. cbn. rewrite E2, drop_all, <-E1. cbn. rewrite app_nil_r, <-E2. by destruct h1. }
  unfold deferred. destruct msg; try done; repeat case_match; simplify_eq; try done; (eexists; split_and!; [done|by apply Hb|done]).
Qed.
Lemma begun_back p now env frame ep h hd :
  decode_header frame = Some hd → tcp_conns h !! conn_id hd = Some p →
  let c := conn_id hd in
  let r := begin psk Tcp now env frame p ep (aside c h) in
  (∀ w, r.2 = Some w → work_conn w = c)
  ∧ tcp_conns (put_back h r.1.2) !! c = Some p
  ∧ handle_packet_tcp psk now env frame p ep h =
      (r.1.1, match r.2 with
              | None => set_trace (trace (put_back h r.1.2) ++ (SentTcp p <$> frames h r.1.2)) (put_back h r.1.2)
              | Some w => answer_all psk Tcp p c (owed env w) (put_back h r.1.2)
              end).
Proof.
  intros Hhd Hc c r. split_and!; [|done|].
  - intros w Hw. subst r. unfold begin in Hw. destruct (control_of _ _ _ _ _ _) as [[[[ep' msg] c'] l]|] eqn:Ec; [|done].
    destruct (deferred _ _ _ _ _ _ _) as [[w' h']|] eqn:Ed; [|done]. injection Hw as ->.
    apply (deferred_whole psk) in Ed as [-> _]. apply (control_whole psk) in Ec as (_ & (hd' & Hhd' & <-) & _). by simplify_eq.
  - subst r. unfold begin. destruct (control_of psk Tcp now frame p ep) as [[[[ep' msg] c'] l]|] eqn:Ec.
    + destruct (control_whole psk _ _ _ _ _ _ _ _ _ Ec) as (Hwh & (hd' & Hhd' & Hc') & _).
      assert (c' = c) as -> by by simplify_eq. pose proof (deferred_aside env p msg c l h) as Hd.
      destruct (deferred env Tcp p msg c l h) as [[w h1]|] eqn:Ed.
      * destruct Hd as (h2 & -> & Hb & _). cbn [fst snd]. rewrite Hb.
        destruct (deferred_whole psk _ _ _ _ _ _ _ _ _ Ed) as [_ <-]. exact (Hwh env h).
      * rewrite Hd. by apply packet_back.
    + by apply packet_back.
Qed.

(** C6: A client that nobody disturbs is served as in one piece: while no other task holds a lock its handler
    needs, and its connection is not another client's, its steps alone read the next frame from its
    stream, whatever follows it, and leave the daemon exactly as [handle_tcp_frame] of that frame does, with
    the answers sent, and the handler reading again. *)
Theorem undisturbed_client_is_served p s now env frame rest :
  pc (Reader p) s = ToLength → undisturbed p s → p ∉ full s →
  unread p s = tcp_frame frame ++ rest → (0 < length frame ≤ MAX_PACKET + 4)%nat →
  (∀ hd, decode_header frame = Some hd → tcp_conns (host (daemon s)) !! conn_id hd ∈ [None; Some p]) →
  served p now env frame rest s.
Proof.
  intros Hpc Hu Hp Hun Hl Hreg.
  assert (Hf : fits 32 (len frame)) by (unfold fits, MAX_PACKET, HEADER_SIZE, MAX_PAYLOAD in *; lia).
  pose proof (waits_put p s frame rest Hpc Hun) as Hs.
  destruct (decode_header frame) as [hd|] eqn:Hhd.
  - specialize (Hreg hd eq_refl). set (d := daemon s) in *. set (c := conn_id hd) in *. set (h := register c p (host d)).
    assert (Hc : tcp_conns h !! c = Some p) by (apply register_lookup; set_solver).
    destruct (begun_back p now env frame (tcp d) h hd Hhd Hc) as (Hw & Hc' & E).
    pose proof (run_handles p s Hu now env frame rest hd d Hf Hl Hhd) as Hr. cbv zeta in Hr. fold c h in E, Hr, Hc', Hw.
    set (r := begin psk Tcp now env frame p (tcp d) (aside c h)) in *.
    destruct (run_begun p s Hu now env c rest (frames h r.1.2) r.2 (on_tcp (r.1.1, put_back h r.1.2) d) Hp Hc' Hw) as [n Hn].
    apply (served_by (7 + n) _ _ _ _ _ _ (on_tcp (handle_packet_tcp psk now env frame p (tcp d) h) d)).
    + etransitivity; [apply (f_equal (run psk _) Hs)|]. rewrite replicate_add. erewrite run_app by exact Hr.
      rewrite Hn, E. done.
    + unfold handle_tcp_frame. rewrite Hhd. fold c. by rewrite <-register_table.
  - apply (served_by 4 _ _ _ _ _ _ (daemon s)).
    + etransitivity; [apply (f_equal (run psk _) Hs)|]. by apply run_skips.
    + unfold handle_tcp_frame. rewrite Hhd. by destruct (daemon s).
Qed.
End Tasks.

(** ** Witness *)

(** A client that has connected and sent a SYN. *)
Definition syn_client : Sys :=
  mkSys {[Reader cl := ToLength]} {[cl := tcp_frame (Connection.build_syn 42)]} ∅ ∅ (Daemon.start 0).
Lemma undisturbed_client_is_served_witness : served sample_psk cl 1 all_ok (Connection.build_syn 42) [] syn_client.
Proof.
  apply (undisturbed_client_is_served sample_psk).
  - reflexivity.
  - intros t l Ht _. unfold pc. cbn. rewrite lookup_singleton_ne by done. by destruct t, l.
  - set_solver.
  - vm_compute. reflexivity.
  - vm_compute. lia.
  - intros hd _. cbn. rewrite lookup_empty. set_solver.
Defined.
