(* ===== verification/TcpStall.v ===== *)
(** * TcpStall: what the locks of lan-linkd's TCP side cost

    A task of TcpTasks that waits for a lock waits, in the end, for a client or for a native
    command: the tasks alone do not block each other.  But a handler keeps the
    stream of its client locked while it waits for input, so that nothing is sent
    to a client that is silent; a task that has something for it keeps the table of
    the connections locked meanwhile, which stops the whole TCP side; and two
    clients that do not have the key can bring this about.  While a native command of
    a TCP client runs, no frame of any client is handled; while one of a UDP
    client runs, no datagram and no tick is. *)
From S2P Require Import Prelude Frame Stream RateLimit Connection Daemon DaemonProofs DaemonParts TcpTasks TcpTasksProofs TcpServed.

(** ** What is written to the clients *)

Definition written_tcp (h : Host) : list (SocketAddr * list byte) :=
  omap (λ e, match e with SentTcp q f => Some (q, f) | _ => None end) (trace h).
(** Nothing is written, and the table of the connections stays. *)
Definition calm (h h' : Host) : Prop := tcp_conns h' = tcp_conns h ∧ written_tcp h' = written_tcp h.

Lemma calm_refl h : calm h h.
Proof. done. Qed.
Lemma calm_trans h1 h2 h3 : calm h1 h2 → calm h2 h3 → calm h1 h3.
Proof. intros [] []. split; congruence. Qed.
Lemma calm_frame h h' : tcp_conns h' = tcp_conns h → trace h' = trace h → calm h h'.
Proof. intros ? E. split; [done|]. unfold written_tcp. by rewrite E. Qed.
Lemma calm_emit e h : not_tcp e → calm h (emit e h).
Proof. intros He. split; [done|]. unfold written_tcp. cbn. rewrite omap_app. destruct e; [|done|..]; apply app_nil_r. Qed.
Lemma calm_put_back h h' : calm h (put_back h h').
Proof.
  split; [done|]. unfold written_tcp. cbn. rewrite omap_app.
  replace (omap _ (filter not_tcp _)) with (@nil (SocketAddr * list byte)); [apply app_nil_r|].
  symmetry. induction (news h h') as [|e es IH]; [done|]. rewrite filter_cons. case_decide as He; [|done].
  cbn. by destruct e.
Qed.

Section Calm.
Context `{BufCrate} `{AeadCrate} `{ControlCodec}.
Variable psk : Psk.

Lemma calm_send_control c p q m h : calm h (send_control psk c p q m h).
Proof. unfold send_control. case_match; [by apply calm_emit|done]. Qed.
Lemma calm_reply c p l m h : calm h (reply_udp psk c p l m h).
Proof. unfold reply_udp. cbn. eapply calm_trans; [|apply calm_send_control]. by apply calm_frame. Qed.
Lemma calm_spawn env c p l i cmd h : calm h (spawn_exec psk env c (ViaUdp p) l i cmd h).
Proof. unfold spawn_exec. case_match; [|apply calm_reply]. eapply calm_trans; [|apply calm_reply]. by apply calm_frame. Qed.
Lemma calm_native env fb c p l i h : calm h (run_native psk env fb c (ViaUdp p) l i h).
Proof. unfold run_native. destruct (default _ _). eapply calm_trans; apply calm_reply. Qed.
Lemma calm_send_exec i cmd h : calm h (send_exec i cmd h).
Proof. unfold send_exec. repeat case_match; by apply calm_frame. Qed.
Lemma calm_file_push env i path sz h h' : file_push env i path sz h = Some h' → calm h h'.
Proof. unfold file_push. intros. case_match; [|done]. simplify_eq. by apply calm_frame. Qed.
Lemma calm_file_chunk env i off ch h : calm h (file_chunk env i off ch h).1.
Proof. unfold file_chunk. repeat case_match; by apply calm_frame. Qed.
Lemma calm_handle_msg env m c p l h : calm h (handle_msg psk env m c p l h).
Proof.
  destruct m; cbn [handle_msg]; eauto using calm_refl, calm_spawn, calm_reply, calm_send_exec, calm_native.
  - destruct (file_push _ _ _ _ _) eqn:E; [|done]. eapply calm_trans; [by eapply calm_file_push|apply calm_reply].
  - pose proof (calm_file_chunk env id offset data h) as Hc. destruct (file_chunk _ _ _ _ _) as [h' [ack|]]; [|done].
    eapply calm_trans; [exact Hc|apply calm_reply].
  - case_match; [apply calm_reply|done].
  - case_match; [apply calm_spawn|apply calm_reply].
Qed.
Lemma calm_datagram now env data p ep h : calm h (handle_packet_inner psk now env data p ep h).2.
Proof.
  unfold handle_packet_inner. destruct (decode_header data) as [hd|]; [|done]. destruct (pkt_type hd); try done.
  - destruct (RateLimiter.check_syn _ _ _) as [[] rl]; [|done]. cbn [negb connections].
    case_match; [done|]. destruct (connections ep !! conn_id hd) as [x|]; [case_decide; [by apply calm_emit|done]|].
    eapply calm_trans; [|by apply calm_emit]. by apply calm_frame.
  - repeat (case_match; try done). cbn [snd]. unfold handle_control. case_match; [apply calm_handle_msg|done].
  - repeat (case_match; try done). by apply calm_emit.
Qed.
Lemma calm_begin now env data p ep h : calm h (begin psk Udp now env data p ep h).1.2.
Proof.
  unfold begin. destruct (control_of _ _ _ _ _ _) as [[[[ep' msg] c] l]|]; [|apply calm_datagram].
  destruct (deferred _ _ _ _ _ _ _) as [[w h']|] eqn:Hd; [|apply calm_datagram]. cbn [fst snd].
  unfold deferred in Hd. repeat (case_match; try done); simplify_eq; by apply calm_frame.
Qed.
Lemma calm_tick now d : calm (host d) (host (tick now d)).
Proof.
  unfold tick. case_match; [done|]. cbn. unfold send_heartbeats.
  induction (map_to_list (connections (udp d))) as [|e l IH]; [done|]. cbn [foldr].
  eapply calm_trans; [exact IH|]. unfold heartbeat. case_match; [by apply calm_emit|done].
Qed.
Lemma calm_output k str data h : calm h (run_task psk k (Output str data) h).
Proof. unfold run_task. case_match; [by apply calm_frame|done]. Qed.
End Calm.

Section Tasks.
Context `{BufCrate} `{AeadCrate} `{ControlCodec}.
Variable psk : Psk.

Definition written (s : Sys) : list (SocketAddr * list byte) := written_tcp (host (daemon s)).
Definition conns (s : Sys) : gmap Z SocketAddr := tcp_conns (host (daemon s)).

(** What an action does to the table and to the clients: nothing; or the table changes and is not
    locked; or one task writes one frame to the client whose stream it has locked. *)
Inductive effect (s s' : Sys) : Prop :=
| effect_none : calm (host (daemon s)) (host (daemon s')) → effect s s'
| effect_table : is_free TcpConns s → written s' = written s → effect s s'
| effect_wrote t c out f q : pc t s = InStream c out f q → q ∉ full s →
    written s' = written s ++ [(q, f)] → conns s' = conns s → effect s s'.

Lemma send_effect t s s' : send_step psk t s = Some s' → effect s s'.
Proof.
  unfold send_step. destruct (pc t s) as [| | | | | | | | |c [|[f|l m] out]|c out f q|c out f q| | |] eqn:Hpc; try done.
  - case_decide; [|done]. intros [= <-]. apply effect_none. by case_match.
  - case_match eqn:Hn. intros [= <-]. apply effect_none. cbn. injection Hn as <- <-. by apply calm_frame.
  - case_decide; [|done]. intros [= <-]. by apply effect_none.
  - case_decide; [done|]. intros [= <-]. eapply effect_wrote; [done..| |done].
    unfold written, written_tcp. cbn. by rewrite omap_app.
Qed.
Lemma reader_effect p now env s s' : reader_step psk p now env s = Some s' → effect s s'.
Proof.
  assert (Hr : ∀ n bs s1 s', read_exact p n s = Some (bs, s1) → daemon s' = daemon s1 → effect s s').
  { intros n bs s1 s2 E Hd. apply read_daemon in E. cbn in E. apply effect_none. rewrite Hd, E. done. }
  unfold reader_step. destruct (pc (Reader p) s) as [| |n|n|f|f|f|c l i fb| |c [|f out]|c out f q|c out f q| | |] eqn:Hpc;
    try apply send_effect; try (case_decide as Hf; [|done]).
  - intros [= <-]. by apply effect_none.
  - intros ([bs s1] & E & Hb)%bind_Some. repeat case_match; injection Hb as <-; by eapply Hr.
  - intros [= <-]. by apply effect_none.
  - intros ([bs s1] & E & Hb)%bind_Some. repeat case_match; injection Hb as <-; by eapply Hr.
  - intros (h & Hh & [= <-])%bind_Some. apply effect_table; [done|]. unfold written, written_tcp. cbn.
    unfold register. by case_match.
  - intros [= <-]. by apply effect_none.
  - intros (h & Hh & Hb)%bind_Some. destruct (begin _ _ _ _ _ _ _ _) as [[ep h'] w]. injection Hb as <-.
    apply effect_none, calm_put_back.
  - intros [= <-]. by apply effect_none.
  - intros [= <-]. by apply effect_none.
  - intros [= <-]. by apply effect_table.
Qed.
Lemma act_effect a s s' : act psk a s = Some s' → effect s s'.
Proof.
  destruct a as [p|p bs|p|p|p|now env data p|now|k str data|k ev|[p|k|] now env]; cbn [act]; intros Ha.
  - case_match; try done. injection Ha as <-. by apply effect_none.
  - case_decide; [done|]. injection Ha as <-. by apply effect_none.
  - injection Ha as <-. by apply effect_none.
  - injection Ha as <-. by apply effect_none.
  - injection Ha as <-. by apply effect_none.
  - case_match; try done. injection Ha as <-. apply effect_none, calm_begin.
  - case_match; try done. injection Ha as <-. apply effect_none, calm_tick.
  - injection Ha as <-. apply effect_none, calm_output.
  - unfold takes in Ha. repeat (case_match; try done); injection Ha as <-; apply effect_none, calm_put_back.
  - by eapply reader_effect.
  - unfold forwarder_step in Ha. repeat (case_match; try done); try (by eapply send_effect). injection Ha as <-. by apply effect_none.
  - unfold loop_step in Ha. repeat (case_match; try done); injection Ha as <-; apply effect_none; [done..|apply calm_reply].
Qed.

(** A frame is handled only where the connections are not locked. *)
Lemma act_tcp a s s' : act psk a s = Some s' → tcp (daemon s') = tcp (daemon s) ∨ is_free Connections s.
Proof.
  assert (Hsend : ∀ t s s', send_step psk t s = Some s' → tcp (daemon s') = tcp (daemon s)).
  { intros t s0 s1. unfold send_step. repeat case_match; intros; by simplify_eq. }
  destruct a as [p|p bs|p|p|p|now env data p|now|k str data|k ev|[p|k|] now env]; cbn [act]; intros Ha;
    try (by left; repeat (case_match; try done); simplify_eq).
  - left. case_match; try done. injection Ha as <-. cbn. unfold tick. by case_match.
  - left. unfold takes in Ha. by repeat (case_match; try done); simplify_eq.
  - unfold reader_step in Ha.
    destruct (pc (Reader p) s) as [| |n|n|f|f|f|c l i fb| |c [|f out]|c out f q|c out f q| | |];
      try (left; by eapply Hsend); try (case_decide as Hf; [|done]); try (by left; simplify_eq); try (by right).
    + left. apply bind_Some in Ha as ([bs s1] & E%read_daemon & Hb). cbn in E. rewrite <-E.
      repeat case_match; by injection Hb as <-.
    + left. apply bind_Some in Ha as ([bs s1] & E%read_daemon & Hb). cbn in E. rewrite <-E.
      repeat case_match; by injection Hb as <-.
    + left. apply bind_Some in Ha as (h & Hh & [= <-]). done.
  - left. unfold forwarder_step in Ha. repeat (case_match; try done); try (by eapply Hsend). by simplify_eq.
  - left. unfold loop_step in Ha. by repeat (case_match; try done); simplify_eq.
Qed.

(** ** A silent client *)

(** How many bytes a reader waits for, and that it waits in vain. *)
Definition wanted (c : Pc) : option nat :=
  match c with InLength => Some 4%nat | InBody n => Some n | _ => None end.
Definition reading (p : SocketAddr) (s : Sys) : Prop :=
  (∃ n, wanted (pc (Reader p) s) = Some n ∧ (length (unread p s) < n)%nat) ∧ p ∉ closed s.
(** The client neither sends nor closes. *)
Definition silent (p : SocketAddr) (a : Action) : Prop :=
  match a with Arrives q _ | Closes q => q ≠ p | _ => True end.

Lemma reading_holds p s : reading p s → holds (Reader p) (pc (Reader p) s) (Stream p) = true.
Proof. intros [(n & Hn & _) _]. destruct (pc (Reader p) s); try done; cbn; by rewrite bool_decide_true. Qed.
Lemma reading_waits p n s : reading p s → wanted (pc (Reader p) s) = Some n → read_exact p n s = None.
Proof.
  intros [(n' & Hn & Hl) Hc] E. rewrite E in Hn. injection Hn as <-. unfold read_exact.
  destruct (Nat.leb_spec n (length (unread p s))); [lia|]. by rewrite decide_False.
Qed.
Lemma reading_stuck p now env s : reading p s → reader_step psk p now env s = None.
Proof.
  intros Hr. pose proof (λ n, reading_waits p n s Hr) as Hw. destruct Hr as [(n & Hn & _) _].
  unfold reader_step. destruct (pc (Reader p) s); try done; by rewrite (Hw _ eq_refl).
Qed.
Lemma reading_local p s s' :
  pc (Reader p) s' = pc (Reader p) s → unread p s' = unread p s → (p ∈ closed s' → p ∈ closed s) →
  reading p s → reading p s'.
Proof. unfold reading. intros -> -> Hc [? ?]. split; [done|auto]. Qed.

(** What an action leaves of another task, and of another client. *)
Lemma unread_arrived q bs p s : p ≠ q → unread p (set_arrived q bs s) = unread p s.
Proof. intros. unfold unread, set_arrived. cbn. by rewrite lookup_insert_ne. Qed.
Lemma read_elsewhere q n s r p : read_exact q n s = Some r → p ≠ q →
  unread p r.2 = unread p s ∧ closed r.2 = closed s.
Proof. unfold read_exact. intros. repeat case_match; simplify_eq; split; try done. by apply unread_arrived. Qed.
Lemma send_elsewhere t s s' t' : send_step psk t s = Some s' → t' ≠ t →
  pc t' s' = pc t' s ∧ arrived s' = arrived s ∧ closed s' = closed s.
Proof.
  unfold send_step. intros Hs Hne. repeat (case_match; try done); simplify_eq;
    by rewrite pc_other.
Qed.
Lemma reader_elsewhere q now env s s' p : reader_step psk q now env s = Some s' → p ≠ q →
  (∀ t, t ≠ Reader q → pc t s' = pc t s) ∧ unread p s' = unread p s ∧ closed s' = closed s.
Proof.
  intros Hs Hne.
  assert (Hsend : send_step psk (Reader q) s = Some s' →
    (∀ t, t ≠ Reader q → pc t s' = pc t s) ∧ unread p s' = unread p s ∧ closed s' = closed s).
  { intros E. split_and!; [intros t Ht; by eapply send_elsewhere| |];
      destruct (send_elsewhere _ _ _ (Reader p) E) as (_ & Ha & Hc); [congruence| |congruence|done].
    unfold unread. by rewrite Ha. }
  assert (Hread : ∀ n bs s1 c, read_exact q n s = Some (bs, s1) → s' = set_pc (Reader q) c s1 →
    (∀ t, t ≠ Reader q → pc t s' = pc t s) ∧ unread p s' = unread p s ∧ closed s' = closed s).
  { intros n bs s1 c E ->. destruct (read_elsewhere _ _ _ _ _ E Hne) as [Hu Hc].
    apply read_pcs in E. cbn in *. split_and!; [|done..]. intros t Ht. rewrite pc_other by done. by apply pc_pcs. }
  unfold reader_step in Hs. destruct (pc (Reader q) s) as [| |n|n|f|f|f|c l i fb| |c [|f out]|c out f r|c out f r| | |];
    try (by apply Hsend); try (case_decide; [|done]);
    try (apply bind_Some in Hs as ([bs s1] & E & Hs)); try (apply bind_Some in Hs as (h & Hh & Hs));
    repeat (case_match; try done); simplify_eq; try (by eapply Hread); (split_and!; [|done..]); intros; by rewrite pc_other.
Qed.

Lemma reader_moves_itself q now env s s' t : reader_step psk q now env s = Some s' → Reader q ≠ t → pc t s' = pc t s.
Proof.
  intros Hs Hne. set (p := mkAddr (ip q) (port q + 1)).
  destruct (reader_elsewhere q now env s s' p Hs) as (Hpc & _); [|by apply Hpc, not_eq_sym].
  intros E%(f_equal port). cbn in E. lia.
Qed.

Lemma reading_kept p a s s' : reading p s → silent p a → act psk a s = Some s' → reading p s'.
Proof.
  intros Hr Hs Ha. assert (Hp : ∀ t c s1, Reader p ≠ t → pcs s1 = pcs s → pc (Reader p) (set_pc t c s1) = pc (Reader p) s).
  { intros t c s1 Ht E. rewrite pc_other by done. by apply pc_pcs. }
  destruct a as [q|q bs|q|q|q|now env data q|now|k str data|k ev|[q|k|] now env]; cbn [act silent] in *;
    try (injection Ha as <-; by apply reading_local with s).
  - destruct (decide (p = q)) as [->|Hne].
    { exfalso. destruct Hr as [(n & Hn & _) _]. by destruct (pc (Reader q) s). }
    case_match; try done. injection Ha as <-. apply (reading_local p s); [| |cbn; set_solver|done].
    + by apply (Hp _ ToLength s); [congruence|].
    + unfold unread. cbn. by rewrite lookup_insert_ne.
  - case_decide; [done|]. injection Ha as <-. apply (reading_local p s); [done| |done|done]. apply unread_arrived. congruence.
  - injection Ha as <-. apply (reading_local p s); [done..| |done]. cbn. set_solver.
  - case_match; try done. injection Ha as <-. apply (reading_local p s); try done. by apply (Hp Loop).
  - case_match; try done. injection Ha as <-. by apply (reading_local p s).
  - unfold takes in Ha. repeat (case_match; try done); injection Ha as <-; apply (reading_local p s); try done; by apply (Hp (Forwarder k)).
  - destruct (decide (p = q)) as [->|Hne]; [by rewrite reading_stuck in Ha|].
    destruct (reader_elsewhere _ _ _ _ _ p Ha Hne) as (Hpc & Hu & Hc).
    apply (reading_local p s); [by apply Hpc; congruence|done|by rewrite Hc|done].
  - unfold forwarder_step in Ha. assert (Hf : send_step psk (Forwarder k) s = Some s' → reading p s').
    { intros E. destruct (send_elsewhere _ _ _ (Reader p) E) as (Hpc & Hu & Hc); [done|].
      apply (reading_local p s); [done| |by rewrite Hc|done]. unfold unread. by rewrite Hu. }
    repeat (case_match; try done); try (by apply Hf). injection Ha as <-. apply (reading_local p s); try done. by apply Hp.
  - unfold loop_step in Ha. repeat (case_match; try done); injection Ha as <-; apply (reading_local p s); try done; by apply (Hp Loop).
Qed.

(** What the clients were sent, one of them. *)
Definition sent_to (p : SocketAddr) (s : Sys) : list (list byte) := (filter (λ e, e.1 = p) (written s)).*2.

Lemma reading_unsent p a s s' : ok s → reading p s → act psk a s = Some s' → sent_to p s' = sent_to p s.
Proof.
  intros [He _] Hr Ha. unfold sent_to. f_equal. destruct (act_effect a s s' Ha) as [[_ Hw]|_ Hw|t c out f q Hpc _ Hw _].
  - by rewrite (Hw : written s' = written s).
  - by rewrite Hw.
  - rewrite Hw, filter_app, filter_cons_False, filter_nil; [apply app_nil_r|]. cbn. intros ->.
    assert (t = Reader p) as ->.
    { apply (He (Stream p)); [|by apply reading_holds]. rewrite Hpc. cbn. by apply bool_decide_eq_true. }
    destruct Hr as [(n & Hn & _) _]. by rewrite Hpc in Hn.
Qed.

(** A run in which a client is silent. *)
Lemma silent_run (P : Sys → Prop) p as_ s s' :
  (∀ a s s', ok s → reading p s → P s → silent p a → act psk a s = Some s' → P s') →
  ok s → reading p s → P s → Forall (silent p) as_ → run psk as_ s = Some s' →
  ok s' ∧ reading p s' ∧ P s'.
Proof.
  intros Ha. revert s. induction as_ as [|a as_ IH]; intros s Ho Hr Hp Hs; cbn [run]; [by intros [= <-]|].
  intros (s1 & E & Hrun)%bind_Some. apply Forall_cons in Hs as [Hs Hss].
  apply (IH s1); try done; [by eapply ok_act|by eapply reading_kept|by eapply Ha].
Qed.

(** C9: A client that has sent no more than a part of a frame gets nothing: whatever the daemon and the other clients
    do, as long as it neither sends nor closes its side its handler keeps reading, and not one
    frame is written to it - its processes may print and end, its answers may be ready. *)
Theorem silent_client_gets_nothing p as_ s s' :
  reachable psk s → reading p s → Forall (silent p) as_ → run psk as_ s = Some s' →
  reading p s' ∧ sent_to p s' = sent_to p s.
Proof.
  intros Hs Hr Hsil Hrun. pose proof (ok_reachable psk s Hs) as Ho.
  destruct (silent_run (λ s', sent_to p s' = sent_to p s) p as_ s s') as (_ & ? & ?); try done.
  intros a s1 s2 Ho1 Hr1 <- _ Ha. by eapply reading_unsent.
Qed.

(** ** The TCP side stalls *)

(** A task has something for a client that is silent. *)
Definition blocked (t : Task) (p : SocketAddr) (s : Sys) : Prop := ∃ c out f, pc t s = ToStream c out f p.
(** No client gets anything, none is registered or forgotten, and if a handler is stalled no frame is handled. *)
Definition stalled (t : Task) (s s' : Sys) : Prop :=
  written s' = written s ∧ conns s' = conns s ∧ (is_reader t = true → tcp (daemon s') = tcp (daemon s)).

Lemma held_not_free t l s : holds t (pc t s) l = true → ¬ is_free l s.
Proof. rewrite free_iff. intros Ht Hf. by rewrite Hf in Ht. Qed.
Lemma blocked_holds t p s : blocked t p s → holds t (pc t s) TcpConns = true.
Proof. by intros (c & out & f & ->). Qed.
(** A task that waits is left where it is by all but its own steps. *)
Lemma bystander t a s s' :
  match a with Steps t' _ _ => t' ≠ t | _ => True end → pc t s ≠ Selecting → pc t s ≠ Ended →
  act psk a s = Some s' → pc t s' = pc t s.
Proof.
  intros Hne Hsel Hend Ha. assert (Ho : ∀ t' c s1, pc t' s = Selecting ∨ pc t' s = Ended → pcs s1 = pcs s → pc t (set_pc t' c s1) = pc t s).
  { intros t' c s1 Ht E. rewrite pc_other; [by apply pc_pcs|]. intros ->. by destruct Ht. }
  destruct a as [q|q bs|q|q|q|now env data q|now|k str data|k ev|[q|k|] now env]; cbn [act] in *;
    try (injection Ha as <-; by apply pc_pcs).
  - destruct (pc (Reader q) s) eqn:Hpc; try done. injection Ha as <-. apply (Ho (Reader q) ToLength s); auto.
  - case_decide; [done|]. by injection Ha as <-.
  - destruct (pc Loop s) eqn:Hpc; try done. injection Ha as <-. apply Ho; auto.
  - case_match; try done. by injection Ha as <-.
  - unfold takes in Ha. destruct (pc (Forwarder k) s) eqn:Hpc; try by destruct ev.
    destruct (tasks _ !! k); [|by destruct ev]. destruct ev; [done|..]; injection Ha as <-; apply (Ho (Forwarder k)); auto.
  - by eapply reader_moves_itself.
  - unfold forwarder_step in Ha. repeat (case_match; try done); try (by eapply send_elsewhere). injection Ha as <-. by rewrite pc_other.
  - unfold loop_step in Ha. repeat (case_match; try done); injection Ha as <-; by rewrite pc_other.
Qed.
Lemma blocked_kept t p a s s' : reading p s → blocked t p s → act psk a s = Some s' → blocked t p s'.
Proof.
  intros Hr (c & out & f & Hpc) Ha. assert (Hnf : ¬ is_free (Stream p) s) by by eapply held_not_free, reading_holds.
  assert (Hstep : ∀ now env, act psk (Steps t now env) s = None).
  { intros now env. cbn. destruct t; unfold reader_step, forwarder_step, loop_step; rewrite Hpc; [..|done];
      unfold send_step; rewrite Hpc; by rewrite decide_False. }
  assert (Hsame : pc t s' = pc t s); [|exists c, out, f; by rewrite Hsame].
  apply (bystander t a); [|by rewrite Hpc..|done].
  destruct a as [| | | | | | | | |t' now env]; try done. intros ->. by rewrite Hstep in Ha.
Qed.
Lemma blocked_stalls t p a s s' : ok s → reading p s → blocked t p s → act psk a s = Some s' → stalled t s s'.
Proof.
  intros [He _] Hr Hb Ha. pose proof (blocked_holds t p s Hb) as Hh. split_and!.
  - destruct (act_effect a s s' Ha) as [[_ Hw]|Hf _|t' c out f q Hpc _ _ _]; [done|by apply held_not_free in Hh|].
    assert (t' = t) as -> by (apply (He TcpConns); [by rewrite Hpc|done]). destruct Hb as (? & ? & ? & E). congruence.
  - destruct (act_effect a s s' Ha) as [[Hc _]|Hf _|t' c out f q Hpc _ _ Hc]; [done|by apply held_not_free in Hh|done].
  - intros Ht. destruct (act_tcp a s s' Ha) as [|Hf]; [done|]. apply (held_not_free t) in Hf; [done|].
    destruct Hb as (? & ? & ? & ->). by destruct t.
Qed.

Lemma stalled_run t p as_ s s' :
  ok s → reading p s → blocked t p s → Forall (silent p) as_ → run psk as_ s = Some s' → stalled t s s'.
Proof.
  intros Ho Hr Hb Hsil Hrun.
  destruct (silent_run (λ s', blocked t p s' ∧ stalled t s s') p as_ s s') as (_ & _ & _ & ?); try done.
  intros a s1 s2 Ho1 Hr1 [Hb1 (Hw & Hc & Ht)] _ Ha. split; [by eapply blocked_kept|].
  destruct (blocked_stalls t p a s1 s2 Ho1 Hr1 Hb1 Ha) as (Hw' & Hc' & Ht').
  split_and!; [congruence..|]. intros E. by rewrite Ht', Ht.
Qed.

(** ** Only clients and native commands are waited for *)

(** A task waits for a native command to end. *)
Definition in_command (t : Task) (s : Sys) : Prop :=
  match pc t s with Runs _ _ _ _ | InLoop _ (Running _ _ _ _) => True | _ => False end.
(** A task moves of its own; or a client is waited for: to send, or to take what is written to it. *)
Definition can_step (t : Task) (s : Sys) : Prop :=
  ¬ in_command t s ∧ ∃ now env s', act psk (Steps t now env) s = Some s'.
Definition awaited (p : SocketAddr) (s : Sys) : Prop :=
  reading p s ∨ (p ∈ full s ∧ ∃ t c out f, pc t s = InStream c out f p).
Definition progress (s : Sys) : Prop := (∃ t, can_step t s) ∨ (∃ p, awaited p s) ∨ (∃ t, in_command t s).

Lemma not_free_held l s : ¬ is_free l s → ∃ t, holds t (pc t s) l = true.
Proof.
  unfold is_free. intros (t & c & Hc & Hh)%map_not_Forall; [|apply _]. exists t. unfold pc. rewrite Hc. cbn.
  by destruct (holds t c l).
Qed.
Lemma any_can t now env s s' : act psk (Steps t now env) s = Some s' → progress s.
Proof.
  intros E. assert (Hd : in_command t s ∨ ¬ in_command t s) by (unfold in_command; repeat case_match; auto).
  destruct Hd; [right; right; by exists t|left]. exists t. split; [done|]. by exists now, env, s'.
Qed.
Lemma reader_can p now env s s' : reader_step psk p now env s = Some s' → progress s.
Proof. apply (any_can (Reader p) now env). Qed.
Definition any_env : Env := mkEnv true None true None.
Lemma send_can t s s' : sensible t (pc t s) → send_step psk t s = Some s' → progress s.
Proof.
  intros Hsen Hs. apply (any_can t 0 any_env _ s'). cbn. unfold send_step in *. destruct t as [p|k|].
  - unfold reader_step, send_step. by destruct (pc (Reader p) s) as [| | | | | | | | |c [|[f|l m] out]|c out f q|c out f q| | |].
  - unfold forwarder_step, send_step. by destruct (pc (Forwarder k) s) as [| | | | | | | | |c [|[f|l m] out]|c out f q|c out f q| | |].
  - by destruct (pc Loop s).
Qed.

(** A task that waits for a lock moves when the lock is free, or its holder does. *)
Lemma wait_progress l s : (∀ t, holds t (pc t s) l = true → progress s) → (is_free l s → progress s) → progress s.
Proof. intros Hh Hf. destruct (decide (is_free l s)) as [|(t & Ht)%not_free_held]; [by apply Hf|by apply (Hh t)]. Qed.

Lemma read_progress p n s : wanted (pc (Reader p) s) = Some n → progress s.
Proof.
  intros Hn. destruct (read_exact p n s) as [[bs s1]|] eqn:E.
  - destruct (reader_step psk p 0 any_env s) as [s'|] eqn:Es; [by eapply reader_can|]. exfalso. unfold reader_step in Es.
    destruct (pc (Reader p) s); try done; injection Hn as <-; by rewrite E in Es.
  - right. left. exists p. left. unfold read_exact in E. case_match eqn:El; [done|]. apply Nat.leb_gt in El. case_decide; [done|].
    split; [by exists n|done].
Qed.
Lemma write_progress t c out f q s : sensible t (pc t s) → pc t s = InStream c out f q → progress s.
Proof.
  intros Hs Hpc. destruct (decide (q ∈ full s)) as [Hq|Hq].
  - right. left. exists q. right. split; [done|by exists t, c, out, f].
  - eapply (send_can t); [done|]. unfold send_step. rewrite Hpc. by rewrite decide_False.
Qed.
Lemma stream_progress p t s : sensible t (pc t s) → holds t (pc t s) (Stream p) = true → progress s.
Proof.
  intros Hs. destruct (pc t s) eqn:Hpc; try done; cbn; intros Hh%bool_decide_eq_true.
  - subst t. by apply (read_progress p 4); rewrite Hpc.
  - subst t. by apply (read_progress p n); rewrite Hpc.
  - eapply write_progress; [|done]. by rewrite Hpc.
Qed.
Lemma conns_progress t s : all_sensible s → holds t (pc t s) TcpConns = true → progress s.
Proof.
  intros Hall. pose proof (Hall t) as Hs.
  destruct (pc t s) as [| | | | | | | | | |c out f q|c out f q| | |] eqn:Hpc; try done; intros _;
    [|eapply write_progress; [|done]; by rewrite Hpc].
  apply (wait_progress (Stream q)); [intros t'; by apply stream_progress|]. intros Hf.
  eapply (send_can t); [by rewrite Hpc|]. unfold send_step. rewrite Hpc. by rewrite decide_True.
Qed.
Lemma sending_progress t c out s : all_sensible s → pc t s = Sending c out → progress s.
Proof.
  intros Hall Hpc. pose proof (Hall t) as Hs. destruct out as [|[f|l m] out].
  - rewrite Hpc in Hs. destruct t as [p|k|]; [eapply (any_can (Reader p) 0 any_env)|eapply (any_can (Forwarder k) 0 any_env)|done];
      cbn; unfold reader_step, forwarder_step; rewrite Hpc; reflexivity.
  - apply (wait_progress TcpConns); [intros t'; by apply conns_progress|]. intros Hf.
    eapply (send_can t); [done|]. unfold send_step. rewrite Hpc. by rewrite decide_True.
  - eapply (send_can t); [done|]. unfold send_step. rewrite Hpc. unfold next_seq. reflexivity.
Qed.
Lemma holder_progress t l s : ok s → holds t (pc t s) l = true → progress s.
Proof.
  intros [_ Hall]. assert (Hlow : ∀ t, holds t (pc t s) Connections = true → progress s).
  { intros t'. pose proof (Hall t') as Hs.
    destruct (pc t' s) as [| | | | | | |c l' i fb| |c out|c out f q|c out f q| | |] eqn:Hpc; try done; intros _.
    - right. right. exists t'. unfold in_command. by rewrite Hpc.
    - by eapply sending_progress.
    - apply (conns_progress t'); [done|]. by rewrite Hpc.
    - eapply write_progress; [|done]. by rewrite Hpc. }
  pose proof (Hall t) as Hs. intros Hh.
  destruct l as [| | |p]; [|by eapply Hlow|by eapply conns_progress|by eapply stream_progress].
  destruct (pc t s) as [| | | | | |frame|c l' i fb| |c out|c out f q|c out f q| | |] eqn:Hpc; try done; try (apply (Hlow t); by rewrite Hpc).
  destruct t as [p|k|]; [|done..]. apply (wait_progress Connections); [done|]. intros Hf. destruct Hs as [hd Hhd].
  eapply (reader_can p 0 any_env). unfold reader_step. rewrite Hpc, decide_True by done. rewrite Hhd. cbn [mbind option_bind].
  rewrite (surjective_pairing (begin _ _ _ _ _ _ _ _)), (surjective_pairing (begin _ _ _ _ _ _ _ _).1). reflexivity.
Qed.


(** While a client's native command runs, no frame of any client is handled: everything else may go on, but
    not the TCP side. *)
Theorem command_stops_frames p as_ s s' :
  reachable psk s → (∃ c l id failed, pc (Reader p) s = Runs c l id failed) →
  Forall (λ a, match a with Steps t _ _ => t ≠ Reader p | _ => True end) as_ → run psk as_ s = Some s' →
  pc (Reader p) s' = pc (Reader p) s ∧ tcp (daemon s') = tcp (daemon s).
Proof.
  intros _ (c & l & i & fb & Hpc). revert s Hpc. induction as_ as [|a as_ IH]; intros s Hpc; cbn [run]; [by intros _ [= <-]|].
  intros [Ha Hall]%Forall_cons (s1 & E & Hr)%bind_Some.
  assert (Etcp : tcp (daemon s1) = tcp (daemon s)).
  { destruct (act_tcp a s s1 E) as [|Hf]; [done|]. rewrite free_iff in Hf. specialize (Hf (Reader p)). by rewrite Hpc in Hf. }
  assert (Epc : pc (Reader p) s1 = pc (Reader p) s).
  { apply (bystander (Reader p) a); [by destruct a|by rewrite Hpc..|done]. }
  destruct (IH s1) as [E1 E2]; [congruence|done..|]. split; congruence.
Qed.
(** As long as the UDP loop waits for a native command, it takes neither a datagram nor a tick. *)
Theorem command_stops_loop p c l i failed s :
  pc Loop s = InLoop p (Running c l i failed) →
  ∀ now env data q, act psk (Datagram now env data q) s = None ∧ act psk (Tick now) s = None.
Proof. intros Hpc now env data q. cbn. by rewrite Hpc. Qed.

(** Two clients: [a] names the connection [c] with a heartbeat and says no more; [b] asks for it. *)
Definition strangers (a b : SocketAddr) (c : Z) (now : Instant) (env : Env) : list Action :=
  [Connects a; Arrives a (tcp_frame (Connection.build_heartbeat c))] ++ replicate 9 (Steps (Reader a) now env) ++
  [Connects b; Arrives b (tcp_frame (Connection.build_syn c))] ++ replicate 8 (Steps (Reader b) now env).

(** A new limiter allows a first SYN. *)
Lemma new_allows_syn now a : (RateLimiter.check_syn now a RateLimiter.new).1 = true.
Proof.
  unfold RateLimiter.check_syn, RateLimiter.check. cbn [syn_counts RateLimiter.new]. rewrite lookup_empty. cbn [default fst snd].
  unfold duration_since. rewrite Z.sub_diag. done.
Qed.

Context `{!BufCrateOk}.
Lemma bare_size c t : u64_ok c → (0 < length (encode (Connection.bare c t) []) ≤ MAX_PACKET + 4)%nat.
Proof. intros. rewrite length_encode by done. unfold MAX_PACKET, HEADER_SIZE, MAX_PAYLOAD. lia. Qed.
Lemma bare_fits c t : u64_ok c → fits 32 (len (encode (Connection.bare c t) [])).
Proof. intros. rewrite length_encode by done. done. Qed.

(** A client that connects and sends [data]. *)
Lemma run_connects p data s : pc (Reader p) s = Ended →
  run psk [Connects p; Arrives p data] s = Some (put p (mkSys (pcs s) (arrived s) (closed s ∖ {[p]}) (full s ∖ {[p]}) (daemon s)) ToLength data (daemon s)).
Proof.
  intros Hpc. cbn [run act mbind option_bind]. rewrite Hpc. cbn [mbind option_bind].
  rewrite decide_False by (cbn; set_solver). unfold set_arrived, put, unread. cbn. by rewrite lookup_insert_eq, insert_insert_eq.
Qed.

(** A packet without contents is no control message: its handler is one piece. *)
Lemma begin_bare c t now env p ep h : u64_ok c → t ≠ Data →
  begin psk Tcp now env (encode (Connection.bare c t) []) p ep h =
    (handle_packet_tcp psk now env (encode (Connection.bare c t) []) p ep h, None).
Proof. intros. unfold begin, control_of. rewrite decode_bare by done. cbn. by destruct t. Qed.

(** After a heartbeat, the connection is [a]'s and its handler reads again. *)
Lemma heartbeat_registers a c now env s :
  u64_ok c → undisturbed a s → tcp_conns (host (daemon s)) !! c = None →
  ∃ d, run psk (replicate 9 (Steps (Reader a) now env)) (put a s ToLength (tcp_frame (Connection.build_heartbeat c)) (daemon s)) =
      Some (put a s InLength [] d) ∧
    tcp d = update_conn (λ x, if is_established x then touch now x else x) c (tcp (daemon s)) ∧
    tcp_conns (host d) = <[c := a]> (tcp_conns (host (daemon s))).
Proof.
  intros Hc Hu Hnone. unfold Connection.build_heartbeat. rewrite <-(app_nil_r (tcp_frame _)). change 9%nat with (7 + 2)%nat. rewrite replicate_add.
  eexists. split; [|split].
  - erewrite run_app by (apply (run_handles psk a s Hu); [by apply bare_fits|by apply bare_size|by apply decode_bare]).
    rewrite begin_bare by done. cbn [fst snd begun]. unfold handle_packet_tcp. rewrite decode_bare by done. cbn [Connection.bare pkt_type conn_id].
    unfold frames, news. cbn [snd fst aside set_tcp_conns trace]. rewrite drop_all. cbn [omap list_omap fmap list_fmap].
    erewrite run_step by apply step_done. erewrite run_step by (by apply step_lock_length). reflexivity.
  - reflexivity.
  - cbn. unfold register. by rewrite Hnone.
Qed.
(** A SYN for a connection that is another client's: its answer waits for the other client's stream. *)
Lemma syn_waits a b c now env s :
  u64_ok c → undisturbed b s → tcp_conns (host (daemon s)) !! c = Some a →
  connections (tcp (daemon s)) !! c = None → (RateLimiter.check_syn now (ip b) (limiter (tcp (daemon s)))).1 = true →
  ∃ d, run psk (replicate 8 (Steps (Reader b) now env)) (put b s ToLength (tcp_frame (Connection.build_syn c)) (daemon s)) =
    Some (put b s (ToStream c [] (tcp_frame (Connection.build_syn_ack c)) a) [] d).
Proof.
  intros Hc Hu Ha Hnone Hok. unfold Connection.build_syn. rewrite <-(app_nil_r (tcp_frame (encode (Connection.bare c Syn) []))). change 8%nat with (7 + 1)%nat. rewrite replicate_add.
  destruct (RateLimiter.check_syn _ _ _) as [ok rl] eqn:Erl. cbn in Hok. subst ok.
  eexists. erewrite run_app by (apply (run_handles psk b s Hu); [by apply bare_fits|by apply bare_size|by apply decode_bare]).
  rewrite begin_bare by done. cbn [fst snd begun]. unfold handle_packet_tcp. rewrite decode_bare by done. cbn [Connection.bare pkt_type conn_id].
  rewrite Erl. cbn [negb connections]. rewrite Hnone.
  cbn [new_connection new_counter fst snd aside set_tcp_conns]. unfold tcp_send. cbn [tcp_conns set_counters aside set_tcp_conns]. rewrite lookup_singleton_eq.
  unfold frames, news. cbn [emit trace set_counters aside set_tcp_conns]. rewrite drop_app_length. cbn [omap list_omap tcp_data fmap list_fmap].
  erewrite run_step; [reflexivity|].
  unfold reader_step, send_step. rewrite put_pc. rewrite decide_True by (by apply put_free).
  assert (E : tcp_conns (register c b (host (daemon s))) !! c = Some a) by (unfold register; by rewrite Ha).
  match goal with |- context [tcp_conns (host (daemon ?x)) !! c] =>
    change (tcp_conns (host (daemon x))) with (tcp_conns (register c b (host (daemon s)))) end.
  rewrite E. by rewrite put_set_pc.
Qed.

Lemma strangers_block a b c now env :
  a ≠ b → u64_ok c →
  ∃ s, run psk (strangers a b c now env) (start now) = Some s ∧ reading a s ∧ blocked (Reader b) a s.
Proof.
  intros Hne Hc.
  unfold strangers. erewrite run_app by by apply run_connects.
  match goal with |- context [put a ?x ToLength _ _] => set (s0 := x) end.
  destruct (heartbeat_registers a c now env s0 Hc) as (d1 & E1 & Etcp & Econns); [by intros [] []|done|].
  change (daemon s0) with (daemon (start now)) in E1. erewrite run_app by exact E1. set (s1 := put a s0 InLength [] d1).
  assert (Hb : pc (Reader b) s1 = Ended) by (unfold s1; rewrite put_pc_other by congruence; done).
  erewrite run_app by by apply run_connects.
  match goal with |- context [put b ?x ToLength _ _] => set (s2 := x) end.
  assert (Hpc : ∀ t, t ≠ Reader a → pc t s2 = pc t (start now)) by (intros t Ht; by apply (put_pc_other a s0)).
  destruct (syn_waits a b c now env s2 Hc) as (d2 & E2).
  - intros t l Ht Hl. destruct (decide (t = Reader a)) as [->|Ha]; [|rewrite Hpc by done; by destruct t, l].
    change (pc (Reader a) s2) with (pc (Reader a) s1). unfold s1. rewrite put_pc. destruct l as [| | |q]; [done..|].
    cbn in Hl. subst q. cbn. apply bool_decide_eq_false. congruence.
  - change (tcp_conns (host (daemon s2))) with (tcp_conns (host d1)). rewrite Econns. apply lookup_insert_eq.
  - change (connections (tcp (daemon s2))) with (connections (tcp d1)). rewrite Etcp. cbn. by rewrite lookup_alter_eq, lookup_empty.
  - change (limiter (tcp (daemon s2))) with (limiter (tcp d1)). rewrite Etcp. apply new_allows_syn.
  - change (daemon s2) with (daemon s1) in E2. rewrite E2. eexists. split; [done|]. split; [|eexists _, _, _; by rewrite put_pc].
    split.
    + exists 4%nat. rewrite put_pc_other by congruence. change (pc (Reader a) s2) with (pc (Reader a) s1). unfold s1. rewrite put_pc. split; [done|].
      unfold unread, put. cbn. rewrite lookup_insert_ne by congruence. rewrite lookup_insert_eq. cbn. lia.
    + cbn. set_solver.
Qed.

(** C4: Two clients without the key stop the TCP side.  One names a connection in a heartbeat and says no more; the other
    asks for that connection with a SYN.  From then on, as long as the first one is silent, nothing is
    written to any client, no client is registered, and no frame of any client is handled - the holder of
    the key included - whatever else happens. *)
Theorem two_strangers_stop_tcp a b c now env :
  a ≠ b → u64_ok c →
  ∃ s, run psk (strangers a b c now env) (start now) = Some s ∧ reading a s ∧
    ∀ as_ s', Forall (silent a) as_ → run psk as_ s = Some s' → stalled (Reader b) s s'.
Proof.
  intros Hne Hc. destruct (strangers_block a b c now env Hne Hc) as (s & Hrun & Hr & Hb).
  exists s. split; [done|]. split; [done|]. intros as_ s' Hsil Hrun'.
  eapply stalled_run; try done. apply (ok_reachable psk). by exists now, (strangers a b c now env).
Qed.
End Tasks.

(** ** Witnesses *)

Lemma one_client_reads : reading cl one_client.
Proof. split; [exists 4%nat; split; [by vm_compute|vm_compute; lia]|by vm_compute]. Qed.
Lemma silent_client_gets_nothing_witness :
  ∃ s', run sample_psk [Tick (from_secs 9); Datagram 1 all_ok (Connection.build_syn 42) other] one_client = Some s' ∧
    reading cl s' ∧ sent_to cl s' = [].
Proof.
  eexists. split; [reflexivity|].
  eapply (silent_client_gets_nothing sample_psk cl [Tick (from_secs 9); Datagram 1 all_ok (Connection.build_syn 42) other] one_client).
  - apply one_client_reachable.
  - apply one_client_reads.
  - by repeat constructor.
  - reflexivity.
Defined.
Lemma two_strangers_stop_tcp_witness :
  ∃ s, run sample_psk (strangers cl other 42 0 all_ok) (start 0) = Some s ∧ reading cl s ∧
    ∀ as_ s', Forall (silent cl) as_ → run sample_psk as_ s = Some s' → stalled (Reader other) s s'.
Proof. by apply (two_strangers_stop_tcp sample_psk cl other 42 0 all_ok). Defined.
