(* ===== verification/TcpRefine.v ===== *)
(** * TcpRefine: the tasks of lan-linkd refine the daemon taken in pieces

    Daemon takes each handler and each turn of a task as one step, DaemonParts
    cuts the handlers that wait for a native command or start a process.  TcpTasks lets
    them wait for each other between the work and the sending, in any order.
    Here this is simulated by the daemon in pieces: whatever the interleaving, the
    tables, the tasks, the files and all that is not sent over TCP are those of a run
    of [DaemonParts.pstep], and so is what the two sides have begun; only what is registered
    for a connection and when its frames leave is the business of the tasks. *)
From S2P Require Import Prelude Frame Stream RateLimit Connection Daemon DaemonProofs DaemonParts TcpTasks TcpTasksProofs TcpServed.

(** The same host, but for the table of the TCP connections and what was sent to them. *)
Definition same (a b : Host) : Prop :=
  ∃ m v, b = set_trace v (set_tcp_conns m a) ∧ filter not_tcp v = filter not_tcp (trace a).

Lemma same_refl h : same h h.
Proof. exists (tcp_conns h), (trace h). by destruct h. Qed.
Lemma same_trans a b c : same a b → same b c → same a c.
Proof. intros (m & v & -> & E) (m' & v' & -> & E'). exists m', v'. split; [done|]. cbn in E'. congruence. Qed.
Lemma same_sym a b : same a b → same b a.
Proof. intros (m & v & -> & E). exists (tcp_conns a), (trace a). split; [by destruct a|done]. Qed.
#[export] Instance same_equivalence : Equivalence same.
Proof. split; [exact same_refl|exact same_sym|exact same_trans]. Qed.

Lemma same_table m h : same h (set_tcp_conns m h).
Proof. exists m, (trace h). split; [by destruct h|done]. Qed.
Lemma same_sent p f h : same h (emit (SentTcp p f) h).
Proof.
  exists (tcp_conns h), (trace h ++ [SentTcp p f]). split; [by destruct h|]. rewrite filter_app. cbn. apply app_nil_r.
Qed.

(** An operation that does not look at them. *)
Definition blind (f : Host → Host) : Prop := ∀ a b, same a b → same (f a) (f b).
#[export] Instance emit_proper e : Proper (same ==> same) (emit e).
Proof. intros a b (m & v & -> & E). exists m, (v ++ [e]). split; [done|]. cbn. by rewrite !filter_app, E. Qed.
Lemma same_fields a b : same a b →
  counters b = counters a ∧ tasks b = tasks a ∧ exec_map b = exec_map a ∧ transfers b = transfers a ∧ disk b = disk a ∧ next_task b = next_task a.
Proof. by intros (m & v & -> & _). Qed.

(** What changes other fields, in the same way on both. *)
Ltac alike Hs := let m := fresh in let v := fresh in destruct Hs as (m & v & -> & Hs); exists m, v; by split.
Create HintDb same discriminated.
#[export] Hint Resolve same_refl emit_proper same_table same_sent : same.

Section Blind.
Context `{BufCrate} `{AeadCrate} `{ControlCodec}.
Variable psk : Psk.

Lemma same_next_seq l a b : same a b → (next_seq l b).1 = (next_seq l a).1 ∧ same (next_seq l a).2 (next_seq l b).2.
Proof. intros Hs. split; [by destruct Hs as (m & v & -> & _)|alike Hs]. Qed.
Lemma same_tcp_send c data h : same h (tcp_send c data h).
Proof. unfold tcp_send. case_match; auto with same. Qed.
#[export] Instance tcp_send_proper c data : Proper (same ==> same) (tcp_send c data).
Proof. intros a b Hs. etransitivity; [symmetry; apply same_tcp_send|]. etransitivity; [exact Hs|apply same_tcp_send]. Qed.
#[export] Instance send_control_proper c p q m : Proper (same ==> same) (send_control psk c p q m).
Proof. intros a b Hs. unfold send_control. case_match; [by f_equiv|done]. Qed.
#[export] Instance reply_on_proper route c l m : Proper (same ==> same) (reply_on psk route c l m).
Proof.
  intros a b Hs. destruct (same_next_seq l a b Hs) as [E1 E2]. destruct route; unfold reply_on, reply_udp, reply_tcp;
    destruct (next_seq l a), (next_seq l b); cbn in E1, E2; subst; [by apply send_control_proper|by apply tcp_send_proper].
Qed.
#[export] Instance reply_udp_proper c p l m : Proper (same ==> same) (reply_udp psk c p l m).
Proof. apply (reply_on_proper (ViaUdp p)). Qed.
#[export] Instance reply_tcp_proper c l m : Proper (same ==> same) (reply_tcp psk c l m).
Proof. apply (reply_on_proper ViaTcp). Qed.
#[export] Instance spawn_proper env c route l i cmd : Proper (same ==> same) (spawn_exec psk env c route l i cmd).
Proof. intros a b Hs. unfold spawn_exec. case_match; apply reply_on_proper; [alike Hs|done]. Qed.
#[export] Instance native_proper env fb c route l i : Proper (same ==> same) (run_native psk env fb c route l i).
Proof. intros a b Hs. unfold run_native. destruct (default _ _). by do 2 f_equiv. Qed.
#[export] Instance send_exec_proper i cmd : Proper (same ==> same) (send_exec i cmd).
Proof.
  intros a b Hs. unfold send_exec. destruct (same_fields a b Hs) as (_ & -> & -> & _).
  repeat case_match; [alike Hs|done..].
Qed.
Lemma same_file_push env i path sz (reply : Host → Host) a b : Proper (same ==> same) reply → same a b →
  same (match file_push env i path sz a with Some h => reply h | None => a end)
       (match file_push env i path sz b with Some h => reply h | None => b end).
Proof. intros Hr Hs. unfold file_push. destruct (open_ok env); [|done]. apply Hr. alike Hs. Qed.
Lemma same_file_chunk env i off ch (reply : Z → Host → Host) a b : (∀ k, Proper (same ==> same) (reply k)) → same a b →
  same (match file_chunk env i off ch a with (h, Some k) => reply k h | (h, None) => h end)
       (match file_chunk env i off ch b with (h, Some k) => reply k h | (h, None) => h end).
Proof.
  intros Hr Hs. assert (Hb : same (file_chunk env i off ch a).1 (file_chunk env i off ch b).1 ∧
    (file_chunk env i off ch b).2 = (file_chunk env i off ch a).2).
  { unfold file_chunk. destruct (same_fields a b Hs) as (_ & _ & _ & -> & -> & _).
    destruct (transfers a !! i); [|done]. destruct (write_fails env); [split; [alike Hs|done]|].
    case_match; split; try done; alike Hs. }
  destruct (file_chunk env i off ch a) as [a' [k|]], (file_chunk env i off ch b) as [b' k'], Hb as [Hb E];
    cbn in E; subst k'; [by apply Hr|done].
Qed.
#[export] Instance handle_msg_proper env m c p l : Proper (same ==> same) (handle_msg psk env m c p l).
Proof.
  intros a b Hs. destruct m; cbn [handle_msg]; try done; try (by f_equiv).
  - apply same_file_push; [apply _|done].
  - apply (same_file_chunk _ _ _ _ (λ k, reply_udp psk c p l (FileAck id k))); [apply _|done].
  - case_match; [by f_equiv|done].
  - case_match; by f_equiv.
Qed.
#[export] Instance handle_msg_tcp_proper env m c l : Proper (same ==> same) (handle_msg_tcp psk env m c l).
Proof.
  intros a b Hs. destruct m; cbn [handle_msg_tcp]; try done; try (by f_equiv).
  - apply same_file_push; [apply _|done].
  - apply (same_file_chunk _ _ _ _ (λ k, reply_tcp psk c l (FileAck id k))); [apply _|done].
  - case_match; [by f_equiv|done].
  - case_match; by f_equiv.
Qed.

(** The result of a handler: the same endpoint, and the same host. *)
Definition same_result (r r' : Endpoint * Host) : Prop := r'.1 = r.1 ∧ same r.2 r'.2.
Lemma same_new now c p ep a b : same a b → same_result (new_connection now c p ep a) (new_connection now c p ep b).
Proof.
  intros Hs. unfold new_connection. cbn. destruct (same_fields a b Hs) as (-> & _). split; [done|]. alike Hs.
Qed.
Lemma same_handle_inner now env data p ep a b : same a b →
  same_result (handle_packet_inner psk now env data p ep a) (handle_packet_inner psk now env data p ep b).
Proof.
  intros Hs. unfold handle_packet_inner. destruct (decode_header data) as [hd|]; [|done]. destruct (pkt_type hd); try done.
  - destruct (RateLimiter.check_syn _ _ _) as [[] rl]; [|done]. cbn [negb connections]. case_match; [done|].
    destruct (connections ep !! conn_id hd); [case_decide; [|done]; split; [done|by apply emit_proper]|].
    destruct (same_new now (conn_id hd) p (mkEndpoint (connections ep) rl) a b Hs) as [E1 E2].
    destruct (new_connection _ _ _ _ a), (new_connection _ _ _ _ b). cbn in E1, E2. subst. split; [done|by apply emit_proper].
  - repeat (case_match; try done). split; [done|]. cbn [snd]. unfold handle_control. case_match; [by apply handle_msg_proper|done].
  - repeat (case_match; try done). split; [done|by apply emit_proper].
Qed.
Lemma same_handle_tcp now env data p ep a b : same a b →
  same_result (handle_packet_tcp psk now env data p ep a) (handle_packet_tcp psk now env data p ep b).
Proof.
  intros Hs. unfold handle_packet_tcp. destruct (decode_header data) as [hd|]; [|done]. destruct (pkt_type hd); try done.
  - destruct (RateLimiter.check_syn _ _ _) as [[] rl]; [|done]. cbn [negb connections].
    destruct (connections ep !! conn_id hd); [case_decide; [|done]; split; [done|by apply tcp_send_proper]|].
    destruct (same_new now (conn_id hd) p (mkEndpoint (connections ep) rl) a b Hs) as [E1 E2].
    destruct (new_connection _ _ _ _ a), (new_connection _ _ _ _ b). cbn in E1, E2. subst. split; [done|by apply tcp_send_proper].
  - repeat (case_match; try done). split; [done|]. cbn [snd]. unfold handle_control_tcp. case_match; [by apply handle_msg_tcp_proper|done].
Qed.
#[export] Instance heartbeats_proper conns : Proper (same ==> same) (send_heartbeats conns).
Proof.
  intros a b Hs. unfold send_heartbeats. induction (map_to_list conns) as [|e l IH]; [done|]. cbn [foldr].
  unfold heartbeat at 1 3. case_match; [by f_equiv|done].
Qed.
#[export] Instance run_task_proper k ev : Proper (same ==> same) (run_task psk k ev).
Proof.
  intros a b Hs. unfold run_task. destruct (same_fields a b Hs) as (_ & Et & Ee & _). rewrite Et.
  destruct (tasks a !! k) as [t|]; [|done]. destruct ev.
  - alike Hs.
  - case_match; [done|]. case_match. f_equiv. alike Hs.
  - apply (reply_on_proper (task_route t) (task_conn t) (task_seq t) (ExecDone (task_id t) code)) in Hs. alike Hs.
  - unfold sender_alive. rewrite Ee. case_match; [case_match; [done|f_equiv; alike Hs]|]. case_match; f_equiv; alike Hs.
Qed.

(** ** What the work for a connection leaves *)

(** Nothing that was sent is taken back. *)
Definition grows (a b : Host) : Prop := trace a `prefix_of` trace b.
Lemma grows_refl h : grows h h.
Proof. unfold grows. done. Qed.
Lemma grows_reply_on route c l m h : grows h (reply_on psk route c l m h).
Proof.
  unfold grows. destruct route; cbn; unfold reply_udp, reply_tcp, send_control, tcp_send; cbn; case_match; cbn;
    first [by eexists|exists []; by rewrite app_nil_r].
Qed.
Lemma grows_run_task k ev h : grows h (run_task psk k ev h).
Proof.
  unfold run_task. destruct (tasks h !! k) as [t|]; [|apply grows_refl].
  destruct ev; repeat case_match; try exact (grows_refl h); try (by eexists).
  - apply (grows_reply_on _ _ _ _ (put_task k t (inbox t) _ h)).
  - apply (grows_reply_on (task_route t) (task_conn t) (task_seq t) (ExecDone (task_id t) code) h).
Qed.
Lemma grows_handle now env data p ep c h hd : decode_header data = Some hd → conn_id hd = c →
  grows h (handle_packet_tcp psk now env data p ep (aside c h)).2.
Proof.
  intros Hhd Hc. destruct (twin_packet psk (trace h) {[c := p]} c p (lookup_singleton_eq c p) now env data ep (aside c h)
    (set_tcp_conns {[c := p]} h) hd Hhd Hc) as [_ [_ (fs & E & _)]]; [|by eexists].
  split; [done|]. exists []. rewrite !app_nil_r. by destruct h.
Qed.
Lemma same_put_back h h' : grows h h' → same (put_back h h') h'.
Proof.
  intros [es E]. exists (tcp_conns h'), (trace h'). split; [by destruct h'|]. unfold put_back, news. rewrite E, drop_app_length.
  cbn. rewrite !filter_app. f_equal. symmetry. clear E. induction es as [|e es IH]; [done|].
  rewrite filter_cons. case_decide; [rewrite filter_cons_True by done; by f_equal|exact IH].
Qed.

Lemma same_deferred env s p msg c l a b : same a b →
  match deferred env s p msg c l a, deferred env s p msg c l b with
  | Some (w, a'), Some (w', b') => w' = w ∧ same a' b'
  | None, None => True
  | _, _ => False
  end.
Proof.
  intros Hs. unfold deferred. destruct (same_fields a b Hs) as (_ & Et & Ee & _ & _ & En).
  destruct msg, s; try done; repeat case_match; simplify_eq; try done; (split; [done|]); unfold put_exec; rewrite ?Et, ?Ee, ?En; alike Hs.
Qed.
Lemma same_begin s now env data p ep a b : same a b →
  let ra := begin psk s now env data p ep a in
  let rb := begin psk s now env data p ep b in
  same_result ra.1 rb.1 ∧ rb.2 = ra.2.
Proof.
  intros Hs. assert (Hp : same_result (packet psk s now env data p ep a) (packet psk s now env data p ep b)).
  { destruct s; [by apply same_handle_inner|by apply same_handle_tcp]. }
  unfold begin. destruct (control_of _ _ _ _ _ _) as [[[[ep' msg] c] l]|]; [|done].
  pose proof (same_deferred env s p msg c l a b Hs) as Hd.
  destruct (deferred env s p msg c l a) as [[w a']|], (deferred env s p msg c l b) as [[w' b']|]; try done.
  by destruct Hd as [-> Hd].
Qed.
Lemma grows_begin now env data p ep c h hd : decode_header data = Some hd → conn_id hd = c →
  grows h (begin psk Tcp now env data p ep (aside c h)).1.2.
Proof.
  intros Hhd Hc. pose proof (grows_handle now env data p ep c h hd Hhd Hc) as Hg. unfold begin.
  destruct (control_of _ _ _ _ _ _) as [[[[ep' msg] c'] l]|]; [|done].
  destruct (deferred _ _ _ _ _ _ _) as [[w h']|] eqn:Hd; [|done]. unfold deferred in Hd.
  unfold grows. repeat (case_match; try done); simplify_eq; done.
Qed.

(** ** The simulation *)

Record agree (a b : Daemon) : Prop := {
  agree_udp : udp b = udp a; agree_tcp : tcp b = tcp a; agree_hb : last_hb b = last_hb a; agree_host : same (host a) (host b)
}.
Lemma agree_on_host a b h h' : agree a b → same h h' → agree (Daemon.on_host h a) (Daemon.on_host h' b).
Proof. intros [] Hs. by split. Qed.
Lemma agree_left a b h : agree a b → same (host a) h → agree (Daemon.on_host h a) b.
Proof. intros [] Hs. split; try done. cbn. etransitivity; [symmetry; exact Hs|done]. Qed.

(** What a reader, and the loop, have begun. *)
Definition answers (out : list Out) : list (nat * ControlMsg) :=
  omap (λ o, match o with Answer l m => Some (l, m) | Frame _ => None end) out.
Definition reader_work (c : Pc) : option Work :=
  match c with
  | Runs c l id failed => Some (Running c l id failed)
  | Sending c out | ToStream c out _ _ | InStream c out _ _ => owing c (answers out)
  | _ => None
  end.
Definition loop_work (c : Pc) : option (SocketAddr * Work) :=
  match c with
  | InLoop p (Owing c ms) => pair p <$> owing c ms
  | InLoop p w => Some (p, w)
  | _ => None
  end.
(** The tasks and the daemon in pieces: the same state, and the same work begun. *)
Record matches (s : Sys) (x : Parts) : Prop := {
  matches_host : agree (daemon s) (whole x);
  matches_udp : in_udp x = loop_work (pc Loop s);
  matches_tcp w : in_tcp x = Some w ↔ ∃ p, reader_work (pc (Reader p) s) = Some w
}.

Lemma reader_work_holds p c w : reader_work c = Some w → holds (Reader p) c Connections = true.
Proof. by destruct c. Qed.
Lemma loop_work_begun p env w : owed env w ≠ [] → loop_work (InLoop p w) = Some (p, w).
Proof. by destruct w as [|c []]. Qed.
Lemma answers_back ms : answers ((λ a, Answer a.1 a.2) <$> ms) = ms.
Proof. unfold answers. induction ms as [|[l m] ms IH]; [done|]. cbn. by rewrite IH. Qed.
Lemma answers_frames fs : answers (Frame <$> fs) = [].
Proof. unfold answers. by induction fs. Qed.
Lemma reader_work_begun c fs env w : (∀ w', w = Some w' → owed env w' ≠ []) → reader_work (begun c fs w) = w.
Proof.
  intros Hw. destruct w as [w|]; cbn; [|by rewrite answers_frames]. specialize (Hw _ eq_refl).
  destruct w as [|c' ms]; cbn; [done|]. rewrite answers_back. by destruct ms.
Qed.

(** The side of the TCP clients has begun what the reader with the connections has. *)
Definition has_conns (p : SocketAddr) (s : Sys) : Prop :=
  holds (Reader p) (pc (Reader p) s) Connections = true ∨ is_free Connections s.
Lemma only_worker p q w s : ok s → has_conns p s → reader_work (pc (Reader q) s) = Some w → q = p.
Proof.
  intros Ho Hc Hq%(reader_work_holds q). destruct Hc as [Hc|Hc].
  - assert (Reader q = Reader p) as [= ->]; [|done]. by apply (ok_exclusive s Ho Connections).
  - rewrite free_iff in Hc. by rewrite Hc in Hq.
Qed.
Lemma in_tcp_work p s x : ok s → has_conns p s → matches s x → in_tcp x = reader_work (pc (Reader p) s).
Proof.
  intros Ho Hc [_ _ Ht]. destruct (in_tcp x) as [w|] eqn:E.
  - destruct (proj1 (Ht w) eq_refl) as [q Hq]. rewrite <-Hq. by rewrite (only_worker p q w s).
  - destruct (reader_work _) as [w|] eqn:Ew; [|done]. by rewrite (proj2 (Ht w)) by by exists p.
Qed.
Lemma reader_matches p c s s' d x : ok s → has_conns p s → pcs s' = <[Reader p := c]> (pcs s) → matches s x →
  agree (daemon s') d → matches s' (mkParts d (in_udp x) (reader_work c)).
Proof.
  intros Ho Hc E [_ Hu Ht] Ha. split; [done| |].
  - cbn. by rewrite (pc_insert _ _ _ _ _ E), decide_False.
  - intros w. cbn. split.
    + intros Hw. exists p. by rewrite (pc_insert _ _ _ _ _ E), decide_True.
    + intros [q Hq]. rewrite (pc_insert _ _ _ _ _ E) in Hq. destruct (decide (Reader q = Reader p)) as [|Hne]; [done|].
      destruct Hne. f_equal. by eapply only_worker.
Qed.
Lemma loop_matches c s s' d x : pcs s' = <[Loop := c]> (pcs s) → matches s x → agree (daemon s') d →
  matches s' (mkParts d (loop_work c) (in_tcp x)).
Proof.
  intros E [_ Hu Ht] Ha. split; [done| |].
  - cbn. by rewrite (pc_insert _ _ _ _ _ E), decide_True.
  - intros w. cbn. rewrite Ht. f_equiv; intros q. by rewrite (pc_insert _ _ _ _ _ E), decide_False.
Qed.

(** The steps of the tasks, as none or some of the daemon in pieces. *)
Definition follows (s s' : Sys) : Prop :=
  ∀ x, matches s x → ∃ x', rtc (pstep psk) x x' ∧ matches s' x'.
(** What changes only the daemon, whatever is begun. *)
Definition daemon_follows (s s' : Sys) : Prop :=
  ∀ d u t, agree (daemon s) d → ∃ d', rtc (pstep psk) (mkParts d u t) (mkParts d' u t) ∧ agree (daemon s') d'.
Lemma daemon_same s s' : daemon s' = daemon s → daemon_follows s s'.
Proof. intros E d u t Ha. exists d. split; [apply rtc_refl|by rewrite E]. Qed.
Lemma daemon_host s s' h : daemon s' = Daemon.on_host h (daemon s) → same (host (daemon s)) h → daemon_follows s s'.
Proof. intros E Hs d u t Ha. exists d. split; [apply rtc_refl|]. rewrite E. by apply agree_left. Qed.

(** A task moves, but begins and ends nothing. *)
Lemma follows_kept t c s s' : pcs s' = <[t := c]> (pcs s) →
  match t with Reader _ => reader_work c = reader_work (pc t s) | Loop => loop_work c = loop_work (pc t s) | _ => True end →
  daemon_follows s s' → follows s s'.
Proof.
  intros E Hk Hd [d u w] [Ha Hu Ht]. destruct (Hd d u w Ha) as (d' & Hr & Ha'). exists (mkParts d' u w). split; [done|]. split; [done| |].
  - cbn in *. rewrite Hu, (pc_insert _ _ _ _ _ E). case_decide; [by subst t|done].
  - intros w'. cbn in *. rewrite Ht. f_equiv; intros q. rewrite (pc_insert _ _ _ _ _ E). case_decide; [by subst t; rewrite Hk|done].
Qed.
Lemma follows_pcs s s' : pcs s' = pcs s → daemon_follows s s' → follows s s'.
Proof.
  intros E Hd [d u w] [Ha Hu Ht]. destruct (Hd d u w Ha) as (d' & Hr & Ha'). exists (mkParts d' u w). split; [done|]. split; [done| |].
  - cbn in *. by rewrite (pc_pcs _ _ _ E).
  - intros w'. cbn in *. rewrite Ht. f_equiv; intros q. by rewrite (pc_pcs _ _ _ E).
Qed.

Ltac moves_on t c Hpc := apply (follows_kept t c); [done|try done; cbn; try rewrite Hpc; done|].
(** An answer draws its number. *)
Lemma draw_follows p c l m out s s' : ok s → pc (Reader p) s = Sending c (Answer l m :: out) →
  send_step psk (Reader p) s = Some s' → follows s s'.
Proof.
  intros Ho Hpc Hs x Hx. assert (Hc : has_conns p s) by (left; by rewrite Hpc).
  pose proof (in_tcp_work p s x Ho Hc Hx) as Ew. rewrite Hpc in Ew. cbn in Ew.
  unfold send_step in Hs. rewrite Hpc in Hs. destruct x as [d u t]. cbn in Ew. subst t.
  eexists. split; [apply rtc_once, pstep_tcp_answers|]. pose proof (matches_host _ _ Hx) as Ha. cbn in Ha.
  destruct (next_seq l (host (daemon s))) as [q h] eqn:E. injection Hs as <-.
  refine (reader_matches p (Sending c (Frame (tcp_frame (build_control_packet_tcp c psk q m)) :: out)) s _ _ _ Ho Hc _ Hx _); [done|].
  apply agree_on_host; [done|]. destruct (same_next_seq l _ _ (agree_host _ _ Ha)) as [Eq Hs]. rewrite E in Eq, Hs.
  unfold reply_tcp. destruct (next_seq l (host d)) as [q' h']. cbn [snd] in Hs. etransitivity; [exact Hs|apply same_tcp_send].
Qed.
Lemma send_follows t s s' : ok s → send_step psk t s = Some s' → follows s s'.
Proof.
  intros Ho Hs. pose proof (ok_sensible s Ho t) as Hsen. pose proof Hs as Hs0. unfold send_step in Hs.
  destruct (pc t s) as [| | | | | | | | |c [|[f|l m] out]|c out f q|c out f q| | |] eqn:Hpc; try done.
  - case_decide; [|done]. case_match; injection Hs as <-; (eapply (follows_kept t); [reflexivity|by destruct t; rewrite ?Hpc|by apply daemon_same]).
  - destruct t as [p|k|]; [by eapply draw_follows|by apply Forall_cons in Hsen as [[] _]|done].
  - case_decide; [|done]. injection Hs as <-. eapply (follows_kept t); [reflexivity|by destruct t; rewrite ?Hpc|by apply daemon_same].
  - case_decide; [done|]. injection Hs as <-. eapply (follows_kept t); [reflexivity|by destruct t; rewrite ?Hpc|].
    eapply daemon_host; [done|apply same_sent].
Qed.
Lemma task_follows k ev c out s s' :
  pcs s' = <[Forwarder k := out]> (pcs s) →
  daemon s' = Daemon.on_host (put_back (host (daemon s)) (run_task psk k ev (aside c (host (daemon s))))) (daemon s) →
  follows s s'.
Proof.
  intros Ep E. apply (follows_kept (Forwarder k) out); [done..|]. intros d u t Ha.
  exists (Daemon.on_host (run_task psk k ev (host d)) d). split; [apply rtc_once, pstep_task|].
  rewrite E. apply agree_on_host; [done|]. etransitivity; [apply same_put_back, (grows_run_task k ev (aside c _))|].
  apply run_task_proper. etransitivity; [symmetry; apply same_table|apply Ha].
Qed.
Lemma handle_follows now env frame p hd s s' :
  ok s → is_free Connections s → pc (Reader p) s = ToConnections frame → decode_header frame = Some hd →
  (let d := daemon s in
   let r := begin psk Tcp now env frame p (tcp d) (aside (conn_id hd) (host d)) in
   pcs s' = <[Reader p := begun (conn_id hd) (frames (host d) r.1.2) r.2]> (pcs s)
   ∧ daemon s' = on_tcp (r.1.1, put_back (host d) r.1.2) d) →
  follows s s'.
Proof.
  intros Ho Hf Hpc Hhd [Ep E] [d u t] Hx. assert (Hc : has_conns p s) by by right.
  pose proof (in_tcp_work p s _ Ho Hc Hx) as Ew. rewrite Hpc in Ew. cbn in Ew. subst t.
  eexists. split; [apply rtc_once, (pstep_frame psk now env frame p)|]. cbv zeta. unfold begin_frame. rewrite Hhd.
  destruct (matches_host _ _ Hx) as [Eu Et El Hs]. cbn in Eu, Et, El, Hs. rewrite Et.
  destruct (same_begin Tcp now env frame p (tcp (daemon s)) (aside (conn_id hd) (host (daemon s))) (register (conn_id hd) p (host d)))
    as [[E1 E2] E3].
  { etransitivity; [symmetry; apply same_table|]. etransitivity; [exact Hs|]. unfold register. case_match; auto with same. }
  set (r := begin psk Tcp now env frame p (tcp (daemon s)) (aside (conn_id hd) (host (daemon s)))) in *. rewrite E3.
  assert (Er : reader_work (begun (conn_id hd) (frames (host (daemon s)) r.1.2) r.2) = r.2).
  { apply (reader_work_begun _ _ env). intros w. by apply begin_owed. }
  rewrite <-Er. apply (reader_matches p _ s s' _ _ Ho Hc Ep Hx). rewrite E. split; [done|exact E1|done|].
  etransitivity; [by eapply same_put_back, grows_begin|exact E2].
Qed.
Lemma command_follows p c l i fb env s s' : ok s → pc (Reader p) s = Runs c l i fb →
  s' = set_pc (Reader p) (Sending c ((λ a, Answer a.1 a.2) <$> native_answers env i fb l)) s → follows s s'.
Proof.
  intros Ho Hpc -> [d u t] Hx. assert (Hc : has_conns p s) by (left; by rewrite Hpc).
  pose proof (in_tcp_work p s _ Ho Hc Hx) as Ew. rewrite Hpc in Ew. cbn in Ew. subst t.
  eexists. split; [apply rtc_once, (pstep_tcp_ends psk env)|].
  pose proof (reader_matches p (Sending c ((λ a, Answer a.1 a.2) <$> native_answers env i fb l)) s (set_pc (Reader p) _ s) d _
    Ho Hc eq_refl Hx (matches_host _ _ Hx)) as Hm.
  cbn [reader_work in_udp] in Hm. rewrite answers_back in Hm. unfold native_answers in *. by destruct (default _ _).
Qed.
Lemma reader_follows p now env s s' : ok s → reader_step psk p now env s = Some s' → follows s s'.
Proof.
  unfold reader_step. intros Ho Hs. destruct (pc (Reader p) s) as [| |n|n|f|f|f|c l i fb| |c [|o out]|c out f q|c out f q|q w| |] eqn:Hpc;
    try (by eapply send_follows); try (case_decide; [|done]).
  1, 3, 6: injection Hs as <-; eapply (follows_kept (Reader p)); [reflexivity|by rewrite Hpc|by apply daemon_same].
  - apply bind_Some in Hs as ([bs s1] & Hr & Hb). pose proof (read_daemon _ _ _ _ Hr) as Ed. apply read_pcs in Hr. cbn in Ed, Hr.
    repeat case_match; injection Hb as <-; (eapply (follows_kept (Reader p)); [cbn; by rewrite Hr|by rewrite Hpc|by apply daemon_same]).
  - apply bind_Some in Hs as ([bs s1] & Hr & Hb). pose proof (read_daemon _ _ _ _ Hr) as Ed. apply read_pcs in Hr. cbn in Ed, Hr.
    repeat case_match; injection Hb as <-; (eapply (follows_kept (Reader p)); [cbn; by rewrite Hr|by rewrite Hpc|by apply daemon_same]).
  - apply bind_Some in Hs as (h & Hh & [= <-]). eapply (follows_kept (Reader p)); [reflexivity|by rewrite Hpc|].
    eapply daemon_host; [done|]. unfold register. case_match; auto with same.
  - apply bind_Some in Hs as (h & Hh & Hb). apply (handle_follows now env f p h); try done. cbv zeta.
    destruct (begin _ _ _ _ _ _ _ _) as [[ep h'] w]. by injection Hb as <-.
  - injection Hs as <-. by eapply command_follows.
  - injection Hs as <-. eapply (follows_kept (Reader p)); [reflexivity|by rewrite Hpc|by apply daemon_same].
  - injection Hs as <-. eapply (follows_kept (Reader p)); [reflexivity|by rewrite Hpc|]. eapply daemon_host; [done|apply same_table].
Qed.
Lemma loop_follows env s s' : loop_step psk env s = Some s' → follows s s'.
Proof.
  unfold loop_step. destruct (pc Loop s) as [| | | | | | | | | | | |p [c l i fb|c [|[l m] ms]]| |] eqn:Hpc; try done; intros [= <-].
  - intros [d u t] Hx. pose proof (matches_udp _ _ Hx) as Eu. rewrite Hpc in Eu. cbn in Eu. subst u.
    eexists. split; [apply rtc_once, (pstep_udp_ends psk env)|].
    pose proof (loop_matches (InLoop p (Owing c (native_answers env i fb l))) s (set_pc Loop _ s) d _ eq_refl Hx (matches_host _ _ Hx)) as Hm.
    cbn [loop_work in_tcp] in Hm. unfold native_answers in *. by destruct (default _ _).
  - eapply (follows_kept Loop); [reflexivity|by rewrite Hpc|by apply daemon_same].
  - intros [d u t] Hx. pose proof (matches_udp _ _ Hx) as Eu. rewrite Hpc in Eu. cbn in Eu. subst u.
    eexists. split; [apply rtc_once, pstep_udp_answers|].
    refine (loop_matches (InLoop p (Owing c ms)) s _ _ _ _ Hx _); [done|]. apply agree_on_host; [apply Hx|]. by apply reply_udp_proper, Hx.
Qed.
Lemma act_follows a s s' : ok s → act psk a s = Some s' → follows s s'.
Proof.
  intros Ho. destruct a as [p|p bs|p|p|p|now env data p|now|k str data|k ev|[p|k|] now env]; cbn [act]; intros Ha;
    try (injection Ha as <-; by apply follows_pcs, daemon_same).
  - destruct (pc (Reader p) s) eqn:Hpc; try done. injection Ha as <-.
    eapply (follows_kept (Reader p)); [reflexivity|by rewrite Hpc|by apply daemon_same].
  - case_decide; [done|]. injection Ha as <-. by apply follows_pcs, daemon_same.
  - destruct (pc Loop s) eqn:Hpc; try done. injection Ha as <-. intros [d u t] Hx.
    pose proof (matches_udp _ _ Hx) as Eu. rewrite Hpc in Eu. cbn in Eu. subst u.
    destruct (matches_host _ _ Hx) as [Eu Et El Hs]. cbn in Eu, Et, El, Hs.
    eexists. split; [apply rtc_once, (pstep_datagram psk now env data p)|]. cbv zeta. rewrite Eu.
    destruct (same_begin Udp now env data p (udp (daemon s)) _ _ Hs) as [[E1 E2] E3]. rewrite E3.
    pose proof (begin_owed psk Udp now env data p (udp (daemon s)) (host (daemon s))) as Hw.
    set (r := begin psk Udp now env data p (udp (daemon s)) (host (daemon s))) in *.
    replace (pair p <$> r.2) with (loop_work (match r.2 with Some w => InLoop p w | None => Selecting end)).
    + refine (loop_matches _ s _ _ _ _ Hx _); [done|]. by split.
    + destruct r.2 as [w|]; [|done]. by apply (loop_work_begun p env), Hw.
  - destruct (pc Loop s) eqn:Hpc; try done. injection Ha as <-. intros [d u t] Hx.
    pose proof (matches_udp _ _ Hx) as Eu. rewrite Hpc in Eu. cbn in Eu. subst u.
    eexists. split; [apply rtc_once, (pstep_tick psk now)|]. destruct Hx as [[Eu Et El Hs] Hu Ht]. split; [|done..].
    cbn in *. unfold tick. rewrite El, Eu. case_match; split; try done. cbn. by apply heartbeats_proper.
  - injection Ha as <-. apply follows_pcs; [done|]. intros d u t Ha. eexists. split; [apply rtc_once, (pstep_task psk k (Output str data))|].
    apply agree_on_host; [done|]. by apply run_task_proper, Ha.
  - unfold takes in Ha. repeat (case_match; try done); injection Ha as <-; by eapply task_follows.
  - by eapply reader_follows.
  - unfold forwarder_step in Ha. destruct (pc (Forwarder k) s) as [| | | | | | | | |c [|o out]|c out f q|c out f q| | |] eqn:Hpc; try (by eapply send_follows).
    injection Ha as <-. eapply (follows_kept (Forwarder k)); [reflexivity|done|by apply daemon_same].
  - by eapply loop_follows.
Qed.

End Blind.

(** ** Witness *)

